(* ===== verification/_CoqProject ===== *)
-Q . S2P
Prelude.v
GoStrings.v
GoFloat.v
GoRound.v
Quota.v
Config.v
Bucket.v
Limiter.v
Demand.v
Cascade.v
Router.v
Cache.v
Evaluator.v
ExtProc.v
Reporter.v
Store.v
Shares.v
ShareBounds.v
ShareFleet.v
FleetRate.v
Server.v
Client.v
Services.v
Reconciler.v
Transport.v
Programs.v
System.v
