(* ===== verification/Prelude.v ===== *)
(** * Gemini Priority Quota Governor: verification library

    The program decides, for every request to Vertex AI that passes an Envoy
    gateway, whether it is forwarded, rerouted to another model or region, or
    refused, so that critical traffic keeps its quota. It has two processes. The
    control plane polls Google Cloud for limits and usage, keeps the latest
    snapshot of quotas, streams it to the data planes and splits each allowance
    between them by demand. A data plane holds a cached snapshot and a local
    limiter with one token bucket per target ("region/model"), and answers
    Envoy's external processing calls from the two.

    ** Files, and the code each models

    - [Prelude] (this file): results, 64-bit arithmetic, time, formatting, the order
      of map iteration, the hint database [governor].
    - [GoStrings], [GoFloat]: what the program uses of the standard library's
      [strings], [strconv] and [unicode], and of [float64] (the executable
      binary64 of [SpecFloat], with the rounding lemmas the program needs);
      [GoRound]: the rounding error of non-negative operations, in exact
      multiples of the smallest positive number.
    - [Quota]: the protobuf messages, [pkg/governor/helpers.go] and [priority.go].
    - [Config]: [pkg/governor/types.go] and [config.go].
    - [Bucket] ([TokenBucket]): [pkg/governor/bucket.go].
    - [Limiter]: [pkg/governor/limiter.go]; [Demand]: its [record] and [DrainDemand]
      step by step, with other goroutines between the steps.
    - [Cascade]: [pkg/governor/cascade.go], the decision engine.
    - [Router]: [pkg/router/route.go], [parser.go], [mutator.go].
    - [Cache], [Evaluator], [ExtProc], [Reporter]: the data plane,
      [pkg/dataplane/cache.go], [evaluator.go], [extproc.go], [reporter.go].
    - [Store], [Shares], [Client], [Reconciler]: the control plane,
      [pkg/controlplane/store.go], [shares.go], [client.go], [reconciler.go];
      [Services]: the wrappers, the iterator and the mocks of [client.go].
    - [ShareBounds], [ShareFleet]: no code of their own, the numbers that [Shares]
      computes: ranges of averages and fractions, and the sum of a fleet's shares;
      [FleetRate]: what the limiters of a fleet admit together at the even split.
    - [Server]: [pkg/server/server.go], the three RPC handlers.
    - [Transport]: [pkg/transport/credentials.go].
    - [Programs]: [cmd/controlplane/main.go] and [cmd/dataplane/main.go], modules
      [ControlPlane] and [DataPlane]: a program's state is a memory of stores, or of
      caches and limiters, with the addresses that its components hold ([wire] and
      [setup] hand them out as [main] does); a component reads and writes through its
      own address, and that two of them are equal is a lemma ([wired]).
    - [System]: one control plane and any number of data planes as a step relation;
      the class [DiscoveryService] states what a reporter relies on of the service.

    Definitions keep the names of the source. A method is a function that takes the
    receiver and returns it with the results; a [(T, error)] is a [result]; a
    pointer or map that may be nil is an [option].

    ** How the parts interact

    [Config.LoadConfig] feeds [NewCascadeEngineFromConfig], which makes the
    [Limiter], which makes a [TokenBucket] per allowance. [ExtProc.Process]
    hands each request's headers to [Evaluator.Evaluate], which calls
    [Router.Parse], [EstimateTokens] and [Cascade.Decide] on the snapshot of
    [Cache]; [Decide] reads the snapshot through [Quota] and charges the limiter;
    the result goes back through [Router.MutatePath] and the header lists. Beside
    that, [Reporter] drains the limiter's demand counters into a report, which
    [Server.ReportUsage] passes to [Shares.Report], and resizes the buckets by the
    answer. In the control plane [Reconciler.reconcile] calls
    [Client.FetchMetrics] and saves into the [Store], which it knows by the class
    [SnapshotStore] and its laws only, and [Server.StreamQuotas]
    sends what the store gives its channel; [Cache] receives it. [Programs] wires
    these together as [main] does, with what the goroutines that [main] starts do
    before it serves, and [System.exec] runs them: polls, which publish a snapshot,
    the pushes of that snapshot later, the steps of every replica's streaming call, the arrival of snapshots, calling again, reports
    whose answers may be lost, an unreachable control plane, and Envoy's messages,
    in any order.

    ** What the theorems show

    - Decisions ([Cascade]): [Decide] refines the specification [outcome]; critical
      traffic is never shed or rerouted; other traffic leaves the critical reserve
      alone and is charged once, to where it goes; every step of a loaded
      configuration's cascades is a target the limiter knows.
    - Rates ([Bucket]): balances stay in range and no operation wraps, since the
      methods agree with the same methods on mathematical integers ([exactRun]); over
      any window best-effort traffic gets at most the burst above the reserve and the
      refill; debt within the capacity is repaid within two minutes; refilling loses
      no time; a target with one kind of limit only runs out of the other.
    - Concurrency ([Limiter], [Demand]): under any interleaving of the atomic actions
      of any number of goroutines the limiter stays in range, and no request or token
      is lost or counted twice between [record] and [DrainDemand].
    - Requests ([Evaluator], [Router], [ExtProc]): the four forms of a result, the
      integrity of the governor's headers, a rerouted path parses to the target
      whose bucket was charged, estimates are bounded, answers match messages.
    - Snapshots ([Store], [Server], [Cache]): [Save] publishes before it takes the lock,
      so it is two steps ([saveStore], [savePush]) between which others act; with one
      saver a save reaches every subscriber, and no save is lost to a streaming client
      in any interleaving, though a client that starts between the two steps may be
      sent the previous snapshot once more ([stream_goes_back_and_forth]); the cache
      never goes back to empty; two overlapping saves can leave a subscriber behind.
    - Quotas ([Client], [Reconciler]): the most specific limit wins, in the order that
      [specificity] states apart from the code's scores; a fetch reports exactly the
      configured targets, field by field, survives an outage of Cloud Quotas, and
      panics exactly when it needs a null limit; a poll
      sums the projects' usage whatever the iteration order, and a quota is
      saturated exactly when the usable part of a limit is used up.
    - Shares ([Shares], [Reporter]): which replicas are active, which targets are
      answered, how capacities follow the answer, and the fallback to the even
      split after three failures.
    - Fleets ([ShareBounds], [ShareFleet], [FleetRate]): every fraction is answered
      between the floor and one but for a part in [2^49], however floating-point sums
      round, and at most 1.1 for averages that have faded away; the shares of a settled
      fleet add up to the allowance but for a unit per replica and the rounding; while
      the allowance is split evenly, the whole fleet admits in a window at most the
      allowance's burst above the reserve, its refill, and two per replica.
    - Links and programs ([Transport], [Services], [Programs]): plaintext only on
      request, the loop over usage ends with the newest points, a program's parts stay
      wired to each other for as long as it serves, what its goroutines did before is
      what it starts to serve with, and [--once] prints what it polled.
    - The whole ([System]): in every reachable state each cache holds the last
      snapshot its replica received, in the order of publication but for steps back of
      one place; with no save under way every replica catches up in a bounded number of
      steps of its own stream, through the channel of its call; all limiters and the
      tracker stay in range.

    ** Time, integers, bounds

    A clock reading is an argument of the function that takes it. A mutex makes a
    method atomic; what happens between two critical sections is an interleaving of
    steps ([Limiter.lstep], [Demand.move], [Store.event], [Server.action]). Integers are [Z] with
    explicit wrapping; the invariants bound capacities by [2^56]
    ([Bucket.maxCapacity]), token estimates by [2^56], the limits of an allowance
    below [2^53] (the integers that a [float64] holds exactly), and the life of a
    bucket by [2^62] nanoseconds, 146 years; within them no operation wraps.
    Fractions are bounded for reports of up to [2^36] entries and as many replicas
    ([ShareBounds.maxEntries]); the sum of the shares for fleets of up to [2^24]
    replicas ([ShareFleet.fleetSize]) in which nobody has demand or somebody has at
    least [2^-800] ([settled]): averages that fade further come to the numbers where
    products lose their precision, and [faded_demand_oversubscribes] shows two replicas that
    are granted 110 of 100. All recursion is structural, on lists of steps, messages
    or ticks, but for [Services.usageLoop], whose fuel counts calls of [Next] and is
    enough when it exceeds the number of items.

    ** Parameters

    [GoUnicode] (the Unicode tables beyond ASCII), [GoArch] (the conversion of
    floats out of range), [CloudMessages] (the getters of the Cloud Quotas and
    Cloud Monitoring messages), [TLSFiles], the outcome of reading and decoding the
    configuration file, the answers of the two services, and the order in which a
    map is ranged over. Each has a concrete instance or argument in the witnesses.
    Floating-point expressions are rounded operation by operation, as they are on
    amd64 with the default settings.

    ** Not modelled

    The fake Vertex server under [test], logging, signals, the errors of
    [grpc.Server.Serve], and the generated protobuf and gRPC code. Cancellation is
    modelled where it ends the streaming handler ([Server.ADone]) and not elsewhere:
    it only ends loops. In [System] a replica calls again after its call has returned
    at the server, one save is under way at a time (the reconciler is the only saver),
    and a message that was sent before a call returned may still arrive. The pushes of
    a save are one step, since the lock is held throughout; what subscribers receive
    meanwhile is the step's argument. Two calls of one replica at a time, and the rate
    of a fleet across reports that change the shares, have no theorem. *)

From Stdlib Require Export ZArith Lia.
From Stdlib Require Import DecimalString.
From stdpp Require Export base tactics list gmap strings sorting.
From stdpp Require Import options.

#[global] Open Scope Z_scope.

(** ** Results

    A Go function returning [(T, error)] returns a [result T]: [Ok] holds the
    value that goes with a nil error, [Err] the text of a non-nil one. *)

Inductive result (A : Type) : Type :=
  | Ok (val : A)
  | Err (msg : string).
Arguments Ok {A} val.
Arguments Err {A} msg.

Definition result_bind {A B} (r : result A) (f : A → result B) : result B :=
  match r with
  | Ok a => f a
  | Err e => Err e
  end.

(** What operations preserve, for [auto] and [eauto]: each component adds its
    lemmas. *)
Create HintDb governor.

Declare Scope go_scope.
Delimit Scope go_scope with go.
#[global] Open Scope go_scope.

Notation "'let?' x ':=' r 'in' k" := (result_bind r (λ x, k))
  (at level 10, x pattern, r at level 100, k at level 200) : go_scope.

Definition is_ok {A} (r : result A) : bool :=
  match r with Ok _ => true | Err _ => false end.

Lemma result_bind_Ok {A B} (r : result A) (f : A → result B) b :
  result_bind r f = Ok b ↔ ∃ a, r = Ok a ∧ f a = Ok b.
Proof.
  split.
  - destruct r as [a|e]; simpl; [eauto | discriminate].
  - intros (a & -> & H). exact H.
Qed.

(** ** 64-bit integers

    An [int64] (and a [time.Duration], and [int] on the 64-bit targets) is a
    [Z]; every operation that can leave the range wraps as Go's does. *)

Definition min_int64 : Z := - 2 ^ 63.
Definition max_int64 : Z := 2 ^ 63 - 1.

Definition int64 (z : Z) : Prop := min_int64 ≤ z ≤ max_int64.

Definition wrap64 (z : Z) : Z := (z + 2 ^ 63) mod 2 ^ 64 - 2 ^ 63.

Notation "a +! b" := (wrap64 (a + b)) (at level 50, left associativity) : go_scope.
Notation "a -! b" := (wrap64 (a - b)) (at level 50, left associativity) : go_scope.
Notation "a *! b" := (wrap64 (a * b)) (at level 40, left associativity) : go_scope.
(** Go's integer division truncates; only [MinInt64 / -1] wraps. *)
Notation "a /! b" := (wrap64 (Z.quot a b)) (at level 40, left associativity) : go_scope.

Lemma wrap64_id z : int64 z → wrap64 z = z.
Proof.
  unfold int64, min_int64, max_int64, wrap64. intros H.
  rewrite Z.mod_small; lia.
Qed.

Lemma wrap64_range z : int64 (wrap64 z).
Proof.
  unfold int64, min_int64, max_int64, wrap64.
  pose proof (Z.mod_pos_bound (z + 2 ^ 63) (2 ^ 64)). lia.
Qed.

#[export] Hint Resolve wrap64_range : governor.

(** [int64_solve] proves that a term is in range by unfolding the bounds. *)
Ltac int64_solve := unfold int64, min_int64, max_int64 in *; lia.

(** [unwrap] removes every [wrap64] whose argument linear arithmetic proves to
    be in range. *)
Ltac unwrap :=
  cbv beta in *;
  repeat match goal with
  | |- context [wrap64 ?z] => rewrite (wrap64_id z) by int64_solve
  | H : context [wrap64 ?z] |- _ => rewrite (wrap64_id z) in H by int64_solve
  end.

(** ** Time

    A [time.Time] is a [Z], nanoseconds on the process's clock; [Sub] saturates
    at the limits of a [time.Duration] as the standard library's does. *)

Definition Time : Type := Z.

Definition nanosecond : Z := 1.
Definition millisecond : Z := 1000000.
Definition second : Z := 1000000000.
Definition minute : Z := 60 * second.

Definition time_sub (t u : Time) : Z := Z.max min_int64 (Z.min max_int64 (t - u)).
Definition time_add (t : Time) (d : Z) : Time := t + d.

Lemma time_sub_exact t u : int64 (t - u) → time_sub t u = t - u.
Proof. unfold time_sub. int64_solve. Qed.

(** ** Formatting integers: [%d] and [strconv.FormatInt(_, 10)] *)

Definition fmt_d (z : Z) : string := NilZero.string_of_int (Z.to_int z).

(** ** Integer division by a positive number *)

Lemma quot_bounds a b : 0 ≤ a → 0 < b → 0 ≤ Z.quot a b ∧ Z.quot a b * b ≤ a < (Z.quot a b + 1) * b.
Proof.
  intros Ha Hb. rewrite Z.quot_div_nonneg by lia.
  pose proof (Z.div_mod a b). pose proof (Z.mod_pos_bound a b).
  pose proof (Z.div_pos a b). nia.
Qed.

Lemma quot_le a b : 0 ≤ a → 0 < b → Z.quot a b ≤ a.
Proof. intros Ha Hb. destruct (quot_bounds a b Ha Hb). nia. Qed.

(** ** Lists *)

Lemma elem_of_snoc {A} (l : list A) x y : y ∈ l ++ [x] ↔ y ∈ l ∨ y = x.
Proof. by rewrite elem_of_app, list_elem_of_singleton. Qed.

(** A fold keeps what its steps keep. *)
Lemma foldl_keeps {A X} (f : A → X → A) (P : A → Prop) (Q : X → Prop) a xs :
  (∀ a x, Q x → P a → P (f a x)) → Forall Q xs → P a → P (foldl f a xs).
Proof. intros Hf Hxs. revert a. induction Hxs; simpl; auto. Qed.

(** ** Visiting a map

    [range] visits each entry of a map once, in an order that Go leaves open: a
    function that ranges over a map takes the order as an argument, of which this
    holds. *)

Definition rangeOrder {A} (m : gmap string A) (order : list (string * A)) : Prop :=
  order ≡ₚ map_to_list m.

Lemma rangeOrder_elem {A} (m : gmap string A) order k v :
  rangeOrder m order → (k, v) ∈ order ↔ m !! k = Some v.
Proof. intros Ho. by rewrite Ho, elem_of_map_to_list. Qed.

Lemma rangeOrder_NoDup {A} (m : gmap string A) order : rangeOrder m order → NoDup order.*1.
Proof. intros Ho. rewrite Ho. apply NoDup_fst_map_to_list. Qed.

(** ** Sums *)
Definition sumZ {A} (f : A → Z) (l : list A) : Z := foldr (λ a s, f a + s) 0 l.


Section sums.
Context {A : Type}.
Implicit Types (f g : A → Z) (l : list A).

Lemma sumZ_le f g l : (∀ a, a ∈ l → f a ≤ g a) → sumZ f l ≤ sumZ g l.
Proof.
  induction l as [|a l IH]; intros Hle; simpl; [done|].
  apply Z.add_le_mono; [apply Hle, list_elem_of_here|apply IH].
  intros b Hb. by apply Hle, list_elem_of_further.
Qed.

Lemma sumZ_ext f g l : (∀ a, a ∈ l → f a = g a) → sumZ f l = sumZ g l.
Proof. intros Heq. apply Z.le_antisymm; apply sumZ_le; intros a Ha; by rewrite Heq. Qed.

Lemma sumZ_add f g l : sumZ (λ a, f a + g a) l = sumZ f l + sumZ g l.
Proof. induction l; simpl; lia. Qed.

Lemma sumZ_scale c f l : sumZ (λ a, c * f a) l = c * sumZ f l.
Proof. induction l; simpl; lia. Qed.

Lemma sumZ_const c l : sumZ (λ _, c) l = c * Z.of_nat (length l).
Proof. induction l; simpl; lia. Qed.

Lemma sumZ_nonneg f l : (∀ a, a ∈ l → 0 ≤ f a) → 0 ≤ sumZ f l.
Proof. intros Hf. pose proof (sumZ_const 0 l). pose proof (sumZ_le (λ _, 0) f l Hf). lia. Qed.

Lemma sumZ_elem f l a : (∀ a, a ∈ l → 0 ≤ f a) → a ∈ l → f a ≤ sumZ f l.
Proof.
  induction l as [|b l IH]; intros Hf Ha; [by apply not_elem_of_nil in Ha|]. simpl.
  assert (0 ≤ sumZ f l) by (apply sumZ_nonneg; intros; by apply Hf, list_elem_of_further).
  assert (0 ≤ f b) by (apply Hf, list_elem_of_here).
  apply elem_of_cons in Ha as [->|Ha]; [lia|].
  etrans; [apply IH; [intros; by apply Hf, list_elem_of_further|done]|lia].
Qed.

Lemma sumZ_abs c f g h l :
  0 ≤ c → (∀ a, a ∈ l → c * Z.abs (f a - g a) ≤ h a) → c * Z.abs (sumZ f l - sumZ g l) ≤ sumZ h l.
Proof.
  intros Hc. induction l as [|a l IH]; intros Hf; simpl; [lia|].
  pose proof (Hf a (list_elem_of_here a l)).
  assert (c * Z.abs (sumZ f l - sumZ g l) ≤ sumZ h l)
    by (apply IH; intros; by apply Hf, list_elem_of_further).
  nia.
Qed.

Lemma sumZ_app f l1 l2 : sumZ f (l1 ++ l2) = sumZ f l1 + sumZ f l2.
Proof. induction l1; simpl; lia. Qed.

Lemma sumZ_delete f l i a : l !! i = Some a → sumZ f (delete i l) = sumZ f l - f a.
Proof.
  revert i. induction l as [|b l IH]; intros [|i] Hi; simplify_eq/=; [lia|]. rewrite (IH i Hi). lia.
Qed.

#[export] Instance sumZ_perm f : Proper ((≡ₚ) ==> (=)) (sumZ f).
Proof. intros l l' Hl. induction Hl; simpl; lia. Qed.

End sums.
