(* ===== verification/GoStrings.v ===== *)
(** * The [strings] and [strconv] functions the program uses

    A Go string is a sequence of bytes: a Rocq [string], whose characters are
    bytes. [ToLower], [TrimSpace], [EqualFold] and [Quote] are written as the
    standard library writes them: an exact path for ASCII, and a second path for
    strings with a byte of 128 or more, which consults the Unicode tables. The
    tables are a parameter, the class [GoUnicode]. *)

From Stdlib Require Import Ascii String.
From S2P Require Import Prelude.
From stdpp Require Import options.

#[local] Open Scope stdpp_scope.

(** ** Bytes *)

Definition code (c : ascii) : N := N_of_ascii c.

(** [c >= utf8.RuneSelf]. *)
Definition non_ascii (c : ascii) : bool := (128 <=? code c)%N.

Definition is_upper (c : ascii) : bool := (65 <=? code c)%N && (code c <=? 90)%N.
Definition is_digit (c : ascii) : bool := (48 <=? code c)%N && (code c <=? 57)%N.

Definition lower_byte (c : ascii) : ascii :=
  if is_upper c then ascii_of_N (code c + 32) else c.

Fixpoint string_map (f : ascii → ascii) (s : string) : string :=
  match s with
  | EmptyString => EmptyString
  | String c s => String (f c) (string_map f s)
  end.

Fixpoint string_any (p : ascii → bool) (s : string) : bool :=
  match s with
  | EmptyString => false
  | String c s => p c || string_any p s
  end.

Definition has_byte (c : ascii) : string → bool := string_any (Ascii.eqb c).

Definition has_non_ascii : string → bool := string_any non_ascii.

(** ** Slices and searches *)

(** [s[:n]] and [s[n:]], for [n] at most [len(s)]. *)
Fixpoint str_take (n : nat) (s : string) : string :=
  match n, s with
  | S n, String c s => String c (str_take n s)
  | _, _ => EmptyString
  end.

Fixpoint str_drop (n : nat) (s : string) : string :=
  match n, s with
  | S n, String _ s => str_drop n s
  | _, _ => s
  end.

(** [strings.IndexByte] and [strings.LastIndexByte]; [None] is -1. *)
Fixpoint index_byte (s : string) (c : ascii) : option nat :=
  match s with
  | EmptyString => None
  | String d s => if Ascii.eqb d c then Some O else S <$> index_byte s c
  end.

Fixpoint last_index_byte (s : string) (c : ascii) : option nat :=
  match s with
  | EmptyString => None
  | String d s =>
      match last_index_byte s c with
      | Some n => Some (S n)
      | None => if Ascii.eqb d c then Some O else None
      end
  end.

Definition has_prefix (s p : string) : bool := String.prefix p s.

Definition has_suffix (s p : string) : bool :=
  String.eqb (str_drop (String.length s - String.length p) s) p.

Definition trim_prefix (s p : string) : string :=
  if has_prefix s p then str_drop (String.length p) s else s.

(** [strings.Contains]. *)
Fixpoint contains (s sub : string) : bool :=
  String.prefix sub s ||
  match s with
  | EmptyString => false
  | String _ s => contains s sub
  end.

(** [strings.Split] by a one-byte separator. *)
Fixpoint split_byte (s : string) (sep : ascii) : list string :=
  match s with
  | EmptyString => [EmptyString]
  | String c s =>
      if Ascii.eqb c sep then EmptyString :: split_byte s sep
      else match split_byte s sep with
           | [] => [String c EmptyString]
           | x :: xs => String c x :: xs
           end
  end.

(** [strings.Cut] by a one-byte separator. *)
Definition cut_byte (s : string) (sep : ascii) : (string * string) * bool :=
  match index_byte s sep with
  | Some i => ((str_take i s, str_drop (S i) s), true)
  | None => ((s, EmptyString), false)
  end.

(** ** Unicode *)

Class GoUnicode := {
  (** [strings.Map(unicode.ToLower, s)] *)
  unicode_to_lower : string → string;
  (** [strings.TrimFunc(s, unicode.IsSpace)] *)
  unicode_trim : string → string;
  (** [strings.TrimRightFunc(s, unicode.IsSpace)] *)
  unicode_trim_right : string → string;
  (** the part of [strings.EqualFold] from the first non-ASCII byte on *)
  unicode_equal_fold : string → string → bool;
  (** [strconv.Quote(s)] for an [s] that is not ASCII *)
  unicode_quote : string → string
}.

Section unicode.
Context `{GoUnicode}.

Definition to_lower (s : string) : string :=
  if has_non_ascii s then unicode_to_lower s else string_map lower_byte s.

Fixpoint drop_spaces (s : string) : string :=
  match s with
  | String c s' => if Ascii.is_space c then drop_spaces s' else s
  | EmptyString => EmptyString
  end.

Definition trim_space (s : string) : string :=
  match drop_spaces s with
  | EmptyString => EmptyString
  | String c _ as s1 =>
      if non_ascii c then unicode_trim s1
      else match drop_spaces (String.rev s1) with
           | EmptyString => EmptyString
           | String d _ as r =>
               if non_ascii d then unicode_trim_right (String.rev r) else String.rev r
           end
  end.

(** The bytes differ at most by ASCII case. *)
Definition fold_byte (a b : ascii) : bool := Ascii.eqb (lower_byte a) (lower_byte b).

Fixpoint equal_fold (s t : string) : bool :=
  match s, t with
  | String a s', String b t' =>
      if non_ascii a || non_ascii b then unicode_equal_fold s t
      else fold_byte a b && equal_fold s' t'
  | EmptyString, EmptyString => true
  | _, _ => false
  end.

(** ** [strconv.Quote], the verb [%q] *)

Definition hex_digit (n : N) : ascii :=
  ascii_of_N (if (n <? 10)%N then 48 + n else 87 + n)%N.

Definition quote_byte (c : ascii) : string :=
  match code c with
  | 7 => "\a" | 8 => "\b" | 9 => "\t" | 10 => "\n" | 11 => "\v" | 12 => "\f" | 13 => "\r"
  | 92 => "\\"
  | 34 => String "\" (String c EmptyString)
  | n => if (n <? 32) || (n =? 127)
         then "\x" +:+ String (hex_digit (n / 16)) (String (hex_digit (n mod 16)) EmptyString)
         else String c EmptyString
  end%N.

Fixpoint quote_bytes (s : string) : string :=
  match s with
  | EmptyString => EmptyString
  | String c s => quote_byte c +:+ quote_bytes s
  end.

Definition quote_mark : ascii := ascii_of_N 34.

Definition go_quote (s : string) : string :=
  if has_non_ascii s then unicode_quote s
  else String quote_mark (quote_bytes s +:+ String quote_mark EmptyString).

End unicode.

(** ** [strconv.ParseInt(s, 10, 64)]: [None] for any error *)

Fixpoint parse_digits (acc : Z) (s : string) : option Z :=
  match s with
  | EmptyString => Some acc
  | String c s => if is_digit c then parse_digits (acc * 10 + Z.of_N (code c - 48)) s else None
  end.

Definition parse_uint (s : string) : option Z :=
  match s with
  | EmptyString => None
  | _ => parse_digits 0 s
  end.

Definition parse_int (s : string) : option Z :=
  let '(neg, body) :=
    match s with
    | String "+" s' => (false, s')
    | String "-" s' => (true, s')
    | _ => (false, s)
    end in
  match parse_uint body with
  | Some n =>
      let v := if neg : bool then - n else n in
      if (min_int64 <=? v) && (v <=? max_int64) then Some v else None
  | None => None
  end.

Lemma parse_int_range s v : parse_int s = Some v → int64 v.
Proof.
  unfold parse_int. destruct (match s with EmptyString => _ | _ => _ end) as [neg body].
  destruct (parse_uint body) as [n|]; [|done].
  destruct (Z.leb_spec min_int64 (if neg then - n else n)); [|done].
  destruct (Z.leb_spec (if neg then - n else n) max_int64); [|done]. by intros [= <-].
Qed.

(** ** Lemmas: concatenation and slices *)

Lemma append_cons c a b : String c a +:+ b = String c (a +:+ b).
Proof. done. Qed.

Lemma append_nil_l a : EmptyString +:+ a = a.
Proof. done. Qed.

Lemma append_nil_r a : a +:+ EmptyString = a.
Proof. induction a as [|c a IH]; [done|]. by rewrite append_cons, IH. Qed.

Lemma append_assoc a b c : (a +:+ b) +:+ c = a +:+ (b +:+ c).
Proof. induction a as [|d a IH]; [done|]. by rewrite !append_cons, IH. Qed.

Lemma length_append a b : String.length (a +:+ b) = (String.length a + String.length b)%nat.
Proof. induction a as [|c a IH]; [done|]. rewrite append_cons. simpl. by rewrite IH. Qed.

Lemma str_take_append a b : str_take (String.length a) (a +:+ b) = a.
Proof. induction a as [|c a IH]; [by destruct b|]. rewrite append_cons. simpl. by rewrite IH. Qed.

Lemma str_drop_append a b : str_drop (String.length a) (a +:+ b) = b.
Proof. induction a as [|c a IH]; [by destruct b|]. by rewrite append_cons. Qed.

Lemma str_drop_S_append a c b : str_drop (S (String.length a)) (a +:+ String c b) = b.
Proof. induction a as [|d a IH]; [by destruct b|]. rewrite append_cons. exact IH. Qed.

Lemma str_take_drop n s : str_take n s +:+ str_drop n s = s.
Proof.
  revert s. induction n as [|n IH]; intros [|c s]; simpl; try done.
  by rewrite append_cons, IH.
Qed.

Lemma string_any_append p a b : string_any p (a +:+ b) = string_any p a || string_any p b.
Proof.
  induction a as [|c a IH]; [done|]. rewrite append_cons. simpl. by rewrite IH, orb_assoc.
Qed.

Lemma string_map_append f a b : string_map f (a +:+ b) = string_map f a +:+ string_map f b.
Proof. induction a as [|c a IH]; [done|]. rewrite append_cons. simpl. by rewrite IH. Qed.

Lemma string_map_ext f g s : (∀ c, f c = g c) → string_map f s = string_map g s.
Proof. intros Hfg. induction s as [|c s IH]; simpl; [done|]. by rewrite Hfg, IH. Qed.

Lemma string_map_map f g s : string_map f (string_map g s) = string_map (λ c, f (g c)) s.
Proof. induction s as [|c s IH]; simpl; [done|]. by rewrite IH. Qed.

Lemma string_any_map p f s : string_any p (string_map f s) = string_any (λ c, p (f c)) s.
Proof. induction s as [|c s IH]; simpl; [done|]. by rewrite IH. Qed.

Lemma string_any_ext p q s : (∀ c, p c = q c) → string_any p s = string_any q s.
Proof. intros Hpq. induction s as [|c s IH]; simpl; [done|]. by rewrite Hpq, IH. Qed.

(** ** Lemmas: searching *)

Lemma has_byte_cons c d s : has_byte c (String d s) = Ascii.eqb c d || has_byte c s.
Proof. done. Qed.

Lemma has_byte_append c a b : has_byte c (a +:+ b) = has_byte c a || has_byte c b.
Proof. apply string_any_append. Qed.

(** A byte is found right after a prefix that does not hold it. *)
Lemma index_byte_append a c b :
  has_byte c a = false → index_byte (a +:+ String c b) c = Some (String.length a).
Proof.
  induction a as [|d a IH]; rewrite ?append_cons; simpl.
  { intros _. by rewrite Ascii.eqb_refl. }
  intros [Hd Ha]%orb_false_iff. rewrite Ascii.eqb_sym in Hd. by rewrite Hd, IH.
Qed.

Lemma index_byte_None s c : has_byte c s = false → index_byte s c = None.
Proof.
  induction s as [|d s IH]; simpl; [done|]. intros [Hd Hs]%orb_false_iff.
  rewrite Ascii.eqb_sym in Hd. by rewrite Hd, IH.
Qed.

Lemma index_byte_Some s c n :
  index_byte s c = Some n →
  s = str_take n s +:+ String c (str_drop (S n) s) ∧ has_byte c (str_take n s) = false.
Proof.
  revert n. induction s as [|d s IH]; simpl; [done|]. intros n.
  destruct (Ascii.eqb_spec d c) as [->|Hne].
  - intros [= <-]. by destruct s.
  - destruct (index_byte s c) as [m|] eqn:Hm; simpl; [|done]. intros [= <-].
    destruct (IH m eq_refl) as [Heq Hno]. split.
    + cbn [str_take str_drop]. rewrite append_cons. f_equal. exact Heq.
    + cbn [str_take]. rewrite has_byte_cons, Hno, orb_false_r. apply Ascii.eqb_neq. congruence.
Qed.

Lemma last_index_byte_None s c : has_byte c s = false → last_index_byte s c = None.
Proof.
  induction s as [|d s IH]; simpl; [done|]. intros [Hd Hs]%orb_false_iff.
  rewrite Ascii.eqb_sym in Hd. by rewrite IH, Hd.
Qed.

Lemma last_index_byte_None_inv s c : last_index_byte s c = None → has_byte c s = false.
Proof.
  induction s as [|d s IH]; [done|]. rewrite has_byte_cons. simpl.
  destruct (last_index_byte s c); [done|]. rewrite Ascii.eqb_sym.
  destruct (Ascii.eqb c d); [done|]. by rewrite IH.
Qed.

Lemma last_index_byte_append a c b :
  has_byte c b = false → last_index_byte (a +:+ String c b) c = Some (String.length a).
Proof.
  intros Hb. induction a as [|d a IH]; rewrite ?append_cons, ?append_nil_l; simpl.
  - by rewrite last_index_byte_None, Ascii.eqb_refl.
  - by rewrite IH.
Qed.

Lemma last_index_byte_Some s c n :
  last_index_byte s c = Some n →
  s = str_take n s +:+ String c (str_drop (S n) s) ∧ has_byte c (str_drop (S n) s) = false.
Proof.
  revert n. induction s as [|d s IH]; simpl; [done|]. intros n.
  destruct (last_index_byte s c) as [m|] eqn:Hm.
  - intros [= <-]. destruct (IH m eq_refl) as [Heq Hno]. split; [|done].
    cbn [str_take str_drop]. rewrite append_cons. f_equal. exact Heq.
  - destruct (Ascii.eqb_spec d c) as [->|]; [|done]. intros [= <-]. simpl.
    split; [done|]. by apply last_index_byte_None_inv.
Qed.

Lemma split_byte_None s c : has_byte c s = false → split_byte s c = [s].
Proof.
  induction s as [|d s IH]; simpl; [done|]. intros [Hd Hs]%orb_false_iff.
  rewrite Ascii.eqb_sym in Hd. by rewrite Hd, IH.
Qed.

Lemma split_byte_append a c b :
  has_byte c a = false → split_byte (a +:+ String c b) c = a :: split_byte b c.
Proof.
  induction a as [|d a IH]; rewrite ?append_cons, ?append_nil_l; simpl.
  { intros _. by rewrite Ascii.eqb_refl. }
  intros [Hd Ha]%orb_false_iff. rewrite Ascii.eqb_sym in Hd. by rewrite Hd, IH.
Qed.

Lemma cut_byte_append a c b : has_byte c a = false → cut_byte (a +:+ String c b) c = ((a, b), true).
Proof.
  intros Ha. unfold cut_byte. rewrite index_byte_append by done.
  by rewrite str_take_append, str_drop_S_append.
Qed.

Lemma has_prefix_append a b : has_prefix (a +:+ b) a = true.
Proof.
  unfold has_prefix. induction a as [|c a IH]; [by destruct b|].
  rewrite append_cons. simpl. rewrite IH. by destruct (ascii_dec c c).
Qed.

Lemma has_suffix_append a b : has_suffix (a +:+ b) b = true.
Proof.
  unfold has_suffix. rewrite length_append.
  replace (String.length a + String.length b - String.length b)%nat with (String.length a) by lia.
  rewrite str_drop_append. apply String.eqb_refl.
Qed.

Lemma append_cancel_r a b c : a +:+ c = b +:+ c → a = b.
Proof.
  revert b. induction a as [|x a IH]; intros [|y b]; rewrite ?append_cons, ?append_nil_l; try done.
  - intros Heq. apply (f_equal String.length) in Heq. simpl in Heq.
    rewrite length_append in Heq. lia.
  - intros Heq. apply (f_equal String.length) in Heq. simpl in Heq.
    rewrite length_append in Heq. lia.
  - intros [= -> Heq]. f_equal. by apply IH.
Qed.

Lemma trim_prefix_append a b : trim_prefix (a +:+ b) a = b.
Proof. unfold trim_prefix. by rewrite has_prefix_append, str_drop_append. Qed.

Lemma has_byte_take_drop c n s :
  has_byte c s = false → has_byte c (str_take n s) = false ∧ has_byte c (str_drop n s) = false.
Proof.
  intros Hs. rewrite <- (str_take_drop n s), has_byte_append in Hs. by apply orb_false_iff in Hs.
Qed.

Lemma has_byte_trim_prefix c s p : has_byte c s = false → has_byte c (trim_prefix s p) = false.
Proof. intros Hs. unfold trim_prefix. destruct (has_prefix s p); [|done]. by apply has_byte_take_drop. Qed.

(** The parts of a split hold no separator, and no byte that the whole does not. *)
Lemma split_byte_sep s c : Forall (λ x, has_byte c x = false) (split_byte s c).
Proof.
  induction s as [|d s IH]; simpl; [by constructor|].
  destruct (Ascii.eqb_spec d c) as [|Hne]; [by constructor|].
  assert (Ascii.eqb c d = false) as Hcd by (apply Ascii.eqb_neq; congruence).
  destruct (split_byte s c) as [|x xs]; inversion IH; subst; repeat constructor; try done;
    rewrite has_byte_cons, Hcd; done.
Qed.

Lemma split_byte_bytes s c sep :
  has_byte c s = false → Forall (λ x, has_byte c x = false) (split_byte s sep).
Proof.
  induction s as [|d s IH]; simpl; [by constructor|].
  intros Hds. rewrite has_byte_cons in Hds. apply orb_false_iff in Hds as [Hd Hs].
  specialize (IH Hs). destruct (Ascii.eqb d sep); [by constructor|].
  destruct (split_byte s sep) as [|x xs]; inversion IH; subst; repeat constructor; try done;
    rewrite has_byte_cons, Hd; done.
Qed.

(** ** Lemmas: case *)

Lemma lower_byte_idem c : lower_byte (lower_byte c) = lower_byte c.
Proof. by destruct c as [[] [] [] [] [] [] [] []]; vm_compute. Qed.

Lemma lower_byte_ascii c : non_ascii (lower_byte c) = non_ascii c.
Proof. by destruct c as [[] [] [] [] [] [] [] []]; vm_compute. Qed.

(** Lower-casing neither makes nor removes a slash. *)
Lemma lower_byte_slash c : Ascii.eqb "/" (lower_byte c) = Ascii.eqb "/" c.
Proof. by destruct c as [[] [] [] [] [] [] [] []]; vm_compute. Qed.

Lemma lower_byte_colon c : Ascii.eqb ":" (lower_byte c) = Ascii.eqb ":" c.
Proof. by destruct c as [[] [] [] [] [] [] [] []]; vm_compute. Qed.

Lemma has_non_ascii_lower s : has_non_ascii (string_map lower_byte s) = has_non_ascii s.
Proof. unfold has_non_ascii. rewrite string_any_map. apply string_any_ext, lower_byte_ascii. Qed.

(** What the theorems use of the Unicode tables: lower-casing is idempotent. *)
Class GoUnicodeLaws `{GoUnicode} : Prop := {
  unicode_to_lower_fixed s : to_lower (unicode_to_lower s) = unicode_to_lower s
}.

Section case_lemmas.
Context `{GoUnicode}.

Lemma to_lower_ascii s : has_non_ascii s = false → to_lower s = string_map lower_byte s.
Proof. unfold to_lower. by intros ->. Qed.

Lemma to_lower_idem `{!GoUnicodeLaws} s : to_lower (to_lower s) = to_lower s.
Proof.
  unfold to_lower at 2 3. destruct (has_non_ascii s) eqn:Hs; [apply unicode_to_lower_fixed|].
  rewrite to_lower_ascii by (by rewrite has_non_ascii_lower).
  rewrite string_map_map. apply string_map_ext, lower_byte_idem.
Qed.

Lemma to_lower_append a b :
  has_non_ascii a = false → has_non_ascii b = false →
  to_lower (a +:+ b) = to_lower a +:+ to_lower b.
Proof.
  intros Ha Hb. rewrite (to_lower_ascii a), (to_lower_ascii b) by done.
  rewrite to_lower_ascii by (unfold has_non_ascii in *; by rewrite string_any_append, Ha, Hb).
  apply string_map_append.
Qed.

Lemma to_lower_colon s :
  has_non_ascii s = false → has_byte ":" (to_lower s) = has_byte ":" s.
Proof.
  intros Hs. rewrite to_lower_ascii by done. unfold has_byte. rewrite string_any_map.
  apply string_any_ext, lower_byte_colon.
Qed.

Lemma to_lower_idem_ascii s : has_non_ascii s = false → to_lower (to_lower s) = to_lower s.
Proof.
  intros Hs. rewrite (to_lower_ascii s) by done.
  rewrite to_lower_ascii by (by rewrite has_non_ascii_lower).
  rewrite string_map_map. apply string_map_ext, lower_byte_idem.
Qed.

(** On ASCII strings, [EqualFold] compares the lower-cased strings. *)
Lemma equal_fold_ascii s t :
  has_non_ascii s = false → has_non_ascii t = false →
  equal_fold s t = String.eqb (to_lower s) (to_lower t).
Proof.
  intros Hs Ht. rewrite !to_lower_ascii by done. revert t Hs Ht.
  induction s as [|a s IH]; intros [|b t] Hs Ht; try done. simpl in *.
  apply orb_false_iff in Hs as [Ha Hs], Ht as [Hb Ht]. rewrite Ha, Hb. simpl.
  unfold fold_byte. rewrite (IH t) by done. by destruct (Ascii.eqb _ _).
Qed.

Lemma equal_fold_refl s : has_non_ascii s = false → equal_fold s s = true.
Proof. intros Hs. rewrite equal_fold_ascii by done. apply String.eqb_refl. Qed.

End case_lemmas.

(** Tables that treat the bytes from 128 up as caseless letters, as in an ASCII
    locale: an instance for concrete runs. *)
#[export] Instance ascii_unicode : GoUnicode | 100 := {
  unicode_to_lower := string_map lower_byte;
  unicode_trim s := s;
  unicode_trim_right s := s;
  unicode_equal_fold s t := String.eqb s t;
  unicode_quote s := s
}.

#[export] Instance ascii_unicode_laws : GoUnicodeLaws.
Proof.
  split. intros s. unfold to_lower. simpl.
  assert (string_map lower_byte (string_map lower_byte s) = string_map lower_byte s) as Hidem
    by (rewrite string_map_map; apply string_map_ext, lower_byte_idem).
  by destruct (has_non_ascii _).
Qed.
