(* ===== verification/GoFloat.v ===== *)
(** * [float64]

    IEEE 754 binary64, as the standard library's executable specification of
    floating-point arithmetic ([SpecFloat]) defines it: exact operations on
    sign, mantissa and exponent, rounded to nearest, ties to even. *)

From Stdlib Require Export SpecFloat.
From S2P Require Import Prelude.
From stdpp Require Import options.

Notation float64 := spec_float.

Definition prec : Z := 53.
Definition emax : Z := 1024.

Definition f64_add : float64 → float64 → float64 := SFadd prec emax.
Definition f64_sub : float64 → float64 → float64 := SFsub prec emax.
Definition f64_mul : float64 → float64 → float64 := SFmul prec emax.
Definition f64_div : float64 → float64 → float64 := SFdiv prec emax.

(** The comparisons are false on NaN, as in Go. *)
Definition f64_leb (x y : float64) : bool := SFleb x y.
Definition f64_ltb (x y : float64) : bool := SFltb x y.
Definition f64_eqb (x y : float64) : bool := SFeqb x y.

(** [float64(n)] for an integer [n]. *)
Definition f64_of_Z (n : Z) : float64 := binary_normalize prec emax n 0 false.

(** A constant [n / d] of the source, for integers below [2^53]: the division
    rounds correctly, as the compiler does. *)
Definition f64_const (n d : Z) : float64 := f64_div (f64_of_Z n) (f64_of_Z d).

Definition f64_zero : float64 := S754_zero false.
Definition f64_one : float64 := f64_of_Z 1.

(** Go leaves [int64(f)] to the implementation when the truncated value is out
    of range or [f] is not finite. *)
Class GoArch := { unrepresentable_to_int64 : float64 → Z }.

(** The integer part of a finite number's magnitude. *)
Definition trunc_magnitude (m : positive) (e : Z) : Z :=
  if 0 <=? e then Z.pos m * 2 ^ e else Z.pos m / 2 ^ (- e).

(** [int64(f)]: truncation towards zero. *)
Definition int64_of_f64 `{GoArch} (f : float64) : Z :=
  match f with
  | S754_zero _ => 0
  | S754_finite s m e =>
      let t := if s : bool then - trunc_magnitude m e else trunc_magnitude m e in
      if (min_int64 <=? t) && (t <=? max_int64) then t
      else wrap64 (unrepresentable_to_int64 f)
  | _ => wrap64 (unrepresentable_to_int64 f)
  end.

(** ** The verb [%.1f] *)

(** [n / d] rounded to the nearest integer, ties to even. *)
Definition div_half_even (n d : Z) : Z :=
  let q := n / d in
  match Z.compare (2 * (n mod d)) d with
  | Lt => q
  | Gt => q + 1
  | Eq => if Z.even q then q else q + 1
  end.

(** Ten times a finite number's magnitude, to the nearest integer. *)
Definition tenths (m : positive) (e : Z) : Z :=
  if 0 <=? e then Z.pos m * 2 ^ e * 10 else div_half_even (Z.pos m * 10) (2 ^ (- e)).

Definition fmt_tenths (s : bool) (t : Z) : string :=
  (if s then "-" else "") +:+ fmt_d (t / 10) +:+ "." +:+ fmt_d (t mod 10).

Definition fmt_f1 (f : float64) : string :=
  match f with
  | S754_nan => "NaN"
  | S754_infinity false => "+Inf"
  | S754_infinity true => "-Inf"
  | S754_zero s => fmt_tenths s 0
  | S754_finite s m e => fmt_tenths s (tenths m e)
  end.

Lemma int64_of_f64_range `{GoArch} f : int64 (int64_of_f64 f).
Proof.
  destruct f as [s| | |s m e]; simpl; try apply wrap64_range.
  - int64_solve.
  - destruct (Z.leb_spec min_int64 (if s then - trunc_magnitude m e else trunc_magnitude m e));
      destruct (Z.leb_spec (if s then - trunc_magnitude m e else trunc_magnitude m e) max_int64);
      simpl; try apply wrap64_range. done.
Qed.

#[export] Hint Resolve int64_of_f64_range : governor.

(** On amd64 the conversion instruction returns the smallest integer. *)
#[export] Instance amd64 : GoArch | 100 := { unrepresentable_to_int64 _ := min_int64 }.

(** ** Rounding

    What the program relies on of the arithmetic: a positive product that is at
    most an integer below [2^53] does not round above it. *)

Lemma iter_pos_nat {A} (f : A → A) p x : SpecFloat.iter_pos f p x = Nat.iter (Pos.to_nat p) f x.
Proof.
  revert x. induction p as [p IH|p IH|]; intros x; cbn [SpecFloat.iter_pos]; [| |done].
  - rewrite !IH, Pos2Nat.inj_xI, <- Nat.iter_add.
    rewrite Nat.iter_succ_r. f_equal. lia.
  - rewrite !IH, Pos2Nat.inj_xO, <- Nat.iter_add. f_equal. lia.
Qed.

Lemma shr_1_spec mrs :
  0 ≤ shr_m mrs →
  shr_m (shr_1 mrs) = shr_m mrs / 2 ∧
  (shr_r (shr_1 mrs) || shr_s (shr_1 mrs) = true →
     shr_r mrs || shr_s mrs = true ∨ shr_m mrs mod 2 ≠ 0).
Proof.
  destruct mrs as [m r s]. simpl. intros Hm.
  destruct m as [|[p|p|]|p]; simpl; try lia.
  - split; [done|]. auto.
  - split; [|intros _; right]; rewrite Pos2Z.inj_xI, Z.add_comm, Z.mul_comm.
    + by rewrite Z.div_add by lia.
    + by rewrite Z_mod_plus_full.
  - split; [|by auto]. rewrite Pos2Z.inj_xO, Z.mul_comm. by rewrite Z.div_mul.
  - split; [done|]. intros _. by right.
Qed.

(** Shifting right [k] times divides by [2^k] and remembers whether anything was
    lost. *)
Definition lost (mrs : shr_record) : bool := shr_r mrs || shr_s mrs.

Lemma shr_iter_spec k mrs :
  0 ≤ shr_m mrs →
  let mrs' := Nat.iter k shr_1 mrs in
  shr_m mrs' = shr_m mrs / 2 ^ Z.of_nat k ∧
  (lost mrs' = true → shr_m mrs mod 2 ^ Z.of_nat k ≠ 0 ∨ lost mrs = true).
Proof.
  intros Hm. induction k as [|k IH]; cbn zeta in *.
  { simpl. rewrite Z.div_1_r. auto. }
  rewrite Nat2Z.inj_succ, Z.pow_succ_r by lia.
  change (Nat.iter (S k) shr_1 mrs) with (shr_1 (Nat.iter k shr_1 mrs)).
  destruct IH as [IHm IHl]. pose proof (Z.pow_pos_nonneg 2 (Z.of_nat k)).
  destruct (shr_1_spec (Nat.iter k shr_1 mrs)) as [Hd Hl].
  { rewrite IHm. apply Z.div_pos; lia. }
  rewrite Hd, IHm in *. split; [by rewrite Z.div_div, (Z.mul_comm 2) by lia|].
  intros Hlost. apply Hl in Hlost as [Hlost|Hlost].
  - apply IHl in Hlost as [Hlost|]; [left|by right]. intros H0. apply Hlost.
    apply Z.mod_divide in H0 as [q Hq]; [|lia]. rewrite Hq.
    replace (q * (2 * 2 ^ Z.of_nat k)) with (q * 2 * 2 ^ Z.of_nat k) by lia.
    by apply Z_mod_mult.
  - left. intros H0. apply Hlost. apply Z.mod_divide in H0 as [q Hq]; [|lia]. rewrite Hq.
    replace (q * (2 * 2 ^ Z.of_nat k)) with (q * 2 * 2 ^ Z.of_nat k) by lia.
    rewrite Z.div_mul by lia. by apply Z_mod_mult.
Qed.

Lemma digits2_pos_spec p :
  2 ^ (Z.pos (digits2_pos p) - 1) ≤ Z.pos p < 2 ^ Z.pos (digits2_pos p).
Proof.
  induction p as [p IH|p IH|]; simpl digits2_pos; [| |simpl; lia];
    rewrite Pos2Z.inj_succ; unfold Z.succ;
    replace (Z.pos (digits2_pos p) + 1 - 1) with (Z.pos (digits2_pos p) - 1 + 1) by lia;
    rewrite !Z.pow_add_r by lia; lia.
Qed.

(** The two steps of [binary_round_aux], for a positive value. [shr_fexp] keeps
    [m * 2^e] or truncates it. *)
Lemma shr_fexp_spec m e l :
  0 ≤ m →
  let n := Z.max 0 (fexp prec emax (Zdigits2 m + e) - e) in
  let '(mrs, e') := shr_fexp prec emax m e l in
  e' = e + n ∧ shr_m mrs = m / 2 ^ n ∧
  (loc_of_shr_record mrs ≠ loc_Exact → m mod 2 ^ n ≠ 0 ∨ l ≠ loc_Exact).
Proof.
  intros Hm n. unfold shr_fexp, shr.
  assert (shr_m (shr_record_of_loc m l) = m) as Hrec by (by destruct l as [|[]]).
  assert (∀ mrs, loc_of_shr_record mrs ≠ loc_Exact → lost mrs = true) as Hloc
    by (intros [? [] []]; unfold lost; simpl; by auto).
  assert (lost (shr_record_of_loc m l) = true → l ≠ loc_Exact) as Hlost
    by (by intros H ->).
  destruct (fexp prec emax (Zdigits2 m + e) - e) as [|p|p] eqn:Hn; subst n; simpl Z.max;
    try (rewrite Z.div_1_r; split; [lia|split; [exact Hrec|auto]]).
  rewrite iter_pos_nat, <- (positive_nat_Z p), Z.max_r by lia.
  destruct (shr_iter_spec (Pos.to_nat p) (shr_record_of_loc m l)) as [Hsm Hsl]; [by rewrite Hrec|].
  cbn zeta in Hsm, Hsl. rewrite Hrec in Hsm, Hsl. split_and!; [done|done|].
  intros Hne. destruct (Hsl (Hloc _ Hne)); auto.
Qed.

Lemma fexp_le d : d ≤ prec → fexp prec emax d ≤ 0.
Proof. unfold fexp, SpecFloat.emin, prec, emax. lia. Qed.

Lemma div_cut P n B : 0 ≤ n → P ≤ B * 2 ^ n → 
  P / 2 ^ n ≤ B ∧ (P mod 2 ^ n ≠ 0 → P / 2 ^ n + 1 ≤ B).
Proof.
  intros Hn HP. assert (0 < 2 ^ n) by (by apply Z.pow_pos_nonneg).
  pose proof (Z.div_mod P (2 ^ n)). pose proof (Z.mod_pos_bound P (2 ^ n)).
  split; [|intros ?]; nia.
Qed.

(** The rounded value is bounded by any integer below [2^53] that bounds the
    exact one. *)
Lemma round_below P E L :
  E ≤ 0 → 0 < L < 2 ^ prec → Z.pos P ≤ L * 2 ^ (- E) →
  match binary_round_aux prec emax false (Z.pos P) E loc_Exact with
  | S754_zero s => s = false
  | S754_finite s m e => s = false ∧ trunc_magnitude m e ≤ L
  | _ => False
  end.
Proof.
  intros HE HL HP. unfold binary_round_aux.
  pose proof (shr_fexp_spec (Z.pos P) E loc_Exact ltac:(lia)) as Hs1.
  destruct (shr_fexp prec emax (Z.pos P) E loc_Exact) as [mrs1 e1].
  set (n1 := Z.max 0 _) in Hs1. destruct Hs1 as (He1 & Hm1 & Hloc1).
  (* the first exponent is not positive *)
  assert (e1 ≤ 0) as Hneg.
  { pose proof (digits2_pos_spec P) as [Hd _]. simpl Zdigits2 in n1.
    assert (Z.pos (digits2_pos P) + E ≤ prec).
    { assert (2 ^ (Z.pos (digits2_pos P) - 1) < 2 ^ (prec - E)) as Hlt.
      { replace (prec - E) with (prec + - E) by lia.
        rewrite Z.pow_add_r by (unfold prec; lia).
        assert (0 < 2 ^ - E) by (apply Z.pow_pos_nonneg; lia). nia. }
      apply Z.pow_lt_mono_r_iff in Hlt; unfold prec in *; lia. }
    pose proof (fexp_le (Z.pos (digits2_pos P) + E)). lia. }
  (* and the first rounding does not pass [L] *)
  set (m2 := round_nearest_even (shr_m mrs1) (loc_of_shr_record mrs1)).
  assert (0 ≤ m2 ≤ L * 2 ^ (- e1)) as Hm2.
  { assert (0 ≤ n1) as Hn1 by lia.
    destruct (div_cut (Z.pos P) n1 (L * 2 ^ (- e1)) Hn1) as [Hc1 Hc2].
    { rewrite <- Z.mul_assoc, <- Z.pow_add_r by lia. by replace (- e1 + n1) with (- E) by lia. }
    assert (0 ≤ Z.pos P / 2 ^ n1) by (apply Z.div_pos; [lia|by apply Z.pow_pos_nonneg]).
    unfold m2. rewrite Hm1. destruct (loc_of_shr_record mrs1) as [|[]]; simpl; [lia|..].
    - destruct (Hloc1 ltac:(done)) as [Hc|]; [|done]. specialize (Hc2 Hc). destruct (Z.even _); lia.
    - lia.
    - destruct (Hloc1 ltac:(done)) as [Hc|]; [|done]. specialize (Hc2 Hc). lia. }
  pose proof (shr_fexp_spec m2 e1 loc_Exact ltac:(lia)) as Hs2.
  destruct (shr_fexp prec emax m2 e1 loc_Exact) as [mrs2 e2].
  set (n2 := Z.max 0 _) in Hs2. destruct Hs2 as (He2 & Hmm2 & _).
  assert (0 < 2 ^ n2) by (apply Z.pow_pos_nonneg; lia).
  assert (0 < 2 ^ (- e1)) by (apply Z.pow_pos_nonneg; lia).
  assert (0 ≤ shr_m mrs2 ∧ shr_m mrs2 * 2 ^ n2 ≤ L * 2 ^ (- e1)) as [Hpos3 Hm3].
  { rewrite Hmm2. split; [apply Z.div_pos; lia|].
    pose proof (Z.mul_div_le m2 (2 ^ n2)). lia. }
  destruct (shr_m mrs2) as [|m3|m3] eqn:Hm3eq; [done| |lia].
  assert (trunc_magnitude m3 e2 ≤ L ∧ e2 ≤ emax - prec) as [Ht Hle].
  { unfold trunc_magnitude. destruct (Z.leb_spec 0 e2) as [Hge|Hlt].
    - assert (Z.pos m3 * 2 ^ e2 ≤ L) as Hv.
      { assert (2 ^ n2 = 2 ^ e2 * 2 ^ (- e1)) as Hp.
        { rewrite <- Z.pow_add_r by lia. f_equal. lia. }
        rewrite Hp in Hm3. nia. }
      split; [done|]. assert (2 ^ e2 < 2 ^ prec) as Hlt by nia.
      apply Z.pow_lt_mono_r_iff in Hlt; unfold prec, emax in *; lia.
    - split; [|unfold emax, prec; lia].
      apply Z.div_le_upper_bound; [apply Z.pow_pos_nonneg; lia|].
      assert (2 ^ (- e1) = 2 ^ (- e2) * 2 ^ n2) as Hp.
      { rewrite <- Z.pow_add_r by lia. f_equal. lia. }
      rewrite Hp in Hm3. nia. }
  apply Z.leb_le in Hle. rewrite Hle. done.
Qed.

(** Small integers are represented exactly. *)
Lemma round_exact s m e :
  fexp prec emax (Z.pos (digits2_pos m) + e) = e → e ≤ emax - prec →
  binary_round_aux prec emax s (Z.pos m) e loc_Exact = S754_finite s m e.
Proof.
  intros Hf He. apply Z.leb_le in He. unfold binary_round_aux, shr_fexp. simpl.
  rewrite Hf, Z.sub_diag. simpl. rewrite Hf, Z.sub_diag. simpl. by rewrite He.
Qed.

Lemma iter_xO_spec k p :
  Z.pos (Pos.iter xO p k) = Z.pos p * 2 ^ Z.pos k ∧
  Z.pos (digits2_pos (Pos.iter xO p k)) = Z.pos (digits2_pos p) + Z.pos k.
Proof.
  induction k as [|k [IHv IHd]] using Pos.peano_ind.
  - simpl. lia.
  - rewrite Pos.iter_succ. simpl digits2_pos.
    rewrite Pos2Z.inj_xO, !Pos2Z.inj_succ, IHv, IHd, Z.pow_succ_r by lia. lia.
Qed.

Lemma f64_of_Z_small n :
  0 < n < 2 ^ prec →
  ∃ m e, f64_of_Z n = S754_finite false m e ∧ - prec ≤ e ≤ 0 ∧ Z.pos m = n * 2 ^ (- e).
Proof.
  intros Hn. destruct n as [|p|p]; try lia.
  unfold f64_of_Z, binary_normalize, binary_round.
  pose proof (digits2_pos_spec p) as [Hd _].
  assert (Z.pos (digits2_pos p) ≤ prec) as Hdp.
  { assert (2 ^ (Z.pos (digits2_pos p) - 1) < 2 ^ prec) as Hlt by lia.
    apply Z.pow_lt_mono_r_iff in Hlt; unfold prec in *; lia. }
  assert (fexp prec emax (Z.pos (digits2_pos p) + 0) = Z.pos (digits2_pos p) - prec) as Hfe
    by (unfold fexp, SpecFloat.emin, prec, emax in *; lia).
  rewrite Hfe. unfold shl_align. rewrite Z.sub_0_r.
  destruct (Z.pos (digits2_pos p) - prec) as [|k|k] eqn:Hk; [| lia |].
  - rewrite round_exact by (try (unfold emax, prec; lia);
      unfold fexp, SpecFloat.emin, prec, emax in *; lia).
    exists p, 0. split_and!; unfold prec in *; try done; lia.
  - destruct (iter_xO_spec k p) as [Hv Hdig].
    rewrite round_exact by (try (unfold emax, prec; lia); rewrite Hdig;
      unfold fexp, SpecFloat.emin, prec, emax in *; lia).
    exists (Pos.iter xO p k), (Z.neg k).
    split_and!; [done|unfold prec in *; lia|lia|]. rewrite Hv. f_equal.
Qed.

(** A usable fraction: a real [float64], at most one. *)
Definition fraction_ok (f : float64) : Prop := valid_binary prec emax f = true ∧ f ≠ S754_nan.

Lemma f64_one_eq : f64_one = S754_finite false (2 ^ 52) (-52).
Proof. reflexivity. Qed.

Lemma unit_magnitude m e :
  valid_binary prec emax (S754_finite false m e) = true →
  f64_ltb f64_one (S754_finite false m e) = false →
  e ≤ -52 ∧ Z.pos m ≤ 2 ^ (- e).
Proof.
  rewrite f64_one_eq. unfold f64_ltb, SFltb, SFcompare. simpl valid_binary.
  unfold bounded, canonical_mantissa. intros [Hc%Z.eqb_eq _]%andb_prop.
  destruct (Z.compare_spec (-52) e) as [Heq|Hlt|Hgt]; [| done |].
  - subst e. change (Pos.compare_cont Eq (2 ^ 52) m) with (2 ^ 52 ?= m)%positive.
    destruct (Pos.compare_spec (2 ^ 52) m); [| done |]; intros _; split; lia.
  - intros _. split; [lia|]. pose proof (digits2_pos_spec m) as [_ Hm].
    assert (Z.pos (digits2_pos m) ≤ - e) as Hd.
    { unfold fexp, SpecFloat.emin, prec, emax in Hc. lia. }
    assert (2 ^ Z.pos (digits2_pos m) ≤ 2 ^ (- e)) by (apply Z.pow_le_mono_r; lia). lia.
Qed.

(** Scaling a positive integer below [2^53] by a fraction in (0, 1] and
    truncating stays between zero and the integer. *)
Lemma scaled_range `{GoArch} limit f :
  0 < limit < 2 ^ prec → fraction_ok f →
  f64_leb f f64_zero = false → f64_ltb f64_one f = false →
  0 ≤ int64_of_f64 (f64_mul (f64_of_Z limit) f) ≤ limit.
Proof.
  intros Hl [Hv Hnan] Hpos Hone. destruct (f64_of_Z_small limit Hl) as (ml & el & -> & Hel & Hml).
  destruct f as [s|s| |s mf ef]; [done|by destruct s|done|]. destruct s; [done|].
  destruct (unit_magnitude mf ef Hv Hone) as [Hef Hmf].
  unfold f64_mul, SFmul. cbn [xorb].
  assert (Z.pos (ml * mf) ≤ limit * 2 ^ (- (el + ef))) as HP.
  { rewrite Pos2Z.inj_mul, Hml. replace (- (el + ef)) with (- el + - ef) by lia.
    rewrite Z.pow_add_r by lia. assert (0 < 2 ^ (- el)) by (apply Z.pow_pos_nonneg; lia). nia. }
  pose proof (round_below (ml * mf) (el + ef) limit ltac:(lia) Hl HP) as Hr.
  destruct (binary_round_aux prec emax false (Z.pos (ml * mf)) (el + ef) loc_Exact)
    as [s|s| |s m e]; simpl; [lia|done|done|].
  destruct Hr as [-> Ht].
  assert (0 ≤ trunc_magnitude m e).
  { unfold trunc_magnitude. destruct (Z.leb_spec 0 e).
    - apply Z.mul_nonneg_nonneg; [lia|]. apply Z.pow_nonneg. lia.
    - apply Z.div_pos; [lia|]. apply Z.pow_pos_nonneg; lia. }
  assert ((min_int64 <=? trunc_magnitude m e) && (trunc_magnitude m e <=? max_int64) = true)
    as ->; [|done].
  apply andb_true_intro. rewrite !Z.leb_le. unfold min_int64, max_int64, prec in *. lia.
Qed.

(** ** Division

    A quotient of integers below [2^53] that is less than one does not round up to
    one. *)

Lemma digits_below m e :
  0 ≤ m → e ≤ - prec → m < 2 ^ (- e) → fexp prec emax (Zdigits2 m + e) ≤ - prec.
Proof.
  intros Hm He Hlt. enough (Zdigits2 m + e ≤ 0) by (unfold fexp, SpecFloat.emin, prec, emax in *; lia).
  destruct m as [|p|p]; simpl; [unfold prec in *; lia| |lia].
  pose proof (digits2_pos_spec p) as [Hd _].
  assert (2 ^ (Z.pos (digits2_pos p) - 1) < 2 ^ (- e)) as Hpow by lia.
  apply Z.pow_lt_mono_r_iff in Hpow; unfold prec in *; lia.
Qed.

(** A rounded quotient of less than one keeps an exponent below that of one. *)
Lemma round_below_one q e l :
  0 ≤ q → e ≤ - prec → q + 1 ≤ (2 ^ prec - 1) * 2 ^ (- prec - e) →
  match binary_round_aux prec emax false q e l with
  | S754_zero s => True
  | S754_finite s m e' => s = false ∧ e' ≤ - prec
  | _ => False
  end.
Proof.
  intros Hq He Hbound. unfold binary_round_aux.
  assert (∀ x, x ≤ - prec → (2 ^ prec - 1) * 2 ^ (- prec - x) < 2 ^ (- x)) as Hone.
  { intros x Hx. assert (2 ^ (- x) = 2 ^ prec * 2 ^ (- prec - x)) as ->
      by (rewrite <- Z.pow_add_r by (unfold prec in *; lia); f_equal; lia).
    pose proof (Z.pow_pos_nonneg 2 (- prec - x)). unfold prec in *. nia. }
  pose proof (Hone e He). pose proof (shr_fexp_spec q e l Hq) as H1.
  pose proof (digits_below q e Hq He ltac:(lia)).
  destruct (shr_fexp prec emax q e l) as [mrs1 e1]. set (n1 := Z.max 0 _) in H1.
  destruct H1 as (He1 & Hm1 & _). assert (0 ≤ n1 ∧ e1 ≤ - prec) as [Hn1 Hle1] by lia.
  set (m2 := round_nearest_even _ _).
  assert (0 ≤ m2 < 2 ^ (- e1)) as Hm2.
  { pose proof (Z.pow_pos_nonneg 2 n1 ltac:(lia) Hn1).
    assert (q / 2 ^ n1 < (2 ^ prec - 1) * 2 ^ (- prec - e1)) as Hlt.
    { apply Z.div_lt_upper_bound; [lia|]. 
      rewrite (Z.mul_comm (2 ^ n1)), <- Z.mul_assoc, <- Z.pow_add_r by lia.
      replace (- prec - e1 + n1) with (- prec - e) by lia. lia. }
    pose proof (Z.div_pos q (2 ^ n1) Hq ltac:(lia)). pose proof (Hone e1 Hle1).
    assert (shr_m mrs1 ≤ m2 ≤ shr_m mrs1 + 1); [|lia].
    unfold m2, round_nearest_even.
    destruct (loc_of_shr_record mrs1) as [|[]]; try destruct (Z.even (shr_m mrs1)); lia. }
  pose proof (shr_fexp_spec m2 e1 loc_Exact (proj1 Hm2)) as H2.
  pose proof (digits_below m2 e1 (proj1 Hm2) Hle1 (proj2 Hm2)).
  destruct (shr_fexp prec emax m2 e1 loc_Exact) as [mrs2 e2].
  set (n2 := Z.max 0 _) in H2. destruct H2 as (He2 & Hmm2 & _). assert (0 ≤ n2) as Hn2 by lia.
  pose proof (Z.div_pos m2 (2 ^ n2) (proj1 Hm2) (Z.pow_pos_nonneg 2 n2 ltac:(lia) Hn2)).
  destruct (shr_m mrs2) as [|m3|m3]; [done| |lia].
  assert (e2 ≤ - prec) as Hle2 by lia.
  destruct (Z.leb_spec e2 (emax - prec)); [done|unfold emax, prec in *; lia].
Qed.

Lemma f64_div_below_one a b :
  0 ≤ a < b → b < 2 ^ prec → f64_leb f64_one (f64_div (f64_of_Z a) (f64_of_Z b)) = false.
Proof.
  intros Ha Hb. destruct (f64_of_Z_small b) as (m2 & e2 & -> & He2 & Hm2); [lia|].
  destruct (decide (a = 0)) as [->|Hpos]; [done|].
  destruct (f64_of_Z_small a) as (m1 & e1 & -> & He1 & Hm1); [lia|].
  unfold f64_div, SFdiv, SFdiv_core_binary.
  set (d := fexp prec emax _). set (e' := Z.min d _). set (s := _ - e').
  assert (d ≤ - prec) as Hd.
  { unfold d. simpl Zdigits2. pose proof (digits2_pos_spec m1) as [H1 _].
    pose proof (digits2_pos_spec m2) as [_ H2].
    enough (Z.pos (digits2_pos m1) + e1 ≤ Z.pos (digits2_pos m2) + e2)
      by (unfold fexp, SpecFloat.emin, prec, emax in *; lia).
    assert (2 ^ (Z.pos (digits2_pos m1) - 1 - e2) < 2 ^ (Z.pos (digits2_pos m2) - e1)) as Hlt.
    { replace (Z.pos (digits2_pos m1) - 1 - e2) with (Z.pos (digits2_pos m1) - 1 + - e2) by lia.
      replace (Z.pos (digits2_pos m2) - e1) with (Z.pos (digits2_pos m2) + - e1) by lia.
      rewrite !Z.pow_add_r by lia.
      pose proof (Z.pow_pos_nonneg 2 (- e1)). pose proof (Z.pow_pos_nonneg 2 (- e2)). nia. }
    apply Z.pow_lt_mono_r_iff in Hlt; lia. }
  assert (0 ≤ s) as Hs by lia.
  assert (match s with 0 => Z.pos m1 | Z.pos _ => Z.shiftl (Z.pos m1) s | Z.neg _ => 0 end
          = Z.pos m1 * 2 ^ s) as ->.
  { destruct s as [|p|p]; [lia| |lia]. by rewrite Z.shiftl_mul_pow2. }
  set (m' := Z.pos m1 * 2 ^ s).
  pose proof (Z_div_mod m' (Z.pos m2) eq_refl) as Hdiv.
  destruct (Z.div_eucl m' (Z.pos m2)) as [q r]. destruct Hdiv as [Hm' Hr].
  assert (0 < m') by (unfold m'; pose proof (Z.pow_pos_nonneg 2 s); lia).
  assert (0 ≤ q) as Hq by nia. assert (e' ≤ - prec) as He' by lia.
  assert (q + 1 ≤ (2 ^ prec - 1) * 2 ^ (- prec - e')) as Hbound.
  { assert (2 ^ (- e') = 2 ^ prec * 2 ^ (- prec - e')) as Hpow
      by (rewrite <- Z.pow_add_r by (unfold prec in *; lia); f_equal; lia).
    assert (m' = a * (2 ^ (- e2) * 2 ^ (- e'))) as Hm1'.
    { unfold m'. rewrite Hm1, <- Z.mul_assoc, <- !Z.pow_add_r by lia. do 2 f_equal. lia. }
    rewrite Hpow in Hm1'. rewrite Hm2 in Hm', Hr.
    pose proof (Z.pow_pos_nonneg 2 (- e2)). pose proof (Z.pow_pos_nonneg 2 (- prec - e')).
    set (A := 2 ^ (- e2)) in *. set (B := 2 ^ (- prec - e')) in *.
    assert (q * b ≤ a * (2 ^ prec * B)) as Hle by nia.
    assert (a * (2 ^ prec * B) < (2 ^ prec - 1) * B * b) as Hlt.
    { replace (a * (2 ^ prec * B)) with (a * 2 ^ prec * B) by lia.
      replace ((2 ^ prec - 1) * B * b) with ((2 ^ prec * b - b) * B) by lia. nia. }
    nia. }
  pose proof (round_below_one q e' (new_location (Z.pos m2) r) Hq He' Hbound) as Hround.
  simpl xorb. destruct (binary_round_aux _ _ _ _ _ _) as [sz| | |sz mz ez]; try done.
  destruct Hround as [-> Hez]. rewrite f64_one_eq. unfold f64_leb, SFleb, SFcompare.
  destruct (Z.compare_spec (-52) ez); unfold prec in *; [lia|lia|done].
Qed.
