(* ===== verification/GoRound.v ===== *)
(** * Rounding of [float64] arithmetic

    The sum, product and quotient of two numbers that are not negative are one of
    the two neighbours of the exact result, which bounds them from both sides: by
    any representable number on the same side of the exact result, and by a
    relative error. *)

From S2P Require Import Prelude GoFloat.
From stdpp Require Import options.

(** The smallest exponent; every finite number is a multiple of [2 ^ emin]. *)
Definition emin : Z := -1074.

(** A finite number that is not negative, as a multiple of [2 ^ emin]. *)
Definition units (x : float64) : Z :=
  match x with
  | S754_finite _ m e => Z.pos m * 2 ^ (e - emin)
  | _ => 0
  end.

(** One. *)
Definition unit : Z := 2 ^ (- emin).

(** A finite number that is not negative. *)
Definition nonneg (x : float64) : Prop :=
  match x with
  | S754_zero s => s = false
  | S754_finite s m e => s = false ∧ bounded prec emax m e = true
  | _ => False
  end.

(** [r] is the number of [v] units, or too large to be represented. *)
Definition hasUnits (v : Z) (r : float64) : Prop :=
  nonneg r ∧ units r = v ∨ r = S754_infinity false ∧ 2 ^ (emax - emin) ≤ v.

(** [r] is the rounding of the number [N / D] of units: a multiple of the spacing
    [2 ^ k] at that magnitude, next to it on one side or the other. *)
Definition rounds (N D : Z) (r : float64) : Prop :=
  ∃ k m, 0 ≤ k ∧ (k = 0 ∨ D * 2 ^ (k + 52) ≤ N) ∧
    (m = N / (D * 2 ^ k) ∨ m = N / (D * 2 ^ k) + 1 ∧ N mod (D * 2 ^ k) ≠ 0) ∧
    hasUnits (m * 2 ^ k) r.

Lemma pow2_pos k : 0 ≤ k → 0 < 2 ^ k.
Proof. intros. by apply Z.pow_pos_nonneg. Qed.

Lemma pow2_add a b : 0 ≤ a → 0 ≤ b → 2 ^ (a + b) = 2 ^ a * 2 ^ b.
Proof. apply Z.pow_add_r; lia. Qed.

Lemma digits_spec q : 0 < q → 2 ^ (Zdigits2 q - 1) ≤ q < 2 ^ Zdigits2 q.
Proof. destruct q as [|p|p]; try lia. intros _. apply digits2_pos_spec. Qed.

Lemma digits_nonneg q : 0 ≤ q → 0 ≤ Zdigits2 q.
Proof. destruct q; simpl; lia. Qed.

Lemma digits_lt q n : 0 ≤ q → 0 ≤ n → q < 2 ^ n ↔ Zdigits2 q ≤ n.
Proof.
  intros Hq Hn. destruct (decide (q = 0)) as [->|Hne].
  { pose proof (pow2_pos n Hn). simpl. lia. }
  pose proof (digits_spec q ltac:(lia)). split; intros Hlt.
  - assert (2 ^ (Zdigits2 q - 1) < 2 ^ n) as Hp by lia.
    destruct (Z.leb_spec (Zdigits2 q) n); [done|].
    assert (2 ^ n ≤ 2 ^ (Zdigits2 q - 1)) by (apply Z.pow_le_mono_r; lia). lia.
  - assert (2 ^ Zdigits2 q ≤ 2 ^ n) by (apply Z.pow_le_mono_r; lia). lia.
Qed.

Lemma fexp_spec d : fexp prec emax d = Z.max (d - 53) emin.
Proof. reflexivity. Qed.

(** Dropping [n] of the digits. *)
Lemma digits_shift q n : 0 ≤ n → 0 ≤ q → n ≤ Zdigits2 q → Zdigits2 (q / 2 ^ n) = Zdigits2 q - n.
Proof.
  intros Hn Hq Hd. pose proof (pow2_pos n Hn) as Hp.
  pose proof (Z.div_pos q (2 ^ n) Hq Hp) as Hdiv.
  destruct (decide (q = 0)) as [->|Hne].
  { simpl in *. rewrite Z.div_0_l by lia. simpl. lia. }
  pose proof (digits_spec q ltac:(lia)) as [Hlo Hhi].
  apply Z.le_antisymm.
  - apply digits_lt; [done|lia|]. apply Z.div_lt_upper_bound; [done|].
    rewrite <- pow2_add by lia. by replace (n + (Zdigits2 q - n)) with (Zdigits2 q) by lia.
  - destruct (decide (n = Zdigits2 q)) as [->|Hlt]; [rewrite Z.sub_diag; by apply digits_nonneg|].
    destruct (Z.leb_spec (Zdigits2 q - n) (Zdigits2 (q / 2 ^ n))) as [|Hgt]; [done|].
    assert (q / 2 ^ n < 2 ^ (Zdigits2 q - n - 1)) as Hsmall.
    { apply digits_lt; lia. }
    assert (q < 2 ^ n * 2 ^ (Zdigits2 q - n - 1)) as Hlt'.
    { pose proof (Z.mul_succ_div_gt q (2 ^ n)). nia. }
    rewrite <- pow2_add in Hlt' by lia.
    replace (n + (Zdigits2 q - n - 1)) with (Zdigits2 q - 1) in Hlt' by lia. lia.
Qed.

Lemma digits_mono a b : 0 ≤ a ≤ b → Zdigits2 a ≤ Zdigits2 b.
Proof.
  intros Hab. apply digits_lt; [lia|apply digits_nonneg; lia|].
  destruct (decide (b = 0)) as [->|]; [assert (a = 0) as -> by lia; done|].
  pose proof (digits_spec b ltac:(lia)). lia.
Qed.

(** Truncating to the spacing keeps the spacing. *)
Lemma fexp_shift q e :
  0 ≤ q → let E := fexp prec emax (Zdigits2 q + e) in
  e ≤ E → fexp prec emax (Zdigits2 (q / 2 ^ (E - e)) + E) = E.
Proof.
  intros Hq E He. destruct (Z.leb_spec (E - e) (Zdigits2 q)) as [Hle|Hgt].
  - rewrite digits_shift by lia. unfold E. f_equal. lia.
  - rewrite Z.div_small by (split; [done|]; apply digits_lt; lia).
    simpl Zdigits2. unfold E in *. rewrite !fexp_spec in *. lia.
Qed.

(** Rounding up can carry into one digit more, and then only to a power of two. *)
Lemma carry m1 m2 E :
  fexp prec emax (Zdigits2 m1 + E) = E → 0 ≤ m1 → m1 ≤ m2 ≤ m1 + 1 →
  fexp prec emax (Zdigits2 m2 + E) = E ∨ m2 = 2 ^ 53 ∧ fexp prec emax (Zdigits2 m2 + E) = E + 1.
Proof.
  intros Hf Hm1 Hm2. rewrite !fexp_spec in *.
  assert (m1 < 2 ^ 53) as Hlt by (apply digits_lt; lia).
  pose proof (digits_mono m1 m2 ltac:(lia)).
  destruct (decide (m2 = 2 ^ 53)) as [->|Hne].
  - right. split; [done|]. change (Zdigits2 (2 ^ 53)) with 54. lia.
  - left. assert (Zdigits2 m2 ≤ 53) by (apply digits_lt; lia). lia.
Qed.

(** What [binary_round_aux] makes of a mantissa that is long enough. *)
Lemma round_aux_spec q e l :
  0 ≤ q → let E := fexp prec emax (Zdigits2 q + e) in e ≤ E →
  ∃ m, (m = q / 2 ^ (E - e) ∨
        m = q / 2 ^ (E - e) + 1 ∧ (q mod 2 ^ (E - e) ≠ 0 ∨ l ≠ loc_Exact)) ∧
    hasUnits (m * 2 ^ (E - emin)) (binary_round_aux prec emax false q e l).
Proof.
  intros Hq E He. unfold binary_round_aux.
  pose proof (shr_fexp_spec q e l Hq) as H1. fold E in H1. cbn zeta in H1.
  rewrite Z.max_r in H1 by lia.
  destruct (shr_fexp prec emax q e l) as [mrs1 e1]. destruct H1 as (-> & Hm1 & Hloc).
  replace (e + (E - e)) with E by lia.
  assert (0 ≤ q / 2 ^ (E - e)) as Hpos by (apply Z.div_pos; [done|apply pow2_pos; lia]).
  set (m2 := round_nearest_even _ _). exists m2.
  assert (m2 = q / 2 ^ (E - e) ∨
          m2 = q / 2 ^ (E - e) + 1 ∧ (q mod 2 ^ (E - e) ≠ 0 ∨ l ≠ loc_Exact)) as Hm2.
  { unfold m2, round_nearest_even. rewrite <- Hm1.
    destruct (loc_of_shr_record mrs1) as [|[]]; try destruct (Z.even _); auto. }
  split; [exact Hm2|]. clearbody m2.
  pose proof (fexp_shift q e Hq He) as Hf1. fold E in Hf1.
  destruct (carry _ m2 E Hf1) as [Hf2|[-> Hf2]]; [lia|lia| |].
  - pose proof (shr_fexp_spec m2 E loc_Exact ltac:(lia)) as H2. cbn zeta in H2.
    rewrite Hf2, Z.sub_diag, Z.max_id, Z.div_1_r, Z.add_0_r in H2.
    destruct (shr_fexp prec emax m2 E loc_Exact) as [mrs2 e2]. destruct H2 as (-> & -> & _).
    assert (0 ≤ m2) as Hm2pos by lia. clear Hm2. destruct m2 as [|p|p]; [by left| |lia].
    destruct (Z.leb_spec E (emax - prec)) as [Hle|Hgt].
    + left. split; [|done]. split; [done|]. unfold bounded, canonical_mantissa.
      apply andb_true_intro. split; [by apply Z.eqb_eq|by apply Z.leb_le].
    + right. split; [done|]. rewrite fexp_spec in Hf2. unfold emax, prec, emin in *.
      pose proof (digits_spec (Z.pos p) ltac:(lia)) as [Hlo _].
      assert (2 ^ 52 ≤ 2 ^ (Zdigits2 (Z.pos p) - 1)) by (apply Z.pow_le_mono_r; lia).
      assert (2 ^ 2046 ≤ 2 ^ (E - -1074)) by (apply Z.pow_le_mono_r; lia).
      assert (2 ^ (1024 - -1074) = 2 ^ 52 * 2 ^ 2046) as -> by reflexivity.
      apply Z.mul_le_mono_nonneg; [by apply Z.pow_nonneg|lia|by apply Z.pow_nonneg|done].
  - pose proof (shr_fexp_spec (2 ^ 53) E loc_Exact ltac:(lia)) as H2. cbn zeta in H2.
    rewrite Hf2 in H2. replace (Z.max 0 (E + 1 - E)) with 1 in H2 by lia.
    destruct (shr_fexp prec emax (2 ^ 53) E loc_Exact) as [mrs2 e2]. destruct H2 as (-> & -> & _).
    change (2 ^ 53 / 2 ^ 1) with (Z.pos (2 ^ 52)).
    assert (emin ≤ E) as HE by (unfold E; rewrite fexp_spec; lia).
    destruct (Z.leb_spec (E + 1) (emax - prec)) as [Hle|Hgt].
    + left. split; [split; [done|]|].
      * unfold bounded, canonical_mantissa. apply andb_true_intro.
        split; [apply Z.eqb_eq|by apply Z.leb_le].
        change (Z.pos (digits2_pos (2 ^ 52))) with 53. rewrite fexp_spec. lia.
      * unfold units. replace (E + 1 - emin) with (1 + (E - emin)) by lia.
        rewrite pow2_add by lia. change (Z.pos (2 ^ 52)) with (2 ^ 52). lia.
    + right. split; [done|]. unfold emax, prec, emin in *.
      assert (2 ^ 2045 ≤ 2 ^ (E - -1074)) by (apply Z.pow_le_mono_r; lia).
      assert (2 ^ (1024 - -1074) = 2 ^ 53 * 2 ^ 2045) as -> by reflexivity.
      apply Z.mul_le_mono_nonneg_l; [by apply Z.pow_nonneg|done].
Qed.

(** The mantissa [q], exponent [e] and location [l] describe the number [N / D] of
    units; [S] makes the exponents positive. *)
Lemma aux_rounds q e l N D S :
  0 < D → 0 ≤ q → 0 ≤ S → 0 ≤ e - emin + S → e ≤ fexp prec emax (Zdigits2 q + e) →
  q * D * 2 ^ (e - emin + S) ≤ N * 2 ^ S < (q + 1) * D * 2 ^ (e - emin + S) →
  (l ≠ loc_Exact → N * 2 ^ S ≠ q * D * 2 ^ (e - emin + S)) →
  rounds N D (binary_round_aux prec emax false q e l).
Proof.
  intros HD Hq HS Ha He HN Hl. destruct (round_aux_spec q e l Hq He) as (m & Hm & Hres).
  set (E := fexp prec emax (Zdigits2 q + e)) in *.
  assert (emin ≤ E) as HE by (unfold E; rewrite fexp_spec; lia).
  assert (2 ^ (E - emin) * 2 ^ S = 2 ^ (E - e) * 2 ^ (e - emin + S)) as Hpow.
  { rewrite <- !pow2_add by lia. f_equal. lia. }
  pose proof (pow2_pos (E - e) ltac:(lia)). pose proof (pow2_pos (e - emin + S) Ha).
  pose proof (pow2_pos (E - emin) ltac:(lia)). pose proof (pow2_pos S HS).
  pose proof (Z.div_mod q (2 ^ (E - e)) ltac:(lia)) as Hdiv.
  pose proof (Z.mod_pos_bound q (2 ^ (E - e)) ltac:(lia)) as Hmod.
  exists (E - emin), m. split; [lia|]. split; [|split; [|exact Hres]].
  { destruct (Z.eqb_spec E emin) as [|Hne]; [left; lia|right].
    assert (E = Zdigits2 q + e - 53) as HEq by (unfold E in *; rewrite fexp_spec in *; lia).
    assert (0 < q) as Hqpos by (destruct q; simpl in HEq; lia).
    pose proof (digits_spec q Hqpos) as [Hlo _].
    assert (2 ^ (E - emin + 52) * 2 ^ S = 2 ^ (Zdigits2 q - 1) * 2 ^ (e - emin + S)) as Hp.
    { pose proof (digits_nonneg q Hq). rewrite <- !pow2_add by lia. f_equal. lia. }
    apply (Z.mul_le_mono_pos_r _ _ (2 ^ S)); [done|]. rewrite <- Z.mul_assoc, Hp.
    transitivity (q * D * 2 ^ (e - emin + S)); [|lia]. rewrite <- Z.mul_assoc, Z.mul_shuffle3.
    apply Z.mul_le_mono_nonneg_r; [apply Z.mul_nonneg_nonneg; lia|done]. }
  set (P := 2 ^ (E - e)) in *. set (A := 2 ^ (e - emin + S)) in *.
  set (K := 2 ^ (E - emin)) in *. set (T := 2 ^ S) in *.
  set (d := q / P) in *. set (B := D * A).
  assert (q * B ≤ N * T < (q + 1) * B) as HN' by (unfold B; lia).
  assert (l ≠ loc_Exact → N * T ≠ q * B) as Hl' by (intros Hi; specialize (Hl Hi); unfold B; lia).
  clear HN Hl.
  assert (0 < B) as HB by (unfold B; lia).
  assert (∀ z, D * K * z * T = P * z * B) as Hscale.
  { intros z. unfold B. transitivity (D * z * (K * T)); [ring|rewrite Hpow; ring]. }
  assert (D * K * d ≤ N < D * K * (d + 1)) as HND.
  { split; [apply (Z.mul_le_mono_pos_r _ _ T)|apply (Z.mul_lt_mono_pos_r T)]; try done;
      rewrite Hscale.
    - etrans; [|apply HN']. apply Z.mul_le_mono_nonneg_r; lia.
    - eapply Z.lt_le_trans; [apply HN'|]. apply Z.mul_le_mono_nonneg_r; lia. }
  assert (N / (D * K) = d) as HNd
    by (symmetry; apply (Z.div_unique_pos _ _ _ (N - D * K * d)); lia).
  rewrite HNd. destruct Hm as [->|[-> Hin]]; [by left|right]. split; [done|].
  intros Hmod0. apply Z.mod_divide in Hmod0 as [z Hz]; [|lia].
  assert (z = d) as -> by (rewrite <- HNd, Hz; symmetry; apply Z.div_mul; lia).
  assert (N * T = P * d * B) as HNT by (rewrite <- Hscale, Hz; ring).
  assert (q = P * d) as Hqd.
  { assert (q * B ≤ P * d * B) as Hle by lia. apply Z.mul_le_mono_pos_r in Hle; lia. }
  destruct Hin as [Hin|Hin]; [lia|]. apply (Hl' Hin). by rewrite HNT, Hqd.
Qed.

(** ** The operations *)

Lemma nonneg_cases x :
  nonneg x → x = f64_zero ∨
  ∃ m e, x = S754_finite false m e ∧ emin ≤ e ≤ emax - prec ∧
    Z.pos m < 2 ^ 53 ∧ (e = emin ∨ Zdigits2 (Z.pos m) = 53) ∧ Zdigits2 (Z.pos m) ≤ 53.
Proof.
  destruct x as [s|s| |s m e]; simpl; try done; [by intros ->; left|]. intros [-> Hb]. right.
  apply andb_prop in Hb as [Hc%Z.eqb_eq Hle%Z.leb_le]. rewrite fexp_spec in Hc.
  exists m, e. assert (Z.pos (digits2_pos m) ≤ 53) as Hd by lia.
  split_and!; [done|lia|done|by apply digits_lt|lia|done].
Qed.

Lemma units_nonneg x : nonneg x → 0 ≤ units x.
Proof.
  intros [->|(m & e & -> & He & _)]%nonneg_cases; simpl; [done|].
  pose proof (pow2_pos (e - emin)). lia.
Qed.

(** A number that is exact is its own rounding. *)
Lemma rounds_exact x : nonneg x → rounds (units x) 1 x.
Proof.
  intros Hx. exists 0, (units x). split; [lia|]. split; [by left|]. split.
  - left. by rewrite Z.mul_1_l, Z.pow_0_r, Z.div_1_r.
  - left. by rewrite Z.pow_0_r, Z.mul_1_r.
Qed.

(** Aligning a mantissa to the left. *)
Lemma shl_align_spec m e e' :
  let '(m', e'') := shl_align m e e' in
  e'' = Z.min e e' ∧ Z.pos m' = Z.pos m * 2 ^ (e - e'') ∧
  Zdigits2 (Z.pos m') + e'' = Zdigits2 (Z.pos m) + e.
Proof.
  unfold shl_align. destruct (e' - e) as [|p|p] eqn:Hd;
    try (rewrite Z.sub_diag; split_and!; simpl; lia).
  destruct (iter_xO_spec p m) as [Hv Hdig]. replace (e - e') with (Z.pos p) by lia.
  split_and!; simpl in *; lia.
Qed.

(** An integer multiple of a power of two that is at least the spacing. *)
Lemma normalize_rounds n e :
  emin ≤ e → 0 ≤ n → rounds (n * 2 ^ (e - emin)) 1 (binary_normalize prec emax n e false).
Proof.
  intros He Hn. destruct n as [|p|p]; [|clear Hn|lia].
  { rewrite Z.mul_0_l. by apply (rounds_exact f64_zero). }
  unfold binary_normalize, binary_round. set (f := fexp _ _ _).
  pose proof (shl_align_spec p e f) as Hs.
  destruct (shl_align p e f) as [m' e']. destruct Hs as (He' & Hm & Hd).
  simpl Zdigits2 in Hd. assert (emin ≤ f) as Hf by (unfold f; rewrite fexp_spec; lia).
  assert (Z.pos p * 2 ^ (e - emin) = Z.pos m' * 2 ^ (e' - emin)) as Hv.
  { rewrite Hm, <- Z.mul_assoc, <- pow2_add by lia. do 2 f_equal. lia. }
  rewrite Hv. pose proof (pow2_pos (e' - emin) ltac:(lia)).
  apply (aux_rounds _ _ _ _ _ 0); try lia.
  - simpl Zdigits2. rewrite Hd. fold f. lia.
  - rewrite Z.add_0_r, Z.pow_0_r. lia.
  - done.
Qed.

Lemma add_rounds x y : nonneg x → nonneg y → rounds (units x + units y) 1 (f64_add x y).
Proof.
  intros Hx Hy. destruct (nonneg_cases x Hx) as [->|(m1 & e1 & -> & He1 & _)].
  { replace (f64_add f64_zero y) with y
      by (by destruct y as [[]|[]| |[] ? ?]; simpl in Hy; try done; destruct Hy).
    by apply rounds_exact. }
  destruct (nonneg_cases y Hy) as [->|(m2 & e2 & -> & He2 & _)].
  { rewrite Z.add_0_r. by apply rounds_exact. }
  unfold f64_add, SFadd, cond_Zopp.
  pose proof (shl_align_spec m1 e1 (Z.min e1 e2)) as H1.
  pose proof (shl_align_spec m2 e2 (Z.min e1 e2)) as H2.
  destruct (shl_align m1 e1 _) as [m1' e1'], (shl_align m2 e2 _) as [m2' e2'].
  destruct H1 as (-> & Hm1 & _), H2 as (-> & Hm2 & _). simpl fst.
  rewrite !Z.min_r in * by lia. set (ez := Z.min e1 e2) in *.
  assert (units (S754_finite false m1 e1) + units (S754_finite false m2 e2) =
          (Z.pos m1' + Z.pos m2') * 2 ^ (ez - emin)) as ->.
  { rewrite Hm1, Hm2, Z.mul_add_distr_r, <- !Z.mul_assoc, <- !pow2_add by lia.
    unfold units. f_equal; do 2 f_equal; lia. }
  apply normalize_rounds; lia.
Qed.

Lemma of_Z_rounds n : 0 ≤ n → rounds (n * unit) 1 (f64_of_Z n).
Proof.
  intros Hn. unfold unit. replace (- emin) with (0 - emin) by lia.
  apply normalize_rounds; [unfold emin|]; lia.
Qed.

Lemma mul_rounds x y :
  nonneg x → nonneg y → rounds (units x * units y) unit (f64_mul x y).
Proof.
  intros Hx Hy. assert (rounds 0 unit f64_zero) as H0.
  { exists 0, 0. split; [lia|]. split; [by left|]. split; [|left; by split].
    left. by rewrite Z.div_0_l. }
  destruct (nonneg_cases x Hx) as [->|(m1 & e1 & -> & He1 & _ & Hd1 & _)].
  { by destruct (nonneg_cases y Hy) as [->|(m2 & e2 & -> & _)]. }
  destruct (nonneg_cases y Hy) as [->|(m2 & e2 & -> & He2 & _ & Hd2 & _)].
  { by rewrite Z.mul_0_r. }
  unfold f64_mul, SFmul. cbn [xorb].
  assert (Zdigits2 (Z.pos m1) ≤ Zdigits2 (Z.pos (m1 * m2))) as Hl1.
  { apply digits_mono. rewrite Pos2Z.inj_mul. nia. }
  assert (Zdigits2 (Z.pos m2) ≤ Zdigits2 (Z.pos (m1 * m2))) as Hl2.
  { apply digits_mono. rewrite Pos2Z.inj_mul. nia. }
  apply (aux_rounds _ _ _ _ _ (- emin)); unfold unit, emin in *; try lia.
  - rewrite fexp_spec. unfold emin. lia.
  - rewrite Pos2Z.inj_mul. simpl units. unfold emin.
    assert (2 ^ (e1 - -1074) * 2 ^ (e2 - -1074) = 2 ^ (e1 + e2 - -1074 + - -1074)) as Hp.
    { rewrite <- pow2_add by lia. f_equal. lia. }
    pose proof (pow2_pos (e1 + e2 - -1074 + - -1074) ltac:(lia)).
    pose proof (pow2_pos (- -1074) ltac:(lia)). set (U := 2 ^ (- -1074)) in *.
    replace (Z.pos m1 * 2 ^ (e1 - -1074) * (Z.pos m2 * 2 ^ (e2 - -1074)) * U)
      with (Z.pos m1 * Z.pos m2 * (2 ^ (e1 - -1074) * 2 ^ (e2 - -1074)) * U) by ring.
    rewrite Hp. nia.
  - done.
Qed.

Lemma quotient_digits m1 s m2 q r :
  0 ≤ s → 0 ≤ q → Z.pos m1 * 2 ^ s = Z.pos m2 * q + r → 0 ≤ r < Z.pos m2 →
  Zdigits2 (Z.pos m1) + s - Zdigits2 (Z.pos m2) ≤ Zdigits2 q.
Proof.
  intros Hs Hq Hdiv Hr. set (t := Zdigits2 (Z.pos m1) + s - Zdigits2 (Z.pos m2)).
  destruct (Z.leb_spec t (Zdigits2 q)) as [|Hgt]; [done|exfalso].
  pose proof (digits_nonneg q Hq). assert (q < 2 ^ (t - 1)) as Hlt by (apply digits_lt; lia).
  pose proof (digits_spec (Z.pos m1) eq_refl) as [H1 _].
  pose proof (digits_spec (Z.pos m2) eq_refl) as [_ H2].
  assert (2 ^ (t - 1) * 2 ^ Zdigits2 (Z.pos m2) = 2 ^ (Zdigits2 (Z.pos m1) - 1) * 2 ^ s) as Hp.
  { pose proof (digits_nonneg (Z.pos m2) ltac:(lia)).
    rewrite <- !pow2_add by (unfold t in *; simpl Zdigits2 in *; lia).
    f_equal. unfold t. lia. }
  pose proof (pow2_pos s Hs). pose proof (pow2_pos (t - 1) ltac:(lia)).
  assert (Z.pos m2 * q + r < 2 ^ (t - 1) * Z.pos m2) by nia.
  assert (2 ^ (t - 1) * Z.pos m2 < 2 ^ (t - 1) * 2 ^ Zdigits2 (Z.pos m2)) by nia. nia.
Qed.

Lemma div_rounds x y :
  nonneg x → nonneg y → 0 < units y → rounds (units x * unit) (units y) (f64_div x y).
Proof.
  intros Hx Hy Hpos. destruct (nonneg_cases y Hy) as [->|(m2 & e2 & -> & He2 & _)]; [done|].
  destruct (nonneg_cases x Hx) as [->|(m1 & e1 & -> & He1 & _)].
  { exists 0, 0. split; [lia|]. split; [by left|]. split; [left|left; by split].
    rewrite Z.mul_0_l, Z.div_0_l; [done|]. rewrite Z.pow_0_r. lia. }
  unfold f64_div, SFdiv, SFdiv_core_binary.
  remember (fexp prec emax (Zdigits2 (Z.pos m1) + e1 - (Zdigits2 (Z.pos m2) + e2))) as f eqn:Hf.
  remember (Z.min f (e1 - e2)) as e' eqn:He'. remember (e1 - e2 - e') as s eqn:Hse.
  rewrite fexp_spec in Hf. assert (0 ≤ s) as Hs by lia.
  assert (match s with 0 => Z.pos m1 | Z.pos _ => Z.shiftl (Z.pos m1) s | Z.neg _ => 0 end
          = Z.pos m1 * 2 ^ s) as ->.
  { destruct s as [|p|p]; [lia| |lia]. by rewrite Z.shiftl_mul_pow2. }
  set (m' := Z.pos m1 * 2 ^ s). pose proof (pow2_pos s Hs).
  pose proof (Z_div_mod m' (Z.pos m2) eq_refl) as Hdiv.
  destruct (Z.div_eucl m' (Z.pos m2)) as [q r]. destruct Hdiv as [Hm' Hr].
  assert (0 ≤ q) as Hq by (unfold m' in *; nia). cbn [xorb].
  pose proof (quotient_digits _ _ _ _ _ Hs Hq Hm' Hr) as Hd.
  assert (e' ≤ fexp prec emax (Zdigits2 q + e')) as Hle by (rewrite fexp_spec; lia).
  assert (-2045 ≤ e') as Hlow by (unfold emin, emax, prec in *; lia).
  unfold unit, units in *. set (X := 2 ^ (e2 - emin) * 2 ^ (e' - emin + 1024)).
  assert (0 < X) as HX.
  { unfold X. rewrite <- pow2_add by (unfold emin in *; lia).
    apply pow2_pos. unfold emin in *. lia. }
  assert (∀ z, z * (Z.pos m2 * 2 ^ (e2 - emin)) * 2 ^ (e' - emin + 1024) = z * Z.pos m2 * X)
    as HD by (intros z; unfold X; ring).
  assert (Z.pos m1 * 2 ^ (e1 - emin) * 2 ^ (- emin) * 2 ^ 1024 = (Z.pos m2 * q + r) * X) as HN.
  { rewrite <- Hm'. unfold m', X. rewrite <- !Z.mul_assoc, <- !pow2_add by (unfold emin in *; lia).
    do 2 f_equal. lia. }
  apply (aux_rounds _ _ _ _ _ 1024); try done; [unfold emin in *; lia| |]; rewrite HN, ?HD.
  - nia.
  - intros Hl. assert (r ≠ 0) as Hr0; [|nia]. intros ->. apply Hl.
    unfold new_location, new_location_even, new_location_odd. by destruct (Z.even _).
Qed.

(** ** What a rounded result is good for *)

Section rounded.
Context (N D : Z) (r : float64).
Context (HD : 0 < D) (HN : 0 ≤ N) (Hr : rounds N D r).

Lemma rounds_finite : N < D * 2 ^ 2097 → nonneg r.
Proof using HD HN Hr.
  intros Hlt. destruct Hr as (k & m & Hk & Hbig & Hm & [[? _]|[-> Hinf]]); [done|exfalso].
  pose proof (pow2_pos k Hk) as HK. set (K := 2 ^ k) in *.
  change (emax - emin) with (2097 + 1) in Hinf. rewrite pow2_add in Hinf by lia.
  set (B := 2 ^ 2097) in *. assert (0 < B) as HB by by apply pow2_pos.
  pose proof (Z.mul_div_le N (D * K) ltac:(lia)) as Hdiv. set (d := N / (D * K)) in *.
  assert (0 ≤ d) as Hd by (apply Z.div_pos; lia). clearbody d B.
  destruct Hbig as [->|Hbig].
  - assert (K = 1) as HK1 by done. rewrite HK1 in *. assert (d < B) by nia. lia.
  - assert (D * K ≤ N) as HDK.
    { rewrite pow2_add in Hbig by lia. fold K in Hbig. nia. }
    assert (m * K * D ≤ 2 * N) by nia. nia.
Qed.

(** A number with 53 significant bits on one side of the exact result stays on
    that side of the rounded one. *)
Lemma rounds_le mx kx :
  nonneg r → 0 ≤ mx ≤ 2 ^ 53 → 0 ≤ kx → N ≤ mx * 2 ^ kx * D → units r ≤ mx * 2 ^ kx.
Proof using HD HN Hr.
  intros Hfin Hmx Hkx Hle.
  destruct Hr as (k & m & Hk & Hbig & Hm & [[_ ->]|[-> _]]); [|done].
  pose proof (pow2_pos k Hk) as HK. pose proof (pow2_pos kx Hkx) as HX.
  pose proof (Z.mul_div_le N (D * 2 ^ k) ltac:(lia)) as Hdiv.
  destruct Hm as [->|[-> Hmod]]; [nia|].
  destruct (Z.leb_spec k kx) as [Hkk|Hkk].
  - assert (2 ^ kx = 2 ^ (kx - k) * 2 ^ k) as Hp by (rewrite <- pow2_add by lia; f_equal; lia).
    pose proof (pow2_pos (kx - k) ltac:(lia)). rewrite Hp in *.
    set (A := 2 ^ (kx - k)) in *. set (K := 2 ^ k) in *.
    assert (N / (D * K) < mx * A); [|nia].
    apply Z.div_lt_upper_bound; [lia|].
    assert (N ≠ D * K * (mx * A)) as Hne by (intros ->; apply Hmod; rewrite Z.mul_comm; apply Z_mod_mult).
    nia.
  - exfalso. destruct Hbig as [->|Hbig]; [lia|].
    assert (2 ^ (k + 52) = 2 ^ (k - 1 - kx) * 2 ^ kx * 2 ^ 53) as Hp.
    { rewrite <- !pow2_add by lia. f_equal. lia. }
    pose proof (pow2_pos (k - 1 - kx) ltac:(lia)) as HA.
    assert (N = D * 2 ^ (k + 52)) as Heq.
    { rewrite Hp in *. set (A := 2 ^ (k - 1 - kx)) in *. set (X := 2 ^ kx) in *.
      assert (mx * X * D ≤ 2 ^ 53 * X * D) by nia. nia. }
    apply Hmod. rewrite Heq, pow2_add by lia.
    replace (D * (2 ^ k * 2 ^ 52)) with (2 ^ 52 * (D * 2 ^ k)) by ring. apply Z_mod_mult.
Qed.

Lemma rounds_ge mx kx :
  nonneg r → 0 ≤ mx ≤ 2 ^ 53 → 0 ≤ kx → mx * 2 ^ kx * D ≤ N → mx * 2 ^ kx ≤ units r.
Proof using HD HN Hr.
  intros Hfin Hmx Hkx Hle.
  destruct Hr as (k & m & Hk & Hbig & Hm & [[_ ->]|[-> _]]); [|done].
  pose proof (pow2_pos k Hk) as HK. pose proof (pow2_pos kx Hkx) as HX.
  assert (N / (D * 2 ^ k) ≤ m) as Hdm by lia.
  etrans; [|apply Z.mul_le_mono_nonneg_r; [lia|exact Hdm]].
  destruct (Z.leb_spec k kx) as [Hkk|Hkk].
  - assert (2 ^ kx = 2 ^ (kx - k) * 2 ^ k) as Hp by (rewrite <- pow2_add by lia; f_equal; lia).
    rewrite Hp in *. rewrite Z.mul_assoc. apply Z.mul_le_mono_nonneg_r; [lia|].
    apply Z.div_le_lower_bound; [lia|]. nia.
  - destruct Hbig as [->|Hbig]; [lia|].
    assert (2 ^ 53 * 2 ^ kx ≤ 2 ^ 52 * 2 ^ k) as Hp.
    { rewrite <- !pow2_add by lia. apply Z.pow_le_mono_r; lia. }
    assert (2 ^ 52 ≤ N / (D * 2 ^ k)); [|nia].
    apply Z.div_le_lower_bound; [lia|]. rewrite pow2_add in Hbig by lia. nia.
Qed.

(** The error is at most the spacing [K], and the spacing is one unit or at most
    one part in [2 ^ 52]. *)
Lemma rounds_spacing :
  nonneg r → ∃ K, Z.abs (units r * D - N) ≤ D * K ∧ (K = 1 ∨ D * K * 2 ^ 52 ≤ N) ∧
    (N mod (D * K) = 0 → units r * D = N).
Proof using HD HN Hr.
  intros Hfin. destruct Hr as (k & m & Hk & Hbig & Hm & [[_ ->]|[-> _]]); [|done].
  pose proof (pow2_pos k Hk) as HK. pose proof (Z.div_mod N (D * 2 ^ k) ltac:(lia)) as Hdiv.
  pose proof (Z.mod_pos_bound N (D * 2 ^ k) ltac:(lia)) as Hmod.
  exists (2 ^ k). set (K := 2 ^ k) in *. set (d := N / (D * K)) in *. set (e := N mod (D * K)) in *.
  split; [|split].
  - destruct Hm as [->|[-> He]].
    + replace (d * K * D) with (D * K * d) by ring. lia.
    + replace ((d + 1) * K * D) with (D * K * d + D * K) by ring. lia.
  - destruct Hbig as [->|Hbig]; [by left|right]. rewrite pow2_add in Hbig by lia. fold K in Hbig. lia.
  - destruct Hm as [->|[-> He]]; [|done].
    intros He. replace (d * K * D) with (D * K * d) by ring. lia.
Qed.

Lemma rounds_near : nonneg r → 2 ^ 52 * Z.abs (units r * D - N) ≤ N + 2 ^ 52 * D.
Proof using HD HN Hr.
  intros Hfin. destruct (rounds_spacing Hfin) as (K & Habs & [->|HK] & _); lia.
Qed.

(** No unit is lost when the result is a normal number, or exact. *)
Lemma rounds_error :
  nonneg r → N = 0 ∨ D = 1 ∨ D * 2 ^ 52 ≤ N →
  2 ^ 52 * Z.abs (units r * D - N) ≤ N.
Proof using HD HN Hr.
  intros Hfin Hnormal. destruct (rounds_spacing Hfin) as (K & Habs & [->|HK] & Hex); [|lia].
  destruct Hnormal as [->|[->|]]; [| |lia];
    (rewrite Hex; [lia|by rewrite ?Z.mul_1_l, ?Z.mod_1_r, ?Z.mod_0_l by lia]).
Qed.

End rounded.

(** The representable numbers. *)
Lemma nonneg_bits x :
  nonneg x → ∃ m k, units x = m * 2 ^ k ∧ 0 ≤ m ≤ 2 ^ 53 ∧ 0 ≤ k.
Proof.
  intros [->|(m & e & -> & He & Hm & _)]%nonneg_cases; [by exists 0, 0|].
  exists (Z.pos m), (e - emin). split_and!; [done|lia..].
Qed.

Lemma nonneg_compare x y : nonneg x → nonneg y → SFcompare x y = Some (units x ?= units y).
Proof.
  intros [->|(m1 & e1 & -> & He1 & Hm1 & Hd1 & _)]%nonneg_cases
    [->|(m2 & e2 & -> & He2 & Hm2 & Hd2 & _)]%nonneg_cases; [done| | |].
  - trans (Some Lt); [done|]. f_equal. symmetry. apply Z.compare_lt_iff.
    pose proof (pow2_pos (e2 - emin)). simpl units. lia.
  - trans (Some Gt); [done|]. f_equal. symmetry. apply Z.compare_gt_iff.
    pose proof (pow2_pos (e1 - emin)). simpl units. lia.
  - unfold SFcompare, units.
    assert (∀ m e m' e', emin ≤ e → Z.pos m < 2 ^ 53 → Zdigits2 (Z.pos m') = 53 → e < e' →
      Z.pos m * 2 ^ (e - emin) < Z.pos m' * 2 ^ (e' - emin)) as Hlt.
    { intros m e m' e' He Hm Hd' Hee. pose proof (digits_spec (Z.pos m') eq_refl) as [Hlo _].
      rewrite Hd' in Hlo. change (2 ^ (53 - 1)) with (2 ^ 52) in Hlo.
      pose proof (pow2_pos (e - emin) ltac:(lia)).
      assert (2 * 2 ^ (e - emin) ≤ 2 ^ (e' - emin)) as Hp.
      { change 2 with (2 ^ 1) at 1. rewrite <- pow2_add by lia. apply Z.pow_le_mono_r; lia. }
      nia. }
    destruct (Z.compare_spec e1 e2) as [->|Hee|Hee].
    + pose proof (pow2_pos (e2 - emin) ltac:(lia)).
      change (Pos.compare_cont Eq m1 m2) with (Z.pos m1 ?= Z.pos m2).
      f_equal. by apply Zmult_compare_compat_r, Z.lt_gt.
    + f_equal. symmetry. apply Z.compare_lt_iff, Hlt; lia.
    + f_equal. symmetry. apply Z.compare_gt_iff, Hlt; lia.
Qed.

Lemma nonneg_leb x y : nonneg x → nonneg y → f64_leb x y = (units x <=? units y).
Proof. intros. unfold f64_leb, SFleb. rewrite nonneg_compare by done. by unfold Z.leb. Qed.

Lemma nonneg_ltb x y : nonneg x → nonneg y → f64_ltb x y = (units x <? units y).
Proof. intros. unfold f64_ltb, SFltb. rewrite nonneg_compare by done. by unfold Z.ltb. Qed.

(** Conversion to an integer truncates. *)
Lemma nonneg_trunc `{GoArch} x :
  nonneg x → units x ≤ 2 ^ 53 * unit →
  0 ≤ int64_of_f64 x ∧ int64_of_f64 x * unit ≤ units x < (int64_of_f64 x + 1) * unit.
Proof.
  intros [->|(m & e & -> & He & Hm & _)]%nonneg_cases Hle; [by vm_compute|].
  assert (0 < unit) as Hu by (by vm_compute).
  assert (0 ≤ trunc_magnitude m e ∧ trunc_magnitude m e * unit ≤ Z.pos m * 2 ^ (e - emin)
    < (trunc_magnitude m e + 1) * unit) as Ht.
  { unfold trunc_magnitude. destruct (Z.leb_spec 0 e) as [He0|He0].
    - assert (2 ^ (e - emin) = 2 ^ e * unit) as ->.
      { unfold unit. by rewrite <- pow2_add by (unfold emin; lia). }
      pose proof (pow2_pos e He0). rewrite Z.mul_assoc. split; [lia|]. split; [done|].
      apply Z.mul_lt_mono_pos_r; [done|lia].
    - assert (unit = 2 ^ (- e) * 2 ^ (e - emin)) as Hunit.
      { unfold unit. rewrite <- pow2_add by lia. f_equal. lia. }
      pose proof (pow2_pos (- e) ltac:(lia)) as Hp. pose proof (pow2_pos (e - emin) ltac:(lia)) as Hq.
      rewrite Hunit. pose proof (Z.div_mod (Z.pos m) (2 ^ (- e)) ltac:(lia)) as Hdiv.
      pose proof (Z.mod_pos_bound (Z.pos m) (2 ^ (- e)) Hp) as Hmod.
      pose proof (Z.div_pos (Z.pos m) (2 ^ (- e)) ltac:(lia) Hp) as Hd.
      generalize dependent (Z.pos m / 2 ^ (- e)). generalize dependent (Z.pos m mod 2 ^ (- e)).
      generalize dependent (2 ^ (- e)). generalize dependent (2 ^ (e - emin)). clear. intros. nia. }
  destruct Ht as [Ht0 Ht].
  assert (trunc_magnitude m e ≤ 2 ^ 53) as Hmax.
  { apply (Z.mul_le_mono_pos_r _ _ unit Hu). etrans; [apply Ht|exact Hle]. }
  simpl int64_of_f64.
  assert ((min_int64 <=? trunc_magnitude m e) && (trunc_magnitude m e <=? max_int64) = true) as ->.
  { apply andb_true_intro. rewrite !Z.leb_le. unfold min_int64, max_int64. lia. }
  by split.
Qed.
