(* ===== verification/Quota.v ===== *)
(** * Quota data, lookups and priorities

    The protobuf messages of [proto/governor/v1/governor.proto] that carry
    quotas and shares, and [pkg/governor/helpers.go] and
    [pkg/governor/priority.go]. *)

From Stdlib Require Import Ascii.
From S2P Require Import Prelude GoStrings GoFloat.
From stdpp Require Import options.

(** ** Messages *)

Module pb.

Record ModelQuota := mkModelQuota {
  ProjectId : string;
  Model : string;
  Region : string;
  MaxTpm : Z;
  MaxRpm : Z;
  CurrentRpm : Z;
  CurrentTpm : Z;
  HeadroomRpm : Z;
  HeadroomTpm : Z;
  UtilizationRpm : float64;
  UtilizationTpm : float64
}.

(** A map field that was never set is a nil map, [None]. An entry with a nil
    pointer cannot be told from a missing one by the code, which only looks keys
    up and compares with nil. *)
Record QuotaSnapshot := mkQuotaSnapshot {
  OrgQuotas : option (gmap string ModelQuota);
  ProjectQuotas : option (gmap string ModelQuota);
  LastSyncedAt : option Time
}.

Record TargetDemand := mkTargetDemand {
  Demand_Target : string;
  Requests : Z;
  Tokens : Z
}.

Record TargetShare := mkTargetShare {
  Share_Target : string;
  RpmFraction : float64;
  TpmFraction : float64
}.

End pb.

(** ** [priority.go] *)

Module Priority.

Inductive Priority : Type :=
  | PRIORITY_UNSPECIFIED
  | PRIORITY_CRITICAL
  | PRIORITY_BEST_EFFORT
  | PRIORITY_CUSTOM.

#[export] Instance Priority_eq_dec : EqDecision Priority.
Proof. solve_decision. Defined.

(** [DefaultRetryAfter], in nanoseconds. *)
Definition DefaultRetryAfter : Z := 5 * second.

(** [quota == nil] is [None]. *)
Definition IsSaturated (quota : option pb.ModelQuota) : bool :=
  match quota with
  | None => false
  | Some q =>
      if f64_leb f64_one (pb.UtilizationRpm q) || f64_leb f64_one (pb.UtilizationTpm q) then true
      else if (0 <? pb.MaxRpm q) && (pb.HeadroomRpm q <=? 0) then true
      else if (0 <? pb.MaxTpm q) && (pb.HeadroomTpm q <=? 0) then true
      else false
  end.

Definition dash_to_underscore (c : ascii) : ascii :=
  if Ascii.eqb c "-"%char then "_"%char else c.

(** [strings.ReplaceAll(s, "-", "_")]. *)
Definition replace_dashes (s : string) : string := string_map dash_to_underscore s.

Definition ParsePriorityName `{GoUnicode} (v : string) : Priority * bool :=
  let name := replace_dashes (to_lower (trim_space v)) in
  if String.eqb name "critical" then (PRIORITY_CRITICAL, true)
  else if String.eqb name "best_effort" || String.eqb name "besteffort"
  then (PRIORITY_BEST_EFFORT, true)
  else if String.eqb name "custom" then (PRIORITY_CUSTOM, true)
  else (PRIORITY_UNSPECIFIED, false).

End Priority.

(** ** [helpers.go] *)

Module Helpers.
Section helpers.
Context `{GoUnicode}.

(** The keys [fmt.Sprintf("%s/%s", ...)] of the quota maps. *)
Definition orgKey (region model : string) : string :=
  to_lower region +:+ "/" +:+ to_lower model.

Definition projectKey (project region model : string) : string :=
  to_lower project +:+ "/" +:+ to_lower region +:+ "/" +:+ to_lower model.

Definition GetOrgQuota (qs : option pb.QuotaSnapshot) (region model : string)
    : result pb.ModelQuota :=
  match qs ≫= pb.OrgQuotas with
  | None => Err "org quota data not available"
  | Some m =>
      match m !! orgKey region model with
      | None => Err ("no org quota found for region " +:+ region +:+ " and model " +:+ model)
      | Some q => Ok q
      end
  end.

Definition GetProjectQuota (qs : option pb.QuotaSnapshot) (project region model : string)
    : result pb.ModelQuota :=
  match qs ≫= pb.ProjectQuotas with
  | None => Err "project quota data not available"
  | Some m =>
      match m !! projectKey project region model with
      | None => Err ("no project quota found for project " +:+ project +:+ ", region " +:+ region
                     +:+ " and model " +:+ model)
      | Some q => Ok q
      end
  end.

End helpers.
End Helpers.
