(* ===== verification/Config.v ===== *)
(** * Configuration: [pkg/governor/types.go] and [pkg/governor/config.go]

    The configuration, the values derived from it, and what [LoadConfig] does
    with the decoded file: defaults, validation and normalisation. Reading the
    file and decoding YAML are arguments. *)

From Stdlib Require Import Ascii.
From S2P Require Import Prelude GoStrings GoFloat.
From stdpp Require Import options.

Module Config.

Record ModelLimit := mkModelLimit { MaxRpm : Z; MaxTpm : Z }.

Record CascadeStep := mkCascadeStep { TargetModel : string; TargetRegion : string }.

Record CustomPolicy := mkCustomPolicy { Cascade : list CascadeStep }.

(** Pointers and maps that may be nil are options. *)
Record Config := mkConfig {
  ProjectIDs : list string;
  Regions : list string;
  Models : list string;
  PollInterval : Z;
  PollTimeout : Z;
  SafetyMarginPercent : Z;
  DefaultProjectLimits : option (gmap string (option ModelLimit));
  Allowances : gmap string (option ModelLimit);
  CriticalReservePercent : option Z;
  DataplaneReplicas : option Z;
  DefaultRequestTokens : Z;
  CustomPolicies : option (gmap string CustomPolicy)
}.

Definition MinPollInterval : Z := 15 * second.
Definition DefaultPollTimeout : Z := 10 * second.
Definition MinSafetyMarginPercent : Z := 10.
Definition MaxSafetyMarginPercent : Z := 90.
Definition DefaultCriticalReservePercent : Z := 30.
Definition MinCriticalReservePercent : Z := 0.
Definition MaxCriticalReservePercent : Z := 90.
Definition DefaultDataplaneReplicas : Z := 1.
Definition DefaultRequestTokensEstimate : Z := 1000.

(** ** Derived values; the receiver may be nil *)

Definition RequestTokens (c : option Config) : Z :=
  match c with
  | None => DefaultRequestTokensEstimate
  | Some c => if DefaultRequestTokens c <=? 0 then DefaultRequestTokensEstimate
              else DefaultRequestTokens c
  end.

Definition ReservePercent (c : option Config) : Z :=
  match c ≫= CriticalReservePercent with
  | None => DefaultCriticalReservePercent
  | Some r => r
  end.

Definition BestEffortCeiling (c : option Config) : float64 :=
  f64_div (f64_of_Z (100 -! ReservePercent c)) (f64_of_Z 100).

Definition Replicas (c : option Config) : Z :=
  match c ≫= DataplaneReplicas with
  | None => DefaultDataplaneReplicas
  | Some n => n
  end.

(** ** Loading *)

(** [sort.Strings] of a map's keys. *)
Definition sortedKeys {A} (m : gmap string A) : list string :=
  merge_sort String.le (map_to_list m).*1.

Definition validateAdmissionSettings (c : Config) : result unit :=
  let badReserve :=
    match CriticalReservePercent c with
    | Some r => (r <? MinCriticalReservePercent) || (MaxCriticalReservePercent <? r)
    | None => false
    end in
  if badReserve then
    Err ("config validation failed: critical_reserve_percent "
         +:+ fmt_d (default 0 (CriticalReservePercent c)) +:+ " must be between "
         +:+ fmt_d MinCriticalReservePercent +:+ " and " +:+ fmt_d MaxCriticalReservePercent)
  else if DefaultRequestTokens c <? 0 then
    Err ("config validation failed: default_request_tokens " +:+ fmt_d (DefaultRequestTokens c)
         +:+ " cannot be negative")
  else
    match DataplaneReplicas c with
    | Some n => if n <? 1
                then Err ("config validation failed: dataplane_replicas " +:+ fmt_d n
                          +:+ " must be at least 1")
                else Ok tt
    | None => Ok tt
    end.

Section loading.
Context `{GoUnicode}.

Definition normalizedSet (values : list string) : gset string :=
  list_to_set ((λ v, to_lower (trim_space v)) <$> values).

Definition badLimit (limit : option ModelLimit) : bool :=
  match limit with
  | None => true
  | Some l => (MaxRpm l <? 0) || (MaxTpm l <? 0) || ((MaxRpm l =? 0) && (MaxTpm l =? 0))
  end.

(** The body of the loop of [normalizeAllowances] for one key. *)
Definition normalizeAllowance (regions models : gset string) (raw : string)
    (limit : option ModelLimit) (out : gmap string (option ModelLimit))
    : result (gmap string (option ModelLimit)) :=
  let key := to_lower (trim_space raw) in
  let '((location, model), ok) := cut_byte key "/" in
  let prefix := "config validation failed: allowances key " +:+ go_quote raw in
  if negb ok || String.eqb location "" || String.eqb model "" || has_byte "/" model then
    Err (prefix +:+ " must be " +:+ go_quote "location/model")
  else if negb (bool_decide (location ∈ regions)) then
    Err (prefix +:+ ": location " +:+ go_quote location +:+ " is not listed in regions")
  else if negb (bool_decide (model ∈ models)) then
    Err (prefix +:+ ": model " +:+ go_quote model +:+ " is not listed in models")
  else if badLimit limit then
    Err (prefix +:+ " needs max_rpm and/or max_tpm > 0 (and neither negative)")
  else
    match out !! key with
    | Some _ => Err (prefix +:+ " is duplicated (keys are case-insensitive)")
    | None => Ok (<[key := limit]> out)
    end.

Fixpoint normalizeLoop (regions models : gset string)
    (allowances : gmap string (option ModelLimit)) (keys : list string)
    (out : gmap string (option ModelLimit)) : result (gmap string (option ModelLimit)) :=
  match keys with
  | [] => Ok out
  | raw :: keys =>
      let? out := normalizeAllowance regions models raw (mjoin (allowances !! raw)) out in
      normalizeLoop regions models allowances keys out
  end.

Definition withAllowances (c : Config) (a : gmap string (option ModelLimit)) : Config :=
  {| ProjectIDs := ProjectIDs c; Regions := Regions c; Models := Models c;
     PollInterval := PollInterval c; PollTimeout := PollTimeout c;
     SafetyMarginPercent := SafetyMarginPercent c;
     DefaultProjectLimits := DefaultProjectLimits c; Allowances := a;
     CriticalReservePercent := CriticalReservePercent c;
     DataplaneReplicas := DataplaneReplicas c;
     DefaultRequestTokens := DefaultRequestTokens c; CustomPolicies := CustomPolicies c |}.

Definition normalizeAllowances (c : Config) : result Config :=
  if bool_decide (Allowances c = ∅) then
    Err "config validation failed: allowances cannot be empty"
  else
    let? out := normalizeLoop (normalizedSet (Regions c)) (normalizedSet (Models c))
                  (Allowances c) (sortedKeys (Allowances c)) ∅ in
    Ok (withAllowances c out).

(** The two loops of [validateCascadeTargets]. *)
Definition validateStep (c : Config) (regions models : gset string) (name : string) (i : nat)
    (step : CascadeStep) : result unit :=
  let region := to_lower (trim_space (TargetRegion step)) in
  let model := to_lower (trim_space (TargetModel step)) in
  let prefix := "config validation failed: custom_policies." +:+ name +:+ ".cascade["
                +:+ fmt_d (Z.of_nat i) +:+ "]" in
  if negb (bool_decide (region ∈ regions)) then
    Err (prefix +:+ " region " +:+ go_quote (TargetRegion step) +:+ " is not listed in regions")
  else if negb (bool_decide (model ∈ models)) then
    Err (prefix +:+ " target_model " +:+ go_quote (TargetModel step)
         +:+ " is not listed in models")
  else
    match Allowances c !! (region +:+ "/" +:+ model) with
    | None => Err (prefix +:+ " target " +:+ go_quote (region +:+ "/" +:+ model)
                   +:+ " has no entry in allowances")
    | Some _ => Ok tt
    end.

Fixpoint validateSteps (c : Config) (regions models : gset string) (name : string) (i : nat)
    (steps : list CascadeStep) : result unit :=
  match steps with
  | [] => Ok tt
  | step :: steps =>
      let? _ := validateStep c regions models name i step in
      validateSteps c regions models name (S i) steps
  end.

Fixpoint validatePolicies (c : Config) (regions models : gset string)
    (policies : gmap string CustomPolicy) (names : list string) : result unit :=
  match names with
  | [] => Ok tt
  | name :: names =>
      let? _ := validateSteps c regions models name 0
                  (from_option Cascade [] (policies !! name)) in
      validatePolicies c regions models policies names
  end.

Definition validateCascadeTargets (c : Config) : result unit :=
  let policies := default ∅ (CustomPolicies c) in
  validatePolicies c (normalizedSet (Regions c)) (normalizedSet (Models c)) policies
    (sortedKeys policies).

(** The assignments of [LoadConfig] that clamp the polling settings and replace
    nil maps. *)
Definition applyDefaults (c : Config) : Config :=
  let interval := if PollInterval c <? MinPollInterval then MinPollInterval else PollInterval c in
  let timeout :=
    if (PollTimeout c <=? 0) || (interval <? PollTimeout c) then
      if interval <? DefaultPollTimeout then interval else DefaultPollTimeout
    else PollTimeout c in
  let margin :=
    if (SafetyMarginPercent c <? MinSafetyMarginPercent)
       || (MaxSafetyMarginPercent <? SafetyMarginPercent c)
    then MinSafetyMarginPercent else SafetyMarginPercent c in
  {| ProjectIDs := ProjectIDs c; Regions := Regions c; Models := Models c;
     PollInterval := interval; PollTimeout := timeout; SafetyMarginPercent := margin;
     DefaultProjectLimits := Some (default ∅ (DefaultProjectLimits c));
     Allowances := Allowances c;
     CriticalReservePercent := CriticalReservePercent c;
     DataplaneReplicas := DataplaneReplicas c;
     DefaultRequestTokens := DefaultRequestTokens c;
     CustomPolicies := Some (default ∅ (CustomPolicies c)) |}.

(** [file] is the outcome of [os.ReadFile(path)] and [unmarshal] that of
    [yaml.Unmarshal] into an empty [Config]. *)
Definition LoadConfig (path : string) (file : result string) (unmarshal : string → result Config)
    : result Config :=
  match file with
  | Err e => Err ("unable to read config file " +:+ path +:+ ": " +:+ e)
  | Ok f =>
      match unmarshal f with
      | Err e => Err ("unable to unmarshal config file " +:+ path +:+ ": " +:+ e)
      | Ok c =>
          match ProjectIDs c, Regions c, Models c with
          | [], _, _ => Err "config validation failed: ProjectIds cannot be empty"
          | _, [], _ => Err "config validation failed: regions cannot be empty"
          | _, _, [] => Err "config validation failed: models cannot be empty"
          | _, _, _ =>
              let c := applyDefaults c in
              let? _ := validateAdmissionSettings c in
              let? c := normalizeAllowances c in
              let? _ := validateCascadeTargets c in
              Ok c
          end
      end
  end.

End loading.

(** ** What loading guarantees *)

Section loaded.
Context `{GoUnicode}.

(** A normalised allowance key: one location and one model, both listed. *)
Definition validKey (regions models : gset string) (key : string) : Prop :=
  ∃ location model,
    key = location +:+ "/" +:+ model ∧ location ∈ regions ∧ model ∈ models ∧
    location ≠ "" ∧ model ≠ "" ∧ has_byte "/" location = false ∧ has_byte "/" model = false.

Lemma cut_slash key location model :
  cut_byte key "/" = ((location, model), true) →
  key = location +:+ "/" +:+ model ∧ has_byte "/" location = false.
Proof.
  unfold cut_byte. destruct (index_byte key "/") as [i|] eqn:Hi; [|done].
  intros [= <- <-]. apply index_byte_Some in Hi as [Heq Hno]. split; [exact Heq | exact Hno].
Qed.

Lemma normalizeAllowance_Ok regions models raw limit out out' :
  normalizeAllowance regions models raw limit out = Ok out' →
  let key := to_lower (trim_space raw) in
  out' = <[key := limit]> out ∧ out !! key = None ∧
  validKey regions models key ∧ badLimit limit = false.
Proof.
  unfold normalizeAllowance. cbn zeta. set (key := to_lower (trim_space raw)).
  destruct (cut_byte key "/") as [[location model] ok] eqn:Hcut.
  destruct ok; [|done]. apply cut_slash in Hcut as [Hkey Hno]. simpl.
  destruct (String.eqb_spec location "") as [|Hloc]; [done|].
  destruct (String.eqb_spec model "") as [|Hmod]; [done|]. simpl.
  destruct (has_byte "/" model) eqn:Hslash; [done|].
  case_bool_decide; [|done]. simpl. case_bool_decide; [|done]. simpl.
  destruct (badLimit limit); [done|].
  destruct (out !! key) eqn:Hout; [done|]. intros [= <-].
  split_and!; try done. exists location, model. done.
Qed.

Lemma normalizeLoop_Ok regions models allowances keys out out' :
  normalizeLoop regions models allowances keys out = Ok out' →
  out ⊆ out' ∧
  (∀ raw, raw ∈ keys → out' !! to_lower (trim_space raw) = Some (mjoin (allowances !! raw))) ∧
  (∀ key limit, out' !! key = Some limit →
     out !! key = Some limit ∨
     ∃ raw, raw ∈ keys ∧ key = to_lower (trim_space raw) ∧ limit = mjoin (allowances !! raw) ∧
            validKey regions models key ∧ badLimit limit = false).
Proof.
  revert out. induction keys as [|raw keys IH]; simpl; intros out.
  { intros [= <-]. split_and!; [done|set_solver|by auto]. }
  intros (out1 & Hstep & Hloop)%result_bind_Ok.
  apply normalizeAllowance_Ok in Hstep as (-> & Hfresh & Hvalid & Hgood).
  apply IH in Hloop as (Hsub & Hall & Hinv).
  assert (out' !! to_lower (trim_space raw) = Some (mjoin (allowances !! raw))) as Hraw
    by (eapply lookup_weaken; [apply lookup_insert_eq|done]).
  split_and!.
  - etrans; [|exact Hsub]. by apply insert_subseteq.
  - intros r [->|Hr]%elem_of_cons; auto.
  - intros key limit Hk. destruct (Hinv key limit Hk) as [Hin|(r & Hr & Hrest)].
    + destruct (decide (key = to_lower (trim_space raw))) as [->|Hne].
      * rewrite lookup_insert_eq in Hin. injection Hin as <-. right. exists raw. set_solver.
      * rewrite lookup_insert_ne in Hin by done. auto.
    + right. exists r. set_solver.
Qed.

Lemma validateSteps_Ok c regions models name i steps :
  validateSteps c regions models name i steps = Ok tt →
  Forall (λ step, is_Some (Allowances c !!
    (to_lower (trim_space (TargetRegion step)) +:+ "/" +:+
     to_lower (trim_space (TargetModel step))))) steps.
Proof.
  revert i. induction steps as [|step steps IH]; simpl; intros i; [done|].
  intros ([] & Hstep & Hsteps)%result_bind_Ok. constructor; [|by eapply IH].
  unfold validateStep in Hstep.
  case_bool_decide; [|done]. simpl in Hstep. case_bool_decide; [|done]. simpl in Hstep.
  by destruct (Allowances c !! _).
Qed.

Lemma validatePolicies_Ok c regions models policies names :
  validatePolicies c regions models policies names = Ok tt →
  ∀ name policy, name ∈ names → policies !! name = Some policy →
  Forall (λ step, is_Some (Allowances c !!
    (to_lower (trim_space (TargetRegion step)) +:+ "/" +:+
     to_lower (trim_space (TargetModel step))))) (Cascade policy).
Proof.
  induction names as [|n names IH]; simpl; [set_solver|].
  intros ([] & Hsteps & Hrest)%result_bind_Ok name policy Hin Hp.
  apply elem_of_cons in Hin as [->|Hin]; [|by eapply IH].
  rewrite Hp in Hsteps. by eapply validateSteps_Ok.
Qed.

Lemma elem_of_sortedKeys {A} (m : gmap string A) k : k ∈ sortedKeys m ↔ is_Some (m !! k).
Proof.
  unfold sortedKeys. rewrite merge_sort_Permutation, list_elem_of_fmap. split.
  - intros ([k' v] & -> & Hin). apply elem_of_map_to_list in Hin. by exists v.
  - intros [v Hv]. exists (k, v). by rewrite elem_of_map_to_list.
Qed.

(** The properties of a configuration that [LoadConfig] returns. *)
Record valid (c : Config) : Prop := {
  valid_projects : ProjectIDs c ≠ [];
  valid_regions : Regions c ≠ [];
  valid_models : Models c ≠ [];
  valid_interval : MinPollInterval ≤ PollInterval c;
  valid_timeout : 0 < PollTimeout c ≤ PollInterval c;
  valid_margin : 10 ≤ SafetyMarginPercent c ≤ 90;
  valid_reserve : 0 ≤ ReservePercent (Some c) ≤ 90;
  valid_replicas : 1 ≤ Replicas (Some c);
  valid_tokens : 0 ≤ DefaultRequestTokens c;
  valid_maps : is_Some (DefaultProjectLimits c) ∧ is_Some (CustomPolicies c);
  valid_allowance key limit :
    Allowances c !! key = Some limit →
    validKey (normalizedSet (Regions c)) (normalizedSet (Models c)) key ∧
    (∃ raw, key = to_lower (trim_space raw)) ∧
    ∃ l, limit = Some l ∧ 0 ≤ MaxRpm l ∧ 0 ≤ MaxTpm l ∧ (0 < MaxRpm l ∨ 0 < MaxTpm l);
  valid_cascade policies name policy step :
    CustomPolicies c = Some policies → policies !! name = Some policy → step ∈ Cascade policy →
    is_Some (Allowances c !! (to_lower (trim_space (TargetRegion step)) +:+ "/" +:+
                              to_lower (trim_space (TargetModel step))))
}.

Lemma badLimit_false limit :
  badLimit limit = false →
  ∃ l, limit = Some l ∧ 0 ≤ MaxRpm l ∧ 0 ≤ MaxTpm l ∧ (0 < MaxRpm l ∨ 0 < MaxTpm l).
Proof.
  destruct limit as [l|]; [|done]. simpl. intros Hbad. exists l.
  apply orb_false_iff in Hbad as [[?%Z.ltb_ge ?%Z.ltb_ge]%orb_false_iff Hz].
  apply andb_false_iff in Hz as [?%Z.eqb_neq|?%Z.eqb_neq]; (split; [done|lia]).
Qed.

Lemma applyDefaults_polling c :
  let d := applyDefaults c in
  MinPollInterval ≤ PollInterval d ∧ 0 < PollTimeout d ≤ PollInterval d ∧
  10 ≤ SafetyMarginPercent d ≤ 90.
Proof.
  unfold applyDefaults, MinPollInterval, DefaultPollTimeout, MinSafetyMarginPercent,
    MaxSafetyMarginPercent, second. simpl.
  repeat match goal with
  | |- context [?a <? ?b] => destruct (Z.ltb_spec a b); simpl
  | |- context [?a <=? ?b] => destruct (Z.leb_spec a b); simpl
  end; lia.
Qed.

Lemma validateAdmissionSettings_Ok c :
  validateAdmissionSettings c = Ok tt →
  0 ≤ ReservePercent (Some c) ≤ 90 ∧ 1 ≤ Replicas (Some c) ∧ 0 ≤ DefaultRequestTokens c.
Proof.
  unfold validateAdmissionSettings, ReservePercent, Replicas, MinCriticalReservePercent,
    MaxCriticalReservePercent, DefaultCriticalReservePercent, DefaultDataplaneReplicas. simpl.
  destruct (CriticalReservePercent c) as [r|]; simpl;
    [destruct (Z.ltb_spec r 0), (Z.ltb_spec 90 r); simpl; try done|];
    (destruct (Z.ltb_spec (DefaultRequestTokens c) 0); [done|]);
    (destruct (DataplaneReplicas c) as [n|]; simpl; [destruct (Z.ltb_spec n 1); [done|]|]);
    lia.
Qed.

Lemma LoadConfig_Ok path file unmarshal c :
  LoadConfig path file unmarshal = Ok c → valid c.
Proof.
  unfold LoadConfig. destruct file as [f|]; [|done]. destruct (unmarshal f) as [raw|]; [|done].
  destruct (ProjectIDs raw) as [|p ps] eqn:HP; [done|].
  destruct (Regions raw) as [|r rs] eqn:HR; [done|].
  destruct (Models raw) as [|m ms] eqn:HM; [done|].
  intros ([] & Hadm & Hrest)%result_bind_Ok. cbn zeta in Hrest.
  apply result_bind_Ok in Hrest as (c1 & Hnorm & Hrest).
  apply result_bind_Ok in Hrest as ([] & Hcasc & [= <-]).
  unfold normalizeAllowances in Hnorm. case_bool_decide; [done|].
  apply result_bind_Ok in Hnorm as (out & Hloop & [= <-]).
  apply normalizeLoop_Ok in Hloop as (_ & _ & Hinv).
  apply validateAdmissionSettings_Ok in Hadm as (Hres & Hrep & Htok).
  pose proof (applyDefaults_polling raw) as (Hpi & Hpt & Hsm).
  constructor; try done; simpl.
  - by rewrite HP.
  - by rewrite HR.
  - by rewrite HM.
  - intros key limit Hk. destruct (Hinv key limit Hk) as [Hin|(raw' & _ & -> & -> & Hv & Hb)].
    { by rewrite lookup_empty in Hin. }
    eauto using badLimit_false.
  - intros policies name policy step [= <-] Hp Hstep.
    unfold validateCascadeTargets in Hcasc. simpl in Hcasc.
    eapply validatePolicies_Ok in Hcasc; [|by apply elem_of_sortedKeys|exact Hp].
    rewrite Forall_forall in Hcasc. by apply Hcasc.
Qed.

(** C28: every configuration that [LoadConfig] returns is valid: polling settings
    are within their bounds, the critical reserve is between 0 and 90 percent and
    the replica count at least 1, every allowance key is a lower-case
    location/model pair drawn from the listed regions and models with a
    positive limit, and every cascade step has an allowance. *)
Theorem LoadConfig_valid path file unmarshal c :
  LoadConfig path file unmarshal = Ok c → valid c.
Proof. apply LoadConfig_Ok. Qed.

End loaded.

End Config.
