(* ===== verification/Bucket.v ===== *)
(** * Token buckets: [pkg/governor/bucket.go]

    The dual-rate (RPM and TPM) token bucket that a data plane replica keeps per
    allowance. The mutex makes every method atomic, so a method is a function
    from the bucket (and the clock reading [now] it takes) to the new bucket. *)

From S2P Require Import Prelude.

Module TokenBucket.

(** The struct, less its mutex and its clock function: a method that calls
    [tb.now()] takes the reading as its argument. *)
Record TokenBucket := mkTokenBucket {
  maxRPM : Z;
  maxTPM : Z;
  currentRPM : Z;
  currentTPM : Z;
  lastRefillRPM : Time;
  lastRefillTPM : Time
}.

(** [NewTokenBucketWithClock]; [now] is the clock's first reading. *)
Definition NewTokenBucketWithClock (maxRPM maxTPM : Z) (now : Time) : TokenBucket :=
  {| maxRPM := maxRPM; maxTPM := maxTPM;
     currentRPM := maxRPM; currentTPM := maxTPM;
     lastRefillRPM := now; lastRefillTPM := now |}.

(** ** Refill

    [refillLocked] treats its two dimensions by the same statements, first TPM
    and then RPM; [refillDim] is those statements for a dimension with capacity
    [mx], balance [cur] and clock [last]. *)

Definition refillDim (mx cur : Z) (last now : Time) : Z * Time :=
  let elapsed := time_sub now last in
  if (0 <? elapsed) && (0 <? mx) then
    let nanosPerToken := minute /! mx in
    if 0 <? nanosPerToken then
      let newTokens := elapsed /! nanosPerToken in
      if 0 <? newTokens then
        (Z.min mx (cur +! newTokens), time_add last (newTokens *! nanosPerToken))
      else (cur, last)
    else (cur, last)
  else (cur, last).

Definition refillLocked (tb : TokenBucket) (now : Time) : TokenBucket :=
  let tpm := refillDim (maxTPM tb) (currentTPM tb) (lastRefillTPM tb) now in
  let rpm := refillDim (maxRPM tb) (currentRPM tb) (lastRefillRPM tb) now in
  {| maxRPM := maxRPM tb; maxTPM := maxTPM tb;
     currentRPM := rpm.1; currentTPM := tpm.1;
     lastRefillRPM := rpm.2; lastRefillTPM := tpm.2 |}.

(** Assignments to the balances. *)
Definition withBalance (tb : TokenBucket) (rpm tpm : Z) : TokenBucket :=
  {| maxRPM := maxRPM tb; maxTPM := maxTPM tb;
     currentRPM := rpm; currentTPM := tpm;
     lastRefillRPM := lastRefillRPM tb; lastRefillTPM := lastRefillTPM tb |}.

(** ** The methods *)

Definition SetCapacity (tb : TokenBucket) (rpm tpm : Z) (now : Time) : TokenBucket :=
  let tb := refillLocked tb now in
  {| maxRPM := rpm; maxTPM := tpm;
     currentRPM := if rpm <? currentRPM tb then rpm else currentRPM tb;
     currentTPM := if tpm <? currentTPM tb then tpm else currentTPM tb;
     lastRefillRPM := lastRefillRPM tb; lastRefillTPM := lastRefillTPM tb |}.

Definition TryAcquire (tb : TokenBucket) (tokens : Z) (now : Time) : bool * TokenBucket :=
  let tb := refillLocked tb now in
  let reqTokens := if tokens <? 0 then 0 else tokens in
  if (1 <=? currentRPM tb) && (reqTokens <=? currentTPM tb) then
    (true, withBalance tb (currentRPM tb -! 1) (currentTPM tb -! reqTokens))
  else (false, tb).

(** [maxRPM * floorPercent / 100]. *)
Definition floorOf (mx floorPercent : Z) : Z := (mx *! floorPercent) /! 100.

Definition TryAcquireAbove (tb : TokenBucket) (tokens floorPercent : Z) (now : Time)
    : bool * TokenBucket :=
  let tb := refillLocked tb now in
  let reqTokens := Z.max tokens 0 in
  let floorRPM := floorOf (maxRPM tb) floorPercent in
  let floorTPM := floorOf (maxTPM tb) floorPercent in
  if (floorRPM <=? currentRPM tb -! 1) && (floorTPM <=? currentTPM tb -! reqTokens) then
    (true, withBalance tb (currentRPM tb -! 1) (currentTPM tb -! reqTokens))
  else (false, tb).

Definition ForceAcquire (tb : TokenBucket) (tokens : Z) (now : Time) : bool * TokenBucket :=
  let tb := refillLocked tb now in
  let reqTokens := Z.max tokens 0 in
  let fitted := (1 <=? currentRPM tb) && (reqTokens <=? currentTPM tb) in
  (fitted, withBalance tb (Z.max (currentRPM tb -! 1) (wrap64 (- maxRPM tb)))
                          (Z.max (currentTPM tb -! reqTokens) (wrap64 (- maxTPM tb)))).

Definition Refund (tb : TokenBucket) (tokens : Z) : TokenBucket :=
  if tokens <=? 0 then tb
  else withBalance tb (currentRPM tb) (Z.min (maxTPM tb) (currentTPM tb +! tokens)).

Definition GetAvailable (tb : TokenBucket) (now : Time) : (Z * Z) * TokenBucket :=
  let tb := refillLocked tb now in
  ((currentRPM tb, currentTPM tb), tb).

Definition SyncHeadroom (tb : TokenBucket) (headroomRPM headroomTPM : Z) (now : Time)
    : TokenBucket :=
  let tb := refillLocked tb now in
  {| maxRPM := maxRPM tb; maxTPM := maxTPM tb;
     currentRPM := if headroomRPM <=? 0 then 0 else Z.min (currentRPM tb) headroomRPM;
     currentTPM := if headroomTPM <=? 0 then 0 else Z.min (currentTPM tb) headroomTPM;
     lastRefillRPM := now; lastRefillTPM := now |}.

(** ** One dimension

    The facts about refill are proved once, for a dimension. *)

(** The largest capacity the theorems cover. [share] and [fractionOf] stay below
    it for any allowance up to [2^56], and so do floors: [90 * 2^56 < 2^63]. *)
Definition maxCapacity : Z := 2 ^ 56.

(** How long after its creation, at [start], a bucket is studied: 146 years. *)
Definition horizon : Z := 2 ^ 62.

(** The range of one dimension of a bucket created at [start] and last read at
    [now]. A balance may be in debt: [ForceAcquire] lets it go down to minus the
    capacity of the moment, and a later [SetCapacity] may shrink the capacity
    and leave a debt beyond it, but never one beyond [maxCapacity]. *)
Definition dimOk (start : Time) (mx cur : Z) (last now : Time) : Prop :=
  0 < mx ≤ maxCapacity ∧ - maxCapacity ≤ cur ≤ mx ∧
  start ≤ last ≤ now ∧ now ≤ start + horizon.

(** Nanoseconds to earn one unit; 0 when the capacity exceeds one per
    nanosecond, and then nothing is ever earned. *)
Definition nanosPer (mx : Z) : Z := minute / mx.

(** Units earned between two times. *)
Definition earned (mx : Z) (last now : Time) : Z := (now - last) / nanosPer mx.

Ltac dim_unfold := unfold dimOk, maxCapacity, horizon, minute, second in *.

Section dimension.
Context (start : Time) (mx : Z).

Lemma nanosPer_range : 0 < mx → 0 ≤ nanosPer mx ≤ minute.
Proof.
  intros. unfold nanosPer, minute, second. split.
  - apply Z.div_pos; lia.
  - apply Z.div_le_upper_bound; nia.
Qed.

Lemma earned_nonneg last now : 0 < mx → last ≤ now → 0 ≤ earned mx last now.
Proof.
  intros Hmx Ht. unfold earned. pose proof (nanosPer_range Hmx).
  destruct (decide (nanosPer mx = 0)) as [->|]; [rewrite Z.div_0_r; lia|].
  apply Z.div_pos; lia.
Qed.

Lemma earned_cost last now :
  0 < mx → last ≤ now → 0 ≤ earned mx last now * nanosPer mx ≤ now - last.
Proof.
  intros Hmx Ht. pose proof (earned_nonneg last now Hmx Ht) as Hpos.
  pose proof (nanosPer_range Hmx). split; [nia|].
  unfold earned in *. destruct (decide (nanosPer mx = 0)) as [->|]; [lia|].
  rewrite Z.mul_comm. apply Z.mul_div_le. lia.
Qed.

Lemma earned_le last now : 0 < mx → last ≤ now → earned mx last now ≤ now - last.
Proof.
  intros Hmx Ht. unfold earned. pose proof (nanosPer_range Hmx).
  destruct (decide (nanosPer mx = 0)) as [->|]; [rewrite Z.div_0_r; lia|].
  apply Z.div_le_upper_bound; nia.
Qed.

(** The refill code computes: the balance plus what was earned, capped; the
    clock advances by the time those units cost, never past [now]. *)
Lemma refillDim_spec cur last now :
  dimOk start mx cur last now →
  refillDim mx cur last now =
    (Z.min mx (cur + earned mx last now), last + earned mx last now * nanosPer mx).
Proof.
  intros Hok. pose proof Hok as (Hmx & Hcur & Hlast & Hnow).
  pose proof (nanosPer_range ltac:(lia)) as Hnp.
  pose proof (earned_nonneg last now ltac:(lia) ltac:(lia)).
  pose proof (earned_cost last now ltac:(lia) ltac:(lia)).
  pose proof (earned_le last now ltac:(lia) ltac:(lia)).
  unfold refillDim, time_add.
  rewrite time_sub_exact by (dim_unfold; int64_solve).
  rewrite (Z.quot_div_nonneg minute mx) by (dim_unfold; lia).
  fold (nanosPer mx). rewrite (wrap64_id (nanosPer mx)) by (dim_unfold; int64_solve).
  destruct (Z.ltb_spec 0 (now - last)); destruct (Z.ltb_spec 0 mx); simpl; try lia.
  2: { replace now with last in * by lia.
       replace (earned mx last last) with 0 in * by lia. f_equal; lia. }
  destruct (Z.ltb_spec 0 (nanosPer mx)) as [Hp|Hp].
  - rewrite Z.quot_div_nonneg by lia. fold (earned mx last now).
    rewrite (wrap64_id (earned mx last now)) by (dim_unfold; int64_solve).
    destruct (Z.ltb_spec 0 (earned mx last now)).
    + rewrite !wrap64_id by (dim_unfold; int64_solve). done.
    + replace (earned mx last now) with 0 by lia. f_equal; lia.
  - assert (nanosPer mx = 0) as Hz by lia.
    assert (earned mx last now = 0) as ->
      by (unfold earned; rewrite Hz; apply Z.div_0_r).
    f_equal; lia.
Qed.

Lemma refillDim_ok cur last now :
  dimOk start mx cur last now →
  dimOk start mx (refillDim mx cur last now).1 (refillDim mx cur last now).2 now.
Proof.
  intros Hok. rewrite refillDim_spec by done. simpl.
  destruct Hok as (Hmx & Hcur & Hlast & Hnow).
  pose proof (earned_nonneg last now ltac:(lia) ltac:(lia)).
  pose proof (earned_cost last now ltac:(lia) ltac:(lia)).
  unfold dimOk. lia.
Qed.

(** Earning is additive: what is earned by [t2] does not depend on whether the
    bucket was looked at in between. *)
Lemma earned_split last t1 t2 :
  earned mx (last + earned mx last t1 * nanosPer mx) t2 =
    earned mx last t2 - earned mx last t1.
Proof.
  unfold earned at 1 3. destruct (decide (nanosPer mx = 0)) as [Hz|Hz].
  - unfold earned. rewrite Hz, !Z.div_0_r. lia.
  - replace (t2 - (last + earned mx last t1 * nanosPer mx))
      with ((t2 - last) + (- earned mx last t1) * nanosPer mx) by lia.
    rewrite Z.div_add by done. unfold earned. lia.
Qed.

Lemma refillDim_split cur last t1 t2 :
  dimOk start mx cur last t1 → t1 ≤ t2 ≤ start + horizon →
  refillDim mx (refillDim mx cur last t1).1 (refillDim mx cur last t1).2 t2 =
    refillDim mx cur last t2.
Proof.
  intros Hok Ht. pose proof (refillDim_ok _ _ _ Hok) as Hok1.
  pose proof Hok as (Hmx & Hcur & Hlast & Hnow).
  assert (dimOk start mx cur last t2) as Hok2 by (unfold dimOk in *; lia).
  pose proof (earned_nonneg (last + earned mx last t1 * nanosPer mx) t2 ltac:(lia)) as Hn2.
  pose proof (earned_cost last t1 ltac:(lia) ltac:(lia)) as Hc.
  rewrite refillDim_spec.
  2: { unfold dimOk in *. rewrite refillDim_spec in * by done. simpl in *. lia. }
  rewrite !refillDim_spec by done. simpl.
  rewrite earned_split in *. f_equal; lia.
Qed.

(** A refilled clock has nothing more to give at the same time. *)
Lemma refillDim_again cur last now c :
  dimOk start mx cur last now → - maxCapacity ≤ c ≤ mx →
  refillDim mx c (refillDim mx cur last now).2 now = (c, (refillDim mx cur last now).2).
Proof.
  intros Hok Hc. pose proof (refillDim_ok _ _ _ Hok) as Hok1.
  rewrite (refillDim_spec c) by (unfold dimOk in *; lia).
  rewrite refillDim_spec by done. simpl. rewrite earned_split, Z.sub_diag. f_equal; lia.
Qed.

Lemma dimOk_later cur last now now' :
  dimOk start mx cur last now → now ≤ now' ≤ start + horizon →
  dimOk start mx cur last now'.
Proof. unfold dimOk. lia. Qed.

(** What a dimension could hand out by time [t] if the cap never bit. Refill
    never raises it, so it bounds what is granted (see [grants_bounded]). *)
Definition virtual (cur : Z) (last t : Time) : Z := cur + earned mx last t.

Lemma virtual_refill cur last now t :
  dimOk start mx cur last now → now ≤ t →
  virtual (refillDim mx cur last now).1 (refillDim mx cur last now).2 t ≤ virtual cur last t.
Proof.
  intros Hok Ht. rewrite refillDim_spec by done. unfold virtual. simpl.
  rewrite earned_split. lia.
Qed.

Lemma virtual_ge cur last t : 0 < mx → last ≤ t → cur ≤ virtual cur last t.
Proof. intros. unfold virtual. pose proof (earned_nonneg last t). lia. Qed.

(** Waiting long enough fills the dimension, whatever its debt. *)
Lemma refillDim_full cur last now :
  dimOk start mx cur last now → 0 < nanosPer mx →
  (mx - cur) * nanosPer mx ≤ now - last →
  (refillDim mx cur last now).1 = mx.
Proof.
  intros Hok Hp Hwait. rewrite refillDim_spec by done. simpl.
  assert (mx - cur ≤ earned mx last now); [|lia].
  unfold earned. apply Z.div_le_lower_bound; lia.
Qed.

(** Above one unit per nanosecond the division truncates to zero and the
    dimension never refills. *)
Lemma nanosPer_zero : minute < mx → nanosPer mx = 0.
Proof. intros. unfold nanosPer. apply Z.div_small. unfold minute, second in *. lia. Qed.

Lemma refillDim_frozen cur last now :
  dimOk start mx cur last now → minute < mx → refillDim mx cur last now = (cur, last).
Proof.
  intros Hok Hbig. rewrite refillDim_spec by done. unfold earned.
  rewrite nanosPer_zero, Z.div_0_r by done. destruct Hok as (_ & ? & _). f_equal; lia.
Qed.

Lemma nanosPer_pos : 0 < mx ≤ minute → 0 < nanosPer mx.
Proof. intros. unfold nanosPer. apply Z.div_str_pos. lia. Qed.

(** The truncated rate is never below the configured one. *)
Lemma nanosPer_mul : 0 < mx → mx * nanosPer mx ≤ minute.
Proof. intros. unfold nanosPer. apply Z.mul_div_le. lia. Qed.

(** Floors do not overflow, and lie between nothing and the capacity. *)
Lemma floorOf_range pct :
  0 < mx ≤ maxCapacity → 0 ≤ pct ≤ 100 →
  floorOf mx pct = mx * pct / 100 ∧ 0 ≤ floorOf mx pct ≤ mx.
Proof.
  intros Hmx Hpct. unfold floorOf, maxCapacity in *.
  assert (0 ≤ mx * pct ≤ 2 ^ 63 - 1) by nia.
  rewrite (wrap64_id (mx * pct)) by int64_solve.
  rewrite Z.quot_div_nonneg by lia.
  assert (0 ≤ mx * pct / 100 ≤ mx).
  { split; [apply Z.div_pos; lia | apply Z.div_le_upper_bound; nia]. }
  rewrite wrap64_id by int64_solve. done.
Qed.

Lemma floorOf_below pct :
  0 < mx ≤ maxCapacity → 0 ≤ pct ≤ 90 → floorOf mx pct < mx.
Proof.
  intros Hmx Hpct. destruct (floorOf_range pct Hmx ltac:(lia)) as [-> _].
  apply Z.div_lt_upper_bound; nia.
Qed.

End dimension.

(** ** Whole buckets *)

Definition bucketOk (start now : Time) (tb : TokenBucket) : Prop :=
  dimOk start (maxRPM tb) (currentRPM tb) (lastRefillRPM tb) now ∧
  dimOk start (maxTPM tb) (currentTPM tb) (lastRefillTPM tb) now.

(** The largest token estimate the methods are called with; [EstimateTokens]
    caps at ten million, far below it. *)
Definition maxTokens : Z := 2 ^ 56.

(** A method call, with its arguments. *)
Inductive op : Type :=
  | OpSetCapacity (rpm tpm : Z)
  | OpTryAcquire (tokens : Z)
  | OpTryAcquireAbove (tokens floorPercent : Z)
  | OpForceAcquire (tokens : Z)
  | OpRefund (tokens : Z)
  | OpGetAvailable
  | OpSyncHeadroom (headroomRPM headroomTPM : Z).

(** The new bucket, and the requests and tokens that were granted from the
    available balance (debt taken by [ForceAcquire] is not counted). *)
Definition step (o : op) (now : Time) (tb : TokenBucket) : (Z * Z) * TokenBucket :=
  match o with
  | OpSetCapacity rpm tpm => ((0, 0), SetCapacity tb rpm tpm now)
  | OpTryAcquire tokens =>
      let '(ok, tb') := TryAcquire tb tokens now in
      (if ok : bool then (1, Z.max tokens 0) else (0, 0), tb')
  | OpTryAcquireAbove tokens pct =>
      let '(ok, tb') := TryAcquireAbove tb tokens pct now in
      (if ok : bool then (1, Z.max tokens 0) else (0, 0), tb')
  | OpForceAcquire tokens => ((0, 0), (ForceAcquire tb tokens now).2)
  | OpRefund tokens => ((0, 0), Refund tb tokens)
  | OpGetAvailable => ((0, 0), (GetAvailable tb now).2)
  | OpSyncHeadroom rpm tpm => ((0, 0), SyncHeadroom tb rpm tpm now)
  end.

(** A sequence of calls, each with the time its clock read. *)
Fixpoint run (ops : list (op * Time)) (tb : TokenBucket) : (Z * Z) * TokenBucket :=
  match ops with
  | [] => ((0, 0), tb)
  | (o, now) :: ops =>
      let '((req, tok), tb') := step o now tb in
      let '((reqs, toks), tb'') := run ops tb' in
      ((req + reqs, tok + toks), tb'')
  end.

(** Arguments the rest of the program can pass. *)
Definition opOk (o : op) : Prop :=
  match o with
  | OpSetCapacity rpm tpm => 0 < rpm ≤ maxCapacity ∧ 0 < tpm ≤ maxCapacity
  | OpTryAcquire tokens | OpForceAcquire tokens | OpRefund tokens => tokens ≤ maxTokens
  | OpTryAcquireAbove tokens pct => tokens ≤ maxTokens ∧ 0 ≤ pct ≤ 90
  | OpGetAvailable | OpSyncHeadroom _ _ => True
  end.

(** The clock does not go backwards, and stays within the horizon. *)
Fixpoint clocked (start now : Time) (ops : list (op * Time)) : Prop :=
  match ops with
  | [] => now ≤ start + horizon
  | (_, t) :: ops => now ≤ t ∧ clocked start t ops
  end.

(** ** The range invariant *)

Lemma bucketOk_later start now now' tb :
  bucketOk start now tb → now ≤ now' ≤ start + horizon → bucketOk start now' tb.
Proof. intros [] ?. split; eapply dimOk_later; eauto. Qed.

Lemma refillLocked_ok start now tb :
  bucketOk start now tb → bucketOk start now (refillLocked tb now).
Proof. intros []. split; apply refillDim_ok; done. Qed.

Lemma refillLocked_max tb now :
  maxRPM (refillLocked tb now) = maxRPM tb ∧ maxTPM (refillLocked tb now) = maxTPM tb.
Proof. done. Qed.

Lemma NewTokenBucket_ok start rpm tpm :
  0 < rpm ≤ maxCapacity → 0 < tpm ≤ maxCapacity →
  bucketOk start start (NewTokenBucketWithClock rpm tpm start).
Proof. unfold bucketOk, dimOk, horizon. simpl. lia. Qed.

(** [refilled tb now as tb' H] replaces the refilled bucket by a variable [tb']
    of which only the invariant [H] is kept. *)
Ltac refilled Hok tb now :=
  let H := fresh "Hrefilled" in
  pose proof (refillLocked_ok _ _ _ Hok) as H;
  generalize dependent (refillLocked tb now); intros ? H.

(** [bucket_solve] decides what is left of a range goal once a method is
    unfolded: its comparisons are split and its wrap-around removed. *)
Ltac bucket_solve :=
  unfold bucketOk, dimOk, maxTokens, maxCapacity, horizon in *; simpl in *;
  repeat match goal with
  | |- context [?a <? ?b] => destruct (Z.ltb_spec a b)
  | |- context [?a <=? ?b] => destruct (Z.leb_spec a b)
  end; simpl in *; unwrap; lia.

(** ** What the acquiring methods do, without wrap-around *)

(** Room for one request of [tokens] above floors, in a refilled bucket. *)
Definition roomAbove (tb : TokenBucket) (tokens floorRPM floorTPM : Z) : bool :=
  (floorRPM + 1 <=? currentRPM tb) && (floorTPM + Z.max tokens 0 <=? currentTPM tb).

(** One request of [tokens] taken. *)
Definition take (tb : TokenBucket) (tokens : Z) : TokenBucket :=
  withBalance tb (currentRPM tb - 1) (currentTPM tb - Z.max tokens 0).

Lemma TryAcquire_spec start now tb tokens :
  bucketOk start now tb → tokens ≤ maxTokens →
  TryAcquire tb tokens now =
    let tb' := refillLocked tb now in
    if roomAbove tb' tokens 0 0 then (true, take tb' tokens) else (false, tb').
Proof.
  intros Hok Htok. unfold TryAcquire, roomAbove, take. refilled Hok tb now. simpl.
  replace (if tokens <? 0 then 0 else tokens) with (Z.max tokens 0)
    by (destruct (Z.ltb_spec tokens 0); lia).
  unfold bucketOk, dimOk, maxTokens, maxCapacity in *. unwrap. done.
Qed.

Lemma leb_sub a b c : (a <=? b - c) = (a + c <=? b).
Proof. apply eq_true_iff_eq. rewrite !Z.leb_le. lia. Qed.

Lemma TryAcquireAbove_spec start now tb tokens pct :
  bucketOk start now tb → tokens ≤ maxTokens →
  TryAcquireAbove tb tokens pct now =
    let tb' := refillLocked tb now in
    if roomAbove tb' tokens (floorOf (maxRPM tb) pct) (floorOf (maxTPM tb) pct)
    then (true, take tb' tokens) else (false, tb').
Proof.
  intros Hok Htok. unfold TryAcquireAbove, roomAbove, take.
  destruct (refillLocked_max tb now) as [-> ->]. refilled Hok tb now. simpl.
  unfold bucketOk, dimOk, maxTokens, maxCapacity in *. unwrap. rewrite !leb_sub. done.
Qed.

Lemma ForceAcquire_spec start now tb tokens :
  bucketOk start now tb → tokens ≤ maxTokens →
  ForceAcquire tb tokens now =
    let tb' := refillLocked tb now in
    (roomAbove tb' tokens 0 0,
     withBalance tb' (Z.max (currentRPM tb' - 1) (- maxRPM tb))
                     (Z.max (currentTPM tb' - Z.max tokens 0) (- maxTPM tb))).
Proof.
  intros Hok Htok. unfold ForceAcquire, roomAbove.
  destruct (refillLocked_max tb now) as [-> ->]. pose proof Hok as [? ?].
  refilled Hok tb now. simpl.
  unfold bucketOk, dimOk, maxTokens, maxCapacity in *. unwrap. done.
Qed.

Lemma take_ok start now tb tokens fr ft :
  bucketOk start now tb → 0 ≤ fr → 0 ≤ ft → roomAbove tb tokens fr ft = true →
  bucketOk start now (take tb tokens).
Proof.
  unfold roomAbove. intros Hok Hfr Hft [?%Z.leb_le ?%Z.leb_le]%andb_prop.
  unfold take. bucket_solve.
Qed.

Lemma bucket_floors start now tb pct :
  bucketOk start now tb → 0 ≤ pct ≤ 90 →
  0 ≤ floorOf (maxRPM tb) pct < maxRPM tb ∧ 0 ≤ floorOf (maxTPM tb) pct < maxTPM tb.
Proof.
  intros [[] []] Hpct.
  pose proof (floorOf_range (maxRPM tb) pct). pose proof (floorOf_range (maxTPM tb) pct).
  pose proof (floorOf_below (maxRPM tb) pct). pose proof (floorOf_below (maxTPM tb) pct).
  intuition lia.
Qed.

(** Every method keeps a bucket in range. *)
Lemma step_ok start t0 t tb o :
  bucketOk start t0 tb → opOk o → t0 ≤ t ≤ start + horizon →
  bucketOk start t (step o t tb).2.
Proof.
  intros Hok Hop Ht. apply (bucketOk_later _ _ t) in Hok; [|done].
  destruct o; cbn [step opOk snd] in Hop |- *.
  - unfold SetCapacity. refilled Hok tb t. bucket_solve.
  - rewrite (TryAcquire_spec start) by done. simpl.
    destruct (roomAbove _ _ _ _) eqn:Hroom; simpl; [|by apply refillLocked_ok].
    eapply take_ok, Hroom; [by apply refillLocked_ok|lia..].
  - destruct Hop as [Htok Hpct]. pose proof (bucket_floors _ _ _ _ Hok Hpct).
    rewrite (TryAcquireAbove_spec start) by done. simpl.
    destruct (roomAbove _ _ _ _) eqn:Hroom; simpl; [|by apply refillLocked_ok].
    eapply take_ok, Hroom; [by apply refillLocked_ok|lia..].
  - rewrite (ForceAcquire_spec start) by done. pose proof Hok as [? ?]. refilled Hok tb t.
    bucket_solve.
  - unfold Refund. bucket_solve.
  - apply refillLocked_ok. done.
  - unfold SyncHeadroom. refilled Hok tb t. bucket_solve.
Qed.

(** The time of the last call. *)
Fixpoint lastTime (now : Time) (ops : list (op * Time)) : Time :=
  match ops with
  | [] => now
  | (_, t) :: ops => lastTime t ops
  end.

Lemma clocked_last start now ops : clocked start now ops → now ≤ lastTime now ops ≤ start + horizon.
Proof.
  revert now. induction ops as [|[o t] ops IH]; simpl; intros now Hc; [lia|].
  destruct Hc as [? Hc]. specialize (IH _ Hc). lia.
Qed.

Lemma run_cons o t ops tb :
  run ((o, t) :: ops) tb =
    let '(g, tb') := step o t tb in
    let '(gs, tb'') := run ops tb' in ((g.1 + gs.1, g.2 + gs.2), tb'').
Proof. simpl. by destruct (step o t tb) as [[] tb'], (run ops tb') as [[] ?]. Qed.

Lemma run_ok start now tb ops :
  bucketOk start now tb → Forall (λ e, opOk e.1) ops → clocked start now ops →
  bucketOk start (lastTime now ops) (run ops tb).2.
Proof.
  revert now tb. induction ops as [|[o t] ops IH]; intros now tb Hok Hops Hc; [done|].
  apply Forall_cons in Hops as [Ho Hops]. destruct Hc as [Ht Hc].
  pose proof (clocked_last _ _ _ Hc).
  assert (bucketOk start t (step o t tb).2) as Hok' by (eapply step_ok; eauto; lia).
  rewrite run_cons. destruct (step o t tb) as [g tb']. specialize (IH _ _ Hok' Hops Hc).
  simpl in *. by destruct (run ops tb').
Qed.

(** ** The same methods on mathematical integers

    A reference without machine integers: nothing wraps and times have no bounds. *)

Definition exactRefillDim (mx cur : Z) (last now : Time) : Z * Time :=
  let elapsed := now - last in
  if (0 <? elapsed) && (0 <? mx) then
    let nanosPerToken := Z.quot minute mx in
    if 0 <? nanosPerToken then
      let newTokens := Z.quot elapsed nanosPerToken in
      if 0 <? newTokens then (Z.min mx (cur + newTokens), last + newTokens * nanosPerToken)
      else (cur, last)
    else (cur, last)
  else (cur, last).

Definition exactRefill (tb : TokenBucket) (now : Time) : TokenBucket :=
  let tpm := exactRefillDim (maxTPM tb) (currentTPM tb) (lastRefillTPM tb) now in
  let rpm := exactRefillDim (maxRPM tb) (currentRPM tb) (lastRefillRPM tb) now in
  mkTokenBucket (maxRPM tb) (maxTPM tb) rpm.1 tpm.1 rpm.2 tpm.2.

Definition exactStep (o : op) (now : Time) (tb : TokenBucket) : (Z * Z) * TokenBucket :=
  let full := exactRefill tb now in
  match o with
  | OpSetCapacity rpm tpm =>
      ((0, 0), mkTokenBucket rpm tpm (Z.min rpm (currentRPM full)) (Z.min tpm (currentTPM full))
                 (lastRefillRPM full) (lastRefillTPM full))
  | OpTryAcquire tokens =>
      let n := Z.max tokens 0 in
      if bool_decide (1 ≤ currentRPM full ∧ n ≤ currentTPM full)
      then ((1, n), withBalance full (currentRPM full - 1) (currentTPM full - n))
      else ((0, 0), full)
  | OpTryAcquireAbove tokens pct =>
      let n := Z.max tokens 0 in
      if bool_decide (Z.quot (maxRPM tb * pct) 100 ≤ currentRPM full - 1 ∧
                      Z.quot (maxTPM tb * pct) 100 ≤ currentTPM full - n)
      then ((1, n), withBalance full (currentRPM full - 1) (currentTPM full - n))
      else ((0, 0), full)
  | OpForceAcquire tokens =>
      ((0, 0), withBalance full (Z.max (currentRPM full - 1) (- maxRPM tb))
                                (Z.max (currentTPM full - Z.max tokens 0) (- maxTPM tb)))
  | OpRefund tokens =>
      ((0, 0), if tokens <=? 0 then tb
               else withBalance tb (currentRPM tb) (Z.min (maxTPM tb) (currentTPM tb + tokens)))
  | OpGetAvailable => ((0, 0), full)
  | OpSyncHeadroom rpm tpm =>
      ((0, 0), mkTokenBucket (maxRPM tb) (maxTPM tb)
                 (if rpm <=? 0 then 0 else Z.min (currentRPM full) rpm)
                 (if tpm <=? 0 then 0 else Z.min (currentTPM full) tpm) now now)
  end.

Fixpoint exactRun (ops : list (op * Time)) (tb : TokenBucket) : (Z * Z) * TokenBucket :=
  match ops with
  | [] => ((0, 0), tb)
  | (o, now) :: ops =>
      let '((req, tok), tb') := exactStep o now tb in
      let '((reqs, toks), tb'') := exactRun ops tb' in
      ((req + reqs, tok + toks), tb'')
  end.

Lemma refillDim_exact start mx cur last now :
  dimOk start mx cur last now → refillDim mx cur last now = exactRefillDim mx cur last now.
Proof.
  intros Hok. pose proof Hok as (Hmx & Hcur & Hlast & Hnow).
  pose proof (nanosPer_range mx ltac:(lia)) as Hnp.
  pose proof (earned_cost mx last now ltac:(lia) ltac:(lia)).
  pose proof (earned_le mx last now ltac:(lia) ltac:(lia)).
  pose proof (earned_nonneg mx last now ltac:(lia) ltac:(lia)).
  unfold refillDim, exactRefillDim, time_add.
  rewrite time_sub_exact by (dim_unfold; int64_solve).
  rewrite (Z.quot_div_nonneg minute mx) by (dim_unfold; lia).
  fold (nanosPer mx). rewrite (wrap64_id (nanosPer mx)) by (dim_unfold; int64_solve).
  destruct (_ && _); [|done]. destruct (Z.ltb_spec 0 (nanosPer mx)); [|done].
  rewrite Z.quot_div_nonneg by lia. fold (earned mx last now).
  rewrite !wrap64_id by (dim_unfold; int64_solve). done.
Qed.

Lemma refill_exact start now tb : bucketOk start now tb → refillLocked tb now = exactRefill tb now.
Proof.
  intros [HR HT]. unfold refillLocked, exactRefill.
  by rewrite (refillDim_exact _ _ _ _ _ HR), (refillDim_exact _ _ _ _ _ HT).
Qed.

Lemma floorOf_exact mx pct :
  0 < mx ≤ maxCapacity → 0 ≤ pct ≤ 90 → floorOf mx pct = Z.quot (mx * pct) 100.
Proof.
  intros Hmx Hpct. rewrite (proj1 (floorOf_range mx pct Hmx ltac:(lia))).
  symmetry. apply Z.quot_div_nonneg; nia.
Qed.

Lemma ltb_min a b : (if a <? b then a else b) = Z.min a b.
Proof. destruct (Z.ltb_spec a b); lia. Qed.

(** No operation of a method wraps. *)
Lemma step_exact start t tb o : bucketOk start t tb → opOk o → step o t tb = exactStep o t tb.
Proof.
  intros Hok Ho. pose proof (refill_exact _ _ _ Hok) as Hfull.
  pose proof (refillLocked_ok _ _ _ Hok) as Hok1. pose proof Hok as [[HmR _] [HmT _]].
  destruct o; cbn [step opOk] in *; unfold exactStep; cbn zeta; rewrite <- ?Hfull.
  - unfold SetCapacity. by rewrite !ltb_min.
  - rewrite (TryAcquire_spec start) by done. cbn zeta. unfold roomAbove. rewrite !Z.add_0_l.
    case_bool_decide as Hroom; destruct (_ && _) eqn:Hb; try done;
      rewrite ?andb_true_iff, ?andb_false_iff, ?Z.leb_le, ?Z.leb_gt in Hb; lia.
  - destruct Ho as [Htok Hpct]. rewrite (TryAcquireAbove_spec start) by done. cbn zeta.
    rewrite !floorOf_exact by done. unfold roomAbove.
    case_bool_decide as Hroom; destruct (_ && _) eqn:Hb; try done;
      rewrite ?andb_true_iff, ?andb_false_iff, ?Z.leb_le, ?Z.leb_gt in Hb; lia.
  - by rewrite (ForceAcquire_spec start) by done.
  - unfold Refund. destruct (Z.leb_spec tokens 0); [done|].
    unfold bucketOk, dimOk, maxTokens, maxCapacity in *. by rewrite wrap64_id by int64_solve.
  - done.
  - done.
Qed.

Lemma run_exact start now tb ops :
  bucketOk start now tb → Forall (λ e, opOk e.1) ops → clocked start now ops →
  run ops tb = exactRun ops tb.
Proof.
  revert now tb. induction ops as [|[o t] ops IH]; intros now tb Hok Hops Hc; [done|].
  apply Forall_cons in Hops as [Ho Hops]. destruct Hc as [Ht Hc]. pose proof (clocked_last _ _ _ Hc).
  assert (bucketOk start t tb) as Hok1 by (eapply bucketOk_later; [exact Hok|lia]).
  assert (bucketOk start t (step o t tb).2) as Hok' by (eapply step_ok; eauto; lia).
  cbn [run exactRun]. rewrite <- (step_exact start t tb o Hok1 Ho).
  destruct (step o t tb) as [[req tok] tb']. by rewrite (IH t tb' Hok' Hops Hc).
Qed.

#[export] Hint Resolve NewTokenBucket_ok refillLocked_ok : governor.

(** ** What a bucket grants over time *)

(** Debt within the capacity. Without [SetCapacity], it stays there. *)
Definition debtOk (tb : TokenBucket) : Prop :=
  - maxRPM tb ≤ currentRPM tb ∧ - maxTPM tb ≤ currentTPM tb.

(** What the limiter calls between two resizes, with reserve [pct]. *)
Definition gatedOp (pct : Z) (o : op) : Prop :=
  match o with
  | OpTryAcquireAbove tokens p => tokens ≤ maxTokens ∧ p = pct
  | OpForceAcquire tokens => tokens ≤ maxTokens
  | OpGetAvailable => True
  | _ => False
  end.

Definition virtualRPM (tb : TokenBucket) : Time → Z :=
  virtual (maxRPM tb) (currentRPM tb) (lastRefillRPM tb).
Definition virtualTPM (tb : TokenBucket) : Time → Z :=
  virtual (maxTPM tb) (currentTPM tb) (lastRefillTPM tb).

(** [tb'] comes after granting [g] from [tb]: it keeps the capacities, and what
    can still be granted above the floors by [tend] has shrunk by [g]. *)
Definition granted (tend : Time) (pct : Z) (tb : TokenBucket) (g : Z * Z) (tb' : TokenBucket)
    : Prop :=
  let fr := floorOf (maxRPM tb) pct in
  let ft := floorOf (maxTPM tb) pct in
  maxRPM tb' = maxRPM tb ∧ maxTPM tb' = maxTPM tb ∧
  g.1 + Z.max 0 (virtualRPM tb' tend - fr) ≤ Z.max 0 (virtualRPM tb tend - fr) ∧
  g.2 + Z.max 0 (virtualTPM tb' tend - ft) ≤ Z.max 0 (virtualTPM tb tend - ft).

Lemma refillLocked_virtual start t tb tend :
  bucketOk start t tb → t ≤ tend →
  virtualRPM (refillLocked tb t) tend ≤ virtualRPM tb tend ∧
  virtualTPM (refillLocked tb t) tend ≤ virtualTPM tb tend.
Proof. intros [] ?. split; eapply virtual_refill; eauto. Qed.

Lemma refillLocked_debt start t tb :
  bucketOk start t tb → debtOk tb → debtOk (refillLocked tb t).
Proof.
  intros [HR HT] []. unfold debtOk. simpl. rewrite !(refillDim_spec start) by done. simpl.
  destruct HR as (? & ? & ? & ?), HT as (? & ? & ? & ?).
  pose proof (earned_nonneg (maxRPM tb) (lastRefillRPM tb) t).
  pose proof (earned_nonneg (maxTPM tb) (lastRefillTPM tb) t). lia.
Qed.

(** Taking from a refilled bucket lowers what it can grant by what was taken. *)
Lemma virtual_withBalance tb rpm tpm tend :
  virtualRPM (withBalance tb rpm tpm) tend = virtualRPM tb tend - (currentRPM tb - rpm) ∧
  virtualTPM (withBalance tb rpm tpm) tend = virtualTPM tb tend - (currentTPM tb - tpm).
Proof. unfold virtualRPM, virtualTPM, virtual. simpl. lia. Qed.

Lemma bucket_virtual_ge start t tb tend :
  bucketOk start t tb → t ≤ tend →
  currentRPM tb ≤ virtualRPM tb tend ∧ currentTPM tb ≤ virtualTPM tb tend.
Proof.
  intros [HR HT] ?. destruct HR as (? & ? & ? & ?), HT as (? & ? & ? & ?).
  split; apply virtual_ge; lia.
Qed.

Lemma gated_step start t tb tend pct o :
  bucketOk start t tb → debtOk tb → gatedOp pct o → 0 ≤ pct ≤ 90 → t ≤ tend →
  granted tend pct tb (step o t tb).1 (step o t tb).2 ∧ debtOk (step o t tb).2.
Proof.
  intros Hok Hdebt Ho Hpct Ht.
  pose proof (refillLocked_ok _ _ _ Hok) as Hok1.
  pose proof (refillLocked_debt _ _ _ Hok Hdebt) as Hdebt1.
  pose proof (refillLocked_virtual _ _ _ tend Hok Ht) as [HvR HvT].
  pose proof (bucket_floors _ _ _ _ Hok Hpct) as HF.
  destruct o; simpl in Ho; try done; cbn [step].
  - destruct Ho as [Htok ->]. rewrite (TryAcquireAbove_spec start) by done. cbn zeta.
    destruct (roomAbove _ _ _ _) eqn:Hroom; cbn [fst snd]; [|split; [unfold granted; simpl in *; lia | done]].
    pose proof (take_ok _ _ _ _ (floorOf (maxRPM tb) pct) (floorOf (maxTPM tb) pct)
      Hok1 ltac:(lia) ltac:(lia) Hroom) as Hok2.
    pose proof (bucket_virtual_ge _ _ _ tend Hok2 Ht) as [HgR HgT].
    unfold roomAbove in Hroom. apply andb_prop in Hroom as [?%Z.leb_le ?%Z.leb_le].
    unfold granted, debtOk, take in *.
    rewrite !(proj1 (virtual_withBalance _ _ _ _)), !(proj2 (virtual_withBalance _ _ _ _)) in *.
    simpl in *. lia.
  - rewrite (ForceAcquire_spec start) by done. cbn zeta. cbn [fst snd].
    unfold granted, debtOk in *.
    rewrite !(proj1 (virtual_withBalance _ _ _ _)), !(proj2 (virtual_withBalance _ _ _ _)).
    simpl in *. destruct Hok as [(? & _) (? & _)]. lia.
  - split; [unfold granted; simpl in *; lia | done].
Qed.

Lemma gatedOp_ok pct o : 0 ≤ pct ≤ 90 → gatedOp pct o → opOk o.
Proof. destruct o; simpl; intuition lia. Qed.

(** The sum of the grants never exceeds what could be granted at the start. *)
Lemma run_granted start now tb tend pct ops :
  bucketOk start now tb → debtOk tb → 0 ≤ pct ≤ 90 →
  Forall (λ e, gatedOp pct e.1) ops → clocked start now ops → lastTime now ops ≤ tend →
  granted tend pct tb (run ops tb).1 (run ops tb).2.
Proof.
  revert now tb. induction ops as [|[o t] ops IH]; intros now tb Hok Hdebt Hpct Hops Hc Htend.
  { unfold granted. simpl. lia. }
  apply Forall_cons in Hops as [Ho Hops]. destruct Hc as [Ht Hc]. simpl in Ho.
  pose proof (clocked_last _ _ _ Hc). simpl in Htend.
  assert (bucketOk start t (step o t tb).2) as Hok'
    by (eapply step_ok; eauto using gatedOp_ok; lia).
  destruct (gated_step start t tb tend pct o) as [Hg Hdebt'];
    [eapply bucketOk_later; [exact Hok|lia] | done.. | lia |].
  rewrite run_cons. destruct (step o t tb) as [g tb'].
  specialize (IH t tb' Hok' Hdebt' Hpct Hops Hc Htend).
  simpl in IH. destruct (run ops tb') as [gs tb'']. unfold granted in *. simpl in *.
  destruct Hg as (HR & HT & ? & ?). rewrite HR, HT in IH. lia.
Qed.

Lemma refillLocked_split start t1 t2 tb :
  bucketOk start t1 tb → t1 ≤ t2 ≤ start + horizon →
  refillLocked (refillLocked tb t1) t2 = refillLocked tb t2.
Proof.
  intros [HR HT] Ht. unfold refillLocked. simpl.
  by rewrite !(refillDim_split start) by done.
Qed.

(** Setting the balances of a refilled bucket leaves nothing more to refill. *)
Lemma refill_withBalance start now tb rpm tpm :
  bucketOk start now tb →
  - maxCapacity ≤ rpm ≤ maxRPM tb → - maxCapacity ≤ tpm ≤ maxTPM tb →
  refillLocked (withBalance (refillLocked tb now) rpm tpm) now =
    withBalance (refillLocked tb now) rpm tpm.
Proof.
  intros [HR HT] Hr Ht. unfold refillLocked, withBalance. simpl.
  by rewrite !(refillDim_again start).
Qed.

(** A gated call begins with a refill, so looking at the bucket first changes
    nothing. *)
Lemma gated_run_refilled start now tb pct ops :
  bucketOk start now tb → Forall (λ e, gatedOp pct e.1) ops → clocked start now ops →
  (run ops (refillLocked tb now)).1 = (run ops tb).1.
Proof.
  intros Hok Hops Hc. destruct ops as [|[o t] ops]; [done|].
  apply Forall_cons in Hops as [Ho _]. destruct Hc as [Ht Hc].
  pose proof (clocked_last _ _ _ Hc).
  assert (step o t (refillLocked tb now) = step o t tb) as Heq.
  { destruct o; simpl in Ho; try done; cbn [step];
      unfold TryAcquireAbove, ForceAcquire, GetAvailable;
      rewrite (refillLocked_split start) by (done || lia); done. }
  by rewrite !run_cons, Heq.
Qed.

(** A refilled dimension lags the clock by less than one unit's time, so a
    window of length [tend - now] earns at most one unit more than its length. *)
Lemma refillDim_virtual start mx cur last now tend :
  dimOk start mx cur last now → 0 < nanosPer mx → now ≤ tend →
  virtual mx (refillDim mx cur last now).1 (refillDim mx cur last now).2 tend ≤
    mx + (tend - now) / nanosPer mx + 1.
Proof.
  intros Hok Hp Htend. rewrite (refillDim_spec start) by done. unfold virtual. simpl.
  rewrite earned_split. unfold earned.
  assert ((tend - last) / nanosPer mx ≤
          (now - last) / nanosPer mx + (tend - now) / nanosPer mx + 1); [|lia].
  pose proof (Z.div_mod (tend - last) (nanosPer mx)).
  pose proof (Z.div_mod (tend - now) (nanosPer mx)).
  pose proof (Z.div_mod (now - last) (nanosPer mx)).
  pose proof (Z.mod_pos_bound (tend - last) (nanosPer mx)).
  pose proof (Z.mod_pos_bound (tend - now) (nanosPer mx)).
  pose proof (Z.mod_pos_bound (now - last) (nanosPer mx)). nia.
Qed.

(** The claim of [window_rate_bounded], for each dimension by itself. *)
Lemma window_rates start now tb pct ops :
  bucketOk start now tb → debtOk tb → 0 ≤ pct ≤ 90 →
  Forall (λ e, gatedOp pct e.1) ops → clocked start now ops →
  let window := lastTime now ops - now in
  let '(requests, tokens) := (run ops tb).1 in
  (0 < nanosPer (maxRPM tb) →
    requests ≤ (maxRPM tb - floorOf (maxRPM tb) pct) + window / nanosPer (maxRPM tb) + 1) ∧
  (0 < nanosPer (maxTPM tb) →
    tokens ≤ (maxTPM tb - floorOf (maxTPM tb) pct) + window / nanosPer (maxTPM tb) + 1).
Proof.
  intros Hok Hdebt Hpct Hops Hc window.
  pose proof (clocked_last _ _ _ Hc) as [Hlast _].
  rewrite <- (gated_run_refilled start now tb pct ops) by done.
  destruct (run_granted start now (refillLocked tb now) (lastTime now ops) pct ops)
    as (_ & _ & HR & HT); eauto using refillLocked_debt with governor; [lia|].
  destruct Hok as [HdR HdT].
  pose proof (bucket_floors start now tb pct (conj HdR HdT) Hpct).
  pose proof (refillDim_virtual _ _ _ _ _ (lastTime now ops) HdR) as HvR.
  pose proof (refillDim_virtual _ _ _ _ _ (lastTime now ops) HdT) as HvT.
  fold window in HvR, HvT.
  destruct (run ops (refillLocked tb now)) as [[reqs toks] tb'].
  unfold virtualRPM, virtualTPM in *. simpl in *.
  split; intros Hp; [specialize (HvR Hp Hlast)|specialize (HvT Hp Hlast)];
    pose proof (Z.div_pos window _ ltac:(lia) Hp); lia.
Qed.

(** ** Properties *)

(** C5: over any window of a bucket's life in which its capacity is not changed,
    the requests and the tokens granted to best-effort traffic are at most the
    part of the capacity above the critical reserve, plus what refills during the
    window, plus one; whatever critical traffic takes meanwhile. The bucket's debt is
    within its capacity when the window opens, and both capacities refill (they are
    at most 60e9 per minute). *)
Theorem window_rate_bounded start now tb pct ops :
  bucketOk start now tb → debtOk tb → 0 ≤ pct ≤ 90 →
  0 < nanosPer (maxRPM tb) → 0 < nanosPer (maxTPM tb) →
  Forall (λ e, gatedOp pct e.1) ops → clocked start now ops →
  let window := lastTime now ops - now in
  let '(requests, tokens) := (run ops tb).1 in
  requests ≤ (maxRPM tb - floorOf (maxRPM tb) pct) + window / nanosPer (maxRPM tb) + 1 ∧
  tokens ≤ (maxTPM tb - floorOf (maxTPM tb) pct) + window / nanosPer (maxTPM tb) + 1.
Proof.
  intros Hok Hdebt Hpct HpR HpT Hops Hc. pose proof (window_rates start now tb pct ops) as H.
  cbn zeta in *. destruct (run ops tb).1. destruct H; auto.
Qed.

(** C26: no operation on 64-bit integers ever wraps. However a bucket's methods are
    called, with capacities from 1 to [2^56], token counts of at most [2^56], reserves
    of 0 to 90 percent and a clock that does not go back, within 146 years of its
    creation, what they grant and the bucket they leave are those of the same methods
    on mathematical integers; and the balances stay between minus the largest capacity
    and the current capacity. *)
Theorem bucket_in_range start rpm tpm ops :
  0 < rpm ≤ maxCapacity → 0 < tpm ≤ maxCapacity →
  Forall (λ e, opOk e.1) ops → clocked start start ops →
  let tb := NewTokenBucketWithClock rpm tpm start in
  run ops tb = exactRun ops tb ∧ bucketOk start (lastTime start ops) (run ops tb).2.
Proof.
  intros Hr Ht Hops Hc tb. assert (bucketOk start start tb) as Hok by (by apply NewTokenBucket_ok).
  split; [by eapply run_exact|by apply run_ok].
Qed.

(** Refilling at [t1] and again at [t2] gives the same bucket as refilling
    once at [t2]: rounding down never loses time, however often the bucket is
    looked at. *)
Theorem refill_loses_no_time start t1 t2 tb :
  bucketOk start t1 tb → t1 ≤ t2 ≤ start + horizon →
  refillLocked (refillLocked tb t1) t2 = refillLocked tb t2.
Proof. apply refillLocked_split. Qed.

(** [TryAcquireAbove] admits exactly when, after refill, both balances can
    pay and stay at or above their floors. It then takes one request and the
    tokens and nothing else; otherwise it takes nothing. *)
Theorem TryAcquireAbove_keeps_reserve start now tb tokens pct :
  bucketOk start now tb → tokens ≤ maxTokens → 0 ≤ pct ≤ 90 →
  let before := refillLocked tb now in
  let '(ok, after) := TryAcquireAbove tb tokens pct now in
  if ok then
    currentRPM after = currentRPM before - 1 ∧
    currentTPM after = currentTPM before - Z.max tokens 0 ∧
    maxRPM tb * pct / 100 ≤ currentRPM after ∧
    maxTPM tb * pct / 100 ≤ currentTPM after
  else
    after = before ∧
    (currentRPM before - 1 < maxRPM tb * pct / 100 ∨
     currentTPM before - Z.max tokens 0 < maxTPM tb * pct / 100).
Proof.
  intros Hok Htok Hpct. rewrite (TryAcquireAbove_spec start) by done.
  pose proof Hok as [[HR _] [HT _]].
  rewrite (proj1 (floorOf_range (maxRPM tb) pct HR ltac:(lia))).
  rewrite (proj1 (floorOf_range (maxTPM tb) pct HT ltac:(lia))).
  simpl. destruct (roomAbove _ _ _ _) eqn:Hroom; unfold roomAbove in Hroom.
  - apply andb_prop in Hroom as [?%Z.leb_le ?%Z.leb_le]. simpl in *. lia.
  - apply andb_false_iff in Hroom as [?%Z.leb_gt|?%Z.leb_gt]; (split; [done|simpl in *; lia]).
Qed.

(** C27: debt within the capacity is repaid. If a bucket whose two capacities are at
    most one unit per nanosecond (60e9 per minute) and whose debt on each side is at
    most the capacity (as critical traffic leaves it as long as the capacity is not
    shrunk) is left alone for two minutes, then it is full again and admits a
    best-effort request that fits between the capacity and the reserve. *)
Theorem debt_is_repaid start now tb tokens pct :
  bucketOk start now tb → debtOk tb → 0 ≤ pct ≤ 90 →
  maxRPM tb ≤ minute → maxTPM tb ≤ minute →
  lastRefillRPM tb + 2 * minute ≤ now → lastRefillTPM tb + 2 * minute ≤ now →
  tokens ≤ maxTPM tb - floorOf (maxTPM tb) pct →
  (TryAcquireAbove tb tokens pct now).1 = true.
Proof.
  intros Hok [] Hpct HmR HmT HwR HwT Htok.
  pose proof (bucket_floors _ _ _ _ Hok Hpct). pose proof Hok as [HdR HdT].
  assert (0 < maxRPM tb ≤ maxCapacity ∧ 0 < maxTPM tb ≤ maxCapacity) as [? ?]
    by (unfold dimOk in *; lia).
  rewrite (TryAcquireAbove_spec start) by (unfold maxTokens, maxCapacity in *; lia || done).
  pose proof (nanosPer_mul (maxRPM tb)). pose proof (nanosPer_mul (maxTPM tb)).
  pose proof (nanosPer_pos (maxRPM tb)). pose proof (nanosPer_pos (maxTPM tb)).
  unfold roomAbove. simpl. rewrite !(refillDim_full start) by (done || nia).
  destruct (Z.leb_spec (floorOf (maxRPM tb) pct + 1) (maxRPM tb)); [|lia].
  destruct (Z.leb_spec (floorOf (maxTPM tb) pct + Z.max tokens 0) (maxTPM tb)); [done|lia].
Qed.

(** [ForceAcquire] is never refused. From a bucket whose debt is within its
    capacity it takes one request and the tokens, down to minus the capacity and
    no further, and reports whether they fitted the available balance. *)
Theorem ForceAcquire_takes start now tb tokens :
  bucketOk start now tb → debtOk tb → tokens ≤ maxTokens →
  let before := refillLocked tb now in
  let '(fitted, after) := ForceAcquire tb tokens now in
  currentRPM after = Z.max (currentRPM before - 1) (- maxRPM tb) ∧
  currentTPM after = Z.max (currentTPM before - Z.max tokens 0) (- maxTPM tb) ∧
  currentRPM after ≤ currentRPM before ∧ currentTPM after ≤ currentTPM before ∧
  debtOk after ∧
  (fitted = true ↔ 1 ≤ currentRPM before ∧ Z.max tokens 0 ≤ currentTPM before).
Proof.
  intros Hok Hdebt Htok. rewrite (ForceAcquire_spec start) by done. cbn zeta.
  pose proof (refillLocked_debt _ _ _ Hok Hdebt) as [].
  pose proof (refillLocked_ok _ _ _ Hok) as [(? & _) (? & _)].
  unfold debtOk, roomAbove. rewrite andb_true_iff, !Z.leb_le. simpl in *. lia.
Qed.

(** While a bucket is in debt on either side, best-effort traffic gets
    nothing: the bucket refuses, and keeps refusing after any number of further
    critical requests at that moment. *)
Theorem debt_keeps_best_effort_out start now tb tokens critical pct :
  bucketOk start now tb → debtOk tb → tokens ≤ maxTokens → 0 ≤ pct ≤ 90 →
  Forall (λ n, n ≤ maxTokens) critical →
  let before := refillLocked tb now in
  currentRPM before < 0 ∨ currentTPM before < 0 →
  let after := foldl (λ b n, (ForceAcquire b n now).2) tb critical in
  (TryAcquireAbove after tokens pct now).1 = false.
Proof.
  intros Hok Hdebt Htok Hpct Hcrit before Hneg after.
  assert (bucketOk start now after ∧ debtOk after ∧
          (currentRPM (refillLocked after now) < 0 ∨ currentTPM (refillLocked after now) < 0))
    as (Hok2 & _ & Hneg2).
  { subst before after. revert tb Hok Hdebt Hneg.
    induction Hcrit as [|n critical Hn _ IH]; intros tb Hok Hdebt Hneg; [done|]. cbn [foldl].
    assert (start ≤ now ≤ start + horizon) as Hnow
      by (destruct Hok as [(_ & _ & ? & ?) _]; lia).
    apply IH.
    - apply (step_ok start now now tb (OpForceAcquire n)); [done..|lia].
    - rewrite (ForceAcquire_spec start) by done. cbn zeta. unfold debtOk in *. simpl. lia.
    - cbn beta. rewrite (ForceAcquire_spec start) by done. cbn zeta. cbn [snd].
      pose proof (refillLocked_ok _ _ _ Hok) as [(? & ? & _) (? & ? & _)].
      rewrite (refill_withBalance start) by (done || simpl in *; lia). simpl in *. lia. }
  pose proof (bucket_floors _ _ _ _ Hok2 Hpct) as HF.
  rewrite (TryAcquireAbove_spec start) by done. cbn zeta.
  destruct (roomAbove _ _ _ _) eqn:Hroom; [|done]. unfold roomAbove in Hroom.
  apply andb_prop in Hroom as [?%Z.leb_le ?%Z.leb_le]. lia.
Qed.

(** Resizing never raises a balance above its refilled level: a larger share
    is earned over time, a smaller one takes effect at once. *)
Theorem SetCapacity_clamps start now tb rpm tpm :
  bucketOk start now tb → 0 < rpm ≤ maxCapacity → 0 < tpm ≤ maxCapacity →
  let before := refillLocked tb now in
  let after := SetCapacity tb rpm tpm now in
  maxRPM after = rpm ∧ maxTPM after = tpm ∧
  currentRPM after = Z.min rpm (currentRPM before) ∧
  currentTPM after = Z.min tpm (currentTPM before) ∧
  bucketOk start now after.
Proof.
  intros Hok Hr Ht. cbn zeta.
  assert (bucketOk start now (SetCapacity tb rpm tpm now)).
  { apply (step_ok start now now tb (OpSetCapacity rpm tpm)); [done..|].
    destruct Hok as [(_ & _ & _ & ?) _]. lia. }
  split_and!; try done; unfold SetCapacity; simpl.
  - destruct (Z.ltb_spec rpm (refillDim (maxRPM tb) (currentRPM tb) (lastRefillRPM tb) now).1); lia.
  - destruct (Z.ltb_spec tpm (refillDim (maxTPM tb) (currentTPM tb) (lastRefillTPM tb) now).1); lia.
Qed.

(** A shrink can make [ForceAcquire] forgive debt. After critical traffic has
    run a bucket of 100 requests per minute 100 requests into debt, and its share
    has shrunk to 10, the next critical request raises the balance from -100 to
    -10 instead of lowering it. *)
Theorem ForceAcquire_forgives_after_shrink :
  let debt := (run (replicate 200 (OpForceAcquire 0, 0))
                   (NewTokenBucketWithClock 100 100000 0)).2 in
  let shrunk := SetCapacity debt 10 10000 0 in
  currentRPM shrunk = -100 ∧ currentRPM (ForceAcquire shrunk 0 0).2 = -10.
Proof. by vm_compute. Qed.

(** ** Concrete runs *)

Definition sampleBucket : TokenBucket := NewTokenBucketWithClock 60 6000 0.

Definition sampleOps : list (op * Time) :=
  [(OpTryAcquireAbove 10 30, 0); (OpForceAcquire 20, second);
   (OpTryAcquireAbove 10 30, 2 * second)].

(** Sixty critical requests and one more: one request in debt. *)
Definition sampleDebt : TokenBucket :=
  (run (replicate 61 (OpForceAcquire 0, 0)) sampleBucket).2.

Ltac concrete :=
  repeat match goal with
  | |- Forall _ _ => constructor
  | |- _ ∧ _ => split
  end; vm_compute; try done; try (intros; discriminate); auto.

Lemma window_rate_bounded_witness :
  (run sampleOps sampleBucket).1 = (2, 20) ∧
  (2 ≤ (60 - floorOf 60 30) + 2 * second / nanosPer 60 + 1 ∧
   20 ≤ (6000 - floorOf 6000 30) + 2 * second / nanosPer 6000 + 1).
Proof.
  split; [by vm_compute|].
  apply (window_rate_bounded 0 0 sampleBucket 30 sampleOps); concrete.
Defined.

Lemma bucket_in_range_witness :
  run sampleOps sampleBucket = exactRun sampleOps sampleBucket ∧
  bucketOk 0 (2 * second) (run sampleOps sampleBucket).2.
Proof. apply (bucket_in_range 0 60 6000 sampleOps); concrete. Defined.

Lemma refill_loses_no_time_witness :
  refillLocked (refillLocked sampleDebt 700000000) second = refillLocked sampleDebt second ∧
  currentRPM (refillLocked sampleDebt second) = 0.
Proof.
  split; [apply (refill_loses_no_time 0); concrete | by vm_compute].
Defined.

Lemma TryAcquireAbove_keeps_reserve_witness :
  (TryAcquireAbove sampleBucket 4300 30 0).2 = refillLocked sampleBucket 0.
Proof.
  assert (bucketOk 0 0 sampleBucket) as Hok by concrete.
  pose proof (TryAcquireAbove_keeps_reserve 0 0 sampleBucket 4300 30 Hok) as H.
  destruct (TryAcquireAbove sampleBucket 4300 30 0) as [ok after] eqn:E.
  vm_compute in E. injection E as <- <-. apply H; concrete.
Defined.

Lemma debt_is_repaid_witness :
  currentRPM sampleDebt = -1 ∧ (TryAcquireAbove sampleDebt 4200 30 (2 * minute)).1 = true.
Proof.
  split; [by vm_compute|].
  apply (debt_is_repaid 0 (2 * minute) sampleDebt 4200 30); concrete.
Defined.

Lemma ForceAcquire_takes_witness :
  currentRPM (ForceAcquire sampleDebt 10 0).2 = -2 ∧ debtOk (ForceAcquire sampleDebt 10 0).2.
Proof.
  assert (bucketOk 0 0 sampleDebt) as Hok by concrete.
  pose proof (ForceAcquire_takes 0 0 sampleDebt 10 Hok) as H.
  split; [by vm_compute|].
  destruct (ForceAcquire sampleDebt 10 0) as [fitted after]. apply H; concrete.
Defined.

Lemma debt_keeps_best_effort_out_witness :
  (TryAcquireAbove (foldl (λ b n, (ForceAcquire b n 0).2) sampleDebt [5; 6]) 1 30 0).1 = false.
Proof. apply (debt_keeps_best_effort_out 0 0 sampleDebt 1 [5; 6] 30); concrete. Defined.

Lemma SetCapacity_clamps_witness :
  currentRPM (SetCapacity sampleBucket 20 9000 0) = 20 ∧
  currentTPM (SetCapacity sampleBucket 20 9000 0) = 6000.
Proof.
  destruct (SetCapacity_clamps 0 0 sampleBucket 20 9000) as (_ & _ & -> & -> & _); concrete.
Defined.

End TokenBucket.
