(* ===== verification/Limiter.v ===== *)
(** * The local limiter: [pkg/governor/limiter.go]

    One token bucket per configured allowance, sized to this replica's share,
    and a demand counter per allowance. *)

From S2P Require Import Prelude GoStrings GoFloat Quota Config Bucket.
From stdpp Require Import options.
Import TokenBucket.

Module Limiter.

Definition unlimitedCapacity : Z := Z.shiftl 1 40.

(** The two atomic counters. *)
Record demandCounter := mkDemandCounter { requests : Z; tokens : Z }.

(** The struct, with the clock that [NewLimiter] hands to the buckets: [clock i]
    is its [i]-th reading and [reads] counts the readings taken so far. *)
Record Limiter := mkLimiter {
  buckets : gmap string TokenBucket;
  reservePercent : Z;
  allowances : gmap string Config.ModelLimit;
  replicas : Z;
  demand : gmap string demandCounter;
  clock : nat → Time;
  reads : nat
}.

Definition now (l : Limiter) : Time := clock l (reads l).

Definition withBuckets (l : Limiter) (b : gmap string TokenBucket) (n : nat) : Limiter :=
  {| buckets := b; reservePercent := reservePercent l; allowances := allowances l;
     replicas := replicas l; demand := demand l; clock := clock l; reads := n |}.

Definition withDemand (l : Limiter) (d : gmap string demandCounter) : Limiter :=
  {| buckets := buckets l; reservePercent := reservePercent l; allowances := allowances l;
     replicas := replicas l; demand := d; clock := clock l; reads := reads l |}.

(** Calling a bucket's method, which reads the clock once. *)
Definition callBucket {A} (l : Limiter) (k : string) (b : TokenBucket)
    (method : TokenBucket → Time → A * TokenBucket) : A * Limiter :=
  let '(a, b') := method b (now l) in
  (a, withBuckets l (<[k := b']> (buckets l)) (S (reads l))).

(** ** Shares *)

Definition share (limit replicas : Z) : Z :=
  if limit <=? 0 then unlimitedCapacity else Z.max (limit /! Z.max replicas 1) 1.

Definition fractionOf `{GoArch} (limit : Z) (f : float64) : Z :=
  if limit <=? 0 then unlimitedCapacity
  else
    let f := if f64_leb f f64_zero || f64_ltb f64_one f then f64_one else f in
    Z.max (int64_of_f64 (f64_mul (f64_of_Z limit) f)) 1.

Section limiter.
Context `{GoUnicode} `{GoArch}.

(** ** Construction

    [entries] is [cfg.Allowances] in the order in which [range] visits it. *)

Definition addAllowance (reps : Z) (l : Limiter) (entry : string * option Config.ModelLimit)
    : Limiter :=
  match entry.2 with
  | None => l
  | Some a =>
      let k := to_lower entry.1 in
      {| buckets := <[k := NewTokenBucketWithClock (share (Config.MaxRpm a) reps)
                             (share (Config.MaxTpm a) reps) (now l)]> (buckets l);
         reservePercent := reservePercent l;
         allowances := <[k := a]> (allowances l);
         replicas := replicas l;
         demand := <[k := mkDemandCounter 0 0]> (demand l);
         clock := clock l; reads := S (reads l) |}
  end.

Definition NewLimiter (cfg : option Config.Config) (entries : list (string * option Config.ModelLimit))
    (clk : nat → Time) : result Limiter :=
  match cfg with
  | None => Err "config cannot be nil"
  | Some _ =>
      let reps := Config.Replicas cfg in
      Ok (foldl (addAllowance reps)
            {| buckets := ∅; reservePercent := Config.ReservePercent cfg; allowances := ∅;
               replicas := reps; demand := ∅; clock := clk; reads := 0 |} entries)
  end.

(** ** Resizing *)

Definition resizeTo (rpm tpm : Z) (b : TokenBucket) (t : Time) : unit * TokenBucket :=
  (tt, SetCapacity b rpm tpm t).

Definition applyShare (l : Limiter) (sh : pb.TargetShare) : Limiter :=
  let k := to_lower (trim_space (pb.Share_Target sh)) in
  match buckets l !! k with
  | None => l
  | Some b =>
      let a := default (Config.mkModelLimit 0 0) (allowances l !! k) in
      (callBucket l k b (resizeTo (fractionOf (Config.MaxRpm a) (pb.RpmFraction sh))
                                  (fractionOf (Config.MaxTpm a) (pb.TpmFraction sh)))).2
  end.

(** A nil limiter does nothing. *)
Definition ApplyShares (l : option Limiter) (shares : list pb.TargetShare) : option Limiter :=
  (λ l, foldl applyShare l shares) <$> l.

Definition resetShare (l : Limiter) (k : string) : Limiter :=
  match buckets l !! k with
  | None => l
  | Some b =>
      let a := default (Config.mkModelLimit 0 0) (allowances l !! k) in
      (callBucket l k b (resizeTo (share (Config.MaxRpm a) (replicas l))
                                  (share (Config.MaxTpm a) (replicas l)))).2
  end.

(** [keys] lists the keys of [l.buckets] in the order of [range]. *)
Definition ResetShares (l : option Limiter) (keys : list string) : option Limiter :=
  (λ l, foldl resetShare l keys) <$> l.

(** ** Demand *)

(** What a drain makes of the two values it has swapped out of a counter: nothing is
    reported when both are zero. *)
Definition emit (out : list pb.TargetDemand) (k : string) (req tok : Z) : list pb.TargetDemand :=
  if (req =? 0) && (tok =? 0) then out else out ++ [pb.mkTargetDemand k req tok].

Definition drainOne (acc : list pb.TargetDemand * Limiter) (k : string)
    : list pb.TargetDemand * Limiter :=
  let '(out, l) := acc in
  match demand l !! k with
  | None => (out, l)
  | Some d =>
      (emit out k (requests d) (tokens d), withDemand l (<[k := mkDemandCounter 0 0]> (demand l)))
  end.

(** [keys] lists the keys of [l.demand] in the order of [range]. *)
Definition DrainDemand (l : option Limiter) (keys : list string)
    : list pb.TargetDemand * option Limiter :=
  match l with
  | None => ([], None)
  | Some l => let '(out, l) := foldl drainOne ([], l) keys in (out, Some l)
  end.

(** The key of a target, as [bucket] and [record] compute it. *)
Definition targetKey (location model : string) : string :=
  to_lower location +:+ "/" +:+ to_lower model.

Definition count (n : Z) (d : demandCounter) : demandCounter :=
  mkDemandCounter (requests d +! 1) (tokens d +! Z.max n 0).

Definition record (l : Limiter) (location model : string) (n : Z) : Limiter :=
  withDemand l (alter (count n) (targetKey location model) (demand l)).

(** ** Admission *)

(** The receiver may be nil, and so may be the result. *)
Definition bucket (l : option Limiter) (location model : string) : option TokenBucket :=
  l ≫= λ l, buckets l !! targetKey location model.

Definition Known (l : option Limiter) (location model : string) : bool :=
  match bucket l location model with Some _ => true | None => false end.

(** [(ok, known)]. *)
Definition TryAdmit (l : option Limiter) (location model : string) (n : Z)
    : (bool * bool) * option Limiter :=
  match l, bucket l location model with
  | Some l, Some b =>
      let '(ok, l) := callBucket (record l location model n) (targetKey location model) b
                        (λ b t, TryAcquireAbove b n (reservePercent l) t) in
      ((ok, true), Some l)
  | _, _ => ((false, false), l)
  end.

(** [(within, known)]. *)
Definition AdmitCritical (l : option Limiter) (location model : string) (n : Z)
    : (bool * bool) * option Limiter :=
  match l, bucket l location model with
  | Some l, Some b =>
      let '(within, l) := callBucket (record l location model n) (targetKey location model) b
                            (λ b t, ForceAcquire b n t) in
      ((within, true), Some l)
  | _, _ => ((true, false), l)
  end.

End limiter.

(** ** Shares *)

(** The allowances the theorems cover: below [2^53], so that [float64] holds them
    exactly. *)
Definition maxLimit : Z := 2 ^ 53 - 1.

Lemma unlimited_value : unlimitedCapacity = 1099511627776.
Proof. reflexivity. Qed.

Lemma share_range limit reps :
  limit ≤ maxLimit → 1 ≤ reps ≤ max_int64 →
  (limit ≤ 0 → share limit reps = unlimitedCapacity) ∧
  (0 < limit → 1 ≤ share limit reps ≤ limit ∧ (reps ≤ limit → reps * share limit reps ≤ limit)).
Proof.
  unfold share, maxLimit. intros Hl Hr. split; intros Hpos.
  { destruct (Z.leb_spec limit 0); [done|lia]. }
  destruct (Z.leb_spec limit 0); [lia|]. rewrite (Z.max_l reps 1) by lia.
  destruct (quot_bounds limit reps ltac:(lia) ltac:(lia)) as [H0 [H1 H2]].
  pose proof (quot_le limit reps ltac:(lia) ltac:(lia)).
  rewrite wrap64_id by int64_solve. split; [lia|]. intros. nia.
Qed.

(** Every replica's even share of an allowance is at least one unit and at
    most the allowance, and the shares of all replicas together do not exceed it
    when there are no more replicas than units. A missing limit becomes the
    unlimited capacity. *)
Theorem share_bounds limit reps :
  limit ≤ maxLimit → 1 ≤ reps ≤ max_int64 →
  (limit ≤ 0 → share limit reps = unlimitedCapacity) ∧
  (0 < limit → 1 ≤ share limit reps ≤ limit ∧ (reps ≤ limit → reps * share limit reps ≤ limit)).
Proof. exact (share_range limit reps). Qed.

Lemma share_capacity limit reps :
  limit ≤ maxLimit → 1 ≤ reps ≤ max_int64 → 0 < share limit reps ≤ maxCapacity.
Proof.
  intros Hl Hr. destruct (share_range limit reps Hl Hr) as [Hu Hs].
  unfold maxLimit, maxCapacity in *.
  destruct (decide (limit ≤ 0)) as [|]; [rewrite Hu, unlimited_value by done; lia|].
  destruct Hs; lia.
Qed.

Lemma fractionOf_range `{GoArch} limit f :
  limit ≤ maxLimit → fraction_ok f →
  (limit ≤ 0 → fractionOf limit f = unlimitedCapacity) ∧
  (0 < limit → 1 ≤ fractionOf limit f ≤ limit).
Proof.
  unfold fractionOf, maxLimit. intros Hl Hf. split; intros Hpos.
  { destruct (Z.leb_spec limit 0); [done|lia]. }
  destruct (Z.leb_spec limit 0); [lia|].
  assert (fraction_ok f64_one) as Hone by (split; [done|by rewrite f64_one_eq]).
  assert (0 < limit < 2 ^ prec) as Hlim by (unfold prec; lia).
  destruct (f64_leb f f64_zero || f64_ltb f64_one f) eqn:Hout.
  - pose proof (scaled_range limit f64_one Hlim Hone ltac:(done) ltac:(done)). lia.
  - apply orb_false_iff in Hout as [Hz Ho].
    pose proof (scaled_range limit f Hlim Hf Hz Ho). lia.
Qed.

(** A demand-weighted share is at least one unit and never more than the
    allowance, whatever fraction the control plane sends short of NaN: fractions
    outside (0, 1] count as the whole allowance, and floating-point rounding does
    not add a unit. *)
Theorem fractionOf_bounds `{GoArch} limit f :
  limit ≤ maxLimit → fraction_ok f →
  (limit ≤ 0 → fractionOf limit f = unlimitedCapacity) ∧
  (0 < limit → 1 ≤ fractionOf limit f ≤ limit).
Proof. exact (fractionOf_range limit f). Qed.

Lemma fractionOf_capacity `{GoArch} limit f :
  limit ≤ maxLimit → fraction_ok f → 0 < fractionOf limit f ≤ maxCapacity.
Proof.
  intros Hl Hf. destruct (fractionOf_range limit f Hl Hf) as [Hu Hs].
  unfold maxLimit, maxCapacity in *.
  destruct (decide (limit ≤ 0)) as [|]; [rewrite Hu, unlimited_value by done; lia|].
  destruct Hs; lia.
Qed.

(** ** Interleaving

    Goroutines share a limiter without a lock of its own: what is atomic is a
    bucket's method (its mutex) and each operation on a counter. An [action] is
    one of these; the methods above are sequences of actions, between which other
    goroutines' actions may come. *)

Inductive action : Type :=
  | ABucket (k : string) (o : op)
  | AAddRequest (k : string)
  | AAddTokens (k : string) (n : Z)
  | ASwapRequests (k : string)
  | ASwapTokens (k : string).

Definition act (l : Limiter) (a : action) : Limiter :=
  match a with
  | ABucket k o =>
      match buckets l !! k with
      | Some b => (callBucket l k b (λ b t, step o t b)).2
      | None => l
      end
  | AAddRequest k =>
      withDemand l (alter (λ d, mkDemandCounter (requests d +! 1) (tokens d)) k (demand l))
  | AAddTokens k n =>
      withDemand l (alter (λ d, mkDemandCounter (requests d) (tokens d +! Z.max n 0)) k (demand l))
  | ASwapRequests k =>
      withDemand l (alter (λ d, mkDemandCounter 0 (tokens d)) k (demand l))
  | ASwapTokens k =>
      withDemand l (alter (λ d, mkDemandCounter (requests d) 0) k (demand l))
  end.

Definition actionOk (a : action) : Prop :=
  match a with
  | ABucket _ o => opOk o
  | _ => True
  end.

(** One action by some goroutine. *)
Inductive lstep : Limiter → Limiter → Prop :=
  | lstep_act l a : actionOk a → lstep l (act l a).

(** ** The invariant *)

(** The clock is monotone and is used for at most [horizon]. *)
Definition clockOk (clk : nat → Time) : Prop :=
  ∀ i, clk i ≤ clk (S i) ∧ clk i ≤ clk O + horizon.

Definition lastRead (l : Limiter) : Time := clock l (pred (reads l)).

Definition counterOk (d : demandCounter) : Prop := int64 (requests d) ∧ int64 (tokens d).

Record limiterOk (l : Limiter) : Prop := {
  lim_clock : clockOk (clock l);
  lim_buckets : map_Forall (λ _ b, bucketOk (clock l O) (lastRead l) b) (buckets l);
  lim_reserve : 0 ≤ reservePercent l ≤ 90;
  lim_replicas : 1 ≤ replicas l ≤ max_int64;
  lim_limits : map_Forall (λ _ a, Config.MaxRpm a ≤ maxLimit ∧ Config.MaxTpm a ≤ maxLimit)
                 (allowances l);
  lim_allowances_dom : dom (allowances l) = dom (buckets l);
  lim_demand_dom : dom (demand l) = dom (buckets l);
  lim_counters : map_Forall (λ _ d, counterOk d) (demand l)
}.

Lemma clock_mono clk i j : clockOk clk → (i ≤ j)%nat → clk i ≤ clk j.
Proof.
  intros Hclk. induction 1 as [|j _ IH]; [lia|]. pose proof (Hclk j). lia.
Qed.

Lemma lastRead_now l : clockOk (clock l) → lastRead l ≤ now l ≤ clock l O + horizon.
Proof.
  unfold lastRead, now. intros Hclk. destruct (reads l) as [|n]; simpl.
  - pose proof (Hclk O). lia.
  - pose proof (Hclk n). pose proof (Hclk (S n)). lia.
Qed.

(** A bucket of a limiter in range is in range when its method runs. *)
Lemma limiter_bucket l k b :
  limiterOk l → buckets l !! k = Some b → bucketOk (clock l O) (now l) b.
Proof.
  intros Hok Hb. eapply bucketOk_later; [by eapply (lim_buckets l Hok)|].
  apply lastRead_now, Hok.
Qed.

Lemma dom_insert_same {A} (m : gmap string A) k x y :
  m !! k = Some x → dom (<[k := y]> m) = dom m.
Proof. intros Hm. rewrite dom_insert_L. apply elem_of_dom_2 in Hm. set_solver. Qed.

Lemma callBucket_ok {A} l k b (method : TokenBucket → Time → A * TokenBucket) :
  limiterOk l → buckets l !! k = Some b →
  bucketOk (clock l O) (now l) (method b (now l)).2 →
  limiterOk (callBucket l k b method).2.
Proof.
  intros Hok Hb Hm. unfold callBucket. destruct (method b (now l)) as [a b']. simpl in *.
  pose proof (lastRead_now l (lim_clock l Hok)) as Hnow.
  destruct Hok. constructor; simpl; try done.
  - change (lastRead _) with (now l). apply map_Forall_insert_2; [done|].
    eapply map_Forall_impl; [done|]. simpl. intros ? ? ?. by eapply bucketOk_later.
  - by rewrite (dom_insert_same _ _ _ _ Hb).
  - by rewrite (dom_insert_same _ _ _ _ Hb).
Qed.

Lemma withDemand_ok l d :
  limiterOk l → dom d = dom (demand l) → map_Forall (λ _ d, counterOk d) d →
  limiterOk (withDemand l d).
Proof. intros [] Hd Hc. constructor; simpl; try done. congruence. Qed.

Lemma alter_counters f k (m : gmap string demandCounter) :
  (∀ d, counterOk d → counterOk (f d)) → map_Forall (λ _ d, counterOk d) m →
  map_Forall (λ _ d, counterOk d) (alter f k m).
Proof.
  intros Hf Hm j d. destruct (decide (j = k)) as [->|Hne].
  - rewrite lookup_alter_eq. intros (d' & Hd' & ->)%fmap_Some. by eapply Hf, Hm.
  - rewrite lookup_alter_ne by done. apply Hm.
Qed.

Lemma int64_zero : int64 0.
Proof. int64_solve. Qed.

Lemma dom_alter_same {A} (m : gmap string A) f k : dom (alter f k m) = dom m.
Proof. apply dom_alter_L. Qed.

Lemma act_ok l a : limiterOk l → actionOk a → limiterOk (act l a).
Proof.
  intros Hok Ha. destruct a as [k o|k|k n|k|k]; simpl;
    try (apply withDemand_ok; [done|apply dom_alter_same|];
         apply alter_counters; [|apply Hok]; intros d [? ?]; split; simpl;
         auto using int64_zero with governor).
  destruct (buckets l !! k) as [b|] eqn:Hb; [|done].
  apply callBucket_ok; [done..|].
  apply (step_ok _ (now l)); [by eapply limiter_bucket|done|].
  pose proof (lastRead_now l (lim_clock l Hok)). lia.
Qed.

Lemma acts_ok l acts : limiterOk l → Forall actionOk acts → limiterOk (foldl act l acts).
Proof. intros Hok Hacts. by apply (foldl_keeps _ _ actionOk); auto using act_ok. Qed.

Lemma rtc_lstep_ok l l' : rtc lstep l l' → limiterOk l → limiterOk l'.
Proof. induction 1 as [|? ? ? [] ? IH]; auto using act_ok. Qed.

Section limiter_facts.
Context `{GoUnicode} `{GoArch}.

(** ** The methods are sequences of actions *)

Lemma bucket_Some l location model b :
  bucket (Some l) location model = Some b ↔ buckets l !! targetKey location model = Some b.
Proof. done. Qed.

Lemma record_actions l location model n :
  record l location model n =
    foldl act l [AAddRequest (targetKey location model); AAddTokens (targetKey location model) n].
Proof.
  unfold record. simpl. unfold withDemand. simpl. f_equal.
  apply map_eq. intros k. destruct (decide (targetKey location model = k)) as [->|Hne].
  - rewrite !lookup_alter_eq. by destruct (demand l !! k).
  - by rewrite !lookup_alter_ne.
Qed.

(** What an admission does to the limiter: two counter updates, then the
    bucket. *)
Lemma TryAdmit_actions l location model n b :
  buckets l !! targetKey location model = Some b →
  (TryAdmit (Some l) location model n).2 =
    Some (foldl act l [AAddRequest (targetKey location model);
                       AAddTokens (targetKey location model) n;
                       ABucket (targetKey location model)
                         (OpTryAcquireAbove n (reservePercent l))]).
Proof.
  intros Hb. unfold TryAdmit. rewrite (proj2 (bucket_Some _ _ _ _) Hb), record_actions.
  cbn [foldl act buckets withDemand]. rewrite Hb.
  unfold callBucket, now. cbn [clock reads withDemand step].
  by destruct (TryAcquireAbove _ _ _ _).
Qed.

Lemma AdmitCritical_actions l location model n b :
  buckets l !! targetKey location model = Some b →
  (AdmitCritical (Some l) location model n).2 =
    Some (foldl act l [AAddRequest (targetKey location model);
                       AAddTokens (targetKey location model) n;
                       ABucket (targetKey location model) (OpForceAcquire n)]).
Proof.
  intros Hb. unfold AdmitCritical. rewrite (proj2 (bucket_Some _ _ _ _) Hb), record_actions.
  cbn [foldl act buckets withDemand]. rewrite Hb.
  unfold callBucket, now. cbn [clock reads withDemand step].
  by destruct (ForceAcquire _ _ _).
Qed.

(** Resizing is one action. *)
Lemma applyShare_act l sh :
  let k := to_lower (trim_space (pb.Share_Target sh)) in
  let a := default (Config.mkModelLimit 0 0) (allowances l !! k) in
  applyShare l sh =
    act l (ABucket k (OpSetCapacity (fractionOf (Config.MaxRpm a) (pb.RpmFraction sh))
                                    (fractionOf (Config.MaxTpm a) (pb.TpmFraction sh)))).
Proof. cbn zeta. unfold applyShare. cbn [act]. by destruct (buckets l !! _). Qed.

Lemma resetShare_act l k :
  let a := default (Config.mkModelLimit 0 0) (allowances l !! k) in
  resetShare l k =
    act l (ABucket k (OpSetCapacity (share (Config.MaxRpm a) (replicas l))
                                    (share (Config.MaxTpm a) (replicas l)))).
Proof. cbn zeta. unfold resetShare. cbn [act]. by destruct (buckets l !! _). Qed.

Lemma default_limits l k :
  limiterOk l →
  let a := default (Config.mkModelLimit 0 0) (allowances l !! k) in
  Config.MaxRpm a ≤ maxLimit ∧ Config.MaxTpm a ≤ maxLimit.
Proof.
  intros Hok. destruct (allowances l !! k) as [a|] eqn:Ha; simpl.
  - by eapply (lim_limits l Hok).
  - unfold maxLimit. lia.
Qed.

Definition shareOk (sh : pb.TargetShare) : Prop :=
  fraction_ok (pb.RpmFraction sh) ∧ fraction_ok (pb.TpmFraction sh).

Lemma applyShare_ok l sh : limiterOk l → shareOk sh → limiterOk (applyShare l sh).
Proof.
  intros Hok [? ?]. rewrite applyShare_act. apply act_ok; [done|].
  destruct (default_limits l (to_lower (trim_space (pb.Share_Target sh))) Hok).
  split; by apply fractionOf_capacity.
Qed.

Lemma resetShare_ok l k : limiterOk l → limiterOk (resetShare l k).
Proof.
  intros Hok. rewrite resetShare_act. apply act_ok; [done|].
  destruct (default_limits l k Hok). pose proof (lim_replicas l Hok).
  split; by apply share_capacity.
Qed.

Lemma drainOne_ok out l k : limiterOk l → limiterOk (drainOne (out, l) k).2.
Proof.
  intros Hok. unfold drainOne. destruct (demand l !! k) as [d|] eqn:Hd; [|done].
  assert (limiterOk (withDemand l (<[k := mkDemandCounter 0 0]> (demand l)))).
  { apply withDemand_ok; [done|by rewrite (dom_insert_same _ _ _ _ Hd)|].
    apply map_Forall_insert_2; [|apply Hok]. split; apply int64_zero. }
  done.
Qed.

Lemma TryAdmit_ok l location model n r l' :
  limiterOk l → n ≤ maxTokens →
  TryAdmit (Some l) location model n = (r, l') → ∃ l1, l' = Some l1 ∧ limiterOk l1.
Proof.
  intros Hok Hn Heq. destruct (buckets l !! targetKey location model) as [b|] eqn:Hb.
  - pose proof (TryAdmit_actions l location model n b Hb) as Ha. rewrite Heq in Ha.
    simpl snd in Ha. subst l'. eexists. split; [done|]. apply acts_ok; [done|].
    pose proof (lim_reserve l Hok). rewrite !Forall_cons, Forall_nil. done.
  - unfold TryAdmit, bucket in Heq. simpl in Heq. rewrite Hb in Heq. injection Heq as <- <-. eauto.
Qed.

Lemma AdmitCritical_ok l location model n r l' :
  limiterOk l → n ≤ maxTokens →
  AdmitCritical (Some l) location model n = (r, l') → ∃ l1, l' = Some l1 ∧ limiterOk l1.
Proof.
  intros Hok Hn Heq. destruct (buckets l !! targetKey location model) as [b|] eqn:Hb.
  - pose proof (AdmitCritical_actions l location model n b Hb) as Ha. rewrite Heq in Ha.
    simpl snd in Ha. subst l'. eexists. split; [done|]. apply acts_ok; [done|].
    rewrite !Forall_cons, Forall_nil. done.
  - unfold AdmitCritical, bucket in Heq. simpl in Heq. rewrite Hb in Heq.
    injection Heq as <- <-. eauto.
Qed.

(** ** Construction *)

Lemma addAllowance_ok reps l entry :
  limiterOk l → 1 ≤ reps ≤ max_int64 →
  (∀ a, entry.2 = Some a → Config.MaxRpm a ≤ maxLimit ∧ Config.MaxTpm a ≤ maxLimit) →
  limiterOk (addAllowance reps l entry).
Proof.
  intros Hok Hreps Hlim. unfold addAllowance. destruct entry as [raw [a|]]; [|done].
  destruct (Hlim a eq_refl) as [Hr Ht]. simpl.
  pose proof (lastRead_now l (lim_clock l Hok)) as Hnow.
  assert (clock l O ≤ lastRead l) as Hstart by (apply clock_mono; [apply Hok|lia]).
  destruct Hok. constructor; simpl; try done.
  - change (lastRead _) with (now l). apply map_Forall_insert_2.
    + pose proof (share_capacity _ _ Hr Hreps). pose proof (share_capacity _ _ Ht Hreps).
      unfold bucketOk, dimOk, horizon, maxCapacity in *. simpl. unfold now in *. lia.
    + eapply map_Forall_impl; [done|]. simpl. intros ? ? ?. by eapply bucketOk_later.
  - by apply map_Forall_insert_2.
  - rewrite !dom_insert_L. congruence.
  - rewrite !dom_insert_L. congruence.
  - apply map_Forall_insert_2; [|done]. split; apply int64_zero.
Qed.

(** Allowances within the limit the theorems cover. *)
Definition entriesOk (entries : list (string * option Config.ModelLimit)) : Prop :=
  Forall (λ e, ∀ a, e.2 = Some a → Config.MaxRpm a ≤ maxLimit ∧ Config.MaxTpm a ≤ maxLimit)
    entries.

(** A configuration whose limiter the theorems cover; [LoadConfig] ensures all of
    it but the upper bound on the replica count. *)
Definition configOk (cfg : Config.Config) : Prop :=
  0 ≤ Config.ReservePercent (Some cfg) ≤ 90 ∧ 1 ≤ Config.Replicas (Some cfg) ≤ max_int64.

Lemma addAllowances_ok reps l entries :
  limiterOk l → 1 ≤ reps ≤ max_int64 → entriesOk entries →
  limiterOk (foldl (addAllowance reps) l entries).
Proof.
  intros Hok Hreps He. revert l Hok. induction He; simpl; intros; auto using addAllowance_ok.
Qed.

Lemma NewLimiter_ok cfg entries clk l :
  NewLimiter (Some cfg) entries clk = Ok l →
  configOk cfg → clockOk clk → entriesOk entries → limiterOk l.
Proof.
  intros [= <-] [Hres Hrep] Hclk He. apply addAllowances_ok; [|done..].
  constructor; simpl; try done; try apply map_Forall_empty; by rewrite !dom_empty_L.
Qed.

(** What [addAllowance] leaves of other keys, and what it sets. *)
Definition entryKey (e : string * option Config.ModelLimit) : string := to_lower e.1.

Lemma addAllowances_other reps l entries k :
  k ∉ entryKey <$> entries →
  let l' := foldl (addAllowance reps) l entries in
  buckets l' !! k = buckets l !! k ∧ allowances l' !! k = allowances l !! k ∧
  demand l' !! k = demand l !! k.
Proof.
  revert l. induction entries as [|e entries IH]; intros l Hk; [done|].
  rewrite fmap_cons, not_elem_of_cons in Hk. destruct Hk as [Hne Hk]. cbn [foldl].
  destruct (IH (addAllowance reps l e) Hk) as (-> & -> & ->).
  unfold addAllowance, entryKey in *. destruct e as [raw [a|]]; [|done].
  simpl in *. by rewrite !lookup_insert_ne.
Qed.

Lemma addAllowances_lookup reps l entries raw a :
  NoDup (entryKey <$> entries) → (raw, Some a) ∈ entries →
  let l' := foldl (addAllowance reps) l entries in
  (∃ t, buckets l' !! to_lower raw =
          Some (NewTokenBucketWithClock (share (Config.MaxRpm a) reps)
                  (share (Config.MaxTpm a) reps) t)) ∧
  allowances l' !! to_lower raw = Some a ∧
  demand l' !! to_lower raw = Some (mkDemandCounter 0 0).
Proof.
  revert l. induction entries as [|e entries IH]; intros l Hnd Hin; [set_solver|].
  rewrite fmap_cons in Hnd. apply NoDup_cons in Hnd as [Hfresh Hnd].
  apply elem_of_cons in Hin as [<-|Hin]; [|by apply IH].
  cbn [foldl].
  destruct (addAllowances_other reps (addAllowance reps l (raw, Some a)) entries (to_lower raw))
    as (-> & -> & ->); [done|].
  unfold addAllowance. simpl. rewrite !lookup_insert_eq. eauto.
Qed.

(** [NewLimiter] builds, for every allowance with a distinct key, a bucket
    that is full at this replica's even share of it, with its demand at zero. The
    order in which the map is visited only decides when each bucket reads the
    clock. *)
Theorem NewLimiter_full cfg entries clk l raw a :
  NewLimiter (Some cfg) entries clk = Ok l →
  NoDup (entryKey <$> entries) → (raw, Some a) ∈ entries →
  let reps := Config.Replicas (Some cfg) in
  (∃ t, buckets l !! to_lower raw =
          Some {| maxRPM := share (Config.MaxRpm a) reps; maxTPM := share (Config.MaxTpm a) reps;
                  currentRPM := share (Config.MaxRpm a) reps;
                  currentTPM := share (Config.MaxTpm a) reps;
                  lastRefillRPM := t; lastRefillTPM := t |}) ∧
  allowances l !! to_lower raw = Some a ∧
  demand l !! to_lower raw = Some (mkDemandCounter 0 0).
Proof.
  intros [= <-] Hnd Hin.
  eapply (addAllowances_lookup (Config.Replicas (Some cfg))) in Hin; [exact Hin|done].
Qed.

(** C12: a limiter built from a valid configuration stays in range under any
    interleaving of the actions of any number of goroutines, resizes included:
    every bucket's balances stay within bounds, so none of its arithmetic wraps,
    and the set of targets never changes. *)
Theorem limiter_in_range cfg entries clk l l' :
  NewLimiter (Some cfg) entries clk = Ok l →
  configOk cfg → clockOk clk → entriesOk entries →
  rtc lstep l l' → limiterOk l' ∧ dom (buckets l') = dom (buckets l).
Proof.
  intros Hnew Hcfg Hclk He Hrtc.
  assert (limiterOk l) as Hok by (eapply NewLimiter_ok; eauto).
  split; [by eapply rtc_lstep_ok|]. clear -Hrtc.
  induction Hrtc as [|l _ l'' [l1 a _] _ IH]; [done|]. rewrite IH.
  destruct a as [k o|k|k n|k|k]; try done. simpl.
  destruct (buckets l1 !! k) as [b|] eqn:Hb; [|done]. unfold callBucket.
  destruct (step o (now l1) b) as [g b']. simpl. by rewrite (dom_insert_same _ _ _ _ Hb).
Qed.

(** ** Admission *)

Definition sameExcept {A} (k : string) (m m' : gmap string A) : Prop :=
  ∀ j, j ≠ k → m' !! j = m !! j.

Lemma TryAdmit_spec l location model n :
  limiterOk l → n ≤ maxTokens →
  let k := targetKey location model in
  match buckets l !! k with
  | None => TryAdmit (Some l) location model n = ((false, false), Some l)
  | Some b =>
      let b1 := refillLocked b (now l) in
      let admitted :=
        (maxRPM b * reservePercent l / 100 + 1 <=? currentRPM b1) &&
        (maxTPM b * reservePercent l / 100 + Z.max n 0 <=? currentTPM b1) in
      ∃ l', TryAdmit (Some l) location model n = ((admitted, true), Some l') ∧
        buckets l' !! k = Some (if admitted then take b1 n else b1) ∧
        sameExcept k (buckets l) (buckets l') ∧ sameExcept k (demand l) (demand l') ∧
        demand l' !! k = count n <$> demand l !! k
  end.
Proof.
  intros Hok Hn k. destruct (buckets l !! k) as [b|] eqn:Hb.
  2: { unfold TryAdmit, bucket. simpl. fold k. by rewrite Hb. }
  pose proof (limiter_bucket l k b Hok Hb) as Hbok. pose proof (lim_reserve l Hok) as Hpct.
  unfold TryAdmit. rewrite (proj2 (bucket_Some l location model b) Hb). fold k.
  unfold callBucket, now. cbn [clock reads record withDemand]. fold (now l).
  rewrite (TryAcquireAbove_spec (clock l O)) by done. cbn zeta.
  pose proof Hbok as [[HR _] [HT _]].
  rewrite (proj1 (floorOf_range (maxRPM b) (reservePercent l) HR ltac:(lia))).
  rewrite (proj1 (floorOf_range (maxTPM b) (reservePercent l) HT ltac:(lia))).
  fold (roomAbove (refillLocked b (now l)) n (maxRPM b * reservePercent l / 100)
          (maxTPM b * reservePercent l / 100)).
  destruct (roomAbove _ _ _ _); eexists; (split; [done|]); simpl;
    rewrite lookup_insert_eq, lookup_alter_eq; (split; [done|]);
    (split; [|split; [|done]]); intros j Hj;
    [by rewrite lookup_insert_ne | by rewrite lookup_alter_ne
    |by rewrite lookup_insert_ne | by rewrite lookup_alter_ne].
Qed.

Lemma AdmitCritical_spec l location model n :
  limiterOk l → n ≤ maxTokens →
  let k := targetKey location model in
  match buckets l !! k with
  | None => AdmitCritical (Some l) location model n = ((true, false), Some l)
  | Some b =>
      let b1 := refillLocked b (now l) in
      ∃ l' b', AdmitCritical (Some l) location model n =
          (((1 <=? currentRPM b1) && (Z.max n 0 <=? currentTPM b1), true), Some l') ∧
        buckets l' !! k = Some b' ∧
        currentRPM b' = Z.max (currentRPM b1 - 1) (- maxRPM b) ∧
        currentTPM b' = Z.max (currentTPM b1 - Z.max n 0) (- maxTPM b) ∧
        sameExcept k (buckets l) (buckets l') ∧ sameExcept k (demand l) (demand l') ∧
        demand l' !! k = count n <$> demand l !! k
  end.
Proof.
  intros Hok Hn k. destruct (buckets l !! k) as [b|] eqn:Hb.
  2: { unfold AdmitCritical, bucket. simpl. fold k. by rewrite Hb. }
  pose proof (limiter_bucket l k b Hok Hb) as Hbok.
  unfold AdmitCritical. rewrite (proj2 (bucket_Some l location model b) Hb). fold k.
  unfold callBucket, now. cbn [clock reads record withDemand]. fold (now l).
  rewrite (ForceAcquire_spec (clock l O)) by done. cbn zeta. eexists _, _. split; [done|].
  simpl. rewrite lookup_insert_eq, lookup_alter_eq. split_and!; try done; intros j Hj.
  - by rewrite lookup_insert_ne.
  - by rewrite lookup_alter_ne.
Qed.

(** [TryAdmit] on a target with an allowance records its demand and then
    admits exactly when the target's bucket, refilled, can pay without dipping
    into the critical reserve; it charges that bucket once when it admits and not
    at all when it refuses, and touches no other target. On a target without an
    allowance it does nothing. *)
Theorem TryAdmit_accounting l location model n :
  limiterOk l → n ≤ maxTokens →
  let k := targetKey location model in
  match buckets l !! k with
  | None => TryAdmit (Some l) location model n = ((false, false), Some l)
  | Some b =>
      let b1 := refillLocked b (now l) in
      let admitted :=
        (maxRPM b * reservePercent l / 100 + 1 <=? currentRPM b1) &&
        (maxTPM b * reservePercent l / 100 + Z.max n 0 <=? currentTPM b1) in
      ∃ l', TryAdmit (Some l) location model n = ((admitted, true), Some l') ∧
        buckets l' !! k = Some (if admitted then take b1 n else b1) ∧
        sameExcept k (buckets l) (buckets l') ∧ sameExcept k (demand l) (demand l') ∧
        demand l' !! k = count n <$> demand l !! k
  end.
Proof. exact (TryAdmit_spec l location model n). Qed.

(** [AdmitCritical] is never refused: it records demand and charges the
    target's bucket, into the reserve and beyond as debt, and only reports
    whether the request fitted. Without an allowance it reports that it fits. *)
Theorem AdmitCritical_accounting l location model n :
  limiterOk l → n ≤ maxTokens →
  let k := targetKey location model in
  match buckets l !! k with
  | None => AdmitCritical (Some l) location model n = ((true, false), Some l)
  | Some b =>
      let b1 := refillLocked b (now l) in
      ∃ l' b', AdmitCritical (Some l) location model n =
          (((1 <=? currentRPM b1) && (Z.max n 0 <=? currentTPM b1), true), Some l') ∧
        buckets l' !! k = Some b' ∧
        currentRPM b' = Z.max (currentRPM b1 - 1) (- maxRPM b) ∧
        currentTPM b' = Z.max (currentTPM b1 - Z.max n 0) (- maxTPM b) ∧
        sameExcept k (buckets l) (buckets l') ∧ sameExcept k (demand l) (demand l') ∧
        demand l' !! k = count n <$> demand l !! k
  end.
Proof. exact (AdmitCritical_spec l location model n). Qed.

End limiter_facts.

#[export] Hint Resolve act_ok acts_ok applyShare_ok resetShare_ok drainOne_ok addAllowance_ok
  : governor.

(** ** Demand *)

Definition pendingRequests (l : Limiter) (k : string) : Z := from_option requests 0 (demand l !! k).
Definition pendingTokens (l : Limiter) (k : string) : Z := from_option tokens 0 (demand l !! k).

(** What an action adds to a target's counters, and what it takes out of them. *)
Definition added (k : string) (a : action) : Z * Z :=
  match a with
  | AAddRequest j => if decide (j = k) then (1, 0) else (0, 0)
  | AAddTokens j n => if decide (j = k) then (0, Z.max n 0) else (0, 0)
  | _ => (0, 0)
  end.

Definition drained (k : string) (l : Limiter) (a : action) : Z * Z :=
  match a with
  | ASwapRequests j => if decide (j = k) then (pendingRequests l k, 0) else (0, 0)
  | ASwapTokens j => if decide (j = k) then (0, pendingTokens l k) else (0, 0)
  | _ => (0, 0)
  end.

Lemma act_demand l a k :
  is_Some (demand l !! k) →
  0 ≤ pendingRequests l k → pendingRequests l k + (added k a).1 ≤ max_int64 →
  0 ≤ pendingTokens l k → pendingTokens l k + (added k a).2 ≤ max_int64 →
  is_Some (demand (act l a) !! k) ∧
  pendingRequests (act l a) k = pendingRequests l k + (added k a).1 - (drained k l a).1 ∧
  pendingTokens (act l a) k = pendingTokens l k + (added k a).2 - (drained k l a).2.
Proof.
  unfold pendingRequests, pendingTokens. intros [d Hd]. rewrite Hd. simpl. intros.
  destruct a as [j o|j|j n|j|j]; simpl in *;
    [destruct (buckets l !! j) as [b|]; [unfold callBucket; destruct (step o (now l) b)|]; simpl;
     rewrite Hd; simpl; (split; [by eauto|lia])|..];
    (destruct (decide (j = k)) as [->|Hne];
     [rewrite lookup_alter_eq, Hd | rewrite lookup_alter_ne by done; rewrite Hd]);
    simpl in *; unfold pendingRequests, pendingTokens; rewrite ?Hd; simpl in *;
    (split; [by eauto|]); unwrap; lia.
Qed.

(** [DrainDemand] swaps both counters of each target. *)
Lemma drainOne_actions out l k :
  (drainOne (out, l) k).2 = foldl act l [ASwapRequests k; ASwapTokens k].
Proof.
  cbn [foldl act demand withDemand]. unfold drainOne.
  destruct (demand l !! k) as [d|] eqn:Hd.
  - replace (alter _ k (alter _ k (demand l))) with (<[k := mkDemandCounter 0 0]> (demand l)).
    { done. }
    apply map_eq. intros j. destruct (decide (j = k)) as [->|Hne].
    + by rewrite lookup_insert_eq, !lookup_alter_eq, Hd.
    + by rewrite lookup_insert_ne, !lookup_alter_ne.
  - rewrite !alter_id by (rewrite ?alter_id; congruence). by destruct l.
Qed.

(** The report for one target: nothing when both counters are zero. *)
Definition report (k : string) (d : demandCounter) : list pb.TargetDemand :=
  if (requests d =? 0) && (tokens d =? 0) then []
  else [pb.mkTargetDemand k (requests d) (tokens d)].

Definition reportOf (l : Limiter) (k : string) : list pb.TargetDemand :=
  from_option (report k) [] (demand l !! k).

Lemma drainOne_spec out l k :
  drainOne (out, l) k =
    (out ++ reportOf l k,
     withDemand l (alter (λ _, mkDemandCounter 0 0) k (demand l))).
Proof.
  unfold drainOne, emit, reportOf, report. destruct (demand l !! k) as [d|] eqn:Hd; simpl.
  - replace (<[k := _]> (demand l)) with (alter (λ _, mkDemandCounter 0 0) k (demand l)).
    { destruct (_ && _); [by rewrite app_nil_r|done]. }
    apply map_eq. intros j. destruct (decide (j = k)) as [->|Hne].
    + by rewrite lookup_insert_eq, lookup_alter_eq, Hd.
    + by rewrite lookup_insert_ne, lookup_alter_ne.
  - rewrite app_nil_r, alter_id by congruence. by destruct l.
Qed.

Lemma DrainDemand_spec l keys :
  NoDup keys →
  let '(out, l') := DrainDemand (Some l) keys in
  out = mjoin (reportOf l <$> keys) ∧
  ∃ l1, l' = Some l1 ∧ buckets l1 = buckets l ∧
    (∀ k, k ∈ keys → pendingRequests l1 k = 0 ∧ pendingTokens l1 k = 0) ∧
    (∀ k, k ∉ keys → demand l1 !! k = demand l !! k).
Proof.
  intros Hnd. unfold DrainDemand.
  assert (∀ acc l, foldl drainOne (acc, l) keys =
    (acc ++ mjoin (reportOf l <$> keys),
     withDemand l (foldl (λ m k, alter (λ _, mkDemandCounter 0 0) k m) (demand l) keys))) as ->.
  { induction Hnd as [|k keys Hk Hnd IH]; intros acc l1.
    { simpl. rewrite app_nil_r. by destruct l1. }
    rewrite fmap_cons. cbn [foldl mjoin list_join].
    rewrite drainOne_spec, IH, <- app_assoc. f_equal. f_equal. f_equal. f_equal.
    apply list_fmap_ext. intros i j Hj. unfold reportOf. simpl.
    rewrite lookup_alter_ne; [done|]. apply list_elem_of_lookup_2 in Hj. set_solver. }
  split; [done|]. eexists. split_and!; [done|done|..].
  - intros k Hk. unfold pendingRequests, pendingTokens. simpl. clear Hnd.
    enough (∀ m, from_option requests 0 (foldl (λ m k, alter (λ _, mkDemandCounter 0 0) k m) m keys !! k) = 0
      ∧ from_option tokens 0 (foldl (λ m k, alter (λ _, mkDemandCounter 0 0) k m) m keys !! k) = 0) by auto.
    induction keys as [|j keys IH] using rev_ind; intros m; [set_solver|].
    rewrite foldl_snoc. destruct (decide (j = k)) as [->|Hne].
    + rewrite lookup_alter_eq. by destruct (foldl _ _ _ !! k).
    + rewrite lookup_alter_ne by done. apply IH. set_solver.
  - intros k Hk. simpl. clear Hnd. generalize (demand l).
    induction keys as [|j keys IH]; intros m; [done|]. simpl.
    rewrite IH by set_solver. rewrite lookup_alter_ne; [done|set_solver].
Qed.

(** [DrainDemand] reports, once, exactly the targets that have seen demand
    since the last drain, with the counts they had, leaves every visited counter
    at zero and the rest of the limiter as it was. *)
Theorem DrainDemand_exact l keys :
  NoDup keys →
  let '(out, l') := DrainDemand (Some l) keys in
  out = mjoin (reportOf l <$> keys) ∧
  ∃ l1, l' = Some l1 ∧ buckets l1 = buckets l ∧
    (∀ k, k ∈ keys → pendingRequests l1 k = 0 ∧ pendingTokens l1 k = 0) ∧
    (∀ k, k ∉ keys → demand l1 !! k = demand l !! k).
Proof. apply DrainDemand_spec. Qed.

(** ** No limit on a dimension *)

(** What a limiter does with the bucket of a target without a token limit: what it
    does between two resizes, and resizes of the other dimension. *)
Definition unlimitedOp (pct : Z) (o : op) : Prop :=
  match o with
  | OpSetCapacity rpm tpm => 0 < rpm ≤ maxCapacity ∧ tpm = unlimitedCapacity
  | _ => gatedOp pct o
  end.

Lemma unlimitedOp_ok pct o : 0 ≤ pct ≤ 90 → unlimitedOp pct o → opOk o.
Proof.
  intros Hpct. destruct o; simpl; try (intuition lia).
  intros [? ->]. rewrite unlimited_value. unfold maxCapacity in *. lia.
Qed.

(** Balances only fall: what is granted and the room above the floor together do
    not grow. *)
Definition spent (fl : Z) (tb : TokenBucket) (g : Z * Z) (tb' : TokenBucket) : Prop :=
  maxTPM tb' = unlimitedCapacity ∧ - unlimitedCapacity ≤ currentTPM tb' ≤ currentTPM tb ∧
  g.2 + Z.max 0 (currentTPM tb' - fl) ≤ Z.max 0 (currentTPM tb - fl).

Lemma refill_unlimited start t tb :
  bucketOk start t tb → maxTPM tb = unlimitedCapacity →
  currentTPM (refillLocked tb t) = currentTPM tb.
Proof.
  intros [_ HT] Hmax. unfold refillLocked. simpl.
  rewrite (refillDim_frozen start (maxTPM tb)); [done|exact HT|rewrite Hmax; by vm_compute].
Qed.

Lemma unlimited_step start t tb pct o :
  bucketOk start t tb → maxTPM tb = unlimitedCapacity → - unlimitedCapacity ≤ currentTPM tb →
  0 ≤ pct ≤ 90 → unlimitedOp pct o →
  spent (floorOf unlimitedCapacity pct) tb (step o t tb).1 (step o t tb).2.
Proof.
  intros Hok Hmax Hlow Hpct Ho. pose proof (refill_unlimited start t tb Hok Hmax) as Hfull.
  pose proof (bucket_floors _ _ _ _ Hok Hpct) as [_ HF]. rewrite Hmax in HF.
  pose proof Hok as [_ (_ & [_ Hhigh] & _)]. rewrite Hmax in Hhigh.
  destruct o; simpl in Ho; try done; cbn [step].
  - destruct Ho as [_ ->]. unfold spent, SetCapacity. simpl in *. rewrite Hfull.
    destruct (Z.ltb_spec unlimitedCapacity (currentTPM tb)); simpl; lia.
  - destruct Ho as [Htok ->]. rewrite (TryAcquireAbove_spec start) by done. cbn zeta. rewrite Hmax.
    destruct (roomAbove _ _ _ _) eqn:Hroom; cbn [fst snd]; unfold spent; [|simpl in *; lia].
    unfold roomAbove in Hroom. apply andb_prop in Hroom as [_ ?%Z.leb_le].
    unfold take. simpl in *. lia.
  - rewrite (ForceAcquire_spec start) by done. cbn zeta. unfold spent. simpl in *. lia.
  - unfold spent. simpl in *. lia.
Qed.

Lemma unlimited_run start now tb pct ops :
  bucketOk start now tb → maxTPM tb = unlimitedCapacity → - unlimitedCapacity ≤ currentTPM tb →
  0 ≤ pct ≤ 90 → Forall (λ e, unlimitedOp pct e.1) ops → clocked start now ops →
  spent (floorOf unlimitedCapacity pct) tb (run ops tb).1 (run ops tb).2 ∧
  bucketOk start (lastTime now ops) (run ops tb).2.
Proof.
  intros Hok Hmax Hlow Hpct Hops Hc. split.
  2: { apply run_ok; [done| |done]. eapply Forall_impl; [exact Hops|]. intros e. by apply unlimitedOp_ok. }
  revert now tb Hok Hmax Hlow Hc.
  induction ops as [|[o t] ops IH]; intros now tb Hok Hmax Hlow Hc.
  { unfold spent. destruct Hok as [_ (_ & ? & _)]. simpl. lia. }
  apply Forall_cons in Hops as [Ho Hops]. destruct Hc as [Ht Hc]. simpl in Ho.
  pose proof (clocked_last _ _ _ Hc).
  assert (bucketOk start t tb) as Hok1 by (eapply bucketOk_later; [exact Hok|lia]).
  assert (bucketOk start t (step o t tb).2) as Hok'
    by (eapply step_ok; eauto using unlimitedOp_ok; lia).
  destruct (unlimited_step start t tb pct o) as (Hmax' & Hlow' & Hg); [done..|].
  rewrite run_cons. destruct (step o t tb) as [g tb'].
  specialize (IH Hops t tb' Hok' Hmax' ltac:(simpl in *; lia) Hc).
  destruct (run ops tb') as [gs tb'']. unfold spent in *. simpl in *. lia.
Qed.

(** [n] calls of [o], one every [period], the first at [t]. *)
Fixpoint every (period : Z) (o : op) (n : nat) (t : Time) : list (op * Time) :=
  match n with
  | O => []
  | S n => (o, t) :: every period o n (t + period)
  end.

(** A requests-only allowance of 600 per minute, under one best-effort request of
    ten million tokens every 100 ms. *)
Definition largeRequest : op := OpTryAcquireAbove 10000000 30.
Definition largePeriod : Z := 100 * millisecond.

Definition drainedBucket : TokenBucket :=
  (run (every largePeriod largeRequest (Z.to_nat 76965) 0)
       (NewTokenBucketWithClock 600 (share 0 1) 0)).2.

(** The bucket after its [n]-th request, [n] at least 1. *)
Definition draining (n : Z) : TokenBucket :=
  {| maxRPM := 600; maxTPM := 2 ^ 40; currentRPM := 599; currentTPM := 2 ^ 40 - n * 10000000;
     lastRefillRPM := (n - 1) * largePeriod; lastRefillTPM := 0 |}.

Lemma draining_ok n t :
  1 ≤ n ≤ 76965 → (n - 1) * largePeriod ≤ t ≤ horizon → bucketOk 0 t (draining n).
Proof.
  intros Hn Ht. unfold bucketOk, dimOk, maxCapacity, horizon, largePeriod, millisecond in *.
  cbn [draining maxRPM maxTPM currentRPM currentTPM lastRefillRPM lastRefillTPM].
  unfold largePeriod, millisecond. lia.
Qed.

Lemma draining_step n :
  1 ≤ n < 76965 → (step largeRequest (n * largePeriod) (draining n)).2 = draining (n + 1).
Proof.
  intros Hn. assert (bucketOk 0 (n * largePeriod) (draining n)) as Hok
    by (apply draining_ok; unfold largePeriod, millisecond, horizon; lia).
  unfold largeRequest. cbn [step].
  rewrite (TryAcquireAbove_spec 0) by (done || unfold maxTokens; lia). cbn zeta.
  pose proof Hok as [HR HT]. unfold refillLocked.
  rewrite (refillDim_frozen 0 (maxTPM (draining n))) by done.
  rewrite (refillDim_spec 0) by done. unfold earned. simpl.
  change (nanosPer 600) with largePeriod. change (floorOf 600 30) with 180.
  change (floorOf (2 ^ 40) 30) with 329853488332.
  replace (n * largePeriod - (n - 1) * largePeriod) with largePeriod by lia.
  rewrite Z.div_same by done. unfold roomAbove. simpl.
  destruct (Z.leb_spec (329853488332 + Z.max 10000000 0) (2 ^ 40 - n * 10000000)); [|lia].
  unfold take, withBalance, draining. simpl. simpl. f_equal; lia.
Qed.

Lemma draining_run m n :
  1 ≤ n → n + Z.of_nat m ≤ 76965 →
  (run (every largePeriod largeRequest m (n * largePeriod)) (draining n)).2 =
    draining (n + Z.of_nat m).
Proof.
  revert n. induction m as [|m IH]; intros n Hn Hm.
  { simpl. f_equal. lia. }
  cbn [every]. rewrite run_cons. pose proof (draining_step n) as Hs.
  destruct (step largeRequest (n * largePeriod) (draining n)) as [g tb]. simpl in Hs.
  rewrite Hs by lia. specialize (IH (n + 1)).
  replace (n * largePeriod + largePeriod) with ((n + 1) * largePeriod) by lia.
  destruct (run _ (draining (n + 1))) as [gs tb']. simpl in *. rewrite IH by lia. f_equal. lia.
Qed.

Lemma drainedBucket_eq : drainedBucket = draining 76965.
Proof.
  unfold drainedBucket. replace (Z.to_nat 76965) with (S (Z.to_nat 76964)) by lia.
  cbn [every]. rewrite run_cons.
  assert (step largeRequest 0 (NewTokenBucketWithClock 600 (share 0 1) 0) =
    ((1, 10000000), draining 1)) as -> by (vm_compute; reflexivity).
  pose proof (draining_run (Z.to_nat 76964) 1) as Hrun.
  rewrite Z2Nat.id in Hrun by lia. rewrite Z.mul_1_l in Hrun. rewrite Z.add_0_l.
  destruct (run _ (draining 1)) as [gs tb]. simpl in *. rewrite Hrun by lia. done.
Qed.

(** A requests-only allowance of 600 per minute under one best-effort request of ten
    million tokens every 100 ms stops admitting such requests after less than two and
    a quarter hours. *)
Theorem large_requests_run_out t :
  135 * minute ≤ t ≤ horizon → (TryAcquireAbove drainedBucket 10000000 30 t).1 = false.
Proof.
  intros Ht. rewrite drainedBucket_eq.
  assert (bucketOk 0 t (draining 76965)) as Hok.
  { apply draining_ok; unfold minute, second, largePeriod, millisecond, horizon in *; lia. }
  rewrite (TryAcquireAbove_spec 0) by (done || unfold maxTokens; lia). cbn zeta.
  unfold refillLocked. destruct Hok as [_ HT].
  rewrite (refillDim_frozen 0 (maxTPM (draining 76965))) by done.
  unfold roomAbove. by rewrite andb_false_r.
Qed.

(** C39: "no limit" does run out. A target without a token limit gets, over the whole
    life of its bucket and however its requests are resized, at most the part of 2^40
    tokens above the critical reserve for best-effort traffic, since the bucket never
    refills; and once a best-effort request does not fit above the reserve, no request
    of that size is admitted at any later time. *)
Theorem unlimited_runs_out start rpm limit reps pct ops :
  0 < rpm ≤ maxCapacity → limit ≤ 0 → 0 ≤ pct ≤ 90 →
  Forall (λ e, unlimitedOp pct e.1) ops → clocked start start ops →
  let '((_, tokens), tb) := run ops (NewTokenBucketWithClock rpm (share limit reps) start) in
  tokens ≤ 2 ^ 40 - floorOf (2 ^ 40) pct ∧
  ∀ n later t,
    n ≤ maxTokens → currentTPM tb - Z.max n 0 < floorOf (2 ^ 40) pct →
    Forall (λ e, unlimitedOp pct e.1) later → clocked start (lastTime start ops) later →
    lastTime (lastTime start ops) later ≤ t ≤ start + horizon →
    (TryAcquireAbove (run later tb).2 n pct t).1 = false.
Proof.
  intros Hr Hlimit Hpct Hops Hc.
  assert (share limit reps = unlimitedCapacity) as ->
    by (unfold share; destruct (Z.leb_spec limit 0); [done|lia]).
  change (2 ^ 40) with unlimitedCapacity. pose proof unlimited_value as Hu.
  set (tb0 := NewTokenBucketWithClock rpm unlimitedCapacity start).
  assert (bucketOk start start tb0) as Hok0
    by (apply NewTokenBucket_ok; unfold maxCapacity in *; lia).
  destruct (unlimited_run start start tb0 pct ops) as [(Hmax & Hcur & Hg) Hok];
    try done; try (simpl; lia).
  pose proof (bucket_floors _ _ _ _ Hok0 Hpct) as [_ HF]. simpl in HF.
  destruct (run ops tb0) as [[reqs tokens] tb]. simpl in Hmax, Hcur, Hg, Hok. split; [lia|].
  intros n later t Hn Hfull Hlater Hcl Ht.
  destruct (unlimited_run start (lastTime start ops) tb pct later) as [(Hmax2 & Hcur2 & _) Hok2];
    try done; try lia.
  pose proof (clocked_last _ _ _ Hcl).
  assert (bucketOk start t (run later tb).2) as Hok3 by (eapply bucketOk_later; [exact Hok2|lia]).
  rewrite (TryAcquireAbove_spec start) by done. cbn zeta. rewrite Hmax2.
  destruct (roomAbove _ _ _ _) eqn:Hroom; [|done]. unfold roomAbove in Hroom.
  apply andb_prop in Hroom as [_ ?%Z.leb_le].
  rewrite (refill_unlimited start t _ Hok3 Hmax2) in *. lia.
Qed.

(** ** Concrete runs *)

Definition sampleConfig : Config.Config :=
  {| Config.ProjectIDs := ["p"]; Config.Regions := ["us"; "eu"]; Config.Models := ["flash"];
     Config.PollInterval := 30 * second; Config.PollTimeout := 10 * second;
     Config.SafetyMarginPercent := 10; Config.DefaultProjectLimits := Some ∅;
     Config.Allowances := {[ "us/flash" := Some (Config.mkModelLimit 600 0);
                             "eu/flash" := Some (Config.mkModelLimit 60 6000) ]};
     Config.CriticalReservePercent := None; Config.DataplaneReplicas := Some 2;
     Config.DefaultRequestTokens := 0; Config.CustomPolicies := Some ∅ |}.

Definition sampleEntries : list (string * option Config.ModelLimit) :=
  [("eu/flash", Some (Config.mkModelLimit 60 6000)); ("us/flash", Some (Config.mkModelLimit 600 0))].

(** One second per reading, for an hour. *)
Definition sampleClock (n : nat) : Time := Z.min (Z.of_nat n * second) (60 * minute).

Lemma sampleClock_ok : clockOk sampleClock.
Proof. intros i. unfold sampleClock, minute, second, horizon. lia. Qed.

Definition sampleLimiter : Limiter :=
  match NewLimiter (Some sampleConfig) sampleEntries sampleClock with
  | Ok l => l
  | Err _ => {| buckets := ∅; reservePercent := 0; allowances := ∅; replicas := 1; demand := ∅;
                clock := sampleClock; reads := O |}
  end.

Lemma sampleEntries_ok : entriesOk sampleEntries.
Proof.
  unfold entriesOk, sampleEntries. rewrite !Forall_cons, Forall_nil.
  split_and!; try done; intros a [= <-]; by vm_compute.
Qed.

Lemma sampleLimiter_new :
  NewLimiter (Some sampleConfig) sampleEntries sampleClock = Ok sampleLimiter.
Proof. reflexivity. Qed.

Lemma sampleConfig_ok : configOk sampleConfig.
Proof. by repeat split; vm_compute. Qed.

Lemma sampleLimiter_ok : limiterOk sampleLimiter.
Proof.
  eapply NewLimiter_ok;
    [exact sampleLimiter_new|exact sampleConfig_ok|exact sampleClock_ok|exact sampleEntries_ok].
Qed.

Lemma share_bounds_witness : share 360 4 = 90 ∧ 4 * share 360 4 ≤ 360.
Proof.
  split; [by vm_compute|].
  destruct (share_bounds 360 4) as [_ Hs]; [by vm_compute|by vm_compute|].
  apply Hs; by vm_compute.
Defined.

Lemma fractionOf_bounds_witness :
  fractionOf 360 (f64_const 1 3) = 120 ∧ 1 ≤ fractionOf 360 (f64_const 1 3) ≤ 360.
Proof.
  split; [by vm_compute|].
  destruct (fractionOf_bounds 360 (f64_const 1 3)) as [_ Hs]; [by vm_compute|by vm_compute|].
  apply Hs. by vm_compute.
Defined.

Lemma NewLimiter_full_witness :
  ∃ t, buckets sampleLimiter !! "eu/flash" = Some (NewTokenBucketWithClock 30 3000 t).
Proof.
  destruct (NewLimiter_full sampleConfig sampleEntries sampleClock sampleLimiter
              "eu/flash" (Config.mkModelLimit 60 6000)) as [[t Ht] _].
  - exact sampleLimiter_new.
  - apply (bool_decide_unpack (NoDup _)). by vm_compute.
  - left.
  - exists t. exact Ht.
Defined.

Lemma limiter_in_range_witness :
  limiterOk (act sampleLimiter (ABucket "eu/flash" (OpSetCapacity 10 1000))).
Proof.
  eapply (limiter_in_range sampleConfig sampleEntries sampleClock sampleLimiter);
    [exact sampleLimiter_new|exact sampleConfig_ok|exact sampleClock_ok|exact sampleEntries_ok|].
  apply rtc_once. constructor. by repeat split; vm_compute.
Defined.

Lemma TryAdmit_accounting_witness :
  buckets sampleLimiter !! "eu/flash" ≠ None ∧
  ∃ l', TryAdmit (Some sampleLimiter) "EU" "flash" 100 = ((true, true), Some l').
Proof.
  pose proof (TryAdmit_accounting sampleLimiter "EU" "flash" 100 sampleLimiter_ok) as H.
  change (targetKey "EU" "flash") with "eu/flash" in H.
  destruct (buckets sampleLimiter !! "eu/flash") as [b|] eqn:Hb; [|by vm_compute in Hb].
  split; [done|]. destruct H as (l' & Heq & _); [by vm_compute|]. exists l'. rewrite Heq.
  vm_compute in Hb. injection Hb as <-. by vm_compute.
Defined.

Lemma AdmitCritical_accounting_witness :
  ∃ l', AdmitCritical (Some sampleLimiter) "EU" "flash" 100000 = ((false, true), Some l').
Proof.
  pose proof (AdmitCritical_accounting sampleLimiter "EU" "flash" 100000 sampleLimiter_ok) as H.
  change (targetKey "EU" "flash") with "eu/flash" in H.
  destruct (buckets sampleLimiter !! "eu/flash") as [b|] eqn:Hb; [|by vm_compute in Hb].
  destruct H as (l' & b' & Heq & _); [by vm_compute|]. exists l'. rewrite Heq.
  vm_compute in Hb. injection Hb as <-. by vm_compute.
Defined.

(** Two requests recorded, a drain that sees one of them. *)
Definition sampleActions : list action :=
  [AAddRequest "eu/flash"; AAddTokens "eu/flash" 40; ASwapRequests "eu/flash";
   AAddRequest "eu/flash"; ASwapTokens "eu/flash"; AAddTokens "eu/flash" 2].

Lemma DrainDemand_exact_witness :
  (DrainDemand (Some (foldl act sampleLimiter sampleActions)) ["us/flash"; "eu/flash"]).1 =
    [pb.mkTargetDemand "eu/flash" 1 2].
Proof.
  pose proof (DrainDemand_exact (foldl act sampleLimiter sampleActions) ["us/flash"; "eu/flash"])
    as H.
  destruct (DrainDemand _ _) as [out l']. simpl fst. destruct H as [-> _].
  - apply (bool_decide_unpack (NoDup _)). by vm_compute.
  - by vm_compute.
Defined.

Lemma unlimited_runs_out_witness :
  (run (every largePeriod largeRequest 3 0) (NewTokenBucketWithClock 600 (share 0 1) 0)).1.2
    = 30000000 ∧
  (run (every largePeriod largeRequest 3 0) (NewTokenBucketWithClock 600 (share 0 1) 0)).1.2
    ≤ 2 ^ 40 - floorOf (2 ^ 40) 30.
Proof.
  split; [by vm_compute|].
  pose proof (unlimited_runs_out 0 600 0 1 30 (every largePeriod largeRequest 3 0)) as H.
  destruct (run _ _) as [[reqs tokens] tb]. apply H; concrete.
Defined.

Lemma large_requests_run_out_witness :
  (TryAcquireAbove drainedBucket 10000000 30 (24 * 60 * minute)).1 = false.
Proof. apply (large_requests_run_out (24 * 60 * minute)); by vm_compute. Defined.

End Limiter.
