(* ===== verification/Demand.v ===== *)
(** * Demand under concurrency: [record] and [DrainDemand] of [pkg/governor/limiter.go]

    A counter of demand is two atomic integers. [record] adds to one and then to the
    other, [DrainDemand] swaps one and then the other out, and neither is atomic:
    here their steps are interleaved, with any number of goroutines in the middle of
    [record] and one (the reporter's) in the middle of [DrainDemand]. *)

From S2P Require Import Prelude GoStrings GoFloat Quota Config Bucket Limiter.
From stdpp Require Import options.
Import TokenBucket Limiter.

Module Demand.

(** Where the draining goroutine is: not draining, before the next key, or between
    the two swaps of [k], with the requests it has swapped out. *)
Inductive drainer : Type :=
  | Idle
  | Before (keys : list string)
  | Swapped (k : string) (req : Z) (keys : list string).

(** [out] is the slice of the drain that is going on and [reported] what the drains
    before it returned; [adding] lists the goroutines that are between the two adds
    of [record]. *)
Record state := mkState {
  limiter : Limiter;
  draining : drainer;
  out : list pb.TargetDemand;
  reported : list pb.TargetDemand;
  adding : list (string * Z)
}.

Definition init (l : Limiter) : state := mkState l Idle [] [] [].

(** What some goroutine does next. *)
Inductive move : Type :=
  | MRecord (location model : string) (n : Z)
  | MAddTokens (i : nat)
  | MDrain (keys : list string)
  | MSwap
  | MBucket (k : string) (o : op).

Section demand.
Context `{GoUnicode}.

Definition exec (s : state) (m : move) : state :=
  match m with
  | MRecord location model n =>
      let k := targetKey location model in
      match demand (limiter s) !! k with
      | None => s
      | Some _ => mkState (act (limiter s) (AAddRequest k)) (draining s) (out s) (reported s)
                    (adding s ++ [(k, n)])
      end
  | MAddTokens i =>
      match adding s !! i with
      | None => s
      | Some (k, n) => mkState (act (limiter s) (AAddTokens k n)) (draining s) (out s) (reported s)
                         (delete i (adding s))
      end
  | MDrain keys =>
      match draining s with
      | Idle => mkState (limiter s) (Before keys) [] (reported s) (adding s)
      | _ => s
      end
  | MSwap =>
      match draining s with
      | Idle => s
      | Before [] => mkState (limiter s) Idle [] (reported s ++ out s) (adding s)
      | Before (k :: keys) =>
          match demand (limiter s) !! k with
          | None => mkState (limiter s) (Before keys) (out s) (reported s) (adding s)
          | Some d => mkState (act (limiter s) (ASwapRequests k)) (Swapped k (requests d) keys)
                        (out s) (reported s) (adding s)
          end
      | Swapped k req keys =>
          mkState (act (limiter s) (ASwapTokens k)) (Before keys)
            (emit (out s) k req (pendingTokens (limiter s) k)) (reported s) (adding s)
      end
  | MBucket k o => mkState (act (limiter s) (ABucket k o)) (draining s) (out s) (reported s) (adding s)
  end.

(** ** Counting *)

(** What the reports say of a target. *)
Definition reqsIn (k : string) (l : list pb.TargetDemand) : Z :=
  sumZ (λ d, if decide (pb.Demand_Target d = k) then pb.Requests d else 0) l.
Definition toksIn (k : string) (l : list pb.TargetDemand) : Z :=
  sumZ (λ d, if decide (pb.Demand_Target d = k) then pb.Tokens d else 0) l.

Lemma reqsIn_app k l1 l2 : reqsIn k (l1 ++ l2) = reqsIn k l1 + reqsIn k l2.
Proof. apply sumZ_app. Qed.

Lemma toksIn_app k l1 l2 : toksIn k (l1 ++ l2) = toksIn k l1 + toksIn k l2.
Proof. apply sumZ_app. Qed.

(** The requests that are swapped out but not reported yet. *)
Definition inHand (k : string) (d : drainer) : Z :=
  match d with
  | Swapped j req _ => if decide (j = k) then req else 0
  | _ => 0
  end.

(** The tokens of the requests that are counted without theirs. *)
Definition notAdded (k : string) (l : list (string * Z)) : Z :=
  sumZ (λ e, if decide (e.1 = k) then Z.max e.2 0 else 0) l.

(** The calls of [record] for a target among some moves, and their tokens. *)
Definition recorded (k : string) (m : move) : Z * Z :=
  match m with
  | MRecord location model n => if decide (targetKey location model = k) then (1, Z.max n 0) else (0, 0)
  | _ => (0, 0)
  end.

Definition requestsOf (k : string) (moves : list move) : Z := sumZ (λ m, (recorded k m).1) moves.
Definition tokensOf (k : string) (moves : list move) : Z := sumZ (λ m, (recorded k m).2) moves.

Lemma recorded_nonneg k m : 0 ≤ (recorded k m).1 ∧ 0 ≤ (recorded k m).2.
Proof. destruct m; simpl; try case_decide; simpl; lia. Qed.

Lemma moves_nonneg k moves : 0 ≤ requestsOf k moves ∧ 0 ≤ tokensOf k moves.
Proof.
  unfold requestsOf, tokensOf. induction moves as [|m moves IH]; simpl; [lia|].
  pose proof (recorded_nonneg k m). lia.
Qed.

Lemma emit_counts o k req tok j :
  reqsIn j (emit o k req tok) = reqsIn j o + (if decide (k = j) then req else 0) ∧
  toksIn j (emit o k req tok) = toksIn j o + (if decide (k = j) then tok else 0).
Proof.
  unfold emit. destruct (_ && _) eqn:Hz.
  - apply andb_prop in Hz as [->%Z.eqb_eq ->%Z.eqb_eq]. case_decide; lia.
  - unfold reqsIn, toksIn. rewrite !sumZ_app. simpl. case_decide; lia.
Qed.

(** ** Conservation *)

(** All the requests and tokens of a target that were ever counted, wherever they
    are now. *)
Definition allRequests (k : string) (s : state) : Z :=
  reqsIn k (reported s) + reqsIn k (out s) + inHand k (draining s) + pendingRequests (limiter s) k.
Definition allTokens (k : string) (s : state) : Z :=
  toksIn k (reported s) + toksIn k (out s) + pendingTokens (limiter s) k + notAdded k (adding s).

(** Nothing is negative, and a slice is kept only while a drain is going on. *)
Record stateOk (k : string) (s : state) : Prop := {
  st_known : is_Some (demand (limiter s) !! k);
  st_requests : 0 ≤ pendingRequests (limiter s) k;
  st_tokens : 0 ≤ pendingTokens (limiter s) k;
  st_reported : 0 ≤ reqsIn k (reported s) + reqsIn k (out s) ∧ 0 ≤ toksIn k (reported s) + toksIn k (out s);
  st_hand : 0 ≤ inHand k (draining s);
  st_out : draining s = Idle → out s = []
}.

Lemma notAdded_nonneg k l : 0 ≤ notAdded k l.
Proof. unfold notAdded. induction l as [|e l IH]; simpl; [lia|]. case_decide; lia. Qed.

(** [by_key j k] distinguishes whether [j] is the key in question. *)
Ltac by_key j k :=
  let Hj := fresh "Hj" in
  destruct (decide (j = k)) as [Hj|Hj];
  repeat match goal with
  | H : context [decide (j = k)] |- _ => rewrite ?(decide_True (P := j = k)), ?(decide_False (P := j = k)) in H by exact Hj
  end;
  rewrite ?(decide_True (P := j = k)), ?(decide_False (P := j = k)) by exact Hj; simpl in *.

(** What an action makes of the two counters of [k]. *)
Lemma act_counts k s a R T :
  stateOk k s → allRequests k s + R ≤ max_int64 → allTokens k s + T ≤ max_int64 →
  (added k a).1 ≤ R → (added k a).2 ≤ notAdded k (adding s) + T →
  is_Some (demand (act (limiter s) a) !! k) ∧
  pendingRequests (act (limiter s) a) k =
    pendingRequests (limiter s) k + (added k a).1 - (drained k (limiter s) a).1 ∧
  pendingTokens (act (limiter s) a) k =
    pendingTokens (limiter s) k + (added k a).2 - (drained k (limiter s) a).2.
Proof.
  intros [Hk Hr Ht [HrepR HrepT] Hh Ho] HbR HbT H1 H2. unfold allRequests, allTokens in *.
  apply act_demand; try done; lia.
Qed.

Definition conserves (k : string) (s : state) (m : move) : Prop :=
  stateOk k (exec s m) ∧
  allRequests k (exec s m) = allRequests k s + (recorded k m).1 ∧
  allTokens k (exec s m) = allTokens k s + (recorded k m).2.

Lemma swap_conserves k s :
  stateOk k s → allRequests k s ≤ max_int64 → allTokens k s ≤ max_int64 → conserves k s MSwap.
Proof.
  intros Hs HbR HbT. pose proof (notAdded_nonneg k (adding s)) as Hna.
  assert (∀ a, added k a = (0, 0) → _) as Hact
    by (intros a Ha; apply (act_counts k s a 0 0 Hs); rewrite ?Ha; simpl; lia).
  destruct Hs as [Hk Hr Ht [HrepR HrepT] Hh Ho]. unfold conserves, allRequests, allTokens in *.
  cbn [exec recorded fst snd]. destruct (draining s) as [|[|j keys]|j req keys] eqn:Hdr; simpl in *.
  - split; [constructor; rewrite ?Hdr; done|rewrite Hdr; simpl; lia].
  - split; [constructor; simpl; try done|]; rewrite ?reqsIn_app, ?toksIn_app; unfold reqsIn, toksIn in *;
      simpl; lia.
  - destruct (demand (limiter s) !! j) as [d|] eqn:Hd; [|split; [by constructor|simpl; lia]].
    destruct (Hact (ASwapRequests j) eq_refl) as (Hk' & HR & HT). simpl in HR, HT.
    assert ((if decide (j = k) then pendingRequests (limiter s) k else 0) =
            if decide (j = k) then requests d else 0) as Hd'
      by (case_decide as Hjk; [subst j; unfold pendingRequests; by rewrite Hd|done]).
    split; [constructor; simpl; try done|]; cbn [limiter draining out reported adding inHand];
      by_key j k; lia.
  - destruct (Hact (ASwapTokens j) eq_refl) as (Hk' & HR & HT). simpl in HR, HT.
    destruct (emit_counts (out s) j req (pendingTokens (limiter s) j) k) as [HeR HeT].
    assert ((if decide (j = k) then pendingTokens (limiter s) j else 0) =
            if decide (j = k) then pendingTokens (limiter s) k else 0) as Hd'
      by (case_decide as Hjk; [by subst j|done]).
    split; [constructor; simpl; try done|]; cbn [limiter draining out reported adding inHand];
      rewrite ?HeR, ?HeT; by_key j k; lia.
Qed.

Lemma exec_conserves k s m :
  stateOk k s → allRequests k s + (recorded k m).1 ≤ max_int64 →
  allTokens k s + (recorded k m).2 ≤ max_int64 → conserves k s m.
Proof.
  intros Hs HbR HbT. pose proof (notAdded_nonneg k (adding s)) as Hna.
  pose proof (λ a, act_counts k s a _ _ Hs HbR HbT) as Hact.
  destruct m as [location model n|i|keys| |j o];
    [| | |cbn [recorded fst snd] in *; apply swap_conserves; [done|lia|lia]|];
    destruct Hs as [Hk Hr Ht [HrepR HrepT] Hh Ho]; unfold conserves, allRequests, allTokens in *;
    cbn [exec recorded fst snd] in *.
  - set (j := targetKey location model) in *. destruct (demand (limiter s) !! j) as [d|] eqn:Hd.
    2: { assert (j ≠ k) by (intros ->; rewrite Hd in Hk; by destruct Hk).
         rewrite decide_False in * by done. simpl. split; [by constructor|lia]. }
    destruct (Hact (AAddRequest j)) as (Hk' & HR & HT);
      [simpl; by_key j k; lia|simpl; by_key j k; lia|].
    simpl in HR, HT. split; [constructor; simpl; try done|];
      cbn [limiter draining out reported adding]; unfold notAdded in *; rewrite ?sumZ_app; simpl;
      by_key j k; lia.
  - destruct (adding s !! i) as [[j n]|] eqn:Hi; [|simpl; split; [by constructor|lia]].
    pose proof (sumZ_delete (λ e : string * Z, if decide (e.1 = k) then Z.max e.2 0 else 0) _ _ _ Hi) as Hdel.
    fold (notAdded k (adding s)) in Hdel. fold (notAdded k (delete i (adding s))) in Hdel. simpl in Hdel.
    pose proof (notAdded_nonneg k (delete i (adding s))) as Hna'.
    destruct (Hact (AAddTokens j n)) as (Hk' & HR & HT);
      [simpl; by_key j k; lia|simpl; by_key j k; lia|].
    simpl in HR, HT. split; [constructor; simpl; try done|];
      cbn [limiter draining out reported adding]; by_key j k; lia.
  - destruct (draining s) as [|keys'|j req keys'] eqn:Hdr; try (split; [constructor; rewrite ?Hdr; done|simpl in *; rewrite ?Hdr; simpl; lia]).
    specialize (Ho eq_refl). rewrite Ho in *. simpl in *. split; [by constructor|lia].
  - destruct (Hact (ABucket j o)) as (Hk' & HR & HT); [cbn; lia|cbn; lia|]. cbn [added drained fst snd] in *.
    split; [constructor; cbn [limiter draining out reported]; try done|
            cbn [limiter draining out reported adding]]; lia.
Qed.

Lemma run_conserves k s moves :
  stateOk k s → allRequests k s + requestsOf k moves ≤ max_int64 →
  allTokens k s + tokensOf k moves ≤ max_int64 →
  stateOk k (foldl exec s moves) ∧
  allRequests k (foldl exec s moves) = allRequests k s + requestsOf k moves ∧
  allTokens k (foldl exec s moves) = allTokens k s + tokensOf k moves.
Proof.
  revert s. induction moves as [|m moves IH]; intros s Hs HbR HbT; [simpl in *; split; [done|lia]|].
  pose proof (moves_nonneg k moves) as [HnR HnT]. unfold requestsOf, tokensOf in *. simpl in *.
  destruct (exec_conserves k s m Hs) as (Hs' & HR & HT); [lia..|].
  destruct (IH (exec s m) Hs') as (Hs'' & HR' & HT'); [lia..|]. split; [done|lia].
Qed.

(** ** The methods alone *)

Lemma record_alone l location model n :
  limiter (foldl exec (init l) [MRecord location model n; MAddTokens 0]) = record l location model n.
Proof.
  rewrite record_actions. cbn [foldl exec init limiter].
  destruct (demand l !! targetKey location model) as [d|] eqn:Hd; [done|]. simpl.
  rewrite (alter_id _ (demand l)) by (rewrite Hd; congruence). simpl.
  rewrite (alter_id _ (demand l)) by (rewrite Hd; congruence). by destruct l.
Qed.

Lemma swaps_alone l o r a k keys :
  is_Some (demand l !! k) →
  foldl exec (mkState l (Before (k :: keys)) o r a) [MSwap; MSwap] =
    mkState (drainOne (o, l) k).2 (Before keys) (drainOne (o, l) k).1 r a.
Proof.
  intros [d Hd]. rewrite drainOne_actions. cbn [foldl exec draining limiter out reported adding].
  rewrite Hd. cbn [exec draining limiter out reported adding]. unfold drainOne. rewrite Hd. cbn [fst].
  unfold pendingTokens. simpl. by rewrite lookup_alter_eq, Hd.
Qed.

(** Two swaps for every key, and the return. *)
Definition alone (keys : list string) : list move := MDrain keys :: replicate (S (2 * length keys)) MSwap.

Lemma drain_alone l keys :
  (∀ k, k ∈ keys → is_Some (demand l !! k)) →
  let s := foldl exec (init l) (alone keys) in
  (reported s, Some (limiter s)) = DrainDemand (Some l) keys.
Proof.
  intros Hkeys. unfold alone, DrainDemand. cbn [foldl exec init draining].
  assert (∀ o l, (∀ k, k ∈ keys → is_Some (demand l !! k)) →
    let s := foldl exec (mkState l (Before keys) o [] []) (replicate (S (2 * length keys)) MSwap) in
    (reported s, Some (limiter s)) = let '(o', l') := foldl drainOne (o, l) keys in (o', Some l')) as Hloop.
  { clear l Hkeys. induction keys as [|k keys IH]; intros o l Hkeys; [done|].
    replace (S (2 * length (k :: keys)))%nat with (2 + S (2 * length keys))%nat by (simpl; lia).
    rewrite replicate_add, foldl_app. cbn [replicate].
    rewrite swaps_alone by (apply Hkeys; left). cbn [foldl].
    destruct (drainOne (o, l) k) as [o' l'] eqn:Hone. cbn [fst snd]. apply IH.
    intros j Hj. specialize (Hkeys j ltac:(by right)). unfold drainOne in Hone.
    destruct (demand l !! k) as [d|]; injection Hone as <- <-; [|done]. simpl.
    destruct (decide (k = j)) as [<-|Hne]; [rewrite lookup_insert_eq; by eexists|].
    by rewrite lookup_insert_ne. }
  exact (Hloop [] l Hkeys).
Qed.

(** ** Property *)

(** C18: no demand is lost or counted twice. Whatever goroutines are in the middle
    of [record], admit and resize beside a drain, for every target the requests that
    the reports state, those that the drain has swapped out but not reported yet and
    those that are pending are together those that were pending at first and one for
    every call of [record]; and so for tokens, those included that a call of [record]
    has still to add; as long as the totals fit 64 bits. The steps that are interleaved
    are those of [record] and [DrainDemand]: run alone they are these methods. *)
Theorem demand_conserved l k moves :
  is_Some (demand l !! k) → 0 ≤ pendingRequests l k → 0 ≤ pendingTokens l k →
  pendingRequests l k + requestsOf k moves ≤ max_int64 →
  pendingTokens l k + tokensOf k moves ≤ max_int64 →
  let s := foldl exec (init l) moves in
  reqsIn k (reported s) + reqsIn k (out s) + inHand k (draining s) + pendingRequests (limiter s) k =
    pendingRequests l k + requestsOf k moves ∧
  toksIn k (reported s) + toksIn k (out s) + pendingTokens (limiter s) k + notAdded k (adding s) =
    pendingTokens l k + tokensOf k moves ∧
  (∀ location model n,
     limiter (foldl exec (init l) [MRecord location model n; MAddTokens 0]) = record l location model n) ∧
  (∀ keys, (∀ j, j ∈ keys → is_Some (demand l !! j)) →
     let s := foldl exec (init l) (alone keys) in
     (reported s, Some (limiter s)) = DrainDemand (Some l) keys).
Proof.
  intros Hk HR HT HbR HbT. assert (stateOk k (init l)) as Hok by (by constructor).
  destruct (run_conserves k (init l) moves Hok) as (_ & HeR & HeT);
    [unfold allRequests; simpl; lia|unfold allTokens, notAdded; simpl; lia|].
  unfold allRequests, allTokens in HeR, HeT. simpl in HeR, HeT.
  split_and!; [simpl; lia|simpl; lia|apply record_alone|apply drain_alone].
Qed.

End demand.

(** Two requests recorded, a drain between the two adds of the first. *)
Definition sampleMoves : list move :=
  [MRecord "EU" "flash" 40; MDrain ["us/flash"; "eu/flash"]; MSwap; MSwap; MSwap;
   MRecord "eu" "Flash" 2; MSwap; MSwap; MAddTokens 0].

Lemma demand_conserved_witness :
  let s := foldl exec (init sampleLimiter) sampleMoves in
  reported s = [pb.mkTargetDemand "eu/flash" 1 0] ∧
  reqsIn "eu/flash" (reported s) + reqsIn "eu/flash" (out s) + inHand "eu/flash" (draining s)
    + pendingRequests (limiter s) "eu/flash" = 2 ∧
  pendingTokens (limiter s) "eu/flash" = 40 ∧ notAdded "eu/flash" (adding s) = 2.
Proof.
  cbn zeta. split; [by vm_compute|]. split; [|by vm_compute].
  destruct (demand_conserved sampleLimiter "eu/flash" sampleMoves) as [-> _]; try by vm_compute.
  by eexists.
Defined.

End Demand.
