(* ===== verification/Cascade.v ===== *)
(** * Admission decisions: [pkg/governor/cascade.go]

    The engine that forwards, reroutes or sheds each request, from the quota
    snapshot and the local limiter. The limiter is shared mutable state: the
    functions that touch it return the engine with the limiter they leave. *)

From S2P Require Import Prelude GoStrings GoFloat Quota Config Bucket Limiter.
From stdpp Require Import options.
Import Priority TokenBucket Limiter.

Module Cascade.

(** [Decision] of [types.go]; [RetryAfter] in nanoseconds. *)
Record Decision := mkDecision {
  Drop : bool;
  ReplaceModel : string;
  ReplaceRegion : string;
  Reason : string;
  RetryAfter : option Z
}.

Definition IsDrop (d : Decision) : bool := Drop d.

Definition IsForward (d : Decision) : bool :=
  negb (Drop d) && String.eqb (ReplaceModel d) "" && String.eqb (ReplaceRegion d) "".

Record CascadeEngine := mkCascadeEngine {
  customPolicies : gmap string Config.CustomPolicy;
  bestEffortCeiling : float64;
  limiter : option Limiter
}.

Record Request := mkRequest {
  Project : string;
  Region : string;
  Model : string;
  ReqPriority : Priority;
  Policy : string;
  Tokens : Z
}.

Definition WithLimiter (ce : CascadeEngine) (l : option Limiter) : CascadeEngine :=
  {| customPolicies := customPolicies ce; bestEffortCeiling := bestEffortCeiling ce;
     limiter := l |}.

Section cascade.
Context `{GoUnicode} `{GoArch}.

(** ** Construction *)

Definition normalizeStep (p : Config.CascadeStep) : result Config.CascadeStep :=
  let normTargetModel := trim_space (Config.TargetModel p) in
  if String.eqb normTargetModel "" then Err "TargetModel in CascadeStep cannot be empty"
  else
    let normTargetRegion := trim_space (Config.TargetRegion p) in
    if String.eqb normTargetRegion "" then Err "TargetRegion in CascadeStep cannot be empty"
    else Ok (Config.mkCascadeStep normTargetModel normTargetRegion).

Fixpoint normalizeCascade (steps : list Config.CascadeStep) : result (list Config.CascadeStep) :=
  match steps with
  | [] => Ok []
  | p :: steps =>
      let? q := normalizeStep p in
      let? qs := normalizeCascade steps in
      Ok (q :: qs)
  end.

Fixpoint normalizePolicies (entries : list (string * Config.CustomPolicy))
    (norm : gmap string Config.CustomPolicy) : result (gmap string Config.CustomPolicy) :=
  match entries with
  | [] => Ok norm
  | (name, policy) :: entries =>
      let normName := to_lower (trim_space name) in
      if String.eqb normName "" then Err "policy name cannot be empty"
      else
        match Config.Cascade policy with
        | [] => Err ("policy " +:+ go_quote name +:+ " must define at least one cascade step")
        | steps =>
            let? normCascade := normalizeCascade steps in
            normalizePolicies entries (<[normName := Config.mkCustomPolicy normCascade]> norm)
        end
  end.

(** [entries] is the policy map in the order in which [range] visits it. *)
Definition NewCascadeEngine (entries : list (string * Config.CustomPolicy))
    : result CascadeEngine :=
  let? norm := normalizePolicies entries ∅ in
  Ok {| customPolicies := norm;
        bestEffortCeiling :=
          f64_div (f64_of_Z (100 -! Config.DefaultCriticalReservePercent)) (f64_of_Z 100);
        limiter := None |}.

Definition NewCascadeEngineFromConfig (cfg : option Config.Config)
    (policies : list (string * Config.CustomPolicy))
    (allowances : list (string * option Config.ModelLimit)) (clk : nat → Time)
    : result CascadeEngine :=
  match cfg with
  | None => Err "config cannot be nil"
  | Some _ =>
      let? ce := NewCascadeEngine policies in
      let? l := NewLimiter cfg allowances clk in
      Ok {| customPolicies := customPolicies ce;
            bestEffortCeiling := Config.BestEffortCeiling cfg;
            limiter := Some l |}
  end.

(** ** Quota lookups *)

Definition getEffectiveQuota (snapshot : option pb.QuotaSnapshot) (project region model : string)
    : option pb.ModelQuota :=
  match snapshot with
  | None => None
  | Some _ =>
      let projectQuota :=
        if String.eqb project "" then Err ""
        else Helpers.GetProjectQuota snapshot project region model in
      match projectQuota with
      | Ok q => Some q
      | Err _ =>
          match Helpers.GetOrgQuota snapshot region model with
          | Ok q => Some q
          | Err _ => None
          end
      end
  end.

Definition formatUtilization (q : option pb.ModelQuota) : string :=
  match q with
  | None => "unknown quota"
  | Some q =>
      "RPM: " +:+ fmt_f1 (f64_mul (pb.UtilizationRpm q) (f64_of_Z 100)) +:+ "%, TPM: "
        +:+ fmt_f1 (f64_mul (pb.UtilizationTpm q) (f64_of_Z 100)) +:+ "%"
  end.

Definition aboveCeiling (ce : CascadeEngine) (q : option pb.ModelQuota) : bool :=
  match q with
  | None => false
  | Some q => f64_leb (bestEffortCeiling ce) (pb.UtilizationRpm q)
              || f64_leb (bestEffortCeiling ce) (pb.UtilizationTpm q)
  end.

Definition knows (ce : CascadeEngine) (snapshot : option pb.QuotaSnapshot)
    (project region model : string) : bool :=
  match getEffectiveQuota snapshot project region model with
  | Some _ => true
  | None => Known (limiter ce) region model
  end.

(** ** Deciding *)

(** The snapshot says the target is full for best-effort traffic. *)
Definition snapshotFull (ce : CascadeEngine) (q : option pb.ModelQuota) : bool :=
  match q with
  | None => false
  | Some _ => IsSaturated q || aboveCeiling ce q
  end.

Definition tryTarget (ce : CascadeEngine) (snapshot : option pb.QuotaSnapshot)
    (project region model : string) (tokens : Z) : (bool * string) * CascadeEngine :=
  let q := getEffectiveQuota snapshot project region model in
  if snapshotFull ce q then
    ((false, "model " +:+ model +:+ " in " +:+ region +:+ " is saturated/exceeded threshold ("
               +:+ formatUtilization q +:+ ")"), ce)
  else
    let '((ok, known), l) := TryAdmit (limiter ce) region model tokens in
    let ce := WithLimiter ce l in
    if known && negb ok then
      ((false, "model " +:+ model +:+ " in " +:+ region
                 +:+ " reached the critical reserve of its local allowance"), ce)
    else ((true, ""), ce).

(** The loop over the cascade: the step that admitted, if any. *)
Fixpoint tryCascade (ce : CascadeEngine) (snapshot : option pb.QuotaSnapshot) (r : Request)
    (steps : list Config.CascadeStep) : option Config.CascadeStep * CascadeEngine :=
  match steps with
  | [] => (None, ce)
  | cs :: steps =>
      if negb (knows ce snapshot (Project r) (Config.TargetRegion cs) (Config.TargetModel cs))
      then tryCascade ce snapshot r steps
      else
        let '((ok, _), ce) := tryTarget ce snapshot (Project r) (Config.TargetRegion cs)
                                (Config.TargetModel cs) (Tokens r) in
        if ok : bool then (Some cs, ce) else tryCascade ce snapshot r steps
  end.

Definition forward (reason : string) : Decision := mkDecision false "" "" reason None.
Definition shed (reason : string) : Decision :=
  mkDecision true "" "" reason (Some DefaultRetryAfter).

Definition decideCritical (ce : CascadeEngine) (q : option pb.ModelQuota) (r : Request)
    : Decision * CascadeEngine :=
  let '((within, _), l) := AdmitCritical (limiter ce) (Region r) (Model r) (Tokens r) in
  let reason :=
    if negb within || IsSaturated q
    then "priority traffic is not modified. WARNING: the allowance for the target is used up"
    else "priority traffic is not modified. The target status is NOT saturated" in
  (forward reason, WithLimiter ce l).

Definition decideCustom (ce : CascadeEngine) (snapshot : option pb.QuotaSnapshot) (r : Request)
    : Decision * CascadeEngine :=
  let '((ok, why), ce) := tryTarget ce snapshot (Project r) (Region r) (Model r) (Tokens r) in
  if ok : bool then
    (forward ("custom traffic: primary " +:+ Model r +:+ " in " +:+ Region r
              +:+ " healthy, admitted"), ce)
  else
    let normPolicyName := to_lower (trim_space (Policy r)) in
    match from_option Config.Cascade [] (customPolicies ce !! normPolicyName) with
    | [] =>
        (shed ("ERROR: given policy name " +:+ normPolicyName
                 +:+ " does not exist or has empty cascade; " +:+ why
                 +:+ "; Treating as best_effort does not cascade"), ce)
    | steps =>
        let '(found, ce) := tryCascade ce snapshot r steps in
        match found with
        | Some cs =>
            (mkDecision false (Config.TargetModel cs) (Config.TargetRegion cs)
               ("combined failover: " +:+ Model r +:+ " in " +:+ Region r
                  +:+ " saturated -> rerouted to " +:+ Config.TargetModel cs +:+ " in "
                  +:+ Config.TargetRegion cs) None, ce)
        | None =>
            (shed ("Primary target and cascade targets defined in policy " +:+ normPolicyName
                     +:+ " are all saturated; Dropping traffic"), ce)
        end
    end.

Definition decideBestEffort (ce : CascadeEngine) (snapshot : option pb.QuotaSnapshot) (r : Request)
    : Decision * CascadeEngine :=
  let '((ok, why), ce) := tryTarget ce snapshot (Project r) (Region r) (Model r) (Tokens r) in
  if ok : bool then (forward "best_effort admitted within threshold", ce)
  else (shed (why +:+ "; best_effort does not cascade"), ce).

Definition Decide (ce : CascadeEngine) (snapshot : option pb.QuotaSnapshot) (r : Request)
    : Decision * CascadeEngine :=
  let primaryQuota := getEffectiveQuota snapshot (Project r) (Region r) (Model r) in
  match primaryQuota, Known (limiter ce) (Region r) (Model r) with
  | None, false => (forward "primary quota data unavailable, admitting optimistically", ce)
  | _, _ =>
      match ReqPriority r with
      | PRIORITY_CRITICAL => decideCritical ce primaryQuota r
      | PRIORITY_CUSTOM => decideCustom ce snapshot r
      | _ => decideBestEffort ce snapshot r
      end
  end.

Definition Evaluate (ce : CascadeEngine) (snapshot : option pb.QuotaSnapshot)
    (project region model : string) (priority : Priority) (policyName : string)
    : Decision * CascadeEngine :=
  Decide ce snapshot (mkRequest project region model priority policyName 0).

End cascade.

(** ** What a decision does to the limiter *)

Section decisions.
Context `{GoUnicode} `{GoArch}.

(** Of a limiter, a decision changes the balances, the demand and the number of
    clock readings. *)
Definition later (l l' : Limiter) : Prop :=
  clock l' = clock l ∧ reservePercent l' = reservePercent l ∧ (reads l ≤ reads l')%nat.

(** The bucket was refilled at most, at a time between [t1] and [t2]. *)
Definition refilled (t1 t2 : Time) (b b' : TokenBucket) : Prop :=
  b' = b ∨ ∃ t, t1 ≤ t ≤ t2 ∧ b' = refillLocked b t.

(** The target's bucket can pay for [n] tokens at time [t] and keep the critical
    reserve. *)
Definition pays (l : Limiter) (b : TokenBucket) (t : Time) (n : Z) : bool :=
  roomAbove (refillLocked b t) n (maxRPM b * reservePercent l / 100)
    (maxTPM b * reservePercent l / 100).

(** No bucket but [k]'s was charged. *)
Definition othersLooked (P : string → Prop) (l l' : Limiter) : Prop :=
  ∀ k, P k → option_Forall2 (refilled (now l) (lastRead l')) (buckets l !! k) (buckets l' !! k).

Definition looked (l l' : Limiter) : Prop := later l l' ∧ othersLooked (λ _, True) l l'.

(** The bucket of [k] was charged once, for [n] tokens that it could pay. *)
Definition charged (k : string) (n : Z) (l l' : Limiter) : Prop :=
  later l l' ∧ othersLooked (λ j, j ≠ k) l l' ∧
  ∃ b t, buckets l !! k = Some b ∧ now l ≤ t ≤ lastRead l' ∧ pays l b t n = true ∧
         buckets l' !! k = Some (take (refillLocked b t) n).

Lemma later_refl l : later l l.
Proof. unfold later. auto with lia. Qed.

Lemma later_trans l1 l2 l3 : later l1 l2 → later l2 l3 → later l1 l3.
Proof. intros (? & ? & ?) (? & ? & ?). repeat split; [congruence|congruence|lia]. Qed.

Lemma later_now l l' : clockOk (clock l) → later l l' → now l ≤ now l'.
Proof. intros Hc (Heq & _ & ?). unfold now. rewrite Heq. by apply clock_mono. Qed.

Lemma later_lastRead l l' : clockOk (clock l) → later l l' → lastRead l ≤ lastRead l'.
Proof. intros Hc (Heq & _ & ?). unfold lastRead. rewrite Heq. apply clock_mono; [done|lia]. Qed.

Lemma lastRead_horizon l : clockOk (clock l) → lastRead l ≤ clock l O + horizon.
Proof. intros Hc. pose proof (lastRead_now l Hc). lia. Qed.

Lemma looked_refl l : looked l l.
Proof.
  split; [apply later_refl|]. intros k _. destruct (buckets l !! k); constructor. by left.
Qed.

(** A refill after a refill is one refill, so a bucket that was only refilled
    behaves like the original one. *)
Lemma refilled_refill l l' k b b' t :
  limiterOk l → buckets l !! k = Some b → refilled (now l) (lastRead l') b b' → later l l' →
  now l' ≤ t ≤ clock l O + horizon → refillLocked b' t = refillLocked b t.
Proof.
  intros Hok Hb [->|(t0 & Ht0 & ->)] Hl Ht; [done|].
  pose proof (limiter_bucket l k b Hok Hb) as Hbok.
  assert (clockOk (clock l')) as Hc by (destruct Hl as (-> & _); apply Hok).
  pose proof (lastRead_now l' Hc) as [? ?]. assert (clock l' = clock l) as Hcl by apply Hl.
  apply (refillLocked_split (clock l O)); [|lia].
  eapply bucketOk_later; [exact Hbok|lia].
Qed.

Lemma refill_caps b t : maxRPM (refillLocked b t) = maxRPM b ∧ maxTPM (refillLocked b t) = maxTPM b.
Proof. done. Qed.

Lemma refilled_caps t1 t2 b b' : refilled t1 t2 b b' → maxRPM b' = maxRPM b ∧ maxTPM b' = maxTPM b.
Proof. intros [->|(t & _ & ->)]; [done|apply refill_caps]. Qed.

Lemma pays_refilled l l' k b b' t n :
  limiterOk l → buckets l !! k = Some b → refilled (now l) (lastRead l') b b' → later l l' →
  now l' ≤ t ≤ clock l O + horizon → pays l' b' t n = pays l b t n.
Proof.
  intros Hok Hb Href Hl Ht. unfold pays. rewrite (refilled_refill l l' k b b' t) by done.
  destruct (refilled_caps _ _ _ _ Href) as [-> ->]. by destruct Hl as (_ & -> & _).
Qed.

Lemma refilled_trans l l' l'' k b b' b'' :
  limiterOk l → buckets l !! k = Some b → later l l' → later l' l'' →
  refilled (now l) (lastRead l') b b' → refilled (now l') (lastRead l'') b' b'' →
  refilled (now l) (lastRead l'') b b''.
Proof.
  intros Hok Hb Hl Hl' H1 H2. assert (clockOk (clock l)) as Hc by apply Hok.
  assert (clock l' = clock l ∧ clock l'' = clock l) as [Hc1 Hc2]
    by (destruct Hl as (Hc1 & _), Hl' as (Hc2 & _); split; congruence).
  assert (now l ≤ now l') by (by apply later_now).
  assert (lastRead l' ≤ lastRead l'') by (apply later_lastRead; [by rewrite Hc1|done]).
  assert (lastRead l'' ≤ clock l O + horizon)
    by (rewrite <- Hc2; apply lastRead_horizon; by rewrite Hc2).
  destruct H2 as [->|(t & Ht & ->)].
  - destruct H1 as [->|(t & Ht & ->)]; [by left|]. right. exists t. split; [lia|done].
  - right. exists t. split; [lia|]. eapply refilled_refill; eauto. lia.
Qed.

Lemma looked_trans l l' l'' : limiterOk l → looked l l' → looked l' l'' → looked l l''.
Proof.
  intros Hok [Hl H1] [Hl' H2]. split; [by eapply later_trans|]. intros k _.
  specialize (H1 k I). specialize (H2 k I).
  destruct (buckets l !! k) as [b|] eqn:Hb; inversion H1 as [? b' Href Heq1 Heq2|Heq1 Heq2]; subst;
    rewrite <- Heq2 in H2; inversion H2; subst; constructor.
  by eapply refilled_trans.
Qed.

Lemma looked_charged l l' l'' k n :
  limiterOk l → looked l l' → charged k n l' l'' → charged k n l l''.
Proof.
  intros Hok [Hl H1] (Hl' & Hoth & b' & t & Hb' & Ht & Hpay & Htake).
  assert (clockOk (clock l)) as Hc by apply Hok.
  assert (later l l'') as Hll by (by eapply later_trans).
  assert (clock l'' = clock l) as Hc2 by apply Hll.
  assert (lastRead l'' ≤ clock l O + horizon)
    by (rewrite <- Hc2; apply lastRead_horizon; by rewrite Hc2).
  assert (now l ≤ now l') by (by apply later_now).
  split; [done|split].
  - intros j Hj. specialize (H1 j I). specialize (Hoth j Hj).
    destruct (buckets l !! j) as [b|] eqn:Hb;
      inversion H1 as [? b1 Href Heq1 Heq2|Heq1 Heq2]; subst;
      rewrite <- Heq2 in Hoth; inversion Hoth; subst; constructor.
    eapply (refilled_trans l l' l'' j); eauto.
  - specialize (H1 k I). rewrite Hb' in H1.
    destruct (buckets l !! k) as [b|] eqn:Hb; inversion H1 as [? ? Href|]; subst.
    exists b, t. rewrite <- (refilled_refill l l' k b b' t) by (done || lia).
    split; [done|split; [lia|split; [|done]]]. rewrite <- Hpay. symmetry.
    eapply pays_refilled; eauto. lia.
Qed.

Lemma callBucket_frame {A} l k b (method : TokenBucket → Time → A * TokenBucket) :
  let l' := (callBucket l k b method).2 in
  clock l' = clock l ∧ reservePercent l' = reservePercent l ∧ reads l' = S (reads l).
Proof. unfold callBucket. by destruct (method b (now l)). Qed.

(** One attempt on a target. *)
Lemma TryAdmit_effect l region model n :
  limiterOk l → n ≤ maxTokens →
  let k := targetKey region model in
  ∃ l', TryAdmit (Some l) region model n =
      (match buckets l !! k with Some b => (pays l b (now l) n, true) | None => (false, false) end,
       Some l') ∧ limiterOk l' ∧
    match buckets l !! k with
    | None => l' = l
    | Some b => lastRead l' = now l ∧
        if pays l b (now l) n then charged k n l l' else looked l l'
    end.
Proof.
  intros Hok Hn k. pose proof (TryAdmit_spec l region model n Hok Hn) as Hs. cbn zeta in Hs.
  fold k in Hs. destruct (buckets l !! k) as [b|] eqn:Hb; [|by exists l].
  destruct Hs as (l' & Heq & Hk & Hoth & _ & _). exists l'. split; [exact Heq|].
  destruct (TryAdmit_ok _ _ _ _ _ _ Hok Hn Heq) as (? & [= <-] & Hok'). split; [done|].
  pose proof (TryAdmit_actions l region model n b Hb) as Ha. rewrite Heq in Ha.
  simpl snd in Ha. injection Ha as Ha. fold k in Ha.
  assert (clock l' = clock l ∧ reservePercent l' = reservePercent l ∧ reads l' = S (reads l))
    as (Hc & Hr & Hreads).
  { rewrite Ha. cbn [foldl act withDemand buckets]. rewrite Hb.
    match goal with |- context [callBucket ?l1 ?k1 ?b1 ?m] =>
      exact (callBucket_frame l1 k1 b1 m) end. }
  assert (later l l') as Hl by (split; [done|split; [done|lia]]).
  assert (lastRead l' = now l) as Hlast by (unfold lastRead, now; by rewrite Hreads, Hc).
  split; [done|].
  assert (othersLooked (λ j, j ≠ k) l l').
  { intros j Hj. rewrite (Hoth j Hj). destruct (buckets l !! j); constructor. by left. }
  unfold pays, roomAbove. destruct (_ && _) eqn:Hroom.
  - split; [done|split; [done|]]. exists b, (now l). rewrite Hlast. repeat split; try done; lia.
  - split; [done|]. intros j _. destruct (decide (j = k)) as [->|Hj]; [|by auto].
    rewrite Hb, Hk. constructor. right. exists (now l). rewrite Hlast. split; [lia|done].
Qed.

(** ** The same for engines *)

Lemma WithLimiter_same ce : WithLimiter ce (limiter ce) = ce.
Proof. by destruct ce. Qed.

(** An engine the theorems cover. *)
Definition engineOk (ce : CascadeEngine) : Prop := ∀ l, limiter ce = Some l → limiterOk l.

(** The engine differs in its limiter at most, by [P]. *)
Definition engineRel (P : Limiter → Limiter → Prop) (ce ce' : CascadeEngine) : Prop :=
  ce' = WithLimiter ce (limiter ce') ∧ option_Forall2 P (limiter ce) (limiter ce').

(** The request was charged to this target, or to nothing if it has no allowance. *)
Definition chargedTo (region model : string) (n : Z) (l l' : Limiter) : Prop :=
  match buckets l !! targetKey region model with
  | Some _ => charged (targetKey region model) n l l'
  | None => looked l l'
  end.

(** The target is full: the snapshot says so, or its bucket could not pay at a
    moment between [ce] and [ce']. *)
Definition fullDuring (ce ce' : CascadeEngine) (snapshot : option pb.QuotaSnapshot) (r : Request)
    (region model : string) : Prop :=
  snapshotFull ce (getEffectiveQuota snapshot (Project r) region model) = true ∨
  ∃ l l' b t, limiter ce = Some l ∧ limiter ce' = Some l' ∧
    buckets l !! targetKey region model = Some b ∧
    now l ≤ t ≤ lastRead l' ∧ pays l b t (Tokens r) = false.

(** The target has room: the snapshot does not say otherwise, and its bucket, if
    it has one, could pay at a moment between [ce] and [ce']. *)
Definition roomDuring (ce ce' : CascadeEngine) (snapshot : option pb.QuotaSnapshot) (r : Request)
    (region model : string) : Prop :=
  snapshotFull ce (getEffectiveQuota snapshot (Project r) region model) = false ∧
  ∀ l b, limiter ce = Some l → buckets l !! targetKey region model = Some b →
    ∃ l' t, limiter ce' = Some l' ∧ now l ≤ t ≤ lastRead l' ∧ pays l b t (Tokens r) = true.

Lemma engineRel_refl (P : Limiter → Limiter → Prop) ce : (∀ l, P l l) → engineRel P ce ce.
Proof.
  intros HP. split; [by destruct ce|]. destruct (limiter ce); constructor. apply HP.
Qed.

Lemma engineRel_weaken (P Q : Limiter → Limiter → Prop) ce ce' :
  (∀ l l', limiter ce = Some l → P l l' → Q l l') → engineRel P ce ce' → engineRel Q ce ce'.
Proof.
  intros HPQ [Heq HP]. split; [done|].
  destruct (limiter ce) as [l|] eqn:Hl; inversion HP; subst; constructor. by apply HPQ.
Qed.

Lemma engineRel_trans (P Q R : Limiter → Limiter → Prop) ce ce1 ce2 :
  (∀ l l1 l2, limiter ce = Some l → P l l1 → Q l1 l2 → R l l2) →
  engineRel P ce ce1 → engineRel Q ce1 ce2 → engineRel R ce ce2.
Proof.
  intros HPQR [Heq1 HP] [Heq2 HQ]. split; [rewrite Heq2, Heq1; done|].
  destruct (limiter ce) as [l|] eqn:Hl; inversion HP as [? l1 HP' Ha Hb|Ha Hb]; subst;
    rewrite <- Hb in HQ; inversion HQ; subst; constructor. by eapply HPQR.
Qed.

Lemma engineRel_full P ce ce' snapshot project region model :
  engineRel P ce ce' →
  snapshotFull ce' (getEffectiveQuota snapshot project region model) =
    snapshotFull ce (getEffectiveQuota snapshot project region model).
Proof. intros [-> _]. done. Qed.

Lemma chargedTo_later region model n l l' : chargedTo region model n l l' → later l l'.
Proof. unfold chargedTo. destruct (buckets l !! _); intros [? _]; done. Qed.

Lemma looked_key l l' k : looked l l' → buckets l !! k = None ↔ buckets l' !! k = None.
Proof.
  intros [_ Hk]. specialize (Hk k I).
  destruct (buckets l !! k), (buckets l' !! k); inversion Hk; done.
Qed.

Lemma looked_chargedTo l l1 l2 region model n :
  limiterOk l → looked l l1 → chargedTo region model n l1 l2 → chargedTo region model n l l2.
Proof.
  intros Hok Hl. unfold chargedTo. pose proof (looked_key l l1 (targetKey region model) Hl) as Hk.
  destruct (buckets l !! _), (buckets l1 !! _); intros Hc.
  - by eapply looked_charged.
  - by destruct Hk as [_ Hk]; specialize (Hk eq_refl).
  - by destruct Hk as [Hk _]; specialize (Hk eq_refl).
  - by eapply looked_trans.
Qed.

Lemma fullDuring_extend ce ce1 ce2 snapshot r region model :
  engineOk ce1 → engineRel later ce1 ce2 →
  fullDuring ce ce1 snapshot r region model → fullDuring ce ce2 snapshot r region model.
Proof.
  intros Hok [_ Hl] [Hs|(l & l1 & b & t & Hl0 & Hl1 & Hb & Ht & Hp)]; [by left|]. right.
  rewrite Hl1 in Hl. inversion Hl as [? l2 Hlat Ha Hl2|]; subst.
  exists l, l2, b, t. split_and!; try done; [lia|].
  pose proof (later_lastRead l1 l2 (lim_clock _ (Hok l1 Hl1)) Hlat). lia.
Qed.

(** What a bucket could pay when it was only looked at before, the original one
    could pay as well. *)
Lemma pays_pull l l1 l2 k b1 t n :
  limiterOk l → looked l l1 → later l1 l2 → buckets l1 !! k = Some b1 →
  now l1 ≤ t ≤ lastRead l2 →
  ∃ b, buckets l !! k = Some b ∧ now l ≤ t ≤ lastRead l2 ∧ pays l1 b1 t n = pays l b t n.
Proof.
  intros Hok [Hl Hoth] Hl' Hb1 Ht. specialize (Hoth k I). rewrite Hb1 in Hoth.
  destruct (buckets l !! k) as [b|] eqn:Hb; inversion Hoth as [? ? Href|]; subst.
  assert (clockOk (clock l)) as Hc by apply Hok. exists b.
  pose proof (later_now l l1 Hc Hl).
  assert (clock l2 = clock l) as Hc2 by (apply (later_trans l l1 l2 Hl Hl')).
  assert (lastRead l2 ≤ clock l O + horizon)
    by (rewrite <- Hc2; apply lastRead_horizon; by rewrite Hc2).
  split; [done|]. split; [lia|]. eapply pays_refilled; eauto. lia.
Qed.

Lemma fullDuring_pull ce ce1 ce2 snapshot r region model :
  engineOk ce → engineRel looked ce ce1 → engineRel later ce1 ce2 →
  fullDuring ce1 ce2 snapshot r region model → fullDuring ce ce2 snapshot r region model.
Proof.
  intros Hok Hl [_ Hlat] [Hs|(l1 & l2 & b1 & t & Hl1 & Hl2 & Hb & Ht & Hp)].
  { left. by rewrite <- (engineRel_full looked ce ce1). }
  right. destruct Hl as [_ Hl]. rewrite Hl1 in Hl, Hlat. rewrite Hl2 in Hlat.
  inversion Hl as [l ? Hlook Hl0|]; subst. inversion Hlat; subst.
  destruct (pays_pull l l1 l2 _ b1 t (Tokens r) (Hok l (eq_sym Hl0)) Hlook ltac:(done) Hb Ht)
    as (b & Hb0 & Ht0 & Heq).
  exists l, l2, b, t. by rewrite <- Heq.
Qed.

Lemma roomDuring_pull ce ce1 ce2 snapshot r region model :
  engineOk ce → engineRel looked ce ce1 → engineRel later ce1 ce2 →
  roomDuring ce1 ce2 snapshot r region model → roomDuring ce ce2 snapshot r region model.
Proof.
  intros Hok Hl [_ Hlat] [Hs Hroom]. split; [by rewrite <- (engineRel_full looked ce ce1)|].
  intros l b Hl0 Hb. destruct Hl as [_ Hl]. rewrite Hl0 in Hl.
  inversion Hl as [? l1 Hlook Ha Hl1|]; subst.
  destruct (buckets l1 !! targetKey region model) as [b1|] eqn:Hb1.
  2: { apply (looked_key l l1) in Hb1; [congruence|done]. }
  destruct (Hroom l1 b1 (eq_sym Hl1) Hb1) as (l2 & t & Hl2 & Ht & Hp).
  rewrite <- Hl1, Hl2 in Hlat. inversion Hlat; subst.
  destruct (pays_pull l l1 l2 _ b1 t (Tokens r) (Hok l Hl0) Hlook ltac:(done) Hb1 Ht)
    as (b' & Hb' & Ht' & Heq).
  exists l2, t. rewrite Hb in Hb'. injection Hb' as <-. by rewrite <- Heq.
Qed.

(** ** Attempts *)

Lemma tryTarget_cases ce snapshot r region model :
  engineOk ce → Tokens r ≤ maxTokens →
  let '((ok, _), ce') := tryTarget ce snapshot (Project r) region model (Tokens r) in
  engineOk ce' ∧
  if ok then roomDuring ce ce' snapshot r region model ∧
             engineRel (chargedTo region model (Tokens r)) ce ce'
  else fullDuring ce ce' snapshot r region model ∧ engineRel looked ce ce'.
Proof.
  intros Hok Hn. unfold tryTarget, roomDuring, fullDuring.
  destruct (snapshotFull ce _) eqn:Hfull.
  { split; [done|]. split; [by left|]. apply engineRel_refl, looked_refl. }
  destruct (limiter ce) as [l|] eqn:Hl.
  2: { simpl. rewrite <- Hl, WithLimiter_same. split; [done|]. split; [by rewrite Hl|].
       split; [by rewrite WithLimiter_same|]. rewrite Hl. constructor. }
  destruct (TryAdmit_effect l region model (Tokens r) (Hok l Hl) Hn) as (l' & -> & Hok' & Heff).
  assert (engineOk (WithLimiter ce (Some l'))) as Hok1 by (intros ? [= <-]; done).
  assert (∀ P : Limiter → Limiter → Prop, P l l' → engineRel P ce (WithLimiter ce (Some l'))) as Hrel
    by (intros P HP; split; [done|]; simpl; rewrite Hl; by constructor).
  destruct (buckets l !! targetKey region model) as [b|] eqn:Hb; simpl.
  - destruct Heff as [Hlast Heff]. destruct (pays l b (now l) (Tokens r)) eqn:Hp; simpl.
    + split; [done|split; [split; [done|]|]].
      * intros ? b' [= <-] Hb'. exists l', (now l). rewrite Hb in Hb'. injection Hb' as <-.
        rewrite Hlast. split_and!; [done|lia|lia|done].
      * apply Hrel. unfold chargedTo. by rewrite Hb.
    + split; [done|split; [|by apply Hrel]].
      right. exists l, l', b, (now l). rewrite Hlast. split_and!; [done..|lia|lia|done].
  - subst l'. split; [done|split; [split; [done|]|]].
    + intros ? b' [= <-] Hb'. congruence.
    + apply Hrel. unfold chargedTo. rewrite Hb. apply looked_refl.
Qed.

Lemma looked_later ce ce' : engineRel looked ce ce' → engineRel later ce ce'.
Proof. apply engineRel_weaken. intros l l' _ [Hl _]. exact Hl. Qed.

Lemma charged_later region model n ce ce' :
  engineRel (chargedTo region model n) ce ce' → engineRel later ce ce'.
Proof. apply engineRel_weaken. intros l l' _. apply chargedTo_later. Qed.

Lemma knows_looked ce ce' snapshot project region model :
  engineRel looked ce ce' →
  knows ce' snapshot project region model = knows ce snapshot project region model.
Proof.
  intros [_ Hl]. unfold knows, Known, bucket. destruct (getEffectiveQuota _ _ _ _); [done|].
  inversion Hl as [l l' Hlook|]; [|done]. simpl.
  pose proof (looked_key l l' (targetKey region model) Hlook) as Hk.
  destruct (buckets l !! _), (buckets l' !! _); try done; exfalso;
    [destruct Hk as [_ Hk]|destruct Hk as [Hk _]]; by specialize (Hk eq_refl).
Qed.

(** A cascade step that a decision passed over: unknown or full. *)
Definition passedOver (ce ce' : CascadeEngine) (snapshot : option pb.QuotaSnapshot) (r : Request)
    (cs : Config.CascadeStep) : Prop :=
  knows ce snapshot (Project r) (Config.TargetRegion cs) (Config.TargetModel cs) = true →
  fullDuring ce ce' snapshot r (Config.TargetRegion cs) (Config.TargetModel cs).

(** The step that a decision took: known and with room, and the one charged. *)
Definition taken (ce ce' : CascadeEngine) (snapshot : option pb.QuotaSnapshot) (r : Request)
    (cs : Config.CascadeStep) : Prop :=
  knows ce snapshot (Project r) (Config.TargetRegion cs) (Config.TargetModel cs) = true ∧
  roomDuring ce ce' snapshot r (Config.TargetRegion cs) (Config.TargetModel cs) ∧
  engineRel (chargedTo (Config.TargetRegion cs) (Config.TargetModel cs) (Tokens r)) ce ce'.

Lemma passedOver_pull ce ce1 ce2 snapshot r cs :
  engineOk ce → engineRel looked ce ce1 → engineRel later ce1 ce2 →
  passedOver ce1 ce2 snapshot r cs → passedOver ce ce2 snapshot r cs.
Proof.
  intros Hok Hl Hlat Hp Hk. eapply fullDuring_pull; eauto. apply Hp. by rewrite (knows_looked ce ce1).
Qed.

Lemma taken_pull ce ce1 ce2 snapshot r cs :
  engineOk ce → engineRel looked ce ce1 → taken ce1 ce2 snapshot r cs → taken ce ce2 snapshot r cs.
Proof.
  intros Hok Hl (Hk & Hroom & Hc). split; [|split].
  - by rewrite <- (knows_looked ce ce1).
  - eapply roomDuring_pull; eauto using charged_later.
  - eapply engineRel_trans; [|exact Hl|exact Hc]. intros l l1 l2 Hl0. by apply looked_chargedTo, Hok.
Qed.

Lemma looked_trans_engine ce ce1 ce2 :
  engineOk ce → engineRel looked ce ce1 → engineRel looked ce1 ce2 → engineRel looked ce ce2.
Proof.
  intros Hok. apply engineRel_trans. intros l l1 l2 Hl. by apply looked_trans, Hok.
Qed.

(** The traversal takes the first known step with room. *)
Lemma tryCascade_cases ce snapshot r steps :
  engineOk ce → Tokens r ≤ maxTokens →
  let '(found, ce') := tryCascade ce snapshot r steps in
  engineOk ce' ∧
  match found with
  | Some cs => ∃ pre post, steps = pre ++ cs :: post ∧
                 Forall (passedOver ce ce' snapshot r) pre ∧ taken ce ce' snapshot r cs
  | None => Forall (passedOver ce ce' snapshot r) steps ∧ engineRel looked ce ce'
  end.
Proof.
  intros Hok Hn. revert ce Hok. induction steps as [|cs steps IH]; intros ce Hok; cbn [tryCascade].
  { split; [done|split; [done|apply engineRel_refl, looked_refl]]. }
  destruct (knows ce snapshot (Project r) (Config.TargetRegion cs) (Config.TargetModel cs)) eqn:Hk;
    cbn [negb].
  - pose proof (tryTarget_cases ce snapshot r (Config.TargetRegion cs) (Config.TargetModel cs) Hok Hn)
      as Ht.
    destruct (tryTarget _ _ _ _ _ _) as [[ok why] ce1]. destruct Ht as [Hok1 Ht].
    destruct ok; [destruct Ht as [Hroom Hc]; split; [done|]; by exists [], steps|].
    destruct Ht as [Hfull Hlook]. specialize (IH ce1 Hok1).
    destruct (tryCascade ce1 snapshot r steps) as [[cs'|] ce2]; destruct IH as [Hok2 IH];
      (split; [done|]).
    + destruct IH as (pre & post & -> & Hpre & Htaken). exists (cs :: pre), post.
      split; [done|]. pose proof (charged_later _ _ _ _ _ (proj2 (proj2 Htaken))) as Hlat.
      split; [|by eapply taken_pull]. constructor.
      * intros _. by eapply fullDuring_extend.
      * eapply Forall_impl; [exact Hpre|]. intros. by eapply passedOver_pull.
    + destruct IH as [Hpre Hlook2]. pose proof (looked_later _ _ Hlook2) as Hlat.
      split; [|by eapply looked_trans_engine]. constructor.
      * intros _. by eapply fullDuring_extend.
      * eapply Forall_impl; [exact Hpre|]. intros. by eapply passedOver_pull.
  - specialize (IH ce Hok). assert (∀ ce', passedOver ce ce' snapshot r cs) as Hskip
      by (intros ce' Hk'; congruence).
    destruct (tryCascade ce snapshot r steps) as [[cs'|] ce2]; destruct IH as [Hok2 IH];
      (split; [done|]).
    + destruct IH as (pre & post & -> & Hpre & Htaken). exists (cs :: pre), post. by auto.
    + destruct IH as [Hpre Hlook2]. by auto.
Qed.

(** ** What a decision is *)

Definition targetKnown (ce : CascadeEngine) (snapshot : option pb.QuotaSnapshot) (r : Request) : bool :=
  knows ce snapshot (Project r) (Region r) (Model r).

(** The cascade that a custom request names. *)
Definition cascadeOf (ce : CascadeEngine) (policy : string) : list Config.CascadeStep :=
  from_option Config.Cascade [] (customPolicies ce !! to_lower (trim_space policy)).

(** The request's own target has room, and pays for it. *)
Definition primaryTaken (ce ce' : CascadeEngine) (snapshot : option pb.QuotaSnapshot) (r : Request)
    : Prop :=
  roomDuring ce ce' snapshot r (Region r) (Model r) ∧
  engineRel (chargedTo (Region r) (Model r) (Tokens r)) ce ce'.

Definition primaryFull (ce ce' : CascadeEngine) (snapshot : option pb.QuotaSnapshot) (r : Request)
    : Prop :=
  fullDuring ce ce' snapshot r (Region r) (Model r).

(** The three ways a decision comes out, as values of [Decision]. *)
Definition isAdmit (d : Decision) : Prop := ∃ why, d = mkDecision false "" "" why None.
Definition isReroute (cs : Config.CascadeStep) (d : Decision) : Prop :=
  ∃ why, d = mkDecision false (Config.TargetModel cs) (Config.TargetRegion cs) why None.
Definition isShed (d : Decision) : Prop :=
  ∃ why, d = mkDecision true "" "" why (Some (5 * second)).

(** What the documentation promises for the decision on a request whose target is
    known, one rule per outcome. *)
Inductive outcome (ce : CascadeEngine) (snapshot : option pb.QuotaSnapshot) (r : Request)
    : Decision → CascadeEngine → Prop :=
  | outcome_critical d ce' :
      ReqPriority r = PRIORITY_CRITICAL → isAdmit d →
      ce' = WithLimiter ce (AdmitCritical (limiter ce) (Region r) (Model r) (Tokens r)).2 →
      outcome ce snapshot r d ce'
  | outcome_admit d ce' :
      ReqPriority r ≠ PRIORITY_CRITICAL → isAdmit d → primaryTaken ce ce' snapshot r →
      outcome ce snapshot r d ce'
  | outcome_reroute d ce' pre cs post :
      ReqPriority r = PRIORITY_CUSTOM → primaryFull ce ce' snapshot r →
      cascadeOf ce (Policy r) = pre ++ cs :: post →
      Forall (passedOver ce ce' snapshot r) pre → taken ce ce' snapshot r cs → isReroute cs d →
      outcome ce snapshot r d ce'
  | outcome_shed d ce' :
      ReqPriority r ≠ PRIORITY_CRITICAL → primaryFull ce ce' snapshot r →
      (ReqPriority r = PRIORITY_CUSTOM →
         Forall (passedOver ce ce' snapshot r) (cascadeOf ce (Policy r))) →
      isShed d → engineRel looked ce ce' →
      outcome ce snapshot r d ce'.

Lemma Decide_known ce snapshot r :
  targetKnown ce snapshot r = true →
  Decide ce snapshot r =
    match ReqPriority r with
    | PRIORITY_CRITICAL =>
        decideCritical ce (getEffectiveQuota snapshot (Project r) (Region r) (Model r)) r
    | PRIORITY_CUSTOM => decideCustom ce snapshot r
    | _ => decideBestEffort ce snapshot r
    end.
Proof.
  unfold targetKnown, knows, Decide. destruct (getEffectiveQuota _ _ _ _); [done|]. by intros ->.
Qed.

Lemma AdmitCritical_engineOk ce r :
  engineOk ce → Tokens r ≤ maxTokens →
  engineOk (WithLimiter ce (AdmitCritical (limiter ce) (Region r) (Model r) (Tokens r)).2).
Proof.
  intros Hok Hn l Hl. simpl in Hl. destruct (limiter ce) as [l0|] eqn:Hl0; [|done].
  destruct (AdmitCritical (Some l0) (Region r) (Model r) (Tokens r)) as [res l'] eqn:Ha.
  destruct (AdmitCritical_ok _ _ _ _ _ _ (Hok l0 Hl0) Hn Ha) as (l1 & -> & Hok1).
  simpl in Hl. by injection Hl as <-.
Qed.

Lemma decideCustom_outcome ce snapshot r :
  engineOk ce → Tokens r ≤ maxTokens → ReqPriority r = PRIORITY_CUSTOM →
  let '(d, ce') := decideCustom ce snapshot r in engineOk ce' ∧ outcome ce snapshot r d ce'.
Proof.
  intros Hok Hn Hp. unfold decideCustom.
  pose proof (tryTarget_cases ce snapshot r (Region r) (Model r) Hok Hn) as Ht.
  destruct (tryTarget _ _ _ _ _ _) as [[ok why] ce1]. destruct Ht as [Hok1 Ht].
  assert (ReqPriority r ≠ PRIORITY_CRITICAL) as Hnc by congruence.
  destruct ok; [split; [done|]; apply outcome_admit; [done|by eexists|done]|].
  destruct Ht as [Hfull Hlook]. cbn zeta.
  assert (customPolicies ce1 = customPolicies ce) as -> by (by destruct Hlook as [-> _]).
  change (from_option _ _ _) with (cascadeOf ce (Policy r)).
  destruct (cascadeOf ce (Policy r)) as [|cs0 steps0] eqn:Hsteps.
  { split; [done|]. apply outcome_shed; try done; [|by eexists]. intros _. by rewrite Hsteps. }
  rewrite <- Hsteps. pose proof (tryCascade_cases ce1 snapshot r (cascadeOf ce (Policy r)) Hok1 Hn) as Hc.
  destruct (tryCascade _ _ _ _) as [[cs|] ce2]; destruct Hc as [Hok2 Hc]; (split; [done|]).
  - destruct Hc as (pre & post & Heq & Hpre & Htaken).
    pose proof (charged_later _ _ _ _ _ (proj2 (proj2 Htaken))) as Hlat.
    eapply outcome_reroute; [done| |exact Heq| | |by eexists].
    + by apply (fullDuring_extend ce ce1 ce2).
    + eapply Forall_impl; [exact Hpre|]. intros. by apply (passedOver_pull ce ce1 ce2).
    + by apply (taken_pull ce ce1 ce2).
  - destruct Hc as [Hpre Hlook2]. pose proof (looked_later _ _ Hlook2) as Hlat.
    apply outcome_shed; [done| | |by eexists|by apply (looked_trans_engine ce ce1 ce2)].
    + by apply (fullDuring_extend ce ce1 ce2).
    + intros _. eapply Forall_impl; [exact Hpre|]. intros. by apply (passedOver_pull ce ce1 ce2).
Qed.

Lemma decideBestEffort_outcome ce snapshot r :
  engineOk ce → Tokens r ≤ maxTokens →
  ReqPriority r ≠ PRIORITY_CRITICAL → ReqPriority r ≠ PRIORITY_CUSTOM →
  let '(d, ce') := decideBestEffort ce snapshot r in engineOk ce' ∧ outcome ce snapshot r d ce'.
Proof.
  intros Hok Hn Hp Hp'. unfold decideBestEffort.
  pose proof (tryTarget_cases ce snapshot r (Region r) (Model r) Hok Hn) as Ht.
  destruct (tryTarget _ _ _ _ _ _) as [[ok why] ce1]. destruct Ht as [Hok1 Ht].
  destruct ok; (split; [done|]); destruct Ht as [Ht Hrel].
  - apply outcome_admit; [done|by eexists|done].
  - apply outcome_shed; try done; by eexists.
Qed.

Lemma decideCritical_outcome ce snapshot q r :
  engineOk ce → Tokens r ≤ maxTokens → ReqPriority r = PRIORITY_CRITICAL →
  let '(d, ce') := decideCritical ce q r in engineOk ce' ∧ outcome ce snapshot r d ce'.
Proof.
  intros Hok Hn Hp. unfold decideCritical.
  pose proof (AdmitCritical_engineOk ce r Hok Hn) as Hok'.
  destruct (AdmitCritical (limiter ce) _ _ _) as [[within known] l'] eqn:Ha. simpl in Hok'.
  split; [done|]. apply outcome_critical; [done|by eexists|by rewrite Ha].
Qed.

Lemma Decide_outcome ce snapshot r :
  engineOk ce → Tokens r ≤ maxTokens → targetKnown ce snapshot r = true →
  let '(d, ce') := Decide ce snapshot r in engineOk ce' ∧ outcome ce snapshot r d ce'.
Proof.
  intros Hok Hn Hk. rewrite Decide_known by done.
  destruct (ReqPriority r) eqn:Hp.
  - by apply decideBestEffort_outcome; rewrite ?Hp.
  - by apply decideCritical_outcome.
  - by apply decideBestEffort_outcome; rewrite ?Hp.
  - by apply decideCustom_outcome.
Qed.

Lemma Decide_unknown ce snapshot r :
  targetKnown ce snapshot r = false →
  Decide ce snapshot r = (forward "primary quota data unavailable, admitting optimistically", ce).
Proof.
  unfold targetKnown, knows, Decide. destruct (getEffectiveQuota _ _ _ _); [done|]. by intros ->.
Qed.

Lemma Decide_ok ce snapshot r :
  engineOk ce → Tokens r ≤ maxTokens → engineOk (Decide ce snapshot r).2.
Proof.
  intros Hok Hn. destruct (targetKnown ce snapshot r) eqn:Hk; [|by rewrite Decide_unknown].
  pose proof (Decide_outcome ce snapshot r Hok Hn Hk) as H'.
  destruct (Decide ce snapshot r). apply H'.
Qed.

(** The form of a decision, for any engine and any balances. *)
Lemma tryCascade_in ce snapshot r steps cs :
  (tryCascade ce snapshot r steps).1 = Some cs → cs ∈ steps.
Proof.
  revert ce. induction steps as [|cs' steps IH]; intros ce; cbn [tryCascade]; [done|].
  destruct (negb _); [intros; right; eauto|].
  destruct (tryTarget _ _ _ _ _ _) as [[[] why] ce1]; [|intros; right; eauto].
  simpl. intros [= <-]. left.
Qed.

Lemma tryTarget_policies ce snapshot project region model n :
  customPolicies (tryTarget ce snapshot project region model n).2 = customPolicies ce.
Proof.
  unfold tryTarget. destruct (snapshotFull _ _); [done|].
  destruct (TryAdmit _ _ _ _) as [[ok known] l]. by destruct (known && negb ok).
Qed.

Lemma Decide_shape ce snapshot r :
  let d := (Decide ce snapshot r).1 in
  isAdmit d ∨
  (isShed d ∧ ReqPriority r ≠ PRIORITY_CRITICAL) ∨
  (ReqPriority r = PRIORITY_CUSTOM ∧ ∃ cs, cs ∈ cascadeOf ce (Policy r) ∧ isReroute cs d).
Proof.
  destruct (targetKnown ce snapshot r) eqn:Hk; [|rewrite Decide_unknown by done; left; by eexists].
  rewrite Decide_known by done.
  assert (let d := (decideBestEffort ce snapshot r).1 in isAdmit d ∨ isShed d) as Hbest.
  { unfold decideBestEffort. destruct (tryTarget _ _ _ _ _ _) as [[[] why] ce1];
      [left|right]; by eexists. }
  destruct (ReqPriority r) eqn:Hp.
  - destruct Hbest; auto.
  - left. unfold decideCritical. destruct (AdmitCritical _ _ _ _) as [[within known] l]. by eexists.
  - destruct Hbest; auto.
  - unfold decideCustom. pose proof (tryTarget_policies ce snapshot (Project r) (Region r) (Model r)
      (Tokens r)) as Hpol.
    destruct (tryTarget _ _ _ _ _ _) as [[[] why] ce1]; [left; by eexists|]. simpl in Hpol.
    cbn zeta. rewrite Hpol. change (from_option _ _ _) with (cascadeOf ce (Policy r)).
    destruct (cascadeOf ce (Policy r)) as [|cs0 steps0] eqn:Hsteps;
      [right; left; split; [by eexists|done]|].
    rewrite <- Hsteps. pose proof (tryCascade_in ce1 snapshot r (cascadeOf ce (Policy r))) as Hin.
    destruct (tryCascade ce1 snapshot r (cascadeOf ce (Policy r))) as [[cs|] ce2].
    + right. right. split; [done|]. exists cs. split; [by apply Hin|by eexists].
    + right. left. split; [by eexists|done].
Qed.

(** ** Construction *)

(** Every step of every policy names a model and a region. *)
Definition policiesOk (ce : CascadeEngine) : Prop :=
  ∀ name policy cs, customPolicies ce !! name = Some policy → cs ∈ Config.Cascade policy →
  Config.TargetModel cs ≠ "" ∧ Config.TargetRegion cs ≠ "".

(** The stored form of a step. *)
Definition trimStep (cs : Config.CascadeStep) : Config.CascadeStep :=
  Config.mkCascadeStep (trim_space (Config.TargetModel cs)) (trim_space (Config.TargetRegion cs)).

Definition policyKey (name : string) : string := to_lower (trim_space name).

Definition trimPolicy (policy : Config.CustomPolicy) : Config.CustomPolicy :=
  Config.mkCustomPolicy (trimStep <$> Config.Cascade policy).

Definition stepOk (cs : Config.CascadeStep) : Prop :=
  Config.TargetModel cs ≠ "" ∧ Config.TargetRegion cs ≠ "".

Lemma normalizeCascade_Ok steps steps' :
  normalizeCascade steps = Ok steps' → steps' = trimStep <$> steps ∧ Forall stepOk steps'.
Proof.
  revert steps'. induction steps as [|cs steps IH]; simpl; intros steps'.
  { by intros [= <-]. }
  intros (q & Hq & (qs & Hqs & [= <-])%result_bind_Ok)%result_bind_Ok.
  destruct (IH qs Hqs) as [-> Hall]. unfold normalizeStep in Hq.
  destruct (String.eqb_spec (trim_space (Config.TargetModel cs)) "") as [|Hm]; [done|].
  destruct (String.eqb_spec (trim_space (Config.TargetRegion cs)) "") as [|Hr]; [done|].
  injection Hq as <-. split; [done|]. by constructor.
Qed.

Lemma normalizePolicies_Ok entries norm norm' :
  normalizePolicies entries norm = Ok norm' →
  (∀ k p, norm' !! k = Some p →
     norm !! k = Some p ∨
     ∃ name policy, (name, policy) ∈ entries ∧ k = policyKey name ∧ p = trimPolicy policy ∧
                    Config.Cascade p ≠ [] ∧ Forall stepOk (Config.Cascade p)) ∧
  (∀ k, k ∉ policyKey <$> entries.*1 → norm' !! k = norm !! k) ∧
  (NoDup (policyKey <$> entries.*1) →
     ∀ name policy, (name, policy) ∈ entries → norm' !! policyKey name = Some (trimPolicy policy)).
Proof.
  revert norm. induction entries as [|[name policy] entries IH]; intros norm.
  { intros [= <-]. split_and!; [by auto|done|]. intros _ ? ? Hin. by apply elem_of_nil in Hin. }
  cbn [normalizePolicies]. fold (policyKey name).
  destruct (String.eqb_spec (policyKey name) "") as [|Hname]; [done|].
  destruct (Config.Cascade policy) as [|cs0 steps0] eqn:Hsteps; [done|].
  rewrite <- Hsteps. intros (q & Hq & Hrest)%result_bind_Ok. apply normalizeCascade_Ok in Hq as [-> Hall].
  fold (trimPolicy policy) in Hrest.
  destruct (IH _ Hrest) as (Hinv & Hother & Hlook). split_and!.
  - intros k p Hk. destruct (Hinv k p Hk) as [Hin|(n & q & Hin & Hp)].
    + destruct (decide (policyKey name = k)) as [<-|Hne].
      * rewrite lookup_insert_eq in Hin. injection Hin as <-. right. exists name, policy.
        split_and!; [left|done|done| |done]. unfold trimPolicy. simpl. by rewrite Hsteps.
      * rewrite lookup_insert_ne in Hin by done. by left.
    + right. exists n, q. split; [by right|done].
  - intros k Hk. rewrite !fmap_cons, not_elem_of_cons in Hk. destruct Hk as [Hne Hk].
    rewrite Hother by done. by rewrite lookup_insert_ne.
  - intros Hnd n q Hin. rewrite !fmap_cons in Hnd. apply NoDup_cons in Hnd as [Hfresh Hnd].
    apply elem_of_cons in Hin as [[= -> ->]|Hin]; [|by apply Hlook].
    rewrite Hother by done. apply lookup_insert_eq.
Qed.

Lemma NewCascadeEngine_Ok entries ce :
  NewCascadeEngine entries = Ok ce → policiesOk ce.
Proof.
  intros (norm & Hn & [= <-])%result_bind_Ok name policy cs Hp Hin. simpl in Hp.
  destruct (normalizePolicies_Ok _ _ _ Hn) as (Hinv & _ & _).
  destruct (Hinv name policy Hp) as [He|(? & ? & _ & _ & _ & _ & Hall)].
  - by rewrite lookup_empty in He.
  - rewrite Forall_forall in Hall. by apply Hall.
Qed.

Lemma NewCascadeEngineFromConfig_Ok cfg policies allowances clk ce :
  NewCascadeEngineFromConfig (Some cfg) policies allowances clk = Ok ce →
  ∃ ce0 l, NewCascadeEngine policies = Ok ce0 ∧ NewLimiter (Some cfg) allowances clk = Ok l ∧
    ce = {| customPolicies := customPolicies ce0;
            bestEffortCeiling := Config.BestEffortCeiling (Some cfg); limiter := Some l |}.
Proof.
  unfold NewCascadeEngineFromConfig. intros (ce0 & Hce0 & (l & Hl & [= <-])%result_bind_Ok)%result_bind_Ok.
  by exists ce0, l.
Qed.

(** ** Properties *)

(** C1: the decision engine implements its documentation. For a request to a
    known target, [Decide] admits critical traffic unmodified; it admits other
    traffic to its own target when that has room and charges it there; it
    reroutes only custom traffic, only when the primary is full, and to the first
    known step of the named cascade that has room, which it charges; and it sheds
    only when the primary and, for custom traffic, every known step is full, and
    then charges nobody. *)
Theorem Decide_meets_spec ce snapshot r :
  engineOk ce → Tokens r ≤ maxTokens → targetKnown ce snapshot r = true →
  let '(d, ce') := Decide ce snapshot r in engineOk ce' ∧ outcome ce snapshot r d ce'.
Proof. apply Decide_outcome. Qed.

(** C3: critical traffic is never shed and never rerouted, whatever the snapshot,
    the configuration and the balances say. When its target has an allowance it
    is charged for, into debt if need be, and it leaves every other target's
    bucket alone. *)
Theorem critical_is_never_shed ce snapshot r :
  ReqPriority r = PRIORITY_CRITICAL →
  let '(d, ce') := Decide ce snapshot r in
  isAdmit d ∧
  ∀ l b, limiter ce = Some l → limiterOk l → Tokens r ≤ maxTokens →
    let k := targetKey (Region r) (Model r) in
    buckets l !! k = Some b →
    let b1 := refillLocked b (now l) in
    ∃ l' b', limiter ce' = Some l' ∧ buckets l' !! k = Some b' ∧
      currentRPM b' = Z.max (currentRPM b1 - 1) (- maxRPM b) ∧
      currentTPM b' = Z.max (currentTPM b1 - Z.max (Tokens r) 0) (- maxTPM b) ∧
      sameExcept k (buckets l) (buckets l').
Proof.
  intros Hp. destruct (targetKnown ce snapshot r) eqn:Hk.
  - rewrite Decide_known, Hp by done. unfold decideCritical.
    destruct (AdmitCritical (limiter ce) _ _ _) as [[within known] lo] eqn:Ha.
    cbn zeta. split; [by eexists|]. intros l b Hl Hok Hn Hb. rewrite Hl in Ha.
    pose proof (AdmitCritical_spec l (Region r) (Model r) (Tokens r) Hok Hn) as Hs.
    cbn zeta in Hs. rewrite Hb in Hs.
    destruct Hs as (l' & b' & Heq & Hb' & HR & HT & Hoth & _).
    exists l', b'. rewrite Heq in Ha. injection Ha as _ _ <-. done.
  - rewrite Decide_unknown by done. cbn zeta. split; [by eexists|]. intros l b Hl _ _ Hb.
    unfold targetKnown, knows, Known, bucket in Hk. rewrite Hl in Hk. simpl in Hk.
    rewrite Hb in Hk. by destruct (getEffectiveQuota _ _ _ _).
Qed.

(** The engine fails open. A request to a target of which neither the
    snapshot nor the limiter knows anything is admitted unmodified and changes
    nothing; so a shed or rerouted request always had a known target. *)
Theorem Decide_fails_open ce snapshot r :
  let '(d, ce') := Decide ce snapshot r in
  (targetKnown ce snapshot r = false → isAdmit d ∧ ce' = ce) ∧
  (Drop d = true ∨ ReplaceModel d ≠ "" ∨ ReplaceRegion d ≠ "" →
     targetKnown ce snapshot r = true ∧ ReqPriority r ≠ PRIORITY_CRITICAL).
Proof.
  destruct (targetKnown ce snapshot r) eqn:Hk.
  - rewrite Decide_known by done. destruct (ReqPriority r).
    + by destruct (decideBestEffort ce snapshot r).
    + unfold decideCritical. destruct (AdmitCritical _ _ _ _) as [[within known] lo].
      simpl. split; [done|]. by intros [|[|]].
    + by destruct (decideBestEffort ce snapshot r).
    + by destruct (decideCustom ce snapshot r).
  - rewrite Decide_unknown by done. simpl. split; [|by intros [|[|]]]. intros _.
    split; [by eexists|done].
Qed.

(** Refilling lowers no balance. *)
Lemma refilled_ge l k b t1 t2 b' :
  limiterOk l → buckets l !! k = Some b → now l ≤ t1 → t2 ≤ clock l O + horizon →
  refilled t1 t2 b b' → currentRPM b ≤ currentRPM b' ∧ currentTPM b ≤ currentTPM b'.
Proof.
  intros Hok Hb Ht1 Ht2 [->|(t & Ht & ->)]; [lia|].
  assert (bucketOk (clock l O) t b) as [HR HT].
  { eapply bucketOk_later; [by eapply limiter_bucket|lia]. }
  simpl. rewrite !(refillDim_spec (clock l O)) by done. simpl.
  assert (0 ≤ earned (maxRPM b) (lastRefillRPM b) t ∧ 0 ≤ earned (maxTPM b) (lastRefillTPM b) t)
    by (unfold dimOk in *; split; apply earned_nonneg; lia).
  unfold dimOk in *. lia.
Qed.

Lemma engineRel_Some P ce ce' l :
  engineRel P ce ce' → limiter ce = Some l → ∃ l', limiter ce' = Some l' ∧ P l l'.
Proof. intros [_ HP] Hl. rewrite Hl in HP. inversion HP; subst. eauto. Qed.

(** A bucket that critical traffic may count on: its balances did not fall, or
    hold the critical reserve. *)
Definition reserveKept (pct : Z) (b b' : TokenBucket) : Prop :=
  (currentRPM b ≤ currentRPM b' ∧ currentTPM b ≤ currentTPM b') ∨
  (maxRPM b * pct / 100 ≤ currentRPM b' ∧ maxTPM b * pct / 100 ≤ currentTPM b').

Lemma looked_reserve l l' k b :
  limiterOk l → later l l' → buckets l !! k = Some b →
  option_Forall2 (refilled (now l) (lastRead l')) (buckets l !! k) (buckets l' !! k) →
  ∃ b', buckets l' !! k = Some b' ∧ reserveKept (reservePercent l) b b'.
Proof.
  intros Hok Hl Hb Ho. rewrite Hb in Ho. inversion Ho as [? b' Href|]; subst.
  exists b'. split; [done|]. left.
  assert (clock l' = clock l) as Hc by apply Hl.
  apply (refilled_ge l k b (now l) (lastRead l')); try done.
  rewrite <- Hc. apply lastRead_horizon. rewrite Hc. apply Hok.
Qed.

Lemma chargedTo_reserve region model n l l' k b :
  limiterOk l → chargedTo region model n l l' → buckets l !! k = Some b →
  ∃ b', buckets l' !! k = Some b' ∧ reserveKept (reservePercent l) b b'.
Proof.
  intros Hok Hc Hb. unfold chargedTo in Hc.
  destruct (buckets l !! targetKey region model) as [b0|] eqn:Hb0.
  - destruct Hc as (Hl & Hoth & b0' & t & Hb0' & Ht & Hpay & Htake).
    destruct (decide (k = targetKey region model)) as [->|Hne].
    + rewrite Hb0' in Hb. injection Hb as ->. eexists. split; [exact Htake|]. right.
      unfold pays, roomAbove in Hpay. apply andb_prop in Hpay as [?%Z.leb_le ?%Z.leb_le].
      simpl in *. lia.
    + by eapply looked_reserve; [..|apply Hoth].
  - destruct Hc as [Hl Hoth]. by eapply looked_reserve; [..|apply Hoth].
Qed.

(** C2: the reserve is for critical traffic. A best-effort, custom or unlabelled
    request lowers no target's balance below the critical reserve of its
    allowance, on the request's own target and on every target of the cascade. *)
Theorem reserve_is_for_critical ce snapshot r l k b :
  engineOk ce → Tokens r ≤ maxTokens → ReqPriority r ≠ PRIORITY_CRITICAL →
  limiter ce = Some l → buckets l !! k = Some b →
  ∃ l' b', limiter (Decide ce snapshot r).2 = Some l' ∧ buckets l' !! k = Some b' ∧
    reserveKept (reservePercent l) b b'.
Proof.
  intros Hok Hn Hp Hl Hb. destruct (targetKnown ce snapshot r) eqn:Hk.
  2: { rewrite Decide_unknown by done. exists l, b. split_and!; [done..|]. by left. }
  pose proof (Decide_outcome ce snapshot r Hok Hn Hk) as Ho.
  destruct (Decide ce snapshot r) as [d ce']. destruct Ho as [_ Ho]. simpl.
  assert (∀ region model, engineRel (chargedTo region model (Tokens r)) ce ce' →
    ∃ l' b', limiter ce' = Some l' ∧ buckets l' !! k = Some b' ∧
      reserveKept (reservePercent l) b b') as Hcharged.
  { intros region model (l' & Hl' & Hc)%(engineRel_Some _ _ _ l); [|done].
    destruct (chargedTo_reserve _ _ _ _ _ k b (Hok l Hl) Hc Hb) as (b' & ? & ?). eauto. }
  destruct Ho as [? ? Hcrit|? ? _ _ [_ Hc]|? ? ? ? ? _ _ _ _ (_ & _ & Hc) _|? ? _ _ _ _ Hlook].
  - done.
  - eauto.
  - eauto.
  - destruct (engineRel_Some _ _ _ l Hlook Hl) as (l' & Hl' & Hlat & Hoth).
    destruct (looked_reserve l l' k b (Hok l Hl) Hlat Hb (Hoth k I)) as (b' & ? & ?). eauto.
Qed.

(** Where a request goes after a decision. *)
Definition finalTarget (r : Request) (d : Decision) : string * string :=
  (if String.eqb (ReplaceRegion d) "" then Region r else ReplaceRegion d,
   if String.eqb (ReplaceModel d) "" then Model r else ReplaceModel d).

(** C4: a best-effort, custom or unlabelled request is charged at most once, and
    where it goes: when it is shed no bucket is charged; when it is forwarded or
    rerouted, the bucket of the target it is sent to is charged once, for its
    tokens, and every other bucket is refilled at most, also those of the targets
    that were tried before. *)
Theorem charged_where_it_goes ce snapshot r l :
  engineOk ce → policiesOk ce → Tokens r ≤ maxTokens → ReqPriority r ≠ PRIORITY_CRITICAL →
  targetKnown ce snapshot r = true → limiter ce = Some l →
  let '(d, ce') := Decide ce snapshot r in
  ∃ l', limiter ce' = Some l' ∧
    if Drop d then looked l l'
    else chargedTo (finalTarget r d).1 (finalTarget r d).2 (Tokens r) l l'.
Proof.
  intros Hok Hpol Hn Hp Hk Hl. pose proof (Decide_outcome ce snapshot r Hok Hn Hk) as Ho.
  destruct (Decide ce snapshot r) as [d ce']. destruct Ho as [_ Ho].
  destruct Ho as [? ? Hcrit|? ? _ [why ->] [_ Hc]|d ce' pre cs post _ _ Heq _ (_ & _ & Hc) [why ->]
                 |? ? _ _ _ [why ->] Hlook].
  - done.
  - by apply (engineRel_Some _ ce ce' l).
  - unfold cascadeOf in Heq. unfold finalTarget. simpl.
    destruct (customPolicies ce !! _) as [policy|] eqn:Hpolicy; simpl in Heq;
      [|by destruct pre].
    destruct (Hpol _ policy cs Hpolicy) as [Hm Hr]; [rewrite Heq; set_solver|].
    apply String.eqb_neq in Hm, Hr. rewrite Hm, Hr. by apply (engineRel_Some _ ce ce' l).
  - by apply (engineRel_Some _ ce ce' l).
Qed.

(** A target that the snapshot reports full costs nothing to try. When the
    snapshot shows the target saturated, or above the best-effort ceiling, a
    best-effort request, or a custom request without a cascade, is shed with a
    retry hint of five seconds and the engine is left as it was: no local token is
    taken and no demand counted. *)
Theorem full_snapshot_takes_nothing ce snapshot r :
  ReqPriority r ≠ PRIORITY_CRITICAL →
  (ReqPriority r = PRIORITY_CUSTOM → cascadeOf ce (Policy r) = []) →
  snapshotFull ce (getEffectiveQuota snapshot (Project r) (Region r) (Model r)) = true →
  let '(d, ce') := Decide ce snapshot r in isShed d ∧ ce' = ce.
Proof.
  intros Hp Hc Hfull. rewrite Decide_known.
  2: { unfold targetKnown, knows. by destruct (getEffectiveQuota _ _ _ _). }
  unfold decideBestEffort, decideCustom, tryTarget. rewrite Hfull. cbn zeta.
  change (from_option _ _ _) with (cascadeOf ce (Policy r)).
  destruct (ReqPriority r); try done; [by split; [eexists|]..|].
  rewrite Hc by done. by split; [eexists|].
Qed.

(** [NewCascadeEngine] keeps every policy, under its trimmed lower-case name
    and with its steps trimmed; every step of the engine names a model and a
    region, and no policy is empty. *)
Theorem NewCascadeEngine_keeps_policies entries ce :
  NewCascadeEngine entries = Ok ce →
  policiesOk ce ∧
  (∀ k p, customPolicies ce !! k = Some p → Config.Cascade p ≠ [] ∧
     ∃ name policy, (name, policy) ∈ entries ∧ k = policyKey name ∧ p = trimPolicy policy) ∧
  (NoDup (policyKey <$> entries.*1) → ∀ name policy, (name, policy) ∈ entries →
     cascadeOf ce name = trimStep <$> Config.Cascade policy).
Proof.
  intros Hnew. split; [by eapply NewCascadeEngine_Ok|].
  apply result_bind_Ok in Hnew as (norm & Hn & [= <-]).
  destruct (normalizePolicies_Ok _ _ _ Hn) as (Hinv & _ & Hlook). simpl. split.
  - intros k p Hk. destruct (Hinv k p Hk) as [He|(name & policy & Hin & -> & -> & Hne & _)].
    + by rewrite lookup_empty in He.
    + split; [done|]. by exists name, policy.
  - intros Hnd name policy Hin. unfold cascadeOf. simpl. fold (policyKey name).
    by rewrite (Hlook Hnd name policy Hin).
Qed.

(** A configuration's limiter has a bucket for each of its allowances. *)
Lemma config_allowance_known `{!GoUnicodeLaws} cfg allowances clk l key limit location model :
  Config.valid cfg → rangeOrder (Config.Allowances cfg) allowances →
  NewLimiter (Some cfg) allowances clk = Ok l →
  Config.Allowances cfg !! key = Some limit → key = targetKey location model →
  Known (Some l) location model = true.
Proof.
  intros Hv Hrange [= <-] Hkey ->.
  assert (∀ k v, (k, v) ∈ allowances → to_lower k = k) as Hlower.
  { intros k v Hin. apply (rangeOrder_elem _ _ _ _ Hrange) in Hin.
    destruct (Config.valid_allowance cfg Hv k v Hin) as (_ & [raw ->] & _). apply to_lower_idem. }
  destruct (Config.valid_allowance cfg Hv _ _ Hkey) as (_ & _ & a & -> & _).
  apply (rangeOrder_elem _ _ _ _ Hrange) in Hkey.
  assert (NoDup (entryKey <$> allowances)) as Hnd.
  { assert (entryKey <$> allowances = allowances.*1) as ->;
      [|by eapply rangeOrder_NoDup].
    apply list_fmap_ext. intros i [k v] Hi. apply (Hlower k v). by eapply list_elem_of_lookup_2. }
  destruct (addAllowances_lookup (Config.Replicas (Some cfg))
              {| buckets := ∅; reservePercent := Config.ReservePercent (Some cfg); allowances := ∅;
                 replicas := Config.Replicas (Some cfg); demand := ∅; clock := clk; reads := 0 |}
              allowances _ a Hnd Hkey) as [[t Hb] _].
  rewrite (Hlower _ _ Hkey) in Hb. unfold Known, bucket. simpl. by rewrite Hb.
Qed.

Lemma loaded_cascade_known `{!GoUnicodeLaws} path file unmarshal cfg policies allowances clk ce :
  Config.LoadConfig path file unmarshal = Ok cfg →
  rangeOrder (default ∅ (Config.CustomPolicies cfg)) policies →
  rangeOrder (Config.Allowances cfg) allowances →
  NewCascadeEngineFromConfig (Some cfg) policies allowances clk = Ok ce →
  ∀ snapshot project name cs, cs ∈ cascadeOf ce name →
    knows ce snapshot project (Config.TargetRegion cs) (Config.TargetModel cs) = true.
Proof.
  intros Hv%Config.LoadConfig_Ok Hpol Hall Hce snapshot project name cs Hcs.
  apply NewCascadeEngineFromConfig_Ok in Hce as (ce0 & l & Hce0 & Hl & ->).
  unfold knows. destruct (getEffectiveQuota _ _ _ _); [done|]. simpl limiter.
  unfold cascadeOf in Hcs. simpl in Hcs.
  destruct (customPolicies ce0 !! _) as [p|] eqn:Hp; simpl in Hcs; [|by apply elem_of_nil in Hcs].
  apply result_bind_Ok in Hce0 as (norm & Hn & [= <-]). simpl in Hp.
  destruct (normalizePolicies_Ok _ _ _ Hn) as (Hinv & _ & _).
  destruct (Hinv _ p Hp) as [He|(raw & policy & Hin & _ & -> & _)];
    [by rewrite lookup_empty in He|].
  apply (rangeOrder_elem _ _ _ _ Hpol) in Hin.
  apply list_elem_of_fmap in Hcs as (step & -> & Hstep).
  destruct (Config.CustomPolicies cfg) as [pols|] eqn:Hpols; simpl in Hin;
    [|by rewrite lookup_empty in Hin].
  destruct (Config.valid_cascade cfg Hv pols raw policy step Hpols Hin Hstep) as [limit Hlim].
  by eapply config_allowance_known.
Qed.

(** C22: loading a configuration makes its cascades usable. In an engine built from
    a configuration that [LoadConfig] accepts, every step of every policy is a
    target the limiter has an allowance for, so no step is ever passed over as
    unknown; the checks of [config.go], the keys of [limiter.go] and those of
    [cascade.go] agree on spelling. *)
Theorem cascade_targets_known `{!GoUnicodeLaws} path file unmarshal cfg policies allowances clk ce :
  Config.LoadConfig path file unmarshal = Ok cfg →
  rangeOrder (default ∅ (Config.CustomPolicies cfg)) policies →
  rangeOrder (Config.Allowances cfg) allowances →
  NewCascadeEngineFromConfig (Some cfg) policies allowances clk = Ok ce →
  ∀ snapshot project name cs, cs ∈ cascadeOf ce name →
    knows ce snapshot project (Config.TargetRegion cs) (Config.TargetModel cs) = true.
Proof. exact (loaded_cascade_known path file unmarshal cfg policies allowances clk ce). Qed.

(** Deciding keeps an engine's limiter. *)
Lemma tryTarget_limiter ce snapshot project region model tokens :
  is_Some (limiter ce) →
  is_Some (limiter (tryTarget ce snapshot project region model tokens).2).
Proof.
  intros [l Hl]. unfold tryTarget. destruct (snapshotFull _ _); [by exists l|]. rewrite Hl.
  unfold TryAdmit. destruct (bucket (Some l) region model) as [b|].
  - destruct (callBucket _ _ _ _) as [ok l']. by destruct ok.
  - by eexists.
Qed.

Lemma tryCascade_limiter ce snapshot r steps :
  is_Some (limiter ce) → is_Some (limiter (tryCascade ce snapshot r steps).2).
Proof.
  revert ce. induction steps as [|cs steps IH]; intros ce Hl; [done|]. cbn [tryCascade].
  destruct (negb _); [by apply IH|].
  pose proof (tryTarget_limiter ce snapshot (Project r) (Config.TargetRegion cs)
    (Config.TargetModel cs) (Tokens r) Hl) as Hl'.
  destruct (tryTarget _ _ _ _ _ _) as [[ok why] ce']. destruct ok; [done|by apply IH].
Qed.

Lemma Decide_limiter ce snapshot r :
  is_Some (limiter ce) → is_Some (limiter (Decide ce snapshot r).2).
Proof.
  intros Hl.
  pose proof (tryTarget_limiter ce snapshot (Project r) (Region r) (Model r) (Tokens r) Hl) as Hl'.
  assert (is_Some (limiter (decideCritical ce
    (getEffectiveQuota snapshot (Project r) (Region r) (Model r)) r).2)) as Hcrit.
  { unfold decideCritical, AdmitCritical. destruct Hl as [l ->].
    destruct (bucket (Some l) _ _); [|by eexists]. destruct (callBucket _ _ _ _). by eexists. }
  assert (is_Some (limiter (decideBestEffort ce snapshot r).2)) as Hbest.
  { unfold decideBestEffort. destruct (tryTarget _ _ _ _ _ _) as [[[] why] ce']; exact Hl'. }
  assert (is_Some (limiter (decideCustom ce snapshot r).2)) as Hcustom.
  { unfold decideCustom. destruct (tryTarget _ _ _ _ _ _) as [[[] why] ce']; [exact Hl'|].
    destruct (from_option _ _ _) as [|cs steps]; [exact Hl'|].
    pose proof (tryCascade_limiter ce' snapshot r (cs :: steps) Hl') as Hl2.
    destruct (tryCascade _ _ _ _) as [[]]; exact Hl2. }
  unfold Decide. destruct (getEffectiveQuota _ _ _ _);
    [|destruct (Known (limiter ce) (Region r) (Model r)); [|done]]; by destruct (ReqPriority r).
Qed.

(** A replica's life: requests, each with the snapshot current at the time. *)
Definition decideAll (ce : CascadeEngine) (requests : list (option pb.QuotaSnapshot * Request))
    : CascadeEngine := foldl (λ ce e, (Decide ce e.1 e.2).2) ce requests.

(** An engine built from a configuration stays in range: whatever requests are
    decided, in whatever number and with whatever snapshots, every bucket stays
    within its bounds, so that no later admission computes with a wrapped
    balance. *)
Theorem engine_in_range cfg policies allowances clk ce requests :
  NewCascadeEngineFromConfig (Some cfg) policies allowances clk = Ok ce →
  configOk cfg → clockOk clk → entriesOk allowances →
  Forall (λ e, Tokens e.2 ≤ maxTokens) requests →
  engineOk (decideAll ce requests) ∧ policiesOk ce.
Proof.
  intros Hce Hcfg Hclk Hentries Hreq.
  apply NewCascadeEngineFromConfig_Ok in Hce as (ce0 & l & Hce0 & Hl & ->).
  split; [|by apply NewCascadeEngine_Ok in Hce0].
  match goal with |- engineOk (decideAll ?c _) => assert (engineOk c) as Hok; [|revert Hok; generalize c] end.
  { intros l' [= <-]. by eapply NewLimiter_ok. }
  induction Hreq as [|[snapshot r] requests Hr _ IH]; intros c Hok; [done|].
  apply IH. by apply Decide_ok.
Qed.

End decisions.

(** ** Concrete runs *)

Definition samplePolicy : Config.CustomPolicy :=
  Config.mkCustomPolicy [Config.mkCascadeStep "pro" "us"; Config.mkCascadeStep "flash " "US"].

Definition samplePolicies : list (string * Config.CustomPolicy) := [(" Batch", samplePolicy)].

Definition sampleEngine : CascadeEngine :=
  match NewCascadeEngineFromConfig (Some sampleConfig) samplePolicies sampleEntries sampleClock with
  | Ok ce => ce
  | Err _ => mkCascadeEngine ∅ f64_one None
  end.

Lemma sampleEngine_new :
  NewCascadeEngineFromConfig (Some sampleConfig) samplePolicies sampleEntries sampleClock =
    Ok sampleEngine.
Proof. reflexivity. Qed.

Lemma sampleEngine_ok : engineOk sampleEngine.
Proof. intros l [= <-]. exact sampleLimiter_ok. Qed.

Lemma sampleEngine_policies : policiesOk sampleEngine.
Proof.
  destruct (NewCascadeEngineFromConfig_Ok _ _ _ _ _ sampleEngine_new) as (ce0 & l & Hce0 & _ & ->).
  exact (NewCascadeEngine_Ok _ _ Hce0).
Qed.

(** 2500 tokens do not fit into the 3000 of "eu/flash" above its reserve of 900. *)
Definition sampleRequest (p : Priority) : Request := mkRequest "p" "EU" "Flash" p "BATCH" 2500.

Definition sampleStep : Config.CascadeStep := Config.mkCascadeStep "flash" "US".

(** A snapshot that shows "eu/flash" saturated. *)
Definition fullSnapshot : pb.QuotaSnapshot :=
  {| pb.OrgQuotas := Some {[ "eu/flash" := pb.mkModelQuota "" "flash" "eu" 6000 60 60 0 0 6000
                                             f64_one f64_zero ]};
     pb.ProjectQuotas := None; pb.LastSyncedAt := None |}.

(** The configuration of [sampleConfig] as it would be written, and as loaded. *)
Definition rawConfig : Config.Config :=
  {| Config.ProjectIDs := ["p"]; Config.Regions := ["us"; "EU"]; Config.Models := ["Flash"];
     Config.PollInterval := 0; Config.PollTimeout := 0; Config.SafetyMarginPercent := 0;
     Config.DefaultProjectLimits := None;
     Config.Allowances := {[ "US/flash" := Some (Config.mkModelLimit 600 0);
                             " eu/Flash" := Some (Config.mkModelLimit 60 6000) ]};
     Config.CriticalReservePercent := None; Config.DataplaneReplicas := Some 2;
     Config.DefaultRequestTokens := 0;
     Config.CustomPolicies := Some {[ "batch" := Config.mkCustomPolicy [sampleStep] ]} |}.

Definition loadRaw : result Config.Config :=
  Config.LoadConfig "config.yaml" (Ok "") (λ _, Ok rawConfig).

Definition loadedConfig : Config.Config :=
  match loadRaw with Ok c => c | Err _ => rawConfig end.

Definition loadedEngine : CascadeEngine :=
  match NewCascadeEngineFromConfig (Some loadedConfig)
          (map_to_list (default ∅ (Config.CustomPolicies loadedConfig)))
          (map_to_list (Config.Allowances loadedConfig)) sampleClock with
  | Ok ce => ce
  | Err _ => sampleEngine
  end.

Lemma loadedConfig_load :
  Config.LoadConfig "config.yaml" (Ok "") (λ _, Ok rawConfig) = Ok loadedConfig.
Proof. vm_compute. reflexivity. Qed.

Lemma loadedEngine_new :
  NewCascadeEngineFromConfig (Some loadedConfig)
    (map_to_list (default ∅ (Config.CustomPolicies loadedConfig)))
    (map_to_list (Config.Allowances loadedConfig)) sampleClock = Ok loadedEngine.
Proof.
  unfold loadedEngine.
  assert (is_ok (NewCascadeEngineFromConfig (Some loadedConfig)
    (map_to_list (default ∅ (Config.CustomPolicies loadedConfig)))
    (map_to_list (Config.Allowances loadedConfig)) sampleClock) = true) as Hok by (by vm_compute).
  by destruct (NewCascadeEngineFromConfig _ _ _ _).
Qed.

Lemma LoadConfig_valid_witness :
  loadRaw = Ok loadedConfig ∧ Config.valid loadedConfig.
Proof.
  split; [exact loadedConfig_load|].
  exact (Config.LoadConfig_valid _ _ _ _ loadedConfig_load).
Defined.

Lemma Decide_meets_spec_witness :
  ∃ ce', Decide sampleEngine None (sampleRequest PRIORITY_CUSTOM) =
    (mkDecision false "flash" "US"
       "combined failover: Flash in EU saturated -> rerouted to flash in US" None, ce') ∧
    outcome sampleEngine None (sampleRequest PRIORITY_CUSTOM)
      (mkDecision false "flash" "US"
         "combined failover: Flash in EU saturated -> rerouted to flash in US" None) ce'.
Proof.
  pose proof (Decide_meets_spec sampleEngine None (sampleRequest PRIORITY_CUSTOM) sampleEngine_ok)
    as Hs.
  assert ((Decide sampleEngine None (sampleRequest PRIORITY_CUSTOM)).1 =
    mkDecision false "flash" "US"
       "combined failover: Flash in EU saturated -> rerouted to flash in US" None) as Hd
    by (by vm_compute).
  destruct (Decide sampleEngine None (sampleRequest PRIORITY_CUSTOM)) as [d ce']. simpl in Hd.
  subst d. exists ce'. split; [done|]. apply Hs; [by vm_compute|by vm_compute].
Defined.

Lemma critical_is_never_shed_witness :
  isAdmit (Decide sampleEngine (Some fullSnapshot) (sampleRequest PRIORITY_CRITICAL)).1.
Proof.
  pose proof (critical_is_never_shed sampleEngine (Some fullSnapshot)
                (sampleRequest PRIORITY_CRITICAL) eq_refl) as Hs.
  destruct (Decide sampleEngine (Some fullSnapshot) (sampleRequest PRIORITY_CRITICAL)).
  exact (proj1 Hs).
Defined.

Lemma reserve_is_for_critical_witness :
  ∃ b, buckets sampleLimiter !! "us/flash" = Some b ∧
  ∃ l' b', limiter (Decide sampleEngine None (sampleRequest PRIORITY_CUSTOM)).2 = Some l' ∧
    buckets l' !! "us/flash" = Some b' ∧ reserveKept (reservePercent sampleLimiter) b b'.
Proof.
  destruct (buckets sampleLimiter !! "us/flash") as [b|] eqn:Hb; [|by vm_compute in Hb].
  exists b. split; [done|].
  by apply (reserve_is_for_critical sampleEngine None (sampleRequest PRIORITY_CUSTOM) sampleLimiter
              "us/flash" b sampleEngine_ok).
Defined.

Lemma charged_where_it_goes_witness :
  ∃ l', limiter (Decide sampleEngine None (sampleRequest PRIORITY_CUSTOM)).2 = Some l' ∧
    chargedTo "US" "flash" 2500 sampleLimiter l'.
Proof.
  pose proof (charged_where_it_goes sampleEngine None (sampleRequest PRIORITY_CUSTOM) sampleLimiter
                sampleEngine_ok) as Hs.
  assert ((Decide sampleEngine None (sampleRequest PRIORITY_CUSTOM)).1 =
    mkDecision false "flash" "US"
       "combined failover: Flash in EU saturated -> rerouted to flash in US" None) as Hd
    by (by vm_compute).
  destruct (Decide sampleEngine None (sampleRequest PRIORITY_CUSTOM)) as [d ce']. simpl in Hd.
  subst d. apply Hs; [exact sampleEngine_policies|done|done|reflexivity|reflexivity].
Defined.

Lemma full_snapshot_takes_nothing_witness :
  (Decide sampleEngine (Some fullSnapshot) (sampleRequest PRIORITY_BEST_EFFORT)).2 = sampleEngine.
Proof.
  pose proof (full_snapshot_takes_nothing sampleEngine (Some fullSnapshot)
                (sampleRequest PRIORITY_BEST_EFFORT)) as Hs.
  destruct (Decide sampleEngine (Some fullSnapshot) (sampleRequest PRIORITY_BEST_EFFORT)) as [d ce'].
  apply Hs; [done|discriminate|by vm_compute].
Defined.

Lemma NewCascadeEngine_keeps_policies_witness :
  cascadeOf sampleEngine "BATCH " = [Config.mkCascadeStep "pro" "us"; sampleStep].
Proof.
  destruct (NewCascadeEngine samplePolicies) as [ce|] eqn:Hce; [|by vm_compute in Hce].
  destruct (NewCascadeEngine_keeps_policies samplePolicies ce Hce) as (_ & _ & Hk).
  assert (cascadeOf ce " Batch" = [Config.mkCascadeStep "pro" "us"; sampleStep]) as Heq.
  { apply (Hk ltac:(apply (bool_decide_unpack (NoDup _)); by vm_compute) " Batch"
              samplePolicy). left. }
  vm_compute in Hce. injection Hce as <-. exact Heq.
Defined.

Lemma cascade_targets_known_witness :
  cascadeOf loadedEngine "Batch" = [sampleStep] ∧ knows loadedEngine None "" "US" "flash" = true.
Proof.
  assert (cascadeOf loadedEngine "Batch" = [sampleStep]) as Hsteps by (by vm_compute).
  split; [exact Hsteps|].
  apply (cascade_targets_known _ _ _ _ _ _ _ _ loadedConfig_load (Permutation_refl _)
           (Permutation_refl _) loadedEngine_new None "" "Batch" sampleStep).
  rewrite Hsteps. left.
Defined.

Lemma engine_in_range_witness :
  engineOk (decideAll sampleEngine (replicate 3 (None, sampleRequest PRIORITY_CRITICAL))).
Proof.
  apply (engine_in_range sampleConfig samplePolicies sampleEntries sampleClock sampleEngine);
    [exact sampleEngine_new|exact sampleConfig_ok|exact sampleClock_ok|exact sampleEntries_ok|].
  apply Forall_replicate. by vm_compute.
Defined.

End Cascade.
