(* ===== verification/Router.v ===== *)
(** * Routes: [pkg/router]

    Parsing a request path into its parts ([parser.go]), the quota keys of a
    route ([route.go]), and rewriting path and host for another target
    ([mutator.go]). *)

From Stdlib Require Import Ascii.
From S2P Require Import Prelude GoStrings.
From stdpp Require Import options.

#[local] Open Scope stdpp_scope.
#[local] Open Scope Z_scope.

Module Router.

Record RouteInfo := mkRouteInfo {
  APIVersion : string;
  ProjectID : string;
  Region : string;
  Publisher : string;
  Model : string;
  Method : string;
  RawQuery : string;
  Host : string;
  OriginalPath : string
}.

(** ** [route.go] *)

Definition IsStreaming (r : RouteInfo) : bool := String.eqb (Method r) "streamGenerateContent".

Definition OrgKey `{GoUnicode} (r : RouteInfo) : string :=
  to_lower (Region r) +:+ "/" +:+ to_lower (Model r).

Definition ProjectKey `{GoUnicode} (r : RouteInfo) : string :=
  to_lower (ProjectID r) +:+ "/" +:+ to_lower (Region r) +:+ "/" +:+ to_lower (Model r).

(** ** [parser.go] *)

(** The package's error values. *)
Inductive sentinel : Type :=
  | ErrEmptyPath
  | ErrNotAIPlatformPath
  | ErrMissingModel
  | ErrMissingMethod
  | ErrMissingProject
  | ErrMissingRegion
  | ErrUnsupportedPublisher.

Definition quoted (s : string) : string := String quote_mark (s +:+ String quote_mark "").

Definition sentinelText (e : sentinel) : string :=
  match e with
  | ErrEmptyPath => "path cannot be empty"
  | ErrNotAIPlatformPath => "not a recognized AI Platform path"
  | ErrMissingModel => "missing model in path"
  | ErrMissingMethod => "missing method delimiter ':' or method name in model path"
  | ErrMissingProject => "missing project in path"
  | ErrMissingRegion => "missing location/region in path"
  | ErrUnsupportedPublisher => "only publisher " +:+ quoted "google" +:+ " (Gemini) models are governed"
  end.

(** An error that [errors.Is] the sentinel [Is], with the text that [%w] is
    followed by. *)
Record parseError := mkParseError { Is : sentinel; detail : string }.

Definition Error (e : parseError) : string := sentinelText (Is e) +:+ detail e.

(** The variables [projectID], [region], [publisher], [modelWithMethod]. *)
Record segmentVars := mkSegmentVars {
  v_project : string;
  v_region : string;
  v_publisher : string;
  v_model : string
}.

(** The [switch] on a segment's key. *)
Definition assignSegment (key val : string) (v : segmentVars) : segmentVars :=
  if String.eqb key "projects" then mkSegmentVars val (v_region v) (v_publisher v) (v_model v)
  else if String.eqb key "locations" then
    mkSegmentVars (v_project v) val (v_publisher v) (v_model v)
  else if String.eqb key "publishers" then
    mkSegmentVars (v_project v) (v_region v) val (v_model v)
  else if String.eqb key "models" then
    mkSegmentVars (v_project v) (v_region v) (v_publisher v) val
  else v.

(** The loop over [segments[1:]], two at a time; a last odd one is left out. *)
Fixpoint scanSegments (segments : list string) (v : segmentVars) : segmentVars :=
  match segments with
  | key :: val :: segments => scanSegments segments (assignSegment key val v)
  | _ => v
  end.

Section parser.
Context `{GoUnicode}.

(** From the split of the model segment on. *)
Definition parseVars (rawPath host apiVersion query : string) (v : segmentVars)
    : parseError + RouteInfo :=
  if String.eqb (v_project v) "" then inl (mkParseError ErrMissingProject "")
  else if String.eqb (v_region v) "" then inl (mkParseError ErrMissingRegion "")
  else if String.eqb (v_model v) "" then inl (mkParseError ErrMissingModel "")
  else
    match last_index_byte (v_model v) ":" with
    | None => inl (mkParseError ErrMissingMethod (": " +:+ go_quote (v_model v)))
    | Some colonIdx =>
        let model := str_take colonIdx (v_model v) in
        let method := str_drop (S colonIdx) (v_model v) in
        if String.eqb model "" then inl (mkParseError ErrMissingModel "")
        else if String.eqb method "" then inl (mkParseError ErrMissingMethod "")
        else
          let publisher := if String.eqb (v_publisher v) "" then "google" else v_publisher v in
          if negb (equal_fold publisher "google") then
            inl (mkParseError ErrUnsupportedPublisher (": got " +:+ go_quote publisher))
          else
            inr {| APIVersion := apiVersion; ProjectID := v_project v; Region := v_region v;
                   Publisher := publisher; Model := model; Method := method;
                   RawQuery := query; Host := host; OriginalPath := rawPath |}
    end.

Definition Parse (rawPath host : string) : parseError + RouteInfo :=
  if String.eqb rawPath "" then inl (mkParseError ErrEmptyPath "")
  else
    let '(path, query) :=
      match index_byte rawPath "?" with
      | Some qIdx => (str_take qIdx rawPath, str_drop (S qIdx) rawPath)
      | None => (rawPath, "")
      end in
    let cleanPath := trim_prefix path "/" in
    let segments := split_byte cleanPath "/" in
    if (length segments <? 5)%nat then
      inl (mkParseError ErrNotAIPlatformPath
             (": path has too few segments (" +:+ fmt_d (Z.of_nat (length segments)) +:+ ")"))
    else
      let apiVersion := hd "" segments in
      if negb (has_prefix apiVersion "v1") then
        inl (mkParseError ErrNotAIPlatformPath
               (": unsupported api version " +:+ go_quote apiVersion))
      else
        parseVars rawPath host apiVersion query
          (scanSegments (tl segments) (mkSegmentVars "" "" "" "")).

End parser.

(** ** [mutator.go] *)

Definition GlobalLocation : string := "global".
Definition vertexDomain : string := "aiplatform.googleapis.com".

(** [info] may be nil. *)
Definition MutatePath (info : option RouteInfo) (targetModel targetRegion : string) : string :=
  match info with
  | None => ""
  | Some info =>
      let model := if String.eqb targetModel "" then Model info else targetModel in
      let region := if String.eqb targetRegion "" then Region info else targetRegion in
      let path := "/" +:+ APIVersion info +:+ "/projects/" +:+ ProjectID info +:+ "/locations/"
                    +:+ region +:+ "/publishers/" +:+ Publisher info +:+ "/models/" +:+ model
                    +:+ ":" +:+ Method info in
      if String.eqb (RawQuery info) "" then path else path +:+ "?" +:+ RawQuery info
  end.

Section hosts.
Context `{GoUnicode}.

Definition HostFor (location : string) : string :=
  if equal_fold location GlobalLocation then vertexDomain
  else to_lower location +:+ "-" +:+ vertexDomain.

Definition isVertexHost (host : string) : bool :=
  let h := to_lower host in
  let h := match last_index_byte h ":" with
           | Some i => str_take i h
           | None => h
           end in
  String.eqb h vertexDomain || has_suffix h ("-" +:+ vertexDomain).

Definition MutateHost (info : option RouteInfo) (targetRegion : string) : string :=
  match info with
  | None => ""
  | Some info =>
      if String.eqb targetRegion "" || equal_fold targetRegion (Region info) then Host info
      else if isVertexHost (Host info) then HostFor targetRegion
      else Host info
  end.

Definition Mutate (info : option RouteInfo) (targetModel targetRegion : string)
    : string * string :=
  (MutatePath info targetModel targetRegion, MutateHost info targetRegion).

End hosts.

(** ** Well-formed routes *)

Section routes.
Context `{GoUnicode}.

(** A string that can stand for one segment of a path. *)
Definition plain (s : string) : Prop := has_byte "/" s = false ∧ has_byte "?" s = false.

(** What [Parse] guarantees of a route. *)
Record wellFormed (info : RouteInfo) : Prop := {
  wf_version : has_prefix (APIVersion info) "v1" = true ∧ plain (APIVersion info);
  wf_project : ProjectID info ≠ "" ∧ plain (ProjectID info);
  wf_region : Region info ≠ "" ∧ plain (Region info);
  wf_publisher : equal_fold (Publisher info) "google" = true ∧ plain (Publisher info);
  wf_model : Model info ≠ "" ∧ plain (Model info);
  wf_method : Method info ≠ "" ∧ plain (Method info) ∧ has_byte ":" (Method info) = false
}.

(** The route with another target; an empty name keeps the old one. *)
Definition retarget (info : RouteInfo) (targetModel targetRegion : string) : RouteInfo :=
  {| APIVersion := APIVersion info; ProjectID := ProjectID info;
     Region := if String.eqb targetRegion "" then Region info else targetRegion;
     Publisher := Publisher info;
     Model := if String.eqb targetModel "" then Model info else targetModel;
     Method := Method info; RawQuery := RawQuery info; Host := Host info;
     OriginalPath := OriginalPath info |}.

Definition withOriginalPath (info : RouteInfo) (raw : string) : RouteInfo :=
  {| APIVersion := APIVersion info; ProjectID := ProjectID info; Region := Region info;
     Publisher := Publisher info; Model := Model info; Method := Method info;
     RawQuery := RawQuery info; Host := Host info; OriginalPath := raw |}.

(** The path of a route, without the query. *)
Definition pathOf (info : RouteInfo) : string :=
  APIVersion info +:+ "/projects/" +:+ ProjectID info +:+ "/locations/" +:+ Region info
    +:+ "/publishers/" +:+ Publisher info +:+ "/models/" +:+ Model info +:+ ":" +:+ Method info.

Lemma MutatePath_retarget info targetModel targetRegion :
  MutatePath (Some info) targetModel targetRegion =
    let info := retarget info targetModel targetRegion in
    String "/" (if String.eqb (RawQuery info) "" then pathOf info
                else pathOf info +:+ String "?" (RawQuery info)).
Proof.
  unfold MutatePath, retarget, pathOf. simpl. by destruct (String.eqb (RawQuery info) "").
Qed.

Lemma wellFormed_retarget info targetModel targetRegion :
  wellFormed info → plain targetModel → plain targetRegion →
  wellFormed (retarget info targetModel targetRegion).
Proof.
  intros [] Hm Hr. constructor; simpl; try done.
  - by destruct (String.eqb_spec targetRegion "").
  - by destruct (String.eqb_spec targetModel "").
Qed.

Lemma pathOf_no_query info : wellFormed info → has_byte "?" (pathOf info) = false.
Proof.
  intros [[_ [_ H1]] [_ [_ H2]] [_ [_ H3]] [_ [_ H4]] [_ [_ H5]] (_ & [_ H6] & _)].
  unfold pathOf. by rewrite !has_byte_append, H1, H2, H3, H4, H5, H6.
Qed.

Lemma pathOf_split info :
  wellFormed info →
  split_byte (pathOf info) "/" =
    [APIVersion info; "projects"; ProjectID info; "locations"; Region info; "publishers";
     Publisher info; "models"; Model info +:+ ":" +:+ Method info].
Proof.
  intros [[_ [H1 _]] [_ [H2 _]] [_ [H3 _]] [_ [H4 _]] [_ [H5 _]] (_ & [H6 _] & _)].
  unfold pathOf. set (last := Model info +:+ ":" +:+ Method info).
  assert (has_byte "/" last = false) as Hlast
    by (unfold last; by rewrite !has_byte_append, H5, H6).
  assert (∀ a name x, has_byte "/" a = false → has_byte "/" name = false →
    split_byte (a +:+ String "/" (name +:+ String "/" x)) "/" = a :: name :: split_byte x "/") as Hseg
    by (intros; by rewrite !split_byte_append).
  change ("/projects/" +:+ ?x) with (String "/" ("projects" +:+ String "/" x)).
  rewrite (Hseg (APIVersion info) "projects") by done. do 2 f_equal.
  change ("/locations/" +:+ ?x) with (String "/" ("locations" +:+ String "/" x)).
  rewrite (Hseg (ProjectID info) "locations") by done. do 2 f_equal.
  change ("/publishers/" +:+ ?x) with (String "/" ("publishers" +:+ String "/" x)).
  rewrite (Hseg (Region info) "publishers") by done. do 2 f_equal.
  change ("/models/" +:+ ?x) with (String "/" ("models" +:+ String "/" x)).
  rewrite (Hseg (Publisher info) "models") by done. by rewrite split_byte_None.
Qed.

Lemma publisher_not_empty s : equal_fold s "google" = true → s ≠ "".
Proof. by intros Hs ->. Qed.

(** Parsing the path of a well-formed route. *)
Lemma Parse_pathOf info raw :
  wellFormed info → MutatePath (Some info) "" "" = raw →
  Parse raw (Host info) = inr (withOriginalPath info raw).
Proof.
  intros Hwf Hraw. pose proof (pathOf_no_query info Hwf) as Hq.
  assert (raw = String "/" (if String.eqb (RawQuery info) "" then pathOf info
                            else pathOf info +:+ String "?" (RawQuery info))) as Heq
    by (by rewrite <- Hraw, MutatePath_retarget).
  clear Hraw. rename Heq into Hraw.
  assert (String.eqb raw "" = false) as Hne by (by rewrite Hraw).
  assert (match index_byte raw "?" with
          | Some qIdx => (str_take qIdx raw, str_drop (S qIdx) raw)
          | None => (raw, "")
          end = (String "/" (pathOf info), RawQuery info)) as Hcut.
  { assert (has_byte "?" (String "/" (pathOf info)) = false) as Hq' by done.
    revert Hraw. destruct (String.eqb_spec (RawQuery info) "") as [Hempty|]; intros ->.
    - rewrite index_byte_None by done. rewrite Hempty. reflexivity.
    - rewrite <- (append_cons "/" (pathOf info)). rewrite index_byte_append by done.
      by rewrite str_take_append, str_drop_S_append. }
  unfold Parse. rewrite Hne, Hcut.
  change (String "/" (pathOf info)) with ("/" +:+ pathOf info). rewrite trim_prefix_append.
  rewrite pathOf_split by done. cbn [length Nat.ltb Nat.leb hd tl].
  destruct Hwf as [[Hv _] [Hp _] [Hr _] [Hpub _] [Hm _] (Hme & _ & Hcolon)].
  rewrite Hv. cbn [negb]. set (last := Model info +:+ ":" +:+ Method info).
  change (scanSegments _ _) with
    (mkSegmentVars (ProjectID info) (Region info) (Publisher info) last).
  unfold parseVars. cbn [v_project v_region v_publisher v_model].
  apply String.eqb_neq in Hp, Hr, Hm, Hme. rewrite Hp, Hr.
  assert (String.eqb last "" = false) as -> by (subst last; by destruct (Model info)).
  subst last. change (":" +:+ Method info) with (String ":" (Method info)).
  rewrite last_index_byte_append by done.
  rewrite str_take_append, str_drop_S_append, Hm, Hme.
  pose proof (publisher_not_empty _ Hpub) as Hpne%String.eqb_neq. by rewrite Hpne, Hpub.
Qed.

Lemma scanSegments_Forall (P : string → Prop) segments v :
  Forall P segments → P (v_project v) → P (v_region v) → P (v_publisher v) → P (v_model v) →
  let v' := scanSegments segments v in
  P (v_project v') ∧ P (v_region v') ∧ P (v_publisher v') ∧ P (v_model v').
Proof.
  remember (length segments) as n eqn:Hn. revert segments v Hn.
  induction (lt_wf n) as [n _ IH]. intros [|key [|val rest]] v Hn Hall Hp Hr Hpub Hm; try done.
  apply Forall_cons in Hall as [_ [Hval Hrest]%Forall_cons]. cbn [scanSegments].
  apply (IH (length rest)); [simpl in Hn; lia|done|done|..]; unfold assignSegment;
    by repeat destruct (String.eqb key _).
Qed.

Lemma parseVars_inr raw host version query v info :
  parseVars raw host version query v = inr info →
  plain (v_project v) → plain (v_region v) → plain (v_publisher v) → plain (v_model v) →
  has_prefix version "v1" = true → plain version →
  wellFormed info ∧ Host info = host ∧ OriginalPath info = raw ∧ RawQuery info = query.
Proof.
  unfold parseVars. intros Hparse Hp Hr Hpub [Hm Hmq] Hv Hvp.
  destruct (String.eqb_spec (v_project v) "") as [|Hpne]; [done|].
  destruct (String.eqb_spec (v_region v) "") as [|Hrne]; [done|].
  destruct (String.eqb_spec (v_model v) "") as [|Hmne]; [done|].
  destruct (last_index_byte (v_model v) ":") as [i|] eqn:Hi; [|done].
  destruct (String.eqb_spec (str_take i (v_model v)) "") as [|Hmodel]; [done|].
  destruct (String.eqb_spec (str_drop (S i) (v_model v)) "") as [|Hmethod]; [done|].
  destruct (equal_fold _ "google") eqn:Hg; [|done]. injection Hparse as <-.
  apply last_index_byte_Some in Hi as [_ Hcolon]. split; [|done].
  pose proof (has_byte_take_drop "/" i _ Hm) as [? _].
  pose proof (has_byte_take_drop "?" i _ Hmq) as [? _].
  pose proof (has_byte_take_drop "/" (S i) _ Hm) as [_ ?].
  pose proof (has_byte_take_drop "?" (S i) _ Hmq) as [_ ?].
  constructor; cbn; try done. split; [done|].
  by destruct (String.eqb (v_publisher v) "").
Qed.

Lemma Parse_inr raw host info :
  Parse raw host = inr info → wellFormed info ∧ Host info = host ∧ OriginalPath info = raw.
Proof.
  unfold Parse. destruct (String.eqb raw ""); [done|].
  assert (∀ path query, has_byte "?" path = false →
    (let cleanPath := trim_prefix path "/" in
     let segments := split_byte cleanPath "/" in
     if (length segments <? 5)%nat then
       inl (mkParseError ErrNotAIPlatformPath
             (": path has too few segments (" +:+ fmt_d (Z.of_nat (length segments)) +:+ ")"))
     else
       if negb (has_prefix (hd "" segments) "v1") then
         inl (mkParseError ErrNotAIPlatformPath
               (": unsupported api version " +:+ go_quote (hd "" segments)))
       else parseVars raw host (hd "" segments) query
              (scanSegments (tl segments) (mkSegmentVars "" "" "" ""))) = inr info →
    wellFormed info ∧ Host info = host ∧ OriginalPath info = raw) as Hbody.
  { intros path query Hq. cbn zeta. set (segments := split_byte _ _).
    destruct (length segments <? 5)%nat; [done|].
    destruct (has_prefix (hd "" segments) "v1") eqn:Hv; [|done]. simpl negb. cbv iota.
    assert (Forall plain segments) as Hall.
    { pose proof (split_byte_sep (trim_prefix path "/") "/") as H1.
      pose proof (split_byte_bytes (trim_prefix path "/") "?" "/" (has_byte_trim_prefix _ _ _ Hq)) as H2.
      apply Forall_and. by split. }
    assert (plain (hd "" segments) ∧ Forall plain (tl segments)) as [Hhd Htl]
      by (destruct Hall; by split).
    destruct (scanSegments_Forall plain (tl segments) (mkSegmentVars "" "" "" "") Htl)
      as (? & ? & ? & ?); [by split..|].
    intros Hparse. apply parseVars_inr in Hparse; try done. naive_solver. }
  destruct (index_byte raw "?") as [q|] eqn:Hq.
  - apply Hbody. by apply index_byte_Some in Hq as [_ ?].
  - apply Hbody. revert Hq. clear. induction raw as [|c raw IH]; [done|]. simpl.
    destruct (Ascii.eqb_spec c "?") as [|Hne]; [done|].
    destruct (index_byte raw "?"); [done|]. intros _. rewrite has_byte_cons, IH by done.
    rewrite orb_false_r. apply Ascii.eqb_neq. congruence.
Qed.

Lemma Parse_retarget raw host info targetModel targetRegion :
  Parse raw host = inr info → plain targetModel → plain targetRegion →
  let newPath := MutatePath (Some info) targetModel targetRegion in
  Parse newPath host = inr (withOriginalPath (retarget info targetModel targetRegion) newPath).
Proof.
  intros Hparse Hm Hr newPath. apply Parse_inr in Hparse as (Hwf & <- & _).
  apply (wellFormed_retarget _ targetModel targetRegion) in Hwf; [|done..].
  change (Host info) with (Host (retarget info targetModel targetRegion)).
  apply Parse_pathOf; [done|]. subst newPath. by rewrite !MutatePath_retarget.
Qed.

(** ** Properties *)

(** C29: what [Parse] returns is a well-formed route for the host and the path it
    was given: an API version starting with v1, a Google publisher, non-empty
    project, region, model and method, each a single path segment without a
    query. *)
Theorem Parse_sound raw host info :
  Parse raw host = inr info → wellFormed info ∧ Host info = host ∧ OriginalPath info = raw.
Proof. apply Parse_inr. Qed.

(** Printing and parsing are inverse: for every well-formed route, [MutatePath]
    without overrides prints a path that [Parse] accepts and turns back into the
    route. *)
Theorem Parse_MutatePath info :
  wellFormed info →
  let raw := MutatePath (Some info) "" "" in
  Parse raw (Host info) = inr (withOriginalPath info raw).
Proof. intros Hwf. by apply Parse_pathOf. Qed.

(** Rewriting a path changes its target and nothing else: the path that
    [MutatePath] makes from a parsed request parses again, to the same API
    version, project, publisher, method and query, and to the target asked for
    (an empty name keeps the old one). *)
Theorem MutatePath_retargets raw host info targetModel targetRegion :
  Parse raw host = inr info → plain targetModel → plain targetRegion →
  let newPath := MutatePath (Some info) targetModel targetRegion in
  Parse newPath host = inr (withOriginalPath (retarget info targetModel targetRegion) newPath).
Proof. apply Parse_retarget. Qed.

(** A location name as the theorems on hosts use it. *)
Definition locationOk (s : string) : Prop := has_non_ascii s = false ∧ has_byte ":" s = false.

Lemma HostFor_vertex location : locationOk location → isVertexHost (HostFor location) = true.
Proof.
  intros [Ha Hc]. unfold HostFor. destruct (equal_fold location GlobalLocation); [done|].
  assert (has_non_ascii (to_lower location) = false) as Hl
    by (by rewrite to_lower_ascii, has_non_ascii_lower).
  unfold isVertexHost. rewrite to_lower_append by done.
  rewrite to_lower_idem_ascii by done.
  change (to_lower ("-" +:+ vertexDomain)) with ("-" +:+ vertexDomain).
  rewrite last_index_byte_None.
  - by rewrite has_suffix_append, orb_true_r.
  - by rewrite has_byte_append, to_lower_colon, Hc.
Qed.

Lemma MutateHost_empty info targetRegion :
  MutateHost (Some info) targetRegion = "" → Host info = "".
Proof.
  unfold MutateHost, HostFor. destruct (_ || _); [done|]. destruct (isVertexHost _); [|done].
  destruct (equal_fold _ GlobalLocation); [done|]. intros Heq.
  apply (f_equal String.length) in Heq. rewrite !length_append in Heq. simpl in Heq. lia.
Qed.

(** [MutateHost] keeps custom host names and replaces public Vertex AI ones.
    The host changes only when it is a public endpoint and the region changes,
    and then to the endpoint of the new region; a public endpoint stays one. *)
Theorem MutateHost_keeps_custom info targetRegion :
  let host := MutateHost (Some info) targetRegion in
  (host ≠ Host info →
     isVertexHost (Host info) = true ∧ targetRegion ≠ "" ∧
     equal_fold targetRegion (Region info) = false ∧ host = HostFor targetRegion) ∧
  (locationOk targetRegion → isVertexHost (Host info) = true → isVertexHost host = true) ∧
  (isVertexHost (Host info) = true → targetRegion ≠ "" →
     equal_fold targetRegion (Region info) = false → host = HostFor targetRegion).
Proof.
  cbn zeta. unfold MutateHost. destruct (String.eqb_spec targetRegion ""); [done|]. simpl.
  destruct (equal_fold targetRegion (Region info)); [done|].
  destruct (isVertexHost (Host info)) eqn:Hv; [|done].
  split_and!; [done|by intros; apply HostFor_vertex|done].
Qed.

(** Two locations have the same host exactly when their names differ by case
    only, so a rewritten host determines the region; the global endpoint is the
    bare domain. *)
Theorem HostFor_injective a b :
  has_non_ascii a = false → has_non_ascii b = false →
  (HostFor a = HostFor b ↔ to_lower a = to_lower b) ∧
  (HostFor a = vertexDomain ↔ to_lower a = GlobalLocation).
Proof.
  assert (∀ s, has_non_ascii s = false →
    HostFor s = if String.eqb (to_lower s) GlobalLocation then vertexDomain
                else to_lower s +:+ "-" +:+ vertexDomain) as Hhost.
  { intros s Hs. unfold HostFor. by rewrite equal_fold_ascii. }
  assert (∀ s, s +:+ "-" +:+ vertexDomain ≠ vertexDomain) as Hne.
  { intros s Heq. apply (f_equal String.length) in Heq. rewrite !length_append in Heq.
    simpl in Heq. lia. }
  intros Ha Hb. rewrite (Hhost a Ha), (Hhost b Hb).
  destruct (String.eqb_spec (to_lower a) GlobalLocation) as [Ea|Ea],
           (String.eqb_spec (to_lower b) GlobalLocation) as [Eb|Eb];
    repeat split; intros Heq; try congruence; try (by apply Hne in Heq);
    try (by apply append_cancel_r in Heq).
Qed.

End routes.

(** ** Concrete runs *)

Definition samplePath : string :=
  "/v1/projects/my-proj/locations/us-central1/publishers/google/models/gemini-1.5-pro:streamGenerateContent?alt=sse".

Definition sampleHost : string := "us-central1-aiplatform.googleapis.com".

Definition sampleRoute : RouteInfo :=
  {| APIVersion := "v1"; ProjectID := "my-proj"; Region := "us-central1"; Publisher := "google";
     Model := "gemini-1.5-pro"; Method := "streamGenerateContent"; RawQuery := "alt=sse";
     Host := sampleHost; OriginalPath := samplePath |}.

Lemma sampleRoute_parse : Parse samplePath sampleHost = inr sampleRoute.
Proof. reflexivity. Qed.

Lemma Parse_sound_witness : wellFormed sampleRoute.
Proof. exact (proj1 (Parse_sound samplePath sampleHost sampleRoute sampleRoute_parse)). Defined.

Lemma Parse_MutatePath_witness :
  MutatePath (Some sampleRoute) "" "" = samplePath ∧ Parse samplePath sampleHost = inr sampleRoute.
Proof.
  split; [by vm_compute|]. apply (Parse_MutatePath sampleRoute).
  by destruct (Parse_inr samplePath sampleHost sampleRoute sampleRoute_parse).
Defined.

Lemma MutatePath_retargets_witness :
  Parse (MutatePath (Some sampleRoute) "flash" "") sampleHost =
    inr (withOriginalPath (retarget sampleRoute "flash" "")
           (MutatePath (Some sampleRoute) "flash" "")).
Proof. by apply (MutatePath_retargets samplePath sampleHost sampleRoute). Defined.

Lemma HostFor_injective_witness :
  HostFor "US" = HostFor "us" ∧ HostFor "us" ≠ vertexDomain.
Proof.
  destruct (HostFor_injective "US" "us" eq_refl eq_refl) as [H1 _].
  destruct (HostFor_injective "us" "us" eq_refl eq_refl) as [_ H2].
  split; [by apply H1|]. intros Heq%H2. by vm_compute in Heq.
Defined.

End Router.
