(* ===== verification/Cache.v ===== *)
(** * The snapshot cache: [pkg/dataplane/cache.go]

    The latest quota snapshot of a data plane replica, the stream that feeds it,
    and the reconnection backoff. The gRPC stream is a sequence of outcomes of
    [Recv]. *)

From S2P Require Import Prelude GoStrings GoFloat Quota.
From stdpp Require Import options.

Module Cache.

Definition initialBackoff : Z := 500 * millisecond.
Definition maxBackoff : Z := 10 * second.

(** The atomic pointer; nil before the first snapshot. *)
Record SnapshotCache := mkSnapshotCache { current : option pb.QuotaSnapshot }.

Definition NewSnapshotCache : SnapshotCache := mkSnapshotCache None.

Definition Get (c : SnapshotCache) : option pb.QuotaSnapshot := current c.

Definition Set' (c : SnapshotCache) (s : option pb.QuotaSnapshot) : SnapshotCache :=
  mkSnapshotCache s.

(** What [Recv] returns: a snapshot, which may be nil, or an error. *)
Definition recv : Type := result (option pb.QuotaSnapshot).

(** The loop of [streamOnce]: [(received, err)], or [None] while the stream has
    delivered only these outcomes and is still open. *)
Fixpoint receive (c : SnapshotCache) (received : bool) (outcomes : list recv)
    : option (bool * string) * SnapshotCache :=
  match outcomes with
  | [] => (None, c)
  | Err e :: _ => (Some (received, e), c)
  | Ok None :: _ => (Some (received, "received nil snapshot"), c)
  | Ok (Some snap) :: outcomes => receive (Set' c (Some snap)) true outcomes
  end.

(** [opened] is the outcome of the call [StreamQuotas]. *)
Definition streamOnce (c : SnapshotCache) (opened : result unit) (outcomes : list recv)
    : option (bool * string) * SnapshotCache :=
  match opened with
  | Err e => (Some (false, e), c)
  | Ok tt => receive c false outcomes
  end.

(** The backoff of [Run]: the wait after a stream that ended, and the backoff for
    the next one. *)
Definition waitAfter (received : bool) (backoff : Z) : Z :=
  if received then initialBackoff else backoff.

Definition nextBackoff (wait : Z) : Z :=
  let backoff := wait *! 2 in
  if maxBackoff <? backoff then maxBackoff else backoff.

(** An attempt to stream that ended while the context was not cancelled. *)
Record attempt := mkAttempt { opened : result unit; outcomes : list recv }.

(** The loop of [Run] over attempts that end, with the waits between them; it
    stops at an attempt that is still open. *)
Fixpoint Run (c : SnapshotCache) (backoff : Z) (attempts : list attempt)
    : list Z * SnapshotCache :=
  match attempts with
  | [] => ([], c)
  | a :: attempts =>
      let '(ended, c) := streamOnce c (opened a) (outcomes a) in
      match ended with
      | None => ([], c)
      | Some (received, _) =>
          let wait := waitAfter received backoff in
          let '(waits, c) := Run c (nextBackoff wait) attempts in
          (wait :: waits, c)
      end
  end.

(** ** The cache *)

(** The last snapshot of a stream, if it delivered one before it ended. *)
Fixpoint lastSnapshot (outcomes : list recv) : option pb.QuotaSnapshot :=
  match outcomes with
  | Ok (Some snap) :: outcomes =>
      match lastSnapshot outcomes with Some s => Some s | None => Some snap end
  | _ => None
  end.

Lemma receive_last c received outcomes :
  current (receive c received outcomes).2 =
    match lastSnapshot outcomes with Some s => Some s | None => current c end.
Proof.
  revert c received. induction outcomes as [|[[snap|]|e] outcomes IH]; intros c received; try done.
  cbn [receive lastSnapshot]. rewrite IH. by destruct (lastSnapshot outcomes).
Qed.

(** The stream of an attempt has ended. *)
Definition isEnd (r : recv) : bool :=
  match r with Ok (Some _) => false | _ => true end.

Definition ended (a : attempt) : bool :=
  match opened a with Ok _ => existsb isEnd (outcomes a) | Err _ => true end.

(** The newest snapshot delivered by the attempts, the last of which may be open. *)
Fixpoint newest (cur : option pb.QuotaSnapshot) (attempts : list attempt)
    : option pb.QuotaSnapshot :=
  match attempts with
  | [] => cur
  | a :: attempts =>
      let cur :=
        match opened a, lastSnapshot (outcomes a) with
        | Ok _, Some snap => Some snap
        | _, _ => cur
        end in
      if ended a then newest cur attempts else cur
  end.

Lemma receive_ended c received outcomes :
  match (receive c received outcomes).1 with
  | Some _ => existsb isEnd outcomes = true
  | None => existsb isEnd outcomes = false
  end.
Proof.
  revert c received. induction outcomes as [|[[snap|]|e] outcomes IH]; intros c received; try done.
  apply IH.
Qed.

Lemma Run_newest c backoff attempts :
  current (Run c backoff attempts).2 = newest (current c) attempts.
Proof.
  revert c backoff. induction attempts as [|a attempts IH]; intros c backoff; [done|].
  cbn [Run newest]. unfold streamOnce, ended. destruct (opened a) as [[]|e].
  - pose proof (receive_last c false (outcomes a)) as Hlast.
    pose proof (receive_ended c false (outcomes a)) as Hend.
    destruct (receive c false (outcomes a)) as [[[received err]|] c']; simpl in Hlast, Hend;
      rewrite Hend, <- Hlast; [|done].
    specialize (IH c' (nextBackoff (waitAfter received backoff))).
    by destruct (Run c' _ attempts).
  - specialize (IH c (nextBackoff (waitAfter false backoff))).
    by destruct (Run c _ attempts), (lastSnapshot (outcomes a)).
Qed.

(** C32: the last known snapshot is kept: whatever streams open, fail or end in
    whatever way, the cache holds the newest snapshot that any of them delivered,
    and it is never emptied again once it has held one. *)
Theorem Run_keeps_last_snapshot c backoff attempts :
  current (Run c backoff attempts).2 = newest (current c) attempts ∧
  (is_Some (current c) → is_Some (current (Run c backoff attempts).2)).
Proof.
  split; [apply Run_newest|]. rewrite Run_newest. generalize (current c). clear c.
  induction attempts as [|a attempts IH]; intros cur Hcur; [done|]. cbn [newest].
  assert (is_Some (match opened a, lastSnapshot (outcomes a) with
                   | Ok _, Some snap => Some snap
                   | _, _ => cur
                   end)) as Hcur' by (by destruct (opened a), (lastSnapshot (outcomes a))).
  destruct (ended a); auto.
Qed.

(** ** Backoff *)

Lemma nextBackoff_range b :
  initialBackoff ≤ b ≤ maxBackoff →
  nextBackoff b = Z.min (2 * b) maxBackoff ∧ initialBackoff ≤ nextBackoff b ≤ maxBackoff.
Proof.
  unfold nextBackoff, initialBackoff, maxBackoff, second, millisecond. intros Hb.
  rewrite wrap64_id by int64_solve.
  destruct (Z.ltb_spec (10 * 1000000000) (b * 2)); lia.
Qed.

(** Reconnection never stops and never spins: every wait is between half a
    second and ten seconds, and consecutive attempts that deliver nothing double
    it up to the maximum. *)
Theorem Run_backoff c backoff attempts :
  initialBackoff ≤ backoff ≤ maxBackoff →
  let waits := (Run c backoff attempts).1 in
  Forall (λ w, initialBackoff ≤ w ≤ maxBackoff) waits ∧
  (∀ n w w', waits !! n = Some w → waits !! S n = Some w' →
     w' = initialBackoff ∨ w' = Z.min (2 * w) maxBackoff).
Proof.
  revert c backoff. induction attempts as [|a attempts IH]; intros c backoff Hb; cbn [Run].
  { split; [constructor|]. by intros n w w' Hw. }
  destruct (streamOnce c (opened a) (outcomes a)) as [[[received e]|] c'].
  2: { split; [constructor|]. by intros n w w' Hw. }
  set (wait := waitAfter received backoff).
  assert (initialBackoff ≤ wait ≤ maxBackoff) as Hwait.
  { subst wait. unfold waitAfter. destruct received; [|done]. by vm_compute. }
  destruct (nextBackoff_range wait Hwait) as [Hnext Hrange].
  assert (∀ w, (Run c' (nextBackoff wait) attempts).1 !! 0%nat = Some w →
    w = initialBackoff ∨ w = nextBackoff wait) as Hfirst.
  { intros w. destruct attempts as [|a' attempts']; [done|]. cbn [Run].
    destruct (streamOnce c' _ _) as [[[received' e']|] c'']; [|done].
    destruct (Run c'' _ attempts'). simpl. intros [= <-]. unfold waitAfter.
    destruct received'; auto. }
  specialize (IH c' (nextBackoff wait) Hrange). cbn zeta in IH.
  destruct (Run c' (nextBackoff wait) attempts) as [waits c'']. simpl in *.
  destruct IH as [Hall Hsteps]. split; [by constructor|].
  intros [|n] w w' Hw Hw'; simpl in *; [|by eapply Hsteps].
  injection Hw as <-. rewrite <- Hnext. by apply Hfirst.
Qed.

(** ** Concrete runs *)

Definition emptySnapshot : pb.QuotaSnapshot := pb.mkQuotaSnapshot None None None.
Definition firstSnapshot : pb.QuotaSnapshot := pb.mkQuotaSnapshot (Some ∅) None (Some 7).

Definition sampleAttempts : list attempt :=
  [mkAttempt (Err "refused") []; mkAttempt (Err "refused") [];
   mkAttempt (Ok tt) [Ok (Some firstSnapshot); Err "reset"]; mkAttempt (Ok tt) [Ok None]].

Lemma Run_backoff_witness :
  (Run NewSnapshotCache initialBackoff sampleAttempts).1 =
    [500 * millisecond; 1 * second; 500 * millisecond; 1 * second] ∧
  Forall (λ w, initialBackoff ≤ w ≤ maxBackoff)
    (Run NewSnapshotCache initialBackoff sampleAttempts).1.
Proof.
  split; [by vm_compute|].
  apply (Run_backoff NewSnapshotCache initialBackoff sampleAttempts). by vm_compute.
Defined.

End Cache.
