(* ===== verification/Evaluator.v ===== *)
(** * The request evaluator: [pkg/dataplane/evaluator.go]

    From the headers of one request to a [Result]: parse the path, estimate the
    tokens, decide, and say which headers to set and which to strip. *)

From Stdlib Require Import Ascii.
From S2P Require Import Prelude GoStrings GoFloat Quota Config Bucket Limiter Cascade Router Cache.
From stdpp Require Import options.

Module Evaluator.
Import Priority.

(** ** Headers *)

Definition HeaderPriority : string := "x-request-priority".
Definition HeaderPolicy : string := "x-governor-policy".
Definition HeaderPath : string := ":path".
Definition HeaderPromptTokens : string := "x-prompt-tokens".
Definition HeaderContentLength : string := "content-length".
Definition HeaderAuthority : string := ":authority".

Definition HeaderDecision : string := "x-governor-decision".
Definition HeaderReason : string := "x-governor-reason".
Definition HeaderTargetModel : string := "x-governor-target-model".
Definition HeaderTargetRegion : string := "x-governor-target-region".
Definition HeaderOriginalPath : string := "x-governor-original-path".
Definition HeaderRetryAfter : string := "retry-after".

Definition DecisionForward : string := "forward".
Definition DecisionReroute : string := "reroute".
Definition DecisionShed : string := "shed".
Definition DecisionBypass : string := "bypass".

Definition governorHeaders : list string :=
  [HeaderDecision; HeaderReason; HeaderTargetModel; HeaderTargetRegion; HeaderOriginalPath].

Record Result := mkResult {
  Decision : string;
  Shed : bool;
  RetryAfterSeconds : Z;
  SetHeaders : gmap string string;
  RemoveHeaders : list string;
  RouteChanged : bool
}.

Record Evaluator := mkEvaluator {
  cache : Cache.SnapshotCache;
  engine : Cascade.CascadeEngine;
  defaultTokens : Z
}.

Definition withEngine (e : Evaluator) (ce : Cascade.CascadeEngine) : Evaluator :=
  {| cache := cache e; engine := ce; defaultTokens := defaultTokens e |}.

(** [headers[name]]: the empty string when the header is missing. *)
Definition header (headers : gmap string string) (name : string) : string :=
  default "" (headers !! name).

(** ** Token estimates *)

Definition bytesPerToken : Z := 4.
Definition maxTokenEstimate : Z := 10000000.

Definition NewEvaluator (cache : Cache.SnapshotCache) (engine : Cascade.CascadeEngine) : Evaluator :=
  {| cache := cache; engine := engine; defaultTokens := Config.DefaultRequestTokensEstimate |}.

Definition WithDefaultTokens (e : Evaluator) (n : Z) : Evaluator :=
  if 0 <? n then {| cache := cache e; engine := engine e; defaultTokens := n |} else e.

Section evaluator.
Context `{GoUnicode} `{GoArch}.

(** The value of a numeric header, when it parses and is positive. *)
Definition positiveHeader (headers : gmap string string) (name : string) : option Z :=
  match parse_int (trim_space (header headers name)) with
  | Some v => if 0 <? v then Some v else None
  | None => None
  end.

Definition EstimateTokens (headers : gmap string string) (defaultTokens : Z) : Z :=
  let est :=
    match positiveHeader headers HeaderPromptTokens with
    | Some v => v
    | None => 0
    end in
  let est :=
    match positiveHeader headers HeaderContentLength with
    | Some n => Z.max est ((n +! bytesPerToken -! 1) /! bytesPerToken)
    | None => est
    end in
  let est := if est =? 0 then defaultTokens else est in
  Z.min est maxTokenEstimate.

Definition ParsePriority (v : string) : Priority := (ParsePriorityName v).1.

(** ** Results *)

Definition firstNonEmpty (a b : string) : string := if String.eqb a "" then b else a.

(** The inner loop of [without], which stops at the first match. *)
Fixpoint dropped (v : string) (drop : list string) : bool :=
  match drop with
  | [] => false
  | d :: drop => if String.eqb v d then true else dropped v drop
  end.

(** The outer loop of [without]; it compacts the list in place. *)
Fixpoint without (l : list string) (drop : list string) : list string :=
  match l with
  | [] => []
  | v :: l => if dropped v drop then without l drop else v :: without l drop
  end.

(** The last loop of [Evaluate], over [SetHeaders]. *)
Definition withoutSet (set : gmap string string) (remove : list string) : list string :=
  foldl (λ remove k, without remove [k]) remove (map_to_list set).*1.

(** [int64(d.Seconds())]: [Seconds] is the sum of the whole seconds and the
    fraction as [float64]. *)
Definition wholeSeconds (d : Z) : Z :=
  int64_of_f64 (f64_add (f64_of_Z (d /! second))
                        (f64_div (f64_of_Z (Z.rem d second)) (f64_of_Z second))).

(** [GetSeconds] of the protobuf [Duration] made from a [time.Duration]. *)
Definition durationSeconds (d : Z) : Z := d /! second.

(** The result for a path that is not a model request. *)
Definition bypass (err : Router.parseError) : Result :=
  {| Decision := DecisionBypass; Shed := false; RetryAfterSeconds := 0;
     SetHeaders := {[ HeaderDecision := DecisionBypass;
                      HeaderReason := "not a vertex ai model request: " +:+ Router.Error err ]};
     RemoveHeaders := without governorHeaders [HeaderDecision; HeaderReason];
     RouteChanged := false |}.

(** The assignments under each case of the [switch], on a result that has its
    reason already: the result without [SetHeaders[HeaderDecision]] and with
    [RemoveHeaders] untouched. *)
Definition applyDecision (headers : gmap string string) (info : Router.RouteInfo)
    (d : Cascade.Decision) : Result :=
  let set : gmap string string := {[ HeaderReason := Cascade.Reason d ]} in
  if Cascade.Drop d then
    let retry :=
      match Cascade.RetryAfter d with
      | Some after => durationSeconds after
      | None => wholeSeconds DefaultRetryAfter
      end in
    {| Decision := DecisionShed; Shed := true; RetryAfterSeconds := retry;
       SetHeaders := <[HeaderRetryAfter := fmt_d retry]> set;
       RemoveHeaders := governorHeaders; RouteChanged := false |}
  else if negb (String.eqb (Cascade.ReplaceModel d) "")
          || negb (String.eqb (Cascade.ReplaceRegion d) "") then
    let '(newPath, newHost) :=
      Router.Mutate (Some info) (Cascade.ReplaceModel d) (Cascade.ReplaceRegion d) in
    let set := <[HeaderPath := newPath]> set in
    let set :=
      if negb (String.eqb newHost "") && negb (String.eqb newHost (header headers HeaderAuthority))
      then <[HeaderAuthority := newHost]> set else set in
    let set := <[HeaderOriginalPath := header headers HeaderPath]> set in
    let set := <[HeaderTargetModel :=
                   firstNonEmpty (Cascade.ReplaceModel d) (Router.Model info)]> set in
    let set := <[HeaderTargetRegion :=
                   firstNonEmpty (Cascade.ReplaceRegion d) (Router.Region info)]> set in
    {| Decision := DecisionReroute; Shed := false; RetryAfterSeconds := 0;
       SetHeaders := set; RemoveHeaders := governorHeaders; RouteChanged := true |}
  else
    {| Decision := DecisionForward; Shed := false; RetryAfterSeconds := 0;
       SetHeaders := set; RemoveHeaders := governorHeaders; RouteChanged := false |}.

(** What follows the [switch]. *)
Definition finish (res : Result) : Result :=
  let set := <[HeaderDecision := Decision res]> (SetHeaders res) in
  {| Decision := Decision res; Shed := Shed res; RetryAfterSeconds := RetryAfterSeconds res;
     SetHeaders := set; RemoveHeaders := withoutSet set (RemoveHeaders res);
     RouteChanged := RouteChanged res |}.

(** The request that [Evaluate] decides on. *)
Definition requestOf (e : Evaluator) (headers : gmap string string) (info : Router.RouteInfo)
    : Cascade.Request :=
  {| Cascade.Project := Router.ProjectID info; Cascade.Region := Router.Region info;
     Cascade.Model := Router.Model info;
     Cascade.ReqPriority := ParsePriority (header headers HeaderPriority);
     Cascade.Policy := header headers HeaderPolicy;
     Cascade.Tokens := EstimateTokens headers (defaultTokens e) |}.

Definition Evaluate (e : Evaluator) (headers : gmap string string) : Result * Evaluator :=
  match Router.Parse (header headers HeaderPath) (header headers HeaderAuthority) with
  | inl err => (bypass err, e)
  | inr info =>
      let '(d, ce) := Cascade.Decide (engine e) (Cache.Get (cache e)) (requestOf e headers info) in
      (finish (applyDecision headers info d), withEngine e ce)
  end.

End evaluator.

(** ** Header lists *)

Section results.
Context `{GoUnicode} `{GoArch}.

Lemma dropped_spec v drop : dropped v drop = true ↔ v ∈ drop.
Proof.
  induction drop as [|d drop IH]; simpl; [by rewrite elem_of_nil|].
  rewrite elem_of_cons. destruct (String.eqb_spec v d); [naive_solver|].
  rewrite IH. naive_solver.
Qed.

Lemma elem_of_without v l drop : v ∈ without l drop ↔ v ∈ l ∧ v ∉ drop.
Proof.
  induction l as [|w l IH]; simpl; [set_solver|].
  pose proof (dropped_spec w drop). destruct (dropped w drop); set_solver.
Qed.

(** The order in which [SetHeaders] is visited does not matter. *)
Lemma elem_of_withoutSet v set remove : v ∈ withoutSet set remove ↔ v ∈ remove ∧ set !! v = None.
Proof.
  unfold withoutSet. assert (∀ keys, v ∈ foldl (λ remove k, without remove [k]) remove keys ↔
    v ∈ remove ∧ v ∉ keys) as Hkeys.
  { intros keys. revert remove. induction keys as [|k keys IH]; intros remove; simpl; [set_solver|].
    rewrite IH, elem_of_without. set_solver. }
  rewrite Hkeys. assert (v ∈ (map_to_list set).*1 ↔ is_Some (set !! v)) as ->.
  { rewrite list_elem_of_fmap. split.
    - intros ([k x] & -> & Hin%elem_of_map_to_list). by exists x.
    - intros [x Hx]. exists (v, x). by rewrite elem_of_map_to_list. }
  by rewrite eq_None_not_Some.
Qed.

(** What the upstream sees: the request's headers less those to remove, with those
    to set added or overwritten. *)
Definition upstream (headers : gmap string string) (res : Result) : gmap string string :=
  SetHeaders res ∪ foldr delete headers (RemoveHeaders res).

Lemma lookup_foldr_delete {A} (m : gmap string A) ks k :
  foldr delete m ks !! k = if decide (k ∈ ks) then None else m !! k.
Proof.
  induction ks as [|j ks IH]; simpl; [done|].
  destruct (decide (j = k)) as [->|Hne].
  - rewrite lookup_delete_eq. destruct (decide (k ∈ k :: ks)); set_solver.
  - rewrite lookup_delete_ne, IH by done.
    destruct (decide (k ∈ ks)), (decide (k ∈ j :: ks)); set_solver.
Qed.

(** [Evaluate] splits the governor's headers into those it sets and those it
    removes. *)
Definition cleanHeaders (res : Result) : Prop :=
  ∀ h, h ∈ RemoveHeaders res ↔ h ∈ governorHeaders ∧ SetHeaders res !! h = None.

Lemma finish_clean res : RemoveHeaders res = governorHeaders → cleanHeaders (finish res).
Proof. intros Hrm h. unfold finish. simpl. by rewrite elem_of_withoutSet, Hrm. Qed.

Lemma applyDecision_remove headers info d :
  RemoveHeaders (applyDecision headers info d) = governorHeaders.
Proof.
  unfold applyDecision. destruct (Cascade.Drop d); [done|].
  by destruct (negb _ || negb _).
Qed.

Lemma bypass_clean err : cleanHeaders (bypass err).
Proof.
  intros h. unfold bypass. cbn [RemoveHeaders SetHeaders].
  rewrite elem_of_without, lookup_insert_None, lookup_singleton_None. set_solver.
Qed.

Lemma Evaluate_clean e headers : cleanHeaders (Evaluate e headers).1.
Proof.
  unfold Evaluate. destruct (Router.Parse _ _) as [err|info]; [apply bypass_clean|].
  destruct (Cascade.Decide _ _ _) as [d ce]. apply finish_clean, applyDecision_remove.
Qed.

(** C16: an upstream can trust the governor's headers. Whatever headers the client
    sends, each of the governor's own headers reaches the upstream with the value
    that the governor set, or not at all; and every other header that the
    governor does not set passes through unchanged. *)
Theorem upstream_trusts_governor_headers e headers :
  let res := (Evaluate e headers).1 in
  (∀ h, h ∈ governorHeaders → upstream headers res !! h = SetHeaders res !! h) ∧
  (∀ h, h ∉ governorHeaders → SetHeaders res !! h = None → upstream headers res !! h = headers !! h).
Proof.
  intros res. pose proof (Evaluate_clean e headers) as Hclean. fold res in Hclean.
  unfold upstream. split; intros h Hh.
  - destruct (SetHeaders res !! h) as [v|] eqn:Hset; [by apply lookup_union_Some_l|].
    rewrite lookup_union_r, lookup_foldr_delete by done.
    rewrite decide_True by (by apply Hclean). done.
  - intros Hset. rewrite lookup_union_r, lookup_foldr_delete by done.
    rewrite decide_False; [done|]. intros Hin%Hclean. set_solver.
Qed.

(** Unlike the other headers that the governor writes, a retry-after header
    sent by the client reaches the upstream whenever the request is not shed,
    although the comment on these headers says that client-supplied values are
    removed or overwritten. *)
Theorem client_retry_after_survives e headers v :
  headers !! HeaderRetryAfter = Some v →
  let res := (Evaluate e headers).1 in
  Shed res = false → upstream headers res !! HeaderRetryAfter = Some v.
Proof.
  intros Hv res Hshed. pose proof (Evaluate_clean e headers) as Hclean. fold res in Hclean.
  assert (SetHeaders res !! HeaderRetryAfter = None) as Hset.
  { revert Hshed. subst res. clear Hclean. unfold Evaluate.
    destruct (Router.Parse _ _) as [err|info]; [done|].
    destruct (Cascade.Decide _ _ _) as [d ce]. unfold applyDecision.
    destruct (Cascade.Drop d); [done|]. intros _. destruct (negb _ || negb _); [|done].
    cbn [Router.Mutate]. destruct (negb _ && negb _); done. }
  unfold upstream. rewrite lookup_union_r, lookup_foldr_delete by done.
  rewrite decide_False; [done|]. intros Hin%Hclean. unfold governorHeaders in *. set_solver.
Qed.

(** ** Token estimates *)

Lemma positiveHeader_range headers name v :
  positiveHeader headers name = Some v → 1 ≤ v ≤ max_int64.
Proof.
  unfold positiveHeader. destruct (parse_int _) as [w|] eqn:Hw; [|done].
  apply parse_int_range in Hw. destruct (Z.ltb_spec 0 w); [|done]. intros [= <-]. int64_solve.
Qed.

(** [Content-Length] in tokens, rounded up, when the sum does not overflow. *)
Lemma content_tokens n :
  1 ≤ n → n ≤ max_int64 - 3 → (n +! bytesPerToken -! 1) /! bytesPerToken = (n + 3) / 4.
Proof.
  unfold bytesPerToken. intros H1 H2.
  assert ((n +! 4) -! 1 = n + 3) as ->.
  { destruct (decide (n + 4 ≤ max_int64)).
    - rewrite (wrap64_id (n + 4)) by int64_solve. rewrite wrap64_id by int64_solve. lia.
    - assert (n = max_int64 - 3) as -> by lia. by vm_compute. }
  rewrite Z.quot_div_nonneg by lia. apply wrap64_id.
  pose proof (Z.div_pos (n + 3) 4). pose proof (Z.div_le_upper_bound (n + 3) 4 (n + 3)).
  int64_solve.
Qed.

Lemma content_tokens_overflow n :
  max_int64 - 3 < n ≤ max_int64 → (n +! bytesPerToken -! 1) /! bytesPerToken ≤ 0.
Proof.
  intros Hn. assert (n = max_int64 ∨ n = max_int64 - 1 ∨ n = max_int64 - 2) as [->|[->| ->]] by lia;
    by vm_compute.
Qed.

(** C30: the estimate is always between one token and ten million, so no header can
    overflow a bucket. Up to that cap of ten million it covers the tokens that the
    client states and, when the [Content-Length] is at most [MaxInt64 - 3], a quarter
    of the body's bytes, rounded up; with neither header it is the default, capped. *)
Theorem EstimateTokens_bounds headers defaultTokens :
  1 ≤ defaultTokens →
  let est := EstimateTokens headers defaultTokens in
  1 ≤ est ≤ maxTokenEstimate ∧
  (∀ v, positiveHeader headers HeaderPromptTokens = Some v → Z.min v maxTokenEstimate ≤ est) ∧
  (∀ n, positiveHeader headers HeaderContentLength = Some n → n ≤ max_int64 - 3 →
     Z.min ((n + 3) / 4) maxTokenEstimate ≤ est) ∧
  (positiveHeader headers HeaderPromptTokens = None →
   positiveHeader headers HeaderContentLength = None → est = Z.min defaultTokens maxTokenEstimate).
Proof.
  intros Hd. unfold EstimateTokens. cbn zeta.
  destruct (positiveHeader headers HeaderPromptTokens) as [v|] eqn:Hv;
    destruct (positiveHeader headers HeaderContentLength) as [n|] eqn:Hn;
    try apply positiveHeader_range in Hv; try apply positiveHeader_range in Hn;
    try (destruct (decide (n ≤ max_int64 - 3)) as [Hle|Hgt];
         [rewrite content_tokens by lia; pose proof (Z.div_pos (n + 3) 4);
          pose proof (Z.div_le_lower_bound (n + 3) 4 1)
         |pose proof (content_tokens_overflow n)]);
    (match goal with |- context [?e =? 0] => destruct (Z.eqb_spec e 0) end);
    unfold maxTokenEstimate; split_and!; intros; simplify_eq; lia.
Qed.

(** A [Content-Length] within three bytes of [MaxInt64] overflows the rounding
    sum and counts for nothing: without [X-Prompt-Tokens] such a request is
    charged the default estimate, as if it had stated no size, instead of the
    maximum. *)
Theorem huge_content_length_is_ignored headers defaultTokens n :
  positiveHeader headers HeaderPromptTokens = None →
  positiveHeader headers HeaderContentLength = Some n → max_int64 - 3 < n →
  EstimateTokens headers defaultTokens = Z.min defaultTokens maxTokenEstimate.
Proof.
  intros Hv Hn Hbig. unfold EstimateTokens. rewrite Hv, Hn.
  apply positiveHeader_range in Hn. pose proof (content_tokens_overflow n).
  rewrite Z.max_l by lia. done.
Qed.

Lemma EstimateTokens_le headers d : EstimateTokens headers d ≤ TokenBucket.maxTokens.
Proof. unfold EstimateTokens, maxTokenEstimate, TokenBucket.maxTokens. lia. Qed.

(** ** Results *)

(** The four forms of a result, and when each arises. *)
Inductive resultForm (e : Evaluator) (headers : gmap string string) : Result → Prop :=
  | form_bypass res err :
      Router.Parse (header headers HeaderPath) (header headers HeaderAuthority) = inl err →
      Decision res = DecisionBypass → Shed res = false → RouteChanged res = false →
      SetHeaders res !! HeaderPath = None → SetHeaders res !! HeaderAuthority = None →
      resultForm e headers res
  | form_forward res info :
      Router.Parse (header headers HeaderPath) (header headers HeaderAuthority) = inr info →
      Decision res = DecisionForward → Shed res = false → RouteChanged res = false →
      SetHeaders res !! HeaderPath = None → SetHeaders res !! HeaderAuthority = None →
      resultForm e headers res
  | form_reroute res info cs :
      Router.Parse (header headers HeaderPath) (header headers HeaderAuthority) = inr info →
      ParsePriority (header headers HeaderPriority) = PRIORITY_CUSTOM →
      cs ∈ Cascade.cascadeOf (engine e) (header headers HeaderPolicy) →
      Decision res = DecisionReroute → Shed res = false → RouteChanged res = true →
      SetHeaders res !! HeaderPath =
        Some (Router.MutatePath (Some info) (Config.TargetModel cs) (Config.TargetRegion cs)) →
      default (header headers HeaderAuthority) (SetHeaders res !! HeaderAuthority) =
        Router.MutateHost (Some info) (Config.TargetRegion cs) →
      SetHeaders res !! HeaderOriginalPath = Some (header headers HeaderPath) →
      SetHeaders res !! HeaderTargetModel =
        Some (firstNonEmpty (Config.TargetModel cs) (Router.Model info)) →
      SetHeaders res !! HeaderTargetRegion =
        Some (firstNonEmpty (Config.TargetRegion cs) (Router.Region info)) →
      resultForm e headers res
  | form_shed res info :
      Router.Parse (header headers HeaderPath) (header headers HeaderAuthority) = inr info →
      ParsePriority (header headers HeaderPriority) ≠ PRIORITY_CRITICAL →
      Decision res = DecisionShed → Shed res = true → RouteChanged res = false →
      RetryAfterSeconds res = 5 → SetHeaders res !! HeaderRetryAfter = Some "5" →
      SetHeaders res !! HeaderPath = None → SetHeaders res !! HeaderAuthority = None →
      resultForm e headers res.

(** What a decision for the step [cs] makes of the request. *)
Lemma reroute_shape headers info cs d :
  Router.Parse (header headers HeaderPath) (header headers HeaderAuthority) = inr info →
  Cascade.isReroute cs d →
  String.eqb (Config.TargetModel cs) "" && String.eqb (Config.TargetRegion cs) "" = false →
  let res := finish (applyDecision headers info d) in
  Decision res = DecisionReroute ∧ Shed res = false ∧ RouteChanged res = true ∧
  SetHeaders res !! HeaderPath =
    Some (Router.MutatePath (Some info) (Config.TargetModel cs) (Config.TargetRegion cs)) ∧
  default (header headers HeaderAuthority) (SetHeaders res !! HeaderAuthority) =
    Router.MutateHost (Some info) (Config.TargetRegion cs) ∧
  SetHeaders res !! HeaderOriginalPath = Some (header headers HeaderPath) ∧
  SetHeaders res !! HeaderTargetModel =
    Some (firstNonEmpty (Config.TargetModel cs) (Router.Model info)) ∧
  SetHeaders res !! HeaderTargetRegion =
    Some (firstNonEmpty (Config.TargetRegion cs) (Router.Region info)).
Proof.
  intros Hparse [why ->] Hne. unfold applyDecision.
  cbn [Cascade.Drop Cascade.ReplaceModel Cascade.ReplaceRegion Cascade.Reason].
  rewrite <- negb_andb, Hne. cbn [negb Router.Mutate]. set (newPath := Router.MutatePath _ _ _).
  set (newHost := Router.MutateHost _ _).
  pose proof (Router.Parse_inr _ _ _ Hparse) as (_ & Hhost & _).
  destruct (String.eqb_spec newHost "") as [Hempty|Hnempty];
    [|destruct (String.eqb_spec newHost (header headers HeaderAuthority)) as [Hsame|Hdiff]];
    cbn [negb andb]; (split_and!; [done..| |done|done|done]); unfold finish; cbn [SetHeaders Decision];
    fold newHost; rewrite !lookup_insert_ne by done.
  - rewrite lookup_singleton_ne by done. cbn [default]. rewrite Hempty.
    by rewrite <- Hhost, (Router.MutateHost_empty _ _ Hempty).
  - rewrite lookup_singleton_ne by done. cbn [default]. by rewrite Hsame.
  - by rewrite lookup_insert_eq.
Qed.

Lemma reroute_form e headers info cs d :
  Router.Parse (header headers HeaderPath) (header headers HeaderAuthority) = inr info →
  ParsePriority (header headers HeaderPriority) = PRIORITY_CUSTOM →
  cs ∈ Cascade.cascadeOf (engine e) (header headers HeaderPolicy) → Cascade.isReroute cs d →
  resultForm e headers (finish (applyDecision headers info d)).
Proof.
  intros Hparse Hprio Hcs Hd.
  destruct (String.eqb (Config.TargetModel cs) "" && String.eqb (Config.TargetRegion cs) "") eqn:He.
  - destruct Hd as [why ->]. unfold applyDecision.
    cbn [Cascade.Drop Cascade.ReplaceModel Cascade.ReplaceRegion Cascade.Reason].
    rewrite <- negb_andb, He. by apply (form_forward e headers _ info).
  - destruct (reroute_shape headers info cs d Hparse Hd He) as (? & ? & ? & ? & ? & ? & ? & ?).
    by apply (form_reroute e headers _ info cs).
Qed.

Lemma shed_form e headers info d :
  Router.Parse (header headers HeaderPath) (header headers HeaderAuthority) = inr info →
  ParsePriority (header headers HeaderPriority) ≠ PRIORITY_CRITICAL → Cascade.isShed d →
  resultForm e headers (finish (applyDecision headers info d)).
Proof. intros Hparse Hprio [why ->]. by apply (form_shed e headers _ info). Qed.

Lemma admit_form e headers info d :
  Router.Parse (header headers HeaderPath) (header headers HeaderAuthority) = inr info →
  Cascade.isAdmit d → resultForm e headers (finish (applyDecision headers info d)).
Proof. intros Hparse [why ->]. by apply (form_forward e headers _ info). Qed.

Lemma Evaluate_form e headers : resultForm e headers (Evaluate e headers).1.
Proof.
  unfold Evaluate. destruct (Router.Parse _ _) as [err|info] eqn:Hparse.
  { by apply (form_bypass e headers _ err). }
  pose proof (Cascade.Decide_shape (engine e) (Cache.Get (cache e)) (requestOf e headers info))
    as Hshape.
  destruct (Cascade.Decide _ _ _) as [d ce]. simpl in Hshape. simpl fst.
  destruct Hshape as [Hd|[[Hd Hp]|(Hp & cs & Hcs & Hd)]].
  - by apply admit_form.
  - by apply shed_form.
  - by eapply reroute_form.
Qed.


(** Critical requests always go through unmodified: a request labelled critical
    is neither answered with a 429 nor sent to another path, host, model or
    region, whatever its other headers say. *)
Theorem critical_request_goes_through e headers :
  ParsePriority (header headers HeaderPriority) = PRIORITY_CRITICAL →
  let res := (Evaluate e headers).1 in
  Shed res = false ∧ RouteChanged res = false ∧
  SetHeaders res !! HeaderPath = None ∧ SetHeaders res !! HeaderAuthority = None.
Proof. intros Hp res. destruct (Evaluate_form e headers); try done. congruence. Qed.

(** The targets of an engine's cascades can stand in a path. *)
Definition targetsPlain (ce : Cascade.CascadeEngine) : Prop :=
  ∀ name cs, cs ∈ Cascade.cascadeOf ce name →
    Cascade.stepOk cs ∧ Router.plain (Config.TargetModel cs) ∧ Router.plain (Config.TargetRegion cs).

(** The step of a reroute is the one that its decision charged. *)
Lemma Evaluate_reroute e headers :
  Cascade.engineOk (engine e) → Decision (Evaluate e headers).1 = DecisionReroute →
  ∃ info cs d,
    Router.Parse (header headers HeaderPath) (header headers HeaderAuthority) = inr info ∧
    cs ∈ Cascade.cascadeOf (engine e) (header headers HeaderPolicy) ∧ Cascade.isReroute cs d ∧
    (Evaluate e headers).1 = finish (applyDecision headers info d) ∧
    Cascade.engineRel
      (Cascade.chargedTo (Config.TargetRegion cs) (Config.TargetModel cs)
         (EstimateTokens headers (defaultTokens e)))
      (engine e) (engine (Evaluate e headers).2).
Proof.
  intros Hok. unfold Evaluate. destruct (Router.Parse _ _) as [err|info]; [done|].
  set (r := requestOf e headers info). set (snapshot := Cache.Get (cache e)).
  destruct (Cascade.targetKnown (engine e) snapshot r) eqn:Hk;
    [|by rewrite Cascade.Decide_unknown].
  pose proof (Cascade.Decide_outcome (engine e) snapshot r Hok (EstimateTokens_le _ _) Hk) as Ho.
  destruct (Cascade.Decide _ _ _) as [d ce]. cbn [fst snd engine]. destruct Ho as [_ Ho].
  destruct Ho as [? ? _ [why ->] _|? ? _ [why ->] _|d ce' pre cs post _ _ Hcs _ (_ & _ & Hc) Hd
                 |? ? _ _ _ [why ->] _]; intros Hdec; [done|done| |done].
  exists info, cs, d. split_and!; [done| |done|done|exact Hc].
  change (Cascade.Policy r) with (header headers HeaderPolicy) in Hcs. rewrite Hcs.
  apply elem_of_app. right. left.
Qed.

(** C17: a rerouted request reaches the target that was charged for it. There is a
    step of the cascade that the request named such that the bucket of its target (when
    the target has one: it may be known from the snapshot only), and no other, was
    charged the request's estimated tokens, and the new path parses to the step's model
    and region, with the API version, project, publisher, method and query of the
    original request; the headers name the same target and the original path. The
    replica's buckets are in range, and the names in the engine's cascades are not empty
    and have no slash or question mark: a path cannot carry others. *)
Theorem reroute_addresses_target e headers :
  Cascade.engineOk (engine e) → targetsPlain (engine e) →
  let '(res, e') := Evaluate e headers in
  Decision res = DecisionReroute →
  ∃ info cs newPath,
    Router.Parse (header headers HeaderPath) (header headers HeaderAuthority) = inr info ∧
    cs ∈ Cascade.cascadeOf (engine e) (header headers HeaderPolicy) ∧
    Cascade.engineRel
      (Cascade.chargedTo (Config.TargetRegion cs) (Config.TargetModel cs)
         (EstimateTokens headers (defaultTokens e)))
      (engine e) (engine e') ∧
    SetHeaders res !! HeaderPath = Some newPath ∧
    Router.Parse newPath (header headers HeaderAuthority) =
      inr (Router.withOriginalPath
             (Router.retarget info (Config.TargetModel cs) (Config.TargetRegion cs)) newPath) ∧
    SetHeaders res !! HeaderTargetModel = Some (Config.TargetModel cs) ∧
    SetHeaders res !! HeaderTargetRegion = Some (Config.TargetRegion cs) ∧
    SetHeaders res !! HeaderOriginalPath = Some (header headers HeaderPath).
Proof.
  intros Hok Hplain. pose proof (Evaluate_reroute e headers Hok) as Hr.
  destruct (Evaluate e headers) as [res e']. intros Hd.
  destruct (Hr Hd) as (info & cs & d & Hparse & Hcs & Hstep & Hres & Hc). cbn [fst snd] in Hres, Hc.
  destruct (Hplain _ cs Hcs) as ([Hmne Hrne] & Hpm & Hpr). apply String.eqb_neq in Hmne, Hrne.
  destruct (reroute_shape headers info cs d Hparse Hstep) as (_ & _ & _ & Hpath & _ & Horig & Hm & Hreg);
    [by rewrite Hmne|]. rewrite <- Hres in *. unfold firstNonEmpty in Hm, Hreg.
  rewrite Hmne in Hm. rewrite Hrne in Hreg. apply String.eqb_neq in Hmne, Hrne.
  eexists info, cs, _. split_and!; [done|done|exact Hc|exact Hpath|by eapply Router.Parse_retarget|done..].
Qed.

(** Evaluating a request keeps the replica in range. From an engine in range,
    and with any headers, [Evaluate] leaves an engine in range, and requests that
    are not model requests leave it unchanged. *)
Theorem Evaluate_keeps_engine e headers :
  Cascade.engineOk (engine e) →
  Cascade.engineOk (engine (Evaluate e headers).2) ∧
  ((∃ err, Router.Parse (header headers HeaderPath) (header headers HeaderAuthority) = inl err) →
   (Evaluate e headers).2 = e).
Proof.
  intros Hok. unfold Evaluate. destruct (Router.Parse _ _) as [err|info]; [done|].
  pose proof (Cascade.Decide_ok (engine e) (Cache.Get (cache e)) (requestOf e headers info) Hok
                (EstimateTokens_le _ _)) as Hok'.
  destruct (Cascade.Decide _ _ _) as [d ce]. split; [done|]. by intros [err Herr].
Qed.

End results.

(** ** Concrete runs *)

Definition sampleEvaluator : Evaluator := NewEvaluator Cache.NewSnapshotCache Cascade.sampleEngine.

(** 10000 bytes are 2500 tokens, which "eu/flash" cannot pay. *)
Definition sampleHeaders (priority : string) : gmap string string :=
  {[ HeaderPath := "/v1/projects/p/locations/eu/publishers/google/models/flash:generateContent";
     HeaderAuthority := "eu-aiplatform.googleapis.com"; HeaderPriority := priority;
     HeaderPolicy := "Batch"; HeaderContentLength := "10000"; HeaderRetryAfter := "1";
     HeaderDecision := "forged" ]}.

Definition reroutedPath : string :=
  "/v1/projects/p/locations/US/publishers/google/models/flash:generateContent".

Lemma client_retry_after_survives_witness :
  upstream (sampleHeaders "critical") (Evaluate sampleEvaluator (sampleHeaders "critical")).1
    !! HeaderRetryAfter = Some "1".
Proof.
  apply (client_retry_after_survives sampleEvaluator (sampleHeaders "critical") "1");
    [reflexivity|by vm_compute].
Defined.

Lemma EstimateTokens_bounds_witness :
  EstimateTokens (sampleHeaders "") 1000 = 2500 ∧
  1 ≤ EstimateTokens (sampleHeaders "") 1000 ≤ maxTokenEstimate.
Proof.
  split; [by vm_compute|]. apply (EstimateTokens_bounds (sampleHeaders "") 1000). lia.
Defined.

Lemma huge_content_length_is_ignored_witness :
  EstimateTokens {[ HeaderContentLength := "9223372036854775807" ]} 1000 = 1000.
Proof.
  apply (huge_content_length_is_ignored {[ HeaderContentLength := "9223372036854775807" ]} 1000
           max_int64); by vm_compute.
Defined.

Lemma critical_request_goes_through_witness :
  Shed (Evaluate sampleEvaluator (sampleHeaders " Critical")).1 = false.
Proof.
  destruct (critical_request_goes_through sampleEvaluator (sampleHeaders " Critical")) as [Hs _];
    [by vm_compute|exact Hs].
Defined.

Definition plainStep (cs : Config.CascadeStep) : bool :=
  negb (String.eqb (Config.TargetModel cs) "") && negb (String.eqb (Config.TargetRegion cs) "") &&
  negb (has_byte "/" (Config.TargetModel cs +:+ Config.TargetRegion cs)) &&
  negb (has_byte "?" (Config.TargetModel cs +:+ Config.TargetRegion cs)).

Lemma plainStep_ok cs :
  plainStep cs = true →
  Cascade.stepOk cs ∧ Router.plain (Config.TargetModel cs) ∧ Router.plain (Config.TargetRegion cs).
Proof.
  unfold plainStep, Cascade.stepOk, Router.plain. rewrite !has_byte_append.
  rewrite !andb_true_iff, !negb_true_iff, !orb_false_iff, !String.eqb_neq. naive_solver.
Qed.

Lemma samplePlain : targetsPlain Cascade.sampleEngine.
Proof.
  destruct (Cascade.NewCascadeEngineFromConfig_Ok _ _ _ _ _ Cascade.sampleEngine_new)
    as (ce0 & l & Hce0 & _ & ->).
  apply result_bind_Ok in Hce0 as (norm & Hn & [= <-]).
  destruct (Cascade.normalizePolicies_Ok _ _ _ Hn) as (Hinv & _ & _).
  intros name cs. unfold Cascade.cascadeOf. cbn [Cascade.customPolicies].
  destruct (norm !! _) as [p|] eqn:Hp; [|by intros ?%elem_of_nil]. intros Hcs.
  destruct (Hinv _ p Hp) as [He|(raw & policy & Hin & _ & -> & _)]; [by rewrite lookup_empty in He|].
  apply list_elem_of_singleton in Hin as [= -> ->].
  assert (forallb plainStep (Config.Cascade (Cascade.trimPolicy Cascade.samplePolicy)) = true) as Hall
    by (by vm_compute).
  rewrite forallb_forall in Hall. apply plainStep_ok, Hall. by apply list_elem_of_In.
Qed.

(** The step of the policy "Batch" goes to "US", whose bucket pays the 2500 tokens. *)
Lemma reroute_addresses_target_witness :
  SetHeaders (Evaluate sampleEvaluator (sampleHeaders "custom")).1 !! HeaderPath =
    Some reroutedPath ∧
  ∃ cs, Config.TargetRegion cs = "US" ∧
    Cascade.engineRel (Cascade.chargedTo (Config.TargetRegion cs) (Config.TargetModel cs) 2500)
      (engine sampleEvaluator) (engine (Evaluate sampleEvaluator (sampleHeaders "custom")).2) ∧
    ∃ info', Router.Parse reroutedPath "eu-aiplatform.googleapis.com" = inr info' ∧
      Router.Region info' = "US".
Proof.
  assert (SetHeaders (Evaluate sampleEvaluator (sampleHeaders "custom")).1 !! HeaderPath =
    Some reroutedPath) as Hpath by (by vm_compute).
  assert (SetHeaders (Evaluate sampleEvaluator (sampleHeaders "custom")).1 !! HeaderTargetRegion =
    Some "US") as Hus by (by vm_compute).
  assert (Decision (Evaluate sampleEvaluator (sampleHeaders "custom")).1 = DecisionReroute) as Hd
    by (by vm_compute).
  assert (EstimateTokens (sampleHeaders "custom") (defaultTokens sampleEvaluator) = 2500) as Htok
    by (by vm_compute).
  split; [exact Hpath|].
  pose proof (reroute_addresses_target sampleEvaluator (sampleHeaders "custom")
    Cascade.sampleEngine_ok samplePlain) as H. rewrite Htok in H.
  destruct (Evaluate _ _) as [res e']. cbn [fst snd] in *.
  destruct (H Hd) as (info & cs & newPath & _ & _ & Hc & Hpath' & Hparse & _ & Hregion & _).
  rewrite Hpath in Hpath'. injection Hpath' as <-. rewrite Hus in Hregion. injection Hregion as Hregion.
  exists cs. split; [done|]. split; [exact Hc|]. eexists. split; [exact Hparse|]. simpl. by rewrite <- Hregion.
Defined.

Lemma Evaluate_keeps_engine_witness :
  Cascade.engineOk (engine (Evaluate sampleEvaluator (sampleHeaders "custom")).2).
Proof.
  exact (proj1 (Evaluate_keeps_engine sampleEvaluator (sampleHeaders "custom")
                  Cascade.sampleEngine_ok)).
Defined.

End Evaluator.
