(* ===== verification/ExtProc.v ===== *)
(** * The Envoy external processor: [pkg/dataplane/extproc.go]

    One stream per HTTP request: each message of Envoy is answered in order, and
    only the request headers phase is acted on. The generated types of the
    ext_proc protocol appear with the fields that the code reads and writes. *)

From S2P Require Import Prelude GoStrings GoFloat Quota Config Bucket Cascade Evaluator.
From stdpp Require Import options.

Module ExtProc.
Import Evaluator.

(** ** Messages *)

Record HeaderValue := mkHeaderValue { Key : string; Value : string; RawValue : string }.

(** [HttpHeaders]; the inner [HeaderMap] may be nil. *)
Record HttpHeaders := mkHttpHeaders { Headers : option (list HeaderValue) }.

Inductive ProcessingRequest : Type :=
  | RequestHeaders (h : option HttpHeaders)
  | RequestBody
  | RequestTrailers
  | ResponseHeaders
  | ResponseBody
  | ResponseTrailers
  | OtherRequest (type : string).

Inductive AppendAction : Type := OVERWRITE_IF_EXISTS_OR_ADD.

Record HeaderValueOption := mkHeaderValueOption { Header : HeaderValue; Append : AppendAction }.

Inductive ProcessingResponse : Type :=
  | ImmediateResponse (status : Z) (set : list HeaderValueOption) (body details : string)
  | RequestHeadersResponse (set : list HeaderValueOption) (remove : list string)
      (clearRouteCache : bool)
  | RequestBodyResponse
  | RequestTrailersResponse
  | ResponseHeadersResponse
  | ResponseBodyResponse
  | ResponseTrailersResponse.

Definition StatusCode_TooManyRequests : Z := 429.

(** ** Headers *)

Definition newline : string := String (Ascii.ascii_of_nat 10) "".

(** [h.GetHeaders().GetHeaders()], empty when a part is nil. *)
Definition headerList (h : option HttpHeaders) : list HeaderValue :=
  match h ≫= Headers with
  | Some l => l
  | None => []
  end.

Definition headerText (hv : HeaderValue) : string :=
  if String.eqb (Value hv) "" && negb (String.eqb (RawValue hv) "") then RawValue hv else Value hv.

Definition headerMap `{GoUnicode} (h : option HttpHeaders) : gmap string string :=
  foldl (λ out hv, <[to_lower (Key hv) := headerText hv]> out) ∅ (headerList h).

Definition toHeaderOptions (m : gmap string string) : list HeaderValueOption :=
  (λ k, mkHeaderValueOption (mkHeaderValue k "" (default "" (m !! k))) OVERWRITE_IF_EXISTS_OR_ADD)
    <$> Config.sortedKeys m.

(** ** The stream *)

(** The server's evaluator; its engine is mutable. *)
Record ExtProcServer := mkExtProcServer { evaluator : Evaluator }.

Definition NewExtProcServer (e : Evaluator) : ExtProcServer := mkExtProcServer e.

(** What [Recv] returns; [canceled] is [status.Code(err) == codes.Canceled]. *)
Inductive recv : Type :=
  | RecvRequest (req : ProcessingRequest)
  | RecvEOF
  | RecvError (canceled : bool) (err : string).

(** The error that [Process] returns. *)
Inductive processError : Type :=
  | ErrRecv (err : string)
  | ErrSend (err : string)
  | ErrInvalidArgument (msg : string).

Section server.
Context `{GoUnicode} `{GoArch}.

Definition handleRequestHeaders (s : ExtProcServer) (h : option HttpHeaders)
    : ProcessingResponse * ExtProcServer :=
  let '(res, e) := Evaluate (evaluator s) (headerMap h) in
  let s := mkExtProcServer e in
  if Shed res then
    (ImmediateResponse StatusCode_TooManyRequests (toHeaderOptions (SetHeaders res))
       (header (SetHeaders res) HeaderReason +:+ newline) "governor_shed", s)
  else
    (RequestHeadersResponse (toHeaderOptions (SetHeaders res)) (RemoveHeaders res)
       (RouteChanged res), s).

(** The [switch] of [Process]. *)
Definition answer (s : ExtProcServer) (req : ProcessingRequest)
    : (processError + ProcessingResponse) * ExtProcServer :=
  match req with
  | RequestHeaders h => let '(resp, s) := handleRequestHeaders s h in (inr resp, s)
  | RequestBody => (inr RequestBodyResponse, s)
  | RequestTrailers => (inr RequestTrailersResponse, s)
  | ResponseHeaders => (inr ResponseHeadersResponse, s)
  | ResponseBody => (inr ResponseBodyResponse, s)
  | ResponseTrailers => (inr ResponseTrailersResponse, s)
  | OtherRequest t => (inl (ErrInvalidArgument ("unknown ext_proc request type " +:+ t)), s)
  end.

(** The loop of [Process] over what [Recv] returns, each with what [Send] would
    return for the answer. The result is the answers sent and the error returned:
    [None] while the stream is open, [Some None] for nil. *)
Fixpoint Process (s : ExtProcServer) (stream : list (recv * option string))
    : (list ProcessingResponse * option (option processError)) * ExtProcServer :=
  match stream with
  | [] => (([], None), s)
  | (RecvEOF, _) :: _ => (([], Some None), s)
  | (RecvError canceled err, _) :: _ =>
      (([], Some (if canceled then None else Some (ErrRecv err))), s)
  | (RecvRequest req, sent) :: stream =>
      let '(resp, s) := answer s req in
      match resp with
      | inl err => (([], Some (Some err)), s)
      | inr resp =>
          match sent with
          | Some err => (([], Some (Some (ErrSend err))), s)
          | None =>
              let '((resps, err), s) := Process s stream in
              ((resp :: resps, err), s)
          end
      end
  end.

(** ** Properties *)

Lemma toHeaderOptions_keys m :
  (λ o, Key (Header o)) <$> toHeaderOptions m = Config.sortedKeys m.
Proof. unfold toHeaderOptions. rewrite <- list_fmap_compose. apply list_fmap_id. Qed.

(** The header mutations are deterministic and complete: they list every header
    of the map exactly once, with its value, in the order of the keys, whatever
    order the map is visited in. *)
Theorem toHeaderOptions_sorted m :
  let opts := toHeaderOptions m in
  Sorted String.le ((λ o, Key (Header o)) <$> opts) ∧
  NoDup ((λ o, Key (Header o)) <$> opts) ∧
  (∀ k v, m !! k = Some v ↔
     mkHeaderValueOption (mkHeaderValue k "" v) OVERWRITE_IF_EXISTS_OR_ADD ∈ opts).
Proof.
  cbn zeta. rewrite toHeaderOptions_keys. split_and!.
  - apply Sorted_merge_sort. apply _.
  - unfold Config.sortedKeys. rewrite merge_sort_Permutation. apply NoDup_fst_map_to_list.
  - intros k v. unfold toHeaderOptions. rewrite list_elem_of_fmap. split.
    + intros Hk. exists k. rewrite Hk. split; [done|]. apply Config.elem_of_sortedKeys. by exists v.
    + intros (k' & [= -> ->] & [w Hw]%Config.elem_of_sortedKeys). by rewrite Hw.
Qed.

(** A response of the kind that Envoy expects for a request: an immediate response
    only to request headers. *)
Definition answers (req : ProcessingRequest) (resp : ProcessingResponse) : Prop :=
  match req, resp with
  | RequestHeaders _, ImmediateResponse code _ _ details =>
      code = 429 ∧ details = "governor_shed"
  | RequestHeaders _, RequestHeadersResponse _ _ _ => True
  | RequestBody, RequestBodyResponse => True
  | RequestTrailers, RequestTrailersResponse => True
  | ResponseHeaders, ResponseHeadersResponse => True
  | ResponseBody, ResponseBodyResponse => True
  | ResponseTrailers, ResponseTrailersResponse => True
  | _, _ => False
  end.

Lemma answer_answers s req resp s' : answer s req = (inr resp, s') → answers req resp.
Proof.
  destruct req; simpl; try by intros [= <- _].
  unfold handleRequestHeaders. destruct (Evaluate _ _) as [res e]. destruct (Shed res);
    by intros [= <- _].
Qed.

(** The requests of a stream up to where it ends. *)
Fixpoint received (stream : list (recv * option string)) : list ProcessingRequest :=
  match stream with
  | (RecvRequest req, _) :: stream => req :: received stream
  | _ => []
  end.

(** [Process] answers every message of Envoy in order, each with a response of
    its own phase, until the stream ends, a message is of an unknown type, or an
    answer cannot be sent: the answers sent match the first requests received, and
    all of them when the stream ends normally. *)
Theorem Process_answers_in_order s stream :
  let '((resps, err), _) := Process s stream in
  ∃ reqs rest, received stream = reqs ++ rest ∧ Forall2 answers reqs resps ∧
    (err = None ∨ err = Some None → rest = []).
Proof.
  revert s. induction stream as [|[r sent] stream IH]; intros s; cbn [Process].
  { exists [], []. split_and!; [done|constructor|done]. }
  destruct r as [req| |canceled err].
  - destruct (answer s req) as [[err|resp] s'] eqn:Ha.
    { exists [], (received ((RecvRequest req, sent) :: stream)).
      split_and!; [done|constructor|]. by intros [|]. }
    destruct sent as [err|].
    { exists [], (received ((RecvRequest req, Some err) :: stream)).
      split_and!; [done|constructor|]. by intros [|]. }
    specialize (IH s'). destruct (Process s' stream) as [[resps err] s''].
    destruct IH as (reqs & rest & Heq & Hall & Hend). exists (req :: reqs), rest.
    cbn [received]. rewrite Heq. split_and!; [done| |done].
    constructor; [by eapply answer_answers|done].
  - exists [], []. split_and!; [done|constructor|done].
  - exists [], []. split_and!; [done|constructor|done].
Qed.

(** C31: a request is answered with a 429 exactly when the evaluator sheds it, and
    then nothing is forwarded; the answer carries the evaluator's headers, the
    reason as its body and the retry hint. Otherwise Envoy is told to set and
    remove the evaluator's headers, and to route again only after a reroute. *)
Theorem handleRequestHeaders_429 s h :
  let res := (Evaluate (evaluator s) (headerMap h)).1 in
  let resp := (handleRequestHeaders s h).1 in
  (Shed res = true ↔ ∃ set body details, resp = ImmediateResponse 429 set body details) ∧
  (Shed res = true → ∃ body,
     resp = ImmediateResponse 429 (toHeaderOptions (SetHeaders res)) body "governor_shed" ∧
     mkHeaderValueOption (mkHeaderValue HeaderRetryAfter "" "5") OVERWRITE_IF_EXISTS_OR_ADD
       ∈ toHeaderOptions (SetHeaders res)) ∧
  (Shed res = false →
     resp = RequestHeadersResponse (toHeaderOptions (SetHeaders res)) (RemoveHeaders res)
              (RouteChanged res)).
Proof.
  cbn zeta. pose proof (Evaluate_form (evaluator s) (headerMap h)) as Hform.
  unfold handleRequestHeaders. destruct (Evaluate (evaluator s) (headerMap h)) as [res e].
  simpl in *. destruct (Shed res) eqn:Hshed; simpl.
  - split_and!; [|intros _|done]; [split; [intros _|done]; by eexists _, _, _|].
    eexists. split; [done|]. unfold toHeaderOptions. apply list_elem_of_fmap.
    exists HeaderRetryAfter. destruct Hform; try congruence.
    assert (SetHeaders res !! HeaderRetryAfter = Some "5") as Hr by done. rewrite Hr.
    split; [done|]. apply Config.elem_of_sortedKeys. by eexists.
  - split_and!; [|done|done]. split; [done|]. by intros (? & ? & ? & ?).
Qed.

End server.

End ExtProc.
