(* ===== verification/Reporter.v ===== *)
(** * The usage reporter: [pkg/dataplane/reporter.go]

    On every tick a replica sends the demand it has seen to the control plane and
    resizes its limiter to the shares in the answer; after three failed reports in
    a row it falls back to the even split. *)

From S2P Require Import Prelude GoStrings GoFloat Quota Config Bucket Limiter.
From stdpp Require Import options.
Import TokenBucket Limiter.

Module Reporter.

Definition DefaultReportInterval : Z := 10 * second.
Definition fallbackAfterFailures : Z := 3.

(** The struct; the client is an argument of [ReportOnce]. *)
Record UsageReporter := mkUsageReporter {
  limiter : option Limiter;
  clientID : string;
  interval : Z;
  failures : Z
}.

Definition NewUsageReporter (limiter : option Limiter) (clientID : string) (interval : Z)
    : UsageReporter :=
  let interval := if interval <=? 0 then DefaultReportInterval else interval in
  {| limiter := limiter; clientID := clientID; interval := interval; failures := 0 |}.

Record ReportUsageRequest := mkReportUsageRequest {
  ClientId : string;
  Demand : list pb.TargetDemand
}.

(** One report: the order in which the two loops over the limiter's maps run, and
    what the call returns, the shares of the response or an error. *)
Record tick := mkTick {
  drainOrder : list string;
  resetOrder : list string;
  response : result (list pb.TargetShare)
}.

Section reporter.
Context `{GoUnicode} `{GoArch}.

Definition withLimiter (r : UsageReporter) (l : option Limiter) (failures : Z) : UsageReporter :=
  {| limiter := l; clientID := clientID r; interval := interval r; failures := failures |}.

(** [(succeeded, request)] and the reporter afterwards. *)
Definition ReportOnce (r : UsageReporter) (t : tick)
    : (bool * ReportUsageRequest) * UsageReporter :=
  let '(demand, l) := DrainDemand (limiter r) (drainOrder t) in
  let req := mkReportUsageRequest (clientID r) demand in
  match response t with
  | Err _ =>
      let n := failures r +! 1 in
      let l := if n =? fallbackAfterFailures then ResetShares l (resetOrder t) else l in
      ((false, req), withLimiter r l n)
  | Ok shares => ((true, req), withLimiter r (ApplyShares l shares) 0)
  end.

(** The loop of [Run] over ticks: nothing without a limiter. *)
Fixpoint reports (r : UsageReporter) (ticks : list tick)
    : list (bool * ReportUsageRequest) * UsageReporter :=
  match ticks with
  | [] => ([], r)
  | t :: ticks =>
      let '(sent, r) := ReportOnce r t in
      let '(rest, r) := reports r ticks in
      (sent :: rest, r)
  end.

Definition Run (r : UsageReporter) (ticks : list tick)
    : list (bool * ReportUsageRequest) * UsageReporter :=
  match limiter r with
  | None => ([], r)
  | Some _ => reports r ticks
  end.

End reporter.

(** ** Capacities *)

Section capacities.
Context `{GoUnicode} `{GoArch}.

(** The capacity of a target's bucket. *)
Definition capacity (l : Limiter) (k : string) : option (Z * Z) :=
  (λ b, (maxRPM b, maxTPM b)) <$> buckets l !! k.

(** This replica's even share of an allowance. *)
Definition evenSplit (l : Limiter) (k : string) : Z * Z :=
  let a := default (Config.mkModelLimit 0 0) (allowances l !! k) in
  (share (Config.MaxRpm a) (replicas l), share (Config.MaxTpm a) (replicas l)).

(** Its demand-weighted share. *)
Definition weightedSplit (l : Limiter) (k : string) (sh : pb.TargetShare) : Z * Z :=
  let a := default (Config.mkModelLimit 0 0) (allowances l !! k) in
  (fractionOf (Config.MaxRpm a) (pb.RpmFraction sh), fractionOf (Config.MaxTpm a) (pb.TpmFraction sh)).

Definition shareKey (sh : pb.TargetShare) : string := to_lower (trim_space (pb.Share_Target sh)).

(** The last share for a target in a response. *)
Definition lastShare (k : string) (shares : list pb.TargetShare) : option pb.TargetShare :=
  foldl (λ found sh, if decide (shareKey sh = k) then Some sh else found) None shares.

(** What resizing leaves alone. *)
Definition sameSetup (l l' : Limiter) : Prop :=
  allowances l' = allowances l ∧ replicas l' = replicas l ∧ demand l' = demand l ∧
  clock l' = clock l ∧ reservePercent l' = reservePercent l.

Lemma applyShare_caps l sh :
  sameSetup l (applyShare l sh) ∧
  ∀ k, capacity (applyShare l sh) k =
    if decide (shareKey sh = k) then (λ _, weightedSplit l k sh) <$> capacity l k
    else capacity l k.
Proof.
  unfold applyShare, capacity. fold (shareKey sh).
  destruct (buckets l !! shareKey sh) as [b|] eqn:Hb.
  - split; [done|]. intros k. unfold callBucket, resizeTo. simpl.
    destruct (decide (shareKey sh = k)) as [<-|Hne].
    + by rewrite lookup_insert_eq, Hb.
    + by rewrite lookup_insert_ne.
  - split; [done|]. intros k. destruct (decide (shareKey sh = k)) as [<-|]; [by rewrite Hb|done].
Qed.

Lemma resetShare_caps l j :
  sameSetup l (resetShare l j) ∧
  ∀ k, capacity (resetShare l j) k =
    if decide (j = k) then (λ _, evenSplit l k) <$> capacity l k else capacity l k.
Proof.
  unfold resetShare, capacity. destruct (buckets l !! j) as [b|] eqn:Hb.
  - split; [done|]. intros k. unfold callBucket, resizeTo. simpl.
    destruct (decide (j = k)) as [<-|Hne].
    + by rewrite lookup_insert_eq, Hb.
    + by rewrite lookup_insert_ne.
  - split; [done|]. intros k. destruct (decide (j = k)) as [<-|]; [by rewrite Hb|done].
Qed.

Lemma sameSetup_trans l1 l2 l3 : sameSetup l1 l2 → sameSetup l2 l3 → sameSetup l1 l3.
Proof. unfold sameSetup. intuition congruence. Qed.

Lemma ApplyShares_caps l shares :
  let l' := foldl applyShare l shares in
  sameSetup l l' ∧
  ∀ k, capacity l' k =
    match lastShare k shares with
    | Some sh => (λ _, weightedSplit l k sh) <$> capacity l k
    | None => capacity l k
    end.
Proof.
  induction shares as [|sh shares IH] using rev_ind; [done|]. cbn zeta in *.
  rewrite foldl_snoc. destruct IH as [Hsame IH].
  destruct (applyShare_caps (foldl applyShare l shares) sh) as [Hsame' Hcap].
  split; [by eapply sameSetup_trans|]. intros k. rewrite Hcap. unfold lastShare in *.
  rewrite foldl_snoc. destruct (decide (shareKey sh = k)); [|apply IH].
  assert (weightedSplit (foldl applyShare l shares) k sh = weightedSplit l k sh) as ->
    by (unfold weightedSplit; by destruct Hsame as (-> & _)).
  rewrite IH. destruct (foldl _ None shares); [|done]. by destruct (capacity l k).
Qed.

Lemma ResetShares_caps l keys :
  let l' := foldl resetShare l keys in
  sameSetup l l' ∧
  ∀ k, capacity l' k =
    if decide (k ∈ keys) then (λ _, evenSplit l k) <$> capacity l k else capacity l k.
Proof.
  induction keys as [|j keys IH] using rev_ind; [done|]. cbn zeta in *.
  rewrite foldl_snoc. destruct IH as [Hsame IH].
  destruct (resetShare_caps (foldl resetShare l keys) j) as [Hsame' Hcap].
  split; [by eapply sameSetup_trans|]. intros k. rewrite Hcap.
  assert (evenSplit (foldl resetShare l keys) k = evenSplit l k) as ->
    by (unfold evenSplit; by destruct Hsame as (-> & -> & _)).
  rewrite IH. destruct (decide (j = k)) as [->|], (decide (k ∈ keys)),
    (decide (k ∈ keys ++ [_])); try set_solver; by destruct (capacity l k).
Qed.

Lemma drain_setup l keys :
  ∃ d, DrainDemand (Some l) keys =
    ((DrainDemand (Some l) keys).1, Some (withDemand l d)).
Proof.
  unfold DrainDemand. assert (∀ acc l1 d1, l1 = withDemand l d1 → ∃ d,
    (foldl drainOne (acc, l1) keys).2 = withDemand l d) as Hfold.
  { induction keys as [|k keys IH]; intros acc l1 d1 ->; [by exists d1|]. cbn [foldl].
    rewrite drainOne_spec. by eapply IH. }
  destruct (Hfold [] l (demand l)) as [d Hd]; [by destruct l|].
  exists d. destruct (foldl drainOne ([], l) keys) as [out l']. simpl in *. by subst.
Qed.

Lemma capacity_is_Some l k : is_Some (capacity l k) ↔ is_Some (buckets l !! k).
Proof. apply fmap_is_Some. Qed.

(** One failed report. *)
Lemma ReportOnce_failed r t l e :
  limiter r = Some l → response t = Err e → 0 ≤ failures r < max_int64 →
  (∀ k, is_Some (buckets l !! k) → k ∈ resetOrder t) →
  ∃ l', (ReportOnce r t).2 = withLimiter r (Some l') (failures r + 1) ∧
    (ReportOnce r t).1.1 = false ∧
    allowances l' = allowances l ∧ replicas l' = replicas l ∧ dom (buckets l') = dom (buckets l) ∧
    ∀ k, capacity l' k =
      if decide (failures r = 2) then (λ _, evenSplit l k) <$> capacity l k else capacity l k.
Proof.
  intros Hl Hresp Hf Hcover. unfold ReportOnce. rewrite Hl, Hresp.
  destruct (drain_setup l (drainOrder t)) as [d ->]. unfold fallbackAfterFailures.
  rewrite wrap64_id by int64_solve. set (l0 := withDemand l d). simpl ResetShares.
  destruct (decide (failures r = 2)) as [Heq|Hne].
  - rewrite Heq. simpl. destruct (ResetShares_caps l0 (resetOrder t)) as [(Ha & Hr & _) Hcap].
    eexists. split_and!; [done|done|done|done| |].
    + apply set_eq. intros k. rewrite !elem_of_dom, <- !capacity_is_Some, Hcap.
      change (capacity l0 k) with (capacity l k).
      destruct (decide _); [apply fmap_is_Some|done].
    + intros k. rewrite Hcap. change (capacity l0 k) with (capacity l k).
      destruct (decide (k ∈ resetOrder t)) as [|Hk]; [done|]. unfold capacity.
      destruct (buckets l !! k) as [b|] eqn:Hb; [|done]. exfalso. apply Hk, Hcover. rewrite Hb. eauto.
  - destruct (Z.eqb_spec (failures r + 1) 3) as [|_]; [lia|]. by eexists.
Qed.

Definition failed (t : tick) : Prop := ∃ e, response t = Err e.

(** The reset loop visits every bucket. *)
Definition coversBuckets (l : Limiter) (t : tick) : Prop :=
  ∀ k, is_Some (buckets l !! k) → k ∈ resetOrder t.

Lemma reports_failed r l ticks :
  limiter r = Some l → 0 ≤ failures r → failures r + Z.of_nat (length ticks) ≤ max_int64 →
  Forall failed ticks → Forall (coversBuckets l) ticks →
  ∃ l', (reports r ticks).2 = withLimiter r (Some l') (failures r + Z.of_nat (length ticks)) ∧
    ∀ k, capacity l' k =
      if decide (failures r ≤ 2 ∧ 3 ≤ failures r + Z.of_nat (length ticks))
      then (λ _, evenSplit l k) <$> capacity l k else capacity l k.
Proof.
  revert r l. induction ticks as [|t ticks IH]; intros r l Hl Hf Hmax Hfail Hcov.
  { exists l. simpl. rewrite Z.add_0_r. split; [by destruct r; simpl in *; subst|].
    intros k. destruct (decide _) as [Hd|]; [simpl in Hd; lia|done]. }
  apply Forall_cons in Hfail as [[e He] Hfail]. apply Forall_cons in Hcov as [Ht Hcov].
  cbn [length] in *.
  destruct (ReportOnce_failed r t l e Hl He ltac:(lia) Ht)
    as (l1 & Hr1 & _ & Ha & Hrep & Hdom & Hcap).
  cbn [reports]. destruct (ReportOnce r t) as [sent r1]. simpl in Hr1. subst r1.
  destruct (IH (withLimiter r (Some l1) (failures r + 1)) l1) as (l2 & Hr2 & Hcap2);
    [done|simpl; lia|simpl; lia|done| |].
  { eapply Forall_impl; [exact Hcov|]. intros t' Ht' k Hk. apply Ht'.
    apply elem_of_dom. rewrite <- Hdom. by apply elem_of_dom. }
  destruct (reports _ ticks) as [rest r2]. simpl in Hr2. exists l2.
  cbn [fst snd failures withLimiter] in *. split.
  { rewrite Hr2. unfold withLimiter. simpl. f_equal. lia. }
  intros k. rewrite Hcap2, Hcap.
  assert (evenSplit l1 k = evenSplit l k) as -> by (unfold evenSplit; by rewrite Ha, Hrep).
  rewrite Nat2Z.inj_succ. repeat case_decide; try lia; by destruct (capacity l k).
Qed.

(** ** Properties *)

(** C25: a brief outage of the control plane changes nothing and a longer one brings
    every target back to this replica's even split: after fewer than three failed
    reports in a row the capacities are what they were, after three or more they
    are the even shares of the configured allowances. *)
Theorem fallback_after_three r l ticks :
  limiter r = Some l → failures r = 0 → Z.of_nat (length ticks) ≤ max_int64 →
  Forall failed ticks → Forall (coversBuckets l) ticks →
  ∃ l', limiter (reports r ticks).2 = Some l' ∧
    ∀ k, capacity l' k =
      if (3 <=? length ticks)%nat then (λ _, evenSplit l k) <$> capacity l k else capacity l k.
Proof.
  intros Hl Hf Hmax Hfail Hcov.
  destruct (reports_failed r l ticks) as (l' & Hr & Hcap); [done|lia|lia|done|done|].
  exists l'. rewrite Hr. split; [done|]. intros k. rewrite Hcap.
  destruct (Nat.leb_spec 3 (length ticks)); destruct (decide _); try lia; done.
Qed.

(** C33: a successful report sends exactly the demand since the last drain, resets
    the failure count, and sets the capacity of each target in the answer to the
    allowance times the fraction sent for it, the last one if a target comes twice;
    targets that are not in the answer keep their size. *)
Theorem report_applies_shares r l t shares :
  limiter r = Some l → response t = Ok shares → NoDup (drainOrder t) →
  let '((ok, req), r') := ReportOnce r t in
  ok = true ∧ failures r' = 0 ∧
  req = mkReportUsageRequest (clientID r) (mjoin (reportOf l <$> drainOrder t)) ∧
  ∃ l', limiter r' = Some l' ∧
    (∀ k, capacity l' k =
       match lastShare k shares with
       | Some sh => (λ _, weightedSplit l k sh) <$> capacity l k
       | None => capacity l k
       end) ∧
    (∀ k, k ∈ drainOrder t → pendingRequests l' k = 0 ∧ pendingTokens l' k = 0).
Proof.
  intros Hl Hresp Hnd. unfold ReportOnce. rewrite Hl, Hresp.
  pose proof (DrainDemand_spec l (drainOrder t) Hnd) as Hdrain.
  destruct (drain_setup l (drainOrder t)) as [d Hd]. rewrite Hd in Hdrain. rewrite Hd.
  destruct Hdrain as (Hout & l1 & [= <-] & _ & Hzero & _).
  split_and!; [done|done|by rewrite Hout|].
  destruct (ApplyShares_caps (withDemand l d) shares) as [(_ & _ & Hdem & _) Hcap].
  eexists. split_and!; [done|exact Hcap|].
  intros k Hk. unfold pendingRequests, pendingTokens. rewrite Hdem. by apply Hzero.
Qed.

(** One report keeps the limiter in range. *)
Lemma ReportOnce_ok r l t :
  limiter r = Some l → limiterOk l →
  (∀ shares, response t = Ok shares → Forall shareOk shares) →
  ∃ l', limiter (ReportOnce r t).2 = Some l' ∧ limiterOk l'.
Proof.
  intros Hl Hok Ht. unfold ReportOnce. rewrite Hl. destruct (drain_setup l (drainOrder t)) as [d Hd].
  assert (limiterOk (withDemand l d)) as Hok0.
  { assert (limiterOk (foldl drainOne ([], l) (drainOrder t)).2) as Hfold.
    { generalize (@nil pb.TargetDemand). clear -Hok. revert l Hok.
      induction (drainOrder t) as [|k keys IH]; intros l Hok out; [done|]. cbn [foldl].
      pose proof (drainOne_ok out l k Hok). destruct (drainOne (out, l) k). by apply IH. }
    unfold DrainDemand in Hd. destruct (foldl drainOne _ _) as [out l']. by injection Hd as ->. }
  rewrite Hd. destruct (response t) as [shares|e] eqn:Hresp.
  - eexists. split; [done|]. by apply (foldl_keeps _ _ shareOk); auto with governor.
  - destruct (_ =? _); [|by eexists]. eexists. split; [done|].
    apply (foldl_keeps _ _ (λ _, True)); auto with governor. by apply Forall_true.
Qed.

(** Reporting keeps the limiter in range, whatever the control plane answers
    short of NaN. *)
Theorem reports_in_range r l ticks :
  limiter r = Some l → limiterOk l →
  Forall (λ t, ∀ shares, response t = Ok shares → Forall shareOk shares) ticks →
  ∃ l', limiter (reports r ticks).2 = Some l' ∧ limiterOk l'.
Proof.
  intros Hl Hok Hticks. revert r l Hl Hok.
  induction Hticks as [|t ticks Ht _ IH]; intros r l Hl Hok; [by exists l|]. cbn [reports].
  destruct (ReportOnce_ok r l t Hl Hok Ht) as (l1 & Hl1 & Hok1).
  destruct (ReportOnce r t) as [sent r1]. simpl in Hl1.
  destruct (IH r1 l1 Hl1 Hok1) as (l2 & Hl2 & Hok2). destruct (reports r1 ticks). eauto.
Qed.

End capacities.

(** ** Concrete runs *)

Definition sampleReporter : UsageReporter := NewUsageReporter (Some sampleLimiter) "replica-1" 0.

Definition sampleShare : pb.TargetShare :=
  {| pb.Share_Target := "EU/flash"; pb.RpmFraction := f64_const 3 4; pb.TpmFraction := f64_const 1 4 |}.

Definition goodTick : tick := mkTick ["eu/flash"; "us/flash"] [] (Ok [sampleShare]).
Definition badTick : tick := mkTick ["eu/flash"; "us/flash"] ["us/flash"; "eu/flash"] (Err "down").

Lemma sampleBuckets k : is_Some (buckets sampleLimiter !! k) → k ∈ ["us/flash"; "eu/flash"].
Proof.
  intros Hk%elem_of_dom. assert (dom (buckets sampleLimiter) = {["us/flash"; "eu/flash"]}) as Hd
    by (by vm_compute). rewrite Hd in Hk. set_solver.
Qed.

Lemma fallback_after_three_witness :
  ∃ l', limiter (reports sampleReporter [badTick; badTick; badTick]).2 = Some l' ∧
    capacity l' "eu/flash" = Some (30, 3000).
Proof.
  destruct (fallback_after_three sampleReporter sampleLimiter [badTick; badTick; badTick])
    as (l' & Hl' & Hcap); [done|done|by vm_compute| | |].
  - repeat constructor; by eexists.
  - do 3 (apply Forall_cons_2; [exact sampleBuckets|]). apply Forall_nil_2.
  - exists l'. split; [exact Hl'|]. rewrite Hcap. by vm_compute.
Defined.

Lemma report_applies_shares_witness :
  ∃ l', limiter (ReportOnce sampleReporter goodTick).2 = Some l' ∧
    capacity l' "eu/flash" = Some (45, 1500).
Proof.
  pose proof (report_applies_shares sampleReporter sampleLimiter goodTick [sampleShare]) as H.
  destruct (ReportOnce sampleReporter goodTick) as [[ok req] r'].
  destruct H as (_ & _ & _ & l' & Hl' & Hcap & _); [done|done| |].
  - apply (bool_decide_unpack (NoDup _)). by vm_compute.
  - exists l'. split; [exact Hl'|]. rewrite Hcap. by vm_compute.
Defined.

Lemma reports_in_range_witness :
  ∃ l', limiter (reports sampleReporter [goodTick; badTick]).2 = Some l' ∧ limiterOk l'.
Proof.
  apply (reports_in_range sampleReporter sampleLimiter [goodTick; badTick]);
    [done|exact sampleLimiter_ok|].
  constructor; [|constructor; [|constructor]]; intros shares; [|done]. intros [= <-].
  constructor; [|constructor]. by split; vm_compute.
Defined.

End Reporter.
