(* ===== verification/Store.v ===== *)
(** * The snapshot store: [pkg/controlplane/store.go]

    The latest snapshot behind an atomic pointer, and a channel of capacity one
    per subscriber. Subscribers receive while [Save] runs, so the model has a
    consumer for every channel whose receives fall between the steps of [Save]. *)

From S2P Require Import Prelude GoStrings GoFloat Quota.
From stdpp Require Import options.

Module Store.

Notation Snapshot := pb.QuotaSnapshot.

(** A channel made by [Subscribe], with what its consumer has received so far,
    and whether [close] was called and the [sync.Once] has fired. *)
Record channel := mkChannel {
  buf : option Snapshot;
  closed : bool;
  fired : bool;
  got : list Snapshot
}.

Definition newChannel : channel := mkChannel None false false [].

Definition withBuf (ch : channel) (b : option Snapshot) : channel :=
  mkChannel b (closed ch) (fired ch) (got ch).

(** The store; [channels] also holds those no longer subscribed. [panicked] is set
    by a send on, or a second close of, a closed channel. *)
Record InMemoryStore := mkStore {
  snapshot : option Snapshot;
  subscribers : gset nat;
  channels : gmap nat channel;
  panicked : bool
}.

Definition NewInMemoryStore : InMemoryStore := mkStore None ∅ ∅ false.

Definition withChannel (s : InMemoryStore) (id : nat) (ch : channel) : InMemoryStore :=
  mkStore (snapshot s) (subscribers s) (<[id := ch]> (channels s)) (panicked s).

Definition panic (s : InMemoryStore) : InMemoryStore :=
  mkStore (snapshot s) (subscribers s) (channels s) true.

(** ** One subscriber *)

(** [select { case ch <- snap: default: }] on an open channel. *)
Definition selectSend (snap : Snapshot) (ch : channel) : bool * channel :=
  match buf ch with
  | None => (true, withBuf ch (Some snap))
  | Some _ => (false, ch)
  end.

(** [select { case <-ch: default: }]. *)
Definition selectDrain (ch : channel) : channel := withBuf ch None.

(** The consumer receives, if the channel holds anything. *)
Definition consume (ch : channel) : channel :=
  match buf ch with
  | Some snap => mkChannel None (closed ch) (fired ch) (got ch ++ [snap])
  | None => ch
  end.

(** Whether the consumer receives at two points in the loop body of [Save]: before
    the drain and after it. *)
Definition schedule : Type := bool * bool.

Definition pushTo (snap : Snapshot) (sch : schedule) (ch : channel) : channel :=
  let '(sent, ch) := selectSend snap ch in
  if sent : bool then ch
  else
    let ch := if sch.1 then consume ch else ch in
    let ch := selectDrain ch in
    let ch := if sch.2 then consume ch else ch in
    (selectSend snap ch).2.

(** ** Operations *)

(** The first statement of [Save]. *)
Definition saveStore (s : InMemoryStore) (snap : Snapshot) : InMemoryStore :=
  mkStore (Some snap) (subscribers s) (channels s) (panicked s).

Definition pushOne (snap : Snapshot) (s : InMemoryStore) (e : nat * schedule) : InMemoryStore :=
  match channels s !! e.1 with
  | None => s
  | Some ch => if closed ch then panic s else withChannel s e.1 (pushTo snap e.2 ch)
  end.

(** The critical section of [Save]; [visits] is the order of [range] over the
    subscribers, with the schedule of each. *)
Definition savePush (s : InMemoryStore) (snap : Snapshot) (visits : list (nat * schedule))
    : InMemoryStore :=
  foldl (pushOne snap) s visits.

Definition Save (s : InMemoryStore) (snap : option Snapshot) (visits : list (nat * schedule))
    : result unit * InMemoryStore :=
  match snap with
  | None => (Err "cannot save nil snapshot", s)
  | Some snap => (Ok tt, savePush (saveStore s snap) snap visits)
  end.

Definition Get (s : InMemoryStore) : result Snapshot :=
  match snapshot s with
  | None => Err "no quota snapshot available"
  | Some qs => Ok qs
  end.

(** [id] is a fresh channel. *)
Definition Subscribe (s : InMemoryStore) : nat * InMemoryStore :=
  let id := fresh (dom (channels s)) in
  (id, mkStore (snapshot s) ({[id]} ∪ subscribers s) (<[id := newChannel]> (channels s))
         (panicked s)).

(** The function that [Subscribe] returns for [id]. *)
Definition unsubscribe (s : InMemoryStore) (id : nat) : InMemoryStore :=
  match channels s !! id with
  | None => s
  | Some ch =>
      if fired ch then s
      else
        let s := mkStore (snapshot s) (subscribers s ∖ {[id]}) (channels s) (panicked s) in
        if closed ch then panic s
        else withChannel s id (mkChannel (buf ch) true true (got ch))
  end.

Definition receive (s : InMemoryStore) (id : nat) : InMemoryStore :=
  match channels s !! id with
  | Some ch => withChannel s id (consume ch)
  | None => s
  end.

(** ** Runs

    A run with one saver, as the control plane's reconciler: between the first
    statement of [Save], which publishes the snapshot, and its critical section other
    goroutines may call [Get] and [Subscribe], unsubscribe and receive. During the
    critical section the lock keeps subscriptions as they are, [Get] reads what it
    would have read before, and receives are in the schedule, so it is one event. *)

Inductive event : Type :=
  | EStore (snap : Snapshot)
  | EPush (sch : nat → schedule)
  | ESubscribe
  | EUnsubscribe (id : nat)
  | EReceive (id : nat).

(** The store; the snapshots whose [Save] has returned, in order; and the argument of
    the [Save] that is between its two parts. *)
Record run := mkRun {
  quotas : InMemoryStore;
  saved : list Snapshot;
  saving : option Snapshot
}.

Definition withQuotas (r : run) (s : InMemoryStore) : run := mkRun s (saved r) (saving r).

(** Every snapshot that was published. *)
Definition published (r : run) : list Snapshot := saved r ++ option_list (saving r).

Definition visits (s : InMemoryStore) (sch : nat → schedule) : list (nat * schedule) :=
  (λ id, (id, sch id)) <$> elements (subscribers s).

(** What is not enabled changes nothing. *)
Definition apply (r : run) (e : event) : run :=
  match e, saving r with
  | EStore snap, None => mkRun (saveStore (quotas r) snap) (saved r) (Some snap)
  | EPush sch, Some snap =>
      mkRun (savePush (quotas r) snap (visits (quotas r) sch)) (saved r ++ [snap]) None
  | ESubscribe, _ => withQuotas r (Subscribe (quotas r)).2
  | EUnsubscribe id, _ => withQuotas r (unsubscribe (quotas r) id)
  | EReceive id, _ => withQuotas r (receive (quotas r) id)
  | _, _ => r
  end.

Definition newRun : run := mkRun NewInMemoryStore [] None.

(** The newest snapshot that a channel has been given. *)
Definition newest (ch : channel) : option Snapshot :=
  match buf ch with
  | Some snap => Some snap
  | None => last (got ch)
  end.

(** ** Lemmas *)

(** Whatever its consumer does meanwhile, after a push the channel holds the
    snapshot that was pushed, or a receive will have taken it later. *)
Lemma pushTo_newest snap sch ch :
  newest (pushTo snap sch ch) = Some snap ∧ buf (pushTo snap sch ch) = Some snap ∧
  closed (pushTo snap sch ch) = closed ch ∧ fired (pushTo snap sch ch) = fired ch.
Proof.
  unfold pushTo, selectSend, newest. destruct ch as [[old|] c f g]; simpl; [|done].
  destruct sch as [[] []]; done.
Qed.

Lemma consume_newest ch :
  newest (consume ch) = newest ch ∧ closed (consume ch) = closed ch ∧ fired (consume ch) = fired ch.
Proof.
  unfold consume, newest. destruct ch as [[old|] c f g]; simpl; [|done]. by rewrite last_snoc.
Qed.

(** What holds of a store reached by a run. *)
Record storeOk (s : InMemoryStore) : Prop := {
  store_open id : id ∈ subscribers s →
    ∃ ch, channels s !! id = Some ch ∧ closed ch = false ∧ fired ch = false;
  store_fired id ch : channels s !! id = Some ch → closed ch = fired ch;
  store_no_panic : panicked s = false
}.

Lemma savePush_ok snap s visits :
  storeOk s → NoDup visits.*1 → Forall (λ e, e.1 ∈ subscribers s) visits →
  let s' := savePush s snap visits in
  storeOk s' ∧ snapshot s' = snapshot s ∧ subscribers s' = subscribers s ∧
  ∀ id, channels s' !! id =
    if decide (id ∈ visits.*1) then
      match list_find (λ e, e.1 = id) visits with
      | Some (_, e) => pushTo snap e.2 <$> channels s !! id
      | None => None
      end
    else channels s !! id.
Proof.
  unfold savePush. revert s. induction visits as [|[id sch] visits IH]; intros s Hok Hnd Hall.
  { by split_and!. }
  rewrite fmap_cons in Hnd. apply NoDup_cons in Hnd as [Hfresh Hnd].
  apply Forall_cons in Hall as [Hid Hall]. simpl in Hid.
  destruct (store_open s Hok id Hid) as (ch & Hch & Hc & Hf).
  set (s1 := withChannel s id (pushTo snap sch ch)).
  assert (pushOne snap s (id, sch) = s1) as Hs1 by (unfold pushOne; simpl; by rewrite Hch, Hc).
  cbn [foldl]. rewrite Hs1.
  pose proof (pushTo_newest snap sch ch) as (_ & _ & Hc' & Hf').
  assert (storeOk s1) as Hok1.
  { destruct Hok as [Hopen Hfired Hp]. constructor; simpl; [| |done].
    - intros j Hj. destruct (decide (id = j)) as [<-|Hne].
      + rewrite lookup_insert_eq. eexists. split; [done|]. by rewrite Hc', Hf'.
      + rewrite lookup_insert_ne by done. by apply Hopen.
    - intros j ch' Hj. destruct (decide (id = j)) as [<-|Hne].
      + rewrite lookup_insert_eq in Hj. injection Hj as <-. simpl. by rewrite Hc', Hf', Hc, Hf.
      + rewrite lookup_insert_ne in Hj by done. by eapply Hfired. }
  destruct (IH s1 Hok1 Hnd Hall) as (Hok2 & Hs & Hsub & Hch2).
  split; [exact Hok2|split; [exact Hs|split; [exact Hsub|]]].
  intros j. rewrite Hch2. simpl channels. simpl fmap.
  destruct (decide (id = j)) as [<-|Hne].
  - rewrite decide_False by done. rewrite decide_True by set_solver.
    cbn [list_find]. rewrite decide_True by done. by rewrite lookup_insert_eq, Hch.
  - rewrite lookup_insert_ne by done. cbn [list_find]. rewrite (decide_False (P := id = j)) by done.
    destruct (decide (j ∈ visits.*1)).
    + rewrite decide_True by set_solver. by destruct (list_find _ visits) as [[]|].
    + by rewrite decide_False by set_solver.
Qed.

(** The newest snapshot that any subscriber has been given is [base]. *)
Definition current (base : option Snapshot) (s : InMemoryStore) : Prop :=
  ∀ id ch snap, id ∈ subscribers s → channels s !! id = Some ch → newest ch = Some snap →
    base = Some snap.

(** What holds of a run: the store has the last snapshot that was published, and no
    subscriber an older one than the last that was saved. *)
Record runOk (r : run) : Prop := {
  run_store : storeOk (quotas r);
  run_snapshot : snapshot (quotas r) = last (published r);
  run_current : current (last (saved r)) (quotas r)
}.

(** Who read [first] from the store, and was given nothing since, has not missed a
    save that has returned. *)
Definition nothingSince (first : option Snapshot) (id : nat) (r : run) : Prop :=
  is_Some (channels (quotas r) !! id) ∧
  (id ∈ subscribers (quotas r) → ∀ ch, channels (quotas r) !! id = Some ch → newest ch = None →
   first = last (saved r) ∨ (is_Some (saving r) ∧ first = saving r)).

Lemma fst_elements (s : gset nat) (sch : nat → schedule) :
  ((λ id, (id, sch id)) <$> elements s).*1 = elements s.
Proof. rewrite <- list_fmap_compose. apply list_fmap_id. Qed.

(** What the critical section makes of a subscriber's channel. *)
Lemma push_spec s snap sch :
  storeOk s →
  let s' := savePush s snap (visits s sch) in
  storeOk s' ∧ snapshot s' = snapshot s ∧ subscribers s' = subscribers s ∧
  (∀ id, id ∉ subscribers s → channels s' !! id = channels s !! id) ∧
  (∀ id, id ∈ subscribers s → channels s' !! id = pushTo snap (sch id) <$> channels s !! id).
Proof.
  intros Hok. unfold visits.
  destruct (savePush_ok snap s ((λ id, (id, sch id)) <$> elements (subscribers s)))
    as (Hok' & Hs & Hsub & Hch).
  - done.
  - rewrite fst_elements. apply NoDup_elements.
  - apply Forall_fmap, Forall_forall. intros id Hid. by apply elem_of_elements.
  - split; [exact Hok'|split; [exact Hs|split; [exact Hsub|]]]. rewrite fst_elements in Hch.
    split; intros id Hid; rewrite Hch.
    + by rewrite decide_False by (by rewrite elem_of_elements).
    + rewrite decide_True by (by rewrite elem_of_elements).
      destruct (list_find _ _) as [[i [j c]]|] eqn:Hfind.
      * apply list_find_Some in Hfind as (Hi & Hj & _). simpl in Hj. subst j.
        apply list_lookup_fmap_Some in Hi as (j & Heq & _). by injection Heq as -> ->.
      * exfalso. apply list_find_None in Hfind. rewrite Forall_forall in Hfind.
        apply (Hfind (id, sch id)); [|done]. apply list_elem_of_fmap. exists id.
        split; [done|]. by apply elem_of_elements.
Qed.

(** After it, every subscriber holds the snapshot. *)
Lemma push_holds s snap sch id :
  storeOk s → id ∈ subscribers s →
  ∃ ch, channels (savePush s snap (visits s sch)) !! id = Some ch ∧ buf ch = Some snap.
Proof.
  intros Hok Hid. destruct (push_spec s snap sch Hok) as (_ & _ & _ & _ & Hin). rewrite Hin by done.
  destruct (store_open s Hok id Hid) as (ch & -> & _). eexists. split; [done|]. apply pushTo_newest.
Qed.

(** [Save] is its two parts. *)
Lemma apply_Save s h snap sch :
  apply (apply (mkRun s h None) (EStore snap)) (EPush sch) =
    mkRun (Save s (Some snap) (visits s sch)).2 (h ++ [snap]) None.
Proof. reflexivity. Qed.

Lemma subscribe_ok s : storeOk s → storeOk (Subscribe s).2 ∧
  ∀ base, current base s → current base (Subscribe s).2.
Proof.
  intros [Hopen Hfired Hp]. unfold Subscribe. cbn [snd].
  pose proof (is_fresh (dom (channels s))) as Hfresh.
  set (id := fresh (dom (channels s))) in *. apply not_elem_of_dom in Hfresh.
  split; [constructor; simpl; [| |done]|].
  - intros j Hj. destruct (decide (id = j)) as [<-|Hne].
    + rewrite lookup_insert_eq. by eexists.
    + rewrite lookup_insert_ne by done. apply Hopen. set_solver.
  - intros j ch Hj. destruct (decide (id = j)) as [<-|Hne].
    + rewrite lookup_insert_eq in Hj. by injection Hj as <-.
    + rewrite lookup_insert_ne in Hj by done. by eapply Hfired.
  - intros base Hcur j ch v Hj Hc Hv. simpl in *. destruct (decide (id = j)) as [<-|Hne].
    + rewrite lookup_insert_eq in Hc. by injection Hc as <-.
    + rewrite lookup_insert_ne in Hc by done. eapply Hcur; [|done..]. set_solver.
Qed.

Lemma unsubscribe_ok s id : storeOk s → storeOk (unsubscribe s id) ∧
  ∀ base, current base s → current base (unsubscribe s id).
Proof.
  intros Hok. unfold unsubscribe. destruct (channels s !! id) as [ch|] eqn:Hch; [|done].
  destruct (fired ch) eqn:Hf; [done|]. rewrite (store_fired s Hok id ch Hch), Hf.
  destruct Hok as [Hopen Hfired Hp]. split; [constructor; simpl; [| |done]|].
  - intros j Hj. rewrite lookup_insert_ne by set_solver. apply Hopen. set_solver.
  - intros j ch' Hj. destruct (decide (id = j)) as [<-|Hne].
    + rewrite lookup_insert_eq in Hj. by injection Hj as <-.
    + rewrite lookup_insert_ne in Hj by done. by eapply Hfired.
  - intros base Hcur j ch' v Hj Hc Hv. simpl in *. rewrite lookup_insert_ne in Hc by set_solver.
    eapply Hcur; [|done..]. set_solver.
Qed.

Lemma receive_ok s id : storeOk s → storeOk (receive s id) ∧
  ∀ base, current base s → current base (receive s id).
Proof.
  intros Hok. unfold receive. destruct (channels s !! id) as [ch|] eqn:Hch; [|done].
  pose proof (consume_newest ch) as (Hn & Hc & Hf). destruct Hok as [Hopen Hfired Hp].
  split; [constructor; simpl; [| |done]|].
  - intros j Hj. destruct (Hopen j Hj) as (chj & Hcj & ?). destruct (decide (id = j)) as [<-|Hne].
    + rewrite lookup_insert_eq. eexists. split; [done|]. rewrite Hc, Hf.
      rewrite Hch in Hcj. by injection Hcj as ->.
    + rewrite lookup_insert_ne by done. by exists chj.
  - intros j ch' Hj. destruct (decide (id = j)) as [<-|Hne].
    + rewrite lookup_insert_eq in Hj. injection Hj as <-. rewrite Hc, Hf. by eapply Hfired.
    + rewrite lookup_insert_ne in Hj by done. by eapply Hfired.
  - intros base Hcur j ch' v Hj Hc' Hv. simpl in *. destruct (decide (id = j)) as [<-|Hne].
    + rewrite lookup_insert_eq in Hc'. injection Hc' as <-. rewrite Hn in Hv. by eapply Hcur.
    + rewrite lookup_insert_ne in Hc' by done. by eapply Hcur.
Qed.

Lemma snapshot_kept s id :
  snapshot (Subscribe s).2 = snapshot s ∧ snapshot (unsubscribe s id) = snapshot s ∧
  snapshot (receive s id) = snapshot s.
Proof.
  unfold unsubscribe, receive. split_and!; [done| |by destruct (channels s !! id)].
  destruct (channels s !! id) as [ch|]; [|done]. destruct (fired ch); [done|]. by destruct (closed ch).
Qed.

Lemma current_push s snap sch base :
  storeOk s → current base s → current (Some snap) (savePush s snap (visits s sch)).
Proof.
  intros Hok Hcur id ch v Hid Hc Hv. destruct (push_spec s snap sch Hok) as (_ & _ & Hsub & _).
  rewrite Hsub in Hid. destruct (push_holds s snap sch id Hok Hid) as (ch' & Hc' & Hb).
  rewrite Hc in Hc'. injection Hc' as <-. unfold newest in Hv. by rewrite Hb in Hv.
Qed.

Lemma apply_ok r e : runOk r → runOk (apply r e).
Proof.
  intros Hr. destruct r as [s h pending], Hr as [Hok Hs Hcur]. unfold published in *.
  cbn [quotas saved saving] in *.
  destruct e as [snap|sch| |id|id]; cbn [apply saving quotas saved withQuotas].
  - destruct pending; [by constructor|]. constructor; cbn [quotas saved saving published].
    + destruct Hok. by constructor.
    + unfold published. simpl. by rewrite last_snoc.
    + exact Hcur.
  - destruct pending as [snap|]; [|by constructor].
    destruct (push_spec s snap sch Hok) as (Hok' & Hs' & _).
    constructor; cbn [quotas saved saving]; [done| |].
    + unfold published. simpl. rewrite app_nil_r. by rewrite Hs'.
    + rewrite last_snoc. by eapply current_push.
  - destruct (subscribe_ok s Hok) as [? Hc]. constructor; [done|done|by apply Hc].
  - destruct (unsubscribe_ok s id Hok) as [? Hc], (snapshot_kept s id) as (_ & Hsn & _).
    constructor; [done|unfold published; simpl; by rewrite Hsn|by apply Hc].
  - destruct (receive_ok s id Hok) as [? Hc], (snapshot_kept s id) as (_ & _ & Hsn).
    constructor; [done|unfold published; simpl; by rewrite Hsn|by apply Hc].
Qed.

Lemma apply_nothingSince r e first id :
  runOk r → nothingSince first id r → nothingSince first id (apply r e).
Proof.
  intros [Hok _ _] [[ch0 Hch0] Hsince]. destruct r as [s h pending]. unfold nothingSince.
  cbn [quotas saved saving] in *.
  destruct e as [snap|sch| |j|j]; cbn [apply saving quotas saved withQuotas].
  - destruct pending; [split; [by eexists|done]|]. cbn [quotas saved saving]. split; [by eexists|].
    intros Hid ch Hch Hn. destruct (Hsince Hid ch Hch Hn) as [?|[[? ?] _]]; [by left|done].
  - destruct pending as [snap|]; [|split; [by eexists|done]]. cbn [quotas saved saving].
    destruct (push_spec s snap sch Hok) as (_ & _ & Hsub & Hout & _). rewrite Hsub.
    destruct (decide (id ∈ subscribers s)) as [Hid|Hid].
    + destruct (push_holds s snap sch id Hok Hid) as (ch & Hch & Hb). split; [by eexists|].
      intros _ ch' Hch' Hn. rewrite Hch in Hch'. injection Hch' as <-. unfold newest in Hn. by rewrite Hb in Hn.
    + split; [rewrite Hout by done; by eexists|]. by intros Hid'.
  - pose proof (is_fresh (dom (channels s))) as Hfresh.
    apply not_elem_of_dom in Hfresh. assert (fresh (dom (channels s)) ≠ id) as Hne by congruence.
    split; simpl; rewrite lookup_insert_ne by done; [by eexists|].
    intros Hid. apply Hsince. set_solver.
  - unfold unsubscribe. destruct (channels s !! j) as [ch|] eqn:Hch;
      [|by split; [eexists|]]. destruct (fired ch) eqn:Hf; [by split; [eexists|]|].
    rewrite (store_fired s Hok j ch Hch), Hf. split; simpl.
    + destruct (decide (j = id)) as [->|Hne]; [rewrite lookup_insert_eq; by eexists|].
      rewrite lookup_insert_ne by done. by eexists.
    + intros Hid. rewrite lookup_insert_ne by set_solver. apply Hsince. set_solver.
  - unfold receive. destruct (channels s !! j) as [ch|] eqn:Hch;
      [|by split; [eexists|]]. pose proof (consume_newest ch) as (Hn & _). split; simpl.
    + destruct (decide (j = id)) as [->|Hne]; [rewrite lookup_insert_eq; by eexists|].
      rewrite lookup_insert_ne by done. by eexists.
    + intros Hid. destruct (decide (j = id)) as [->|Hne].
      * rewrite lookup_insert_eq. intros ch' [= <-]. rewrite Hn. by apply Hsince.
      * rewrite lookup_insert_ne by done. by apply Hsince.
Qed.

#[export] Hint Resolve apply_ok apply_nothingSince : governor.

Lemma runs_ok r events : runOk r → runOk (foldl apply r events).
Proof. revert r. induction events as [|e events IH]; intros r Hr; [done|]. apply IH. auto with governor. Qed.

Lemma newRun_ok : runOk newRun.
Proof. constructor; [constructor; simpl; [set_solver|done|done]|done|]. intros id ch v Hid. set_solver. Qed.

(** Only the saver's own steps end the state between the two parts of a [Save]. *)
Definition noSave (e : event) : Prop :=
  match e with EStore _ | EPush _ => False | _ => True end.

Lemma noSave_saving r events :
  Forall noSave events →
  saving (foldl apply r events) = saving r ∧ saved (foldl apply r events) = saved r.
Proof.
  intros Hall. revert r. induction Hall as [|e events He _ IH]; intros r; [done|]. cbn [foldl].
  destruct (IH (apply r e)) as [-> ->]. by destruct e.
Qed.

(** ** The interface

    What the reconciler uses of a store: an operation that saves, beside which
    other goroutines act as [beside] says, and one that reads. *)

Class SnapshotStore (S : Type) := {
  beside : Type;
  save : S → option Snapshot → beside → result unit * S;
  get : S → result Snapshot
}.

(** What is saved is what is read next; a nil snapshot is refused and changes
    nothing. *)
Class SnapshotStoreLaws (S : Type) `{SnapshotStore S} : Prop := {
  save_snapshot s snap (b : beside) : ∃ s', save s (Some snap) b = (Ok tt, s') ∧ get s' = Ok snap;
  save_nil s (b : beside) : ∃ e, save s None b = (Err e, s)
}.

#[export] Instance InMemoryStore_store : SnapshotStore InMemoryStore := {
  beside := list (nat * schedule);
  save := Save;
  get := Get
}.

Lemma savePush_snapshot snap s sends : snapshot (savePush s snap sends) = snapshot s.
Proof.
  unfold savePush. revert s. induction sends as [|e sends IH]; intros s; [done|]. simpl.
  rewrite IH. unfold pushOne. destruct (channels s !! e.1) as [ch|]; [|done]. by destruct (closed ch).
Qed.

#[export] Instance InMemoryStore_laws : SnapshotStoreLaws InMemoryStore.
Proof.
  split.
  - intros s snap sends. eexists. split; [done|]. simpl. unfold Get. by rewrite savePush_snapshot.
  - intros s sends. by eexists.
Qed.

(** ** Properties *)

(** C19: [Save] never blocks on a slow subscriber and never leaves it behind. In any
    run with one saver, however subscribers come, go and receive before, between the
    publication of the snapshot and the pushes, and while those are going on, a [Save]
    puts its snapshot into the channel of everyone who is subscribed at the pushes,
    dropping an older one that was not received, and the store holds it; whenever no
    save is under way, the newest snapshot that a subscriber has been given is the
    store's; and no send on a closed channel and no double close happens. *)
Theorem Save_reaches_subscribers events snap between sch :
  let r := foldl apply newRun events in
  let during := foldl apply (apply r (EStore snap)) between in
  let r' := apply during (EPush sch) in
  Forall noSave between →
  panicked (quotas r) = false ∧ panicked (quotas during) = false ∧
  (saving r = None →
     current (snapshot (quotas r)) (quotas r) ∧ Get (quotas r') = Ok snap ∧ panicked (quotas r') = false ∧
     subscribers (quotas r') = subscribers (quotas during) ∧
     (∀ id, id ∈ subscribers (quotas r') →
        ∃ ch, channels (quotas r') !! id = Some ch ∧ buf ch = Some snap) ∧
     apply (apply r (EStore snap)) (EPush sch) =
       mkRun (Save (quotas r) (Some snap) (visits (quotas r) sch)).2 (saved r ++ [snap]) None).
Proof.
  intros r during r' Hbetween.
  assert (runOk r) as Hr by apply runs_ok, newRun_ok.
  assert (runOk during) as Hd by (by apply runs_ok, apply_ok).
  assert (runOk r') as Hr' by (by apply apply_ok).
  split; [apply store_no_panic, Hr|]. split; [apply store_no_panic, Hd|]. intros Hnone.
  destruct (noSave_saving (apply r (EStore snap)) between Hbetween) as [Hsaving Hsaved].
  fold during in Hsaving, Hsaved. cbn [apply] in Hsaving, Hsaved. rewrite Hnone in Hsaving, Hsaved.
  cbn [saving saved] in Hsaving, Hsaved.
  assert (r' = mkRun (savePush (quotas during) snap (visits (quotas during) sch)) (saved r ++ [snap]) None)
    as Heq by (unfold r'; cbn [apply]; by rewrite Hsaving, Hsaved).
  destruct (push_spec (quotas during) snap sch (run_store _ Hd)) as (_ & _ & Hsub & _).
  split_and!.
  - destruct Hr as [_ Hs Hcur]. unfold published in Hs. rewrite Hnone in Hs. simpl in Hs.
    rewrite app_nil_r in Hs. by rewrite Hs.
  - unfold Get. rewrite (run_snapshot _ Hr'). rewrite Heq. unfold published. simpl.
    by rewrite app_nil_r, last_snoc.
  - apply store_no_panic, Hr'.
  - by rewrite Heq.
  - rewrite Heq. cbn [quotas]. rewrite Hsub. intros id Hid. apply push_holds; [apply Hd|done].
  - destruct r as [s h pending]. simpl in Hnone. subst pending. apply apply_Save.
Qed.

(** A subscriber that comes between the two parts and another that was there: the first
    has not received when the pushes come. *)
Lemma Save_reaches_subscribers_witness :
  let snap t := pb.mkQuotaSnapshot None None (Some t) in
  let r := foldl apply newRun [ESubscribe; EStore (snap 1); EPush (λ _, (false, false))] in
  let r' := apply (foldl apply (apply r (EStore (snap 2))) [ESubscribe; EReceive 7]) (EPush (λ _, (false, false))) in
  size (subscribers (quotas r')) = 2%nat ∧
  ∀ id, id ∈ subscribers (quotas r') →
    ∃ ch, channels (quotas r') !! id = Some ch ∧ buf ch = Some (snap 2).
Proof.
  cbn zeta. split; [by vm_compute|].
  apply (Save_reaches_subscribers [ESubscribe; EStore _; EPush (λ _, (false, false))] _
    [ESubscribe; EReceive 7] (λ _, (false, false))); [by repeat constructor|reflexivity].
Defined.

(** Two calls of [Save] whose first statements run in one order and whose critical
    sections in the other. *)
Definition overlappingSaves (s : InMemoryStore) (a b : Snapshot) : InMemoryStore :=
  let visits := (λ id, (id, (false, false))) <$> elements (subscribers s) in
  savePush (savePush (saveStore (saveStore s a) b) b visits) a visits.

(** Overlapping saves can leave a subscriber with the older snapshot: the store
    then holds one snapshot and the subscriber is given the other last, and keeps
    it until the next save. *)
Theorem overlapping_saves_go_stale a b :
  let s := overlappingSaves (Subscribe NewInMemoryStore).2 a b in
  Get s = Ok b ∧
  ∃ id ch, id ∈ subscribers s ∧ channels s !! id = Some ch ∧ newest ch = Some a.
Proof. split; [done|]. exists 0%nat. eexists. split_and!; [by vm_compute|reflexivity|done]. Qed.

End Store.
