(* ===== verification/Shares.v ===== *)
(** * Demand-weighted shares: [pkg/controlplane/shares.go]

    The control plane's record of the demand of each data plane replica, and the
    share of every allowance that a replica gets in answer to its report. *)

From S2P Require Import Prelude GoStrings GoFloat Quota Config Bucket Limiter.
From stdpp Require Import options.

Module Shares.

Definition DefaultShareTTL : Z := 30 * second.
Definition DefaultShareFloor : float64 := f64_const 1 10.
Definition demandSmoothing : float64 := f64_const 1 2.

Record replicaDemand := mkReplicaDemand {
  lastSeen : Time;
  requests : gmap string float64;
  tokens : gmap string float64
}.

(** The clock is an argument of [Report]. *)
Record ShareTracker := mkShareTracker {
  replicas : gmap string replicaDemand;
  ttl : Z;
  floor : float64
}.

Definition NewShareTracker : ShareTracker :=
  {| replicas := ∅; ttl := DefaultShareTTL; floor := DefaultShareFloor |}.

Definition withReplicas (t : ShareTracker) (m : gmap string replicaDemand) : ShareTracker :=
  {| replicas := m; ttl := ttl t; floor := floor t |}.

Definition wrap32 (z : Z) : Z := (z + 2 ^ 31) mod 2 ^ 32 - 2 ^ 31.

(** [m[k]]: zero when missing. *)
Definition value (m : gmap string float64) (k : string) : float64 := default f64_zero (m !! k).

(** The first loop of [Report]: replicas other than the caller that have not been
    seen for longer than the TTL go. *)
Definition expire (t : ShareTracker) (clientID : string) (now : Time) : gmap string replicaDemand :=
  filter (λ e, e.1 = clientID ∨ time_sub now (lastSeen e.2) ≤ ttl t) (replicas t).

(** [smooth]: the map [avg] after its two loops. The loops treat every key on its
    own, so the order of [range] does not matter. *)
Definition smoothed (avg : gmap string float64) (first : bool) (k : string) (v : float64) : float64 :=
  if first then v
  else f64_add (f64_mul demandSmoothing v) (f64_mul (f64_sub f64_one demandSmoothing) (value avg k)).

Definition decayed (latest : gmap string float64) (first : bool) (k : string) (a : float64) : float64 :=
  match latest !! k with
  | None => if first then a else f64_mul a (f64_sub f64_one demandSmoothing)
  | Some _ => a
  end.

Definition smooth (avg latest : gmap string float64) (first : bool) : gmap string float64 :=
  let avg := map_imap (λ k v, Some (smoothed avg first k v)) latest ∪ avg in
  map_imap (λ k a, Some (decayed latest first k a)) avg.

(** The metric that [fraction] is given. *)
Inductive metric : Type := Requests | Tokens.

Definition metricOf (m : metric) (r : replicaDemand) : gmap string float64 :=
  match m with Requests => requests r | Tokens => tokens r end.

(** [order] lists the replicas in the order of [range]: floating-point sums depend
    on it. *)
Definition fraction (t : ShareTracker) (clientID target : string) (m : metric)
    (order : list string) : float64 :=
  let n := f64_of_Z (Z.of_nat (size (replicas t))) in
  if f64_eqb n f64_zero then f64_one
  else
    let demandOf id := match replicas t !! id with
                       | Some r => value (metricOf m r) target
                       | None => f64_zero
                 end in
    let total := foldl (λ total id, f64_add total (demandOf id)) f64_zero order in
    if f64_leb total f64_zero then f64_div f64_one n
    else f64_add (f64_div (floor t) n)
                 (f64_div (f64_mul (f64_sub f64_one (floor t)) (demandOf clientID)) total).

Section tracker.
Context `{GoUnicode}.

(** The loop over the reported demand: [(latestReq, latestTok)]. *)
Definition addDemand (acc : gmap string float64 * gmap string float64)
    (d : option pb.TargetDemand) : gmap string float64 * gmap string float64 :=
  match d with
  | None => acc
  | Some d =>
      let key := to_lower (trim_space (pb.Demand_Target d)) in
      if String.eqb key "" then acc
      else
        (<[key := f64_add (value acc.1 key) (f64_of_Z (Z.max (pb.Requests d) 0))]> acc.1,
         <[key := f64_add (value acc.2 key) (f64_of_Z (Z.max (pb.Tokens d) 0))]> acc.2)
  end.

(** The sorted keys that any replica has a metric for. *)
Definition targetsOf (m : gmap string replicaDemand) : gset string :=
  ⋃ ((λ e, dom (requests e.2) ∪ dom (tokens e.2)) <$> map_to_list m).

Definition sortedTargets (m : gmap string replicaDemand) : list string :=
  merge_sort String.le (elements (targetsOf m)).

(** [now] is the clock's reading and [visit] the order of [range] in the call of
    [fraction] for a target and a metric. *)
Definition Report (t : ShareTracker) (clientID : string) (demand : list (option pb.TargetDemand))
    (now : Time) (visit : string → metric → list string)
    : result (list pb.TargetShare * Z) * ShareTracker :=
  let clientID := trim_space clientID in
  if String.eqb clientID "" then (Err "client_id cannot be empty", t)
  else
    let live := expire t clientID now in
    let '(r, ok) :=
      match live !! clientID with
      | Some r => (r, true)
      | None => (mkReplicaDemand 0 ∅ ∅, false)
      end in
    let '(latestReq, latestTok) := foldl addDemand (∅, ∅) demand in
    let r := mkReplicaDemand now (smooth (requests r) latestReq (negb ok))
                             (smooth (tokens r) latestTok (negb ok)) in
    let t := withReplicas t (<[clientID := r]> live) in
    let shares :=
      (λ k, pb.mkTargetShare k (fraction t clientID k Requests (visit k Requests))
                               (fraction t clientID k Tokens (visit k Tokens)))
        <$> sortedTargets (replicas t) in
    (Ok (shares, wrap32 (Z.of_nat (size (replicas t)))), t).

End tracker.

(** ** Lemmas *)

Lemma lookup_smooth avg latest first k :
  smooth avg latest first !! k =
    match latest !! k with
    | Some v => Some (smoothed avg first k v)
    | None => (λ a, if first then a else f64_mul a (f64_sub f64_one demandSmoothing)) <$> avg !! k
    end.
Proof.
  unfold smooth. rewrite map_lookup_imap, lookup_union, map_lookup_imap. unfold decayed.
  by destruct (latest !! k) as [v|] eqn:Hl, (avg !! k) as [a|]; simpl; rewrite ?Hl.
Qed.

Lemma dom_smooth avg latest first : dom (smooth avg latest first) = dom latest ∪ dom avg.
Proof.
  apply set_eq. intros k. rewrite elem_of_union, !elem_of_dom, lookup_smooth.
  destruct (latest !! k); simpl.
  - split; [by left|by eexists].
  - rewrite fmap_is_Some. split; [by right|]. by intros [[? [=]]|?].
Qed.

Lemma elem_of_targetsOf m k :
  k ∈ targetsOf m ↔ ∃ id r, m !! id = Some r ∧ (k ∈ dom (requests r) ∨ k ∈ dom (tokens r)).
Proof.
  unfold targetsOf. rewrite elem_of_union_list. setoid_rewrite list_elem_of_fmap. split.
  - intros (X & ([id r] & -> & Hin%elem_of_map_to_list) & Hk%elem_of_union). eauto.
  - intros (id & r & Hr & Hk%elem_of_union). eexists. split; [|exact Hk].
    exists (id, r). by rewrite elem_of_map_to_list.
Qed.

Section tracker_facts.
Context `{GoUnicode}.

Lemma elem_of_sortedTargets m k : k ∈ sortedTargets m ↔ k ∈ targetsOf m.
Proof. unfold sortedTargets. by rewrite merge_sort_Permutation, elem_of_elements. Qed.

Lemma addDemand_dom demand acc :
  dom (foldl addDemand acc demand).1 =
    list_to_set (omap (λ d, d ≫= λ d, let key := to_lower (trim_space (pb.Demand_Target d)) in
                            if String.eqb key "" then None else Some key) demand) ∪ dom acc.1.
Proof.
  revert acc. induction demand as [|[d|] demand IH]; intros acc; simpl; [set_solver| |].
  - rewrite IH. destruct (String.eqb _ ""); simpl; [done|]. rewrite dom_insert_L. set_solver.
  - by rewrite IH.
Qed.

(** ** Properties *)

(** C35: after a report exactly the replicas seen within the TTL are active, the one
    that reports among them, seen now; their number is what the answer says; and a
    report without a client id is refused and changes nothing. *)
Theorem Report_active t clientID demand now visit :
  let id := trim_space clientID in
  match Report t clientID demand now visit with
  | (Err e, t') => id = "" ∧ t' = t
  | (Ok (_, active), t') =>
      id ≠ "" ∧ active = wrap32 (Z.of_nat (size (replicas t'))) ∧
      (lastSeen <$> replicas t' !! id = Some now) ∧
      (∀ j r, j ≠ id → replicas t' !! j = Some r ↔
         replicas t !! j = Some r ∧ time_sub now (lastSeen r) ≤ ttl t) ∧
      ttl t' = ttl t ∧ floor t' = floor t
  end.
Proof.
  intros id. unfold Report. fold id. destruct (String.eqb_spec id "") as [->|Hid]; [done|].
  destruct (match expire t id now !! id with Some r => _ | None => _ end) as [r ok].
  destruct (foldl addDemand (∅, ∅) demand) as [latestReq latestTok]. simpl.
  split; [done|]. split; [done|]. rewrite lookup_insert_eq. split; [done|]. split; [|done].
  intros j rj Hj. rewrite lookup_insert_ne by done. unfold expire.
  rewrite map_lookup_filter_Some. simpl. naive_solver.
Qed.

(** The answer has one share for every target that any active replica has
    reported, in the order of the targets' names, among them every target of this
    report under its trimmed lower-case name. *)
Theorem Report_targets t clientID demand now visit :
  match Report t clientID demand now visit with
  | (Err _, _) => True
  | (Ok (shares, _), t') =>
      let keys := pb.Share_Target <$> shares in
      Sorted String.le keys ∧ NoDup keys ∧ (∀ k, k ∈ keys ↔ k ∈ targetsOf (replicas t')) ∧
      (∀ d, Some d ∈ demand → let key := to_lower (trim_space (pb.Demand_Target d)) in
         key ≠ "" → key ∈ keys)
  end.
Proof.
  unfold Report. destruct (String.eqb (trim_space clientID) ""); [done|].
  set (live := expire t (trim_space clientID) now).
  destruct (match live !! _ with Some r => _ | None => _ end) as [r ok].
  pose proof (addDemand_dom demand (∅, ∅)) as Hdom.
  destruct (foldl addDemand (∅, ∅) demand) as [latestReq latestTok]. simpl fst in Hdom.
  set (r' := mkReplicaDemand now _ _). set (m := <[trim_space clientID := r']> live).
  change (replicas (withReplicas t m)) with m. cbv beta iota zeta.
  rewrite <- list_fmap_compose. unfold compose. cbn [pb.Share_Target]. rewrite list_fmap_id.
  split_and!.
  - apply Sorted_merge_sort. apply _.
  - unfold sortedTargets. rewrite merge_sort_Permutation. apply NoDup_elements.
  - apply elem_of_sortedTargets.
  - intros d Hd Hkey. apply elem_of_sortedTargets, elem_of_targetsOf.
    exists (trim_space clientID), r'. split; [apply lookup_insert_eq|]. left.
    unfold r'. simpl. rewrite dom_smooth, Hdom. apply elem_of_union_l, elem_of_union_l.
    apply elem_of_list_to_set, list_elem_of_omap. exists (Some d). split; [done|]. simpl.
    by apply String.eqb_neq in Hkey as ->.
Qed.

(** The moving average takes a first report as it is; afterwards it weighs the
    newest report and the past equally, and halves the targets that a report
    leaves out. *)
Theorem smooth_weights avg latest first k :
  smooth avg latest first !! k =
    match latest !! k, first with
    | Some v, true => Some v
    | Some v, false => Some (f64_add (f64_mul (f64_const 1 2) v)
                               (f64_mul (f64_const 1 2) (value avg k)))
    | None, true => avg !! k
    | None, false => (λ a, f64_mul a (f64_const 1 2)) <$> avg !! k
    end.
Proof.
  rewrite lookup_smooth. assert (f64_sub f64_one demandSmoothing = f64_const 1 2) as Hhalf
    by (by vm_compute). unfold smoothed. rewrite Hhalf.
  destruct (latest !! k), first; try done. by destruct (avg !! k).
Qed.

End tracker_facts.

(** The answer to a lone replica that reports nine requests of nine tokens. *)
Definition loneReport : result (list pb.TargetShare * Z) :=
  (Report NewShareTracker "replica-1" [Some (pb.mkTargetDemand "eu/flash" 9 9)] 0
     (λ _ _, ["replica-1"])).1.

(** The shares do not always sum to one. A replica that is alone, and so is
    entitled to the whole allowance, is sent a fraction just below one when it
    reports nine requests, and its limiter makes 59 of an allowance of 60. *)
Theorem lone_replica_loses_a_unit :
  ∃ sh, loneReport = Ok ([sh], 1) ∧ f64_ltb (pb.RpmFraction sh) f64_one = true ∧
    Limiter.fractionOf 60 (pb.RpmFraction sh) = 59.
Proof. eexists. split; [vm_compute; reflexivity|]. by split; vm_compute. Qed.

End Shares.
