(* ===== verification/ShareBounds.v ===== *)
(** * What the share tracker promises in floating point

    The shares that [pkg/controlplane/shares.go] computes are numbers, never below
    the floor that every replica is promised, and all replicas together stay
    within the allowance up to the rounding. *)

From S2P Require Import Prelude GoStrings GoFloat GoRound Quota Config Bucket Limiter Shares.
From stdpp Require Import options.
Import Shares.

Module ShareBounds.

(** ** Bounds

    At most [maxEntries] entries per report and as many replicas; a sum of so many
    64-bit counters is below [2 ^ 99], and a sum of so many of those finite. *)

Definition maxEntries : Z := 2 ^ 36.
Definition maxDemand : Z := 2 ^ (99 - emin).

Definition demandOk (v : float64) : Prop := nonneg v ∧ units v ≤ maxDemand.

Definition averagesOk (m : gmap string float64) : Prop := map_Forall (λ _, demandOk) m.

Record trackerOk (t : ShareTracker) : Prop := {
  tracker_floor : floor t = DefaultShareFloor;
  tracker_demand : map_Forall (λ _ r, averagesOk (requests r) ∧ averagesOk (tokens r)) (replicas t)
}.

(** The counters of a report are 64-bit integers. *)
Definition entryOk (d : option pb.TargetDemand) : Prop :=
  match d with
  | Some d => int64 (pb.Requests d) ∧ int64 (pb.Tokens d)
  | None => True
  end.

Lemma value_ok m k B :
  0 ≤ B → map_Forall (λ _ v, nonneg v ∧ units v ≤ B) m → nonneg (value m k) ∧ units (value m k) ≤ B.
Proof.
  intros HB Hm. unfold value. destruct (m !! k) as [v|] eqn:Hk; [by eapply Hm|].
  by split.
Qed.

(** ** The four operations at these magnitudes *)

Lemma add_le x y mx kx :
  nonneg x → nonneg y → 0 ≤ mx ≤ 2 ^ 53 → 0 ≤ kx ≤ 1200 → units x + units y ≤ mx * 2 ^ kx →
  nonneg (f64_add x y) ∧ units (f64_add x y) ≤ mx * 2 ^ kx.
Proof.
  intros Hx Hy Hmx Hkx Hle. pose proof (add_rounds x y Hx Hy) as Hr.
  pose proof (units_nonneg x Hx). pose proof (units_nonneg y Hy).
  assert (nonneg (f64_add x y)) as Hn.
  { apply (rounds_finite (units x + units y) 1); [lia|lia|exact Hr|].
    assert (2 ^ kx ≤ 2 ^ 1200) as Hpow by (apply Z.pow_le_mono_r; lia).
    apply Z.le_lt_trans with (2 ^ 53 * 2 ^ 1200); [|by vm_compute].
    etrans; [exact Hle|]. apply Z.mul_le_mono_nonneg; [apply Hmx..|by apply Z.pow_nonneg|done]. }
  split; [done|]. apply (rounds_le (units x + units y) 1); [lia|lia|exact Hr|done|done|lia|].
  by rewrite Z.mul_1_r.
Qed.

Lemma unit_pos : 0 < unit.
Proof. by vm_compute. Qed.

Lemma scaled_nonneg n : 0 ≤ n → 0 ≤ n * unit.
Proof. intros. apply Z.mul_nonneg_nonneg; [done|]. pose proof unit_pos. lia. Qed.

Lemma of_Z_le n : 0 ≤ n ≤ 2 ^ 63 →
  nonneg (f64_of_Z n) ∧ units (f64_of_Z n) ≤ 2 ^ 63 * unit.
Proof.
  intros Hn. pose proof (of_Z_rounds n ltac:(lia)) as Hr.
  pose proof (scaled_nonneg n ltac:(lia)) as Hs.
  assert (n * unit ≤ 2 ^ 63 * unit) as Hle.
  { apply Z.mul_le_mono_nonneg_r; [|lia]. pose proof unit_pos. lia. }
  assert (nonneg (f64_of_Z n)) as Hf.
  { apply (rounds_finite (n * unit) 1); [lia|done|exact Hr|].
    eapply Z.le_lt_trans; [exact Hle|by vm_compute]. }
  split; [done|]. change (2 ^ 63 * unit) with (1 * 2 ^ (63 - emin)).
  apply (rounds_le (n * unit) 1); [lia|done|exact Hr|done|lia|unfold emin; lia|].
  rewrite Z.mul_1_r, Z.mul_1_l. exact Hle.
Qed.

(** A small integer is exact. *)
Lemma of_Z_units n : 0 ≤ n ≤ 2 ^ 53 → nonneg (f64_of_Z n) ∧ units (f64_of_Z n) = n * unit.
Proof.
  intros Hn. destruct (of_Z_le n ltac:(lia)) as [Hf _]. split; [done|].
  pose proof (of_Z_rounds n ltac:(lia)) as Hr. pose proof (scaled_nonneg n ltac:(lia)) as Hs.
  apply Z.le_antisymm; unfold unit.
  - apply (rounds_le (n * unit) 1); [lia|done|exact Hr|done|lia|unfold emin; lia|].
    by rewrite Z.mul_1_r.
  - apply (rounds_ge (n * unit) 1); [lia|done|exact Hr|done|lia|unfold emin; lia|].
    by rewrite Z.mul_1_r.
Qed.

Lemma half_units : nonneg demandSmoothing ∧ 2 * units demandSmoothing = unit.
Proof. by vm_compute. Qed.

Lemma half_le x : demandOk x → nonneg (f64_mul demandSmoothing x) ∧
  units (f64_mul demandSmoothing x) ≤ 2 ^ (98 - emin).
Proof.
  intros [Hx Hle]. destruct half_units as [Hh Hu].
  pose proof (mul_rounds demandSmoothing x Hh Hx) as Hr.
  pose proof (units_nonneg x Hx) as Hpos. pose proof (units_nonneg _ Hh) as Hhpos.
  pose proof unit_pos as Hup. assert (maxDemand = 2 * 2 ^ (98 - emin)) as Hmax by reflexivity.
  assert (0 ≤ units demandSmoothing * units x) as HN by (by apply Z.mul_nonneg_nonneg).
  assert (units demandSmoothing * units x ≤ 1 * 2 ^ (98 - emin) * unit) as HB.
  { rewrite Hmax in Hle. rewrite <- Hu. clear -Hle Hhpos.
    generalize dependent (2 ^ (98 - emin)). generalize dependent (units demandSmoothing).
    intros h Hh B HB. nia. }
  assert (nonneg (f64_mul demandSmoothing x)) as Hf.
  { apply (rounds_finite (units demandSmoothing * units x) unit); [done|done|exact Hr|].
    eapply Z.le_lt_trans; [exact HB|by vm_compute]. }
  split; [done|]. rewrite <- (Z.mul_1_l (2 ^ (98 - emin))).
  by apply (rounds_le (units demandSmoothing * units x) unit);
    [..|lia|unfold emin; lia|].
Qed.

(** ** The moving averages *)

Lemma demandOk_zero : demandOk f64_zero.
Proof. by split. Qed.

Lemma value_demandOk m k : averagesOk m → demandOk (value m k).
Proof.
  intros Hm. unfold value. destruct (m !! k) as [v|] eqn:Hk; [by eapply Hm|apply demandOk_zero].
Qed.

Lemma halves : f64_sub f64_one demandSmoothing = demandSmoothing.
Proof. by vm_compute. Qed.

Lemma half_demandOk x : demandOk x → demandOk (f64_mul demandSmoothing x).
Proof.
  intros Hx. destruct (half_le x Hx) as [Hn Hle]. split; [done|].
  etrans; [exact Hle|]. by apply Z.leb_le.
Qed.

Lemma mul_comm x y : f64_mul x y = f64_mul y x.
Proof.
  unfold f64_mul, SFmul. destruct x, y; try done; try by rewrite xorb_comm.
  by rewrite xorb_comm, Pos.mul_comm, Z.add_comm.
Qed.

Lemma smooth_ok avg latest first :
  averagesOk avg → averagesOk latest → averagesOk (smooth avg latest first).
Proof.
  intros Havg Hlatest k v. rewrite lookup_smooth. destruct (latest !! k) as [w|] eqn:Hw.
  - intros [= <-]. unfold smoothed. destruct first; [by eapply Hlatest|]. rewrite halves.
    destruct (half_le w ltac:(by eapply Hlatest)) as [Hn1 Hle1].
    destruct (half_le (value avg k) ltac:(by apply value_demandOk)) as [Hn2 Hle2].
    unfold demandOk. replace maxDemand with (1 * 2 ^ (99 - emin)) by reflexivity.
    apply add_le; [done|done|lia|unfold emin; lia|]. rewrite Z.mul_1_l.
    replace (2 ^ (99 - emin)) with (2 ^ (98 - emin) + 2 ^ (98 - emin)) by (by vm_compute). lia.
  - rewrite halves. destruct (avg !! k) as [a|] eqn:Ha; [|done].
    assert (demandOk a) as Hok by (by eapply Havg).
    destruct first; intros Hv; apply (inj Some) in Hv as <-; [done|].
    rewrite mul_comm. by apply half_demandOk.
Qed.

(** ** The reported demand *)

Section report.
Context `{GoUnicode}.

Definition countedOk (i : Z) (m : gmap string float64) : Prop :=
  map_Forall (λ _ v, nonneg v ∧ units v ≤ i * 2 ^ (63 - emin)) m.

Lemma counted_insert i m k n :
  0 ≤ i < maxEntries → int64 n → countedOk i m →
  countedOk (i + 1) (<[k := f64_add (value m k) (f64_of_Z (Z.max n 0))]> m).
Proof.
  intros Hi Hn Hm. pose proof (pow2_pos (63 - emin) ltac:(done)) as Hpow.
  assert (nonneg (value m k) ∧ units (value m k) ≤ i * 2 ^ (63 - emin)) as [Hv Hle].
  { apply value_ok; [|exact Hm]. apply Z.mul_nonneg_nonneg; [apply Hi|by apply Z.lt_le_incl]. }
  destruct (of_Z_le (Z.max n 0)) as [Hz Hzle]; [unfold int64, max_int64 in *; lia|].
  change (2 ^ 63 * unit) with (2 ^ (63 - emin)) in Hzle. unfold maxEntries in Hi.
  assert (units (value m k) + units (f64_of_Z (Z.max n 0)) ≤ (i + 1) * 2 ^ (63 - emin)) as Hsum.
  { rewrite Z.mul_add_distr_r, Z.mul_1_l. by apply Z.add_le_mono. }
  apply map_Forall_insert_2; [apply add_le; [done|done|lia|done|exact Hsum]|].
  intros j v Hj. destruct (Hm j v Hj) as [Hnj Hlej]. split; [done|]. etrans; [exact Hlej|].
  apply Z.mul_le_mono_nonneg_r; [by apply Z.lt_le_incl|lia].
Qed.

Lemma counted_mono i j m : 0 ≤ i ≤ j → countedOk i m → countedOk j m.
Proof.
  intros Hij Hm k v Hk. destruct (Hm k v Hk) as [Hn Hle]. split; [done|]. etrans; [exact Hle|].
  apply Z.mul_le_mono_nonneg_r; [by apply Z.pow_nonneg|lia].
Qed.

Lemma counted_averages i m : 0 ≤ i ≤ maxEntries → countedOk i m → averagesOk m.
Proof. intros Hi Hm. apply (counted_mono i maxEntries m Hi Hm). Qed.

Lemma addDemand_ok demand i acc :
  0 ≤ i → i + Z.of_nat (length demand) ≤ maxEntries → Forall entryOk demand →
  countedOk i acc.1 → countedOk i acc.2 →
  averagesOk (foldl addDemand acc demand).1 ∧ averagesOk (foldl addDemand acc demand).2.
Proof.
  revert i acc. induction demand as [|d demand IH]; intros i acc Hi Hlen Hok H1 H2; cbn [foldl].
  - simpl in Hlen. by split; apply (counted_averages i); [lia| |lia|].
  - apply Forall_cons in Hok as [Hd Hok]. rewrite length_cons in Hlen.
    apply (IH (i + 1)); [lia|lia|done|..]; destruct d as [d|]; cbn [addDemand];
      try (eapply counted_mono; [|eassumption]; lia);
      (destruct (String.eqb _ ""); [eapply counted_mono; [|eassumption]; lia|]);
      destruct Hd; (apply counted_insert; [lia|done|done]).
Qed.

End report.

(** ** The total demand for a target *)

Lemma add_ge x y :
  nonneg x → nonneg y → nonneg (f64_add x y) →
  units x ≤ units (f64_add x y) ∧ units y ≤ units (f64_add x y).
Proof.
  intros Hx Hy Hs. pose proof (add_rounds x y Hx Hy) as Hr.
  pose proof (units_nonneg x Hx) as Hx0. pose proof (units_nonneg y Hy) as Hy0.
  destruct (nonneg_bits x Hx) as (mx & kx & Hux & Hmx & Hkx).
  destruct (nonneg_bits y Hy) as (my & ky & Huy & Hmy & Hky).
  split; [rewrite Hux at 1|rewrite Huy at 1];
    (apply (rounds_ge (units x + units y) 1); [done|lia|exact Hr|done|lia|lia|]); lia.
Qed.

Definition sumOf (f : string → float64) (order : list string) : float64 :=
  foldl (λ total id, f64_add total (f id)) f64_zero order.

Lemma sum_from (f : string → float64) (order : list string) acc j :
  0 ≤ j → j + Z.of_nat (length order) ≤ maxEntries → (∀ id, demandOk (f id)) →
  nonneg acc → units acc ≤ j * 2 ^ (99 - emin) →
  let total := foldl (λ total id, f64_add total (f id)) acc order in
  nonneg total ∧ units total ≤ maxEntries * 2 ^ (99 - emin) ∧ units acc ≤ units total ∧
  ∀ id, id ∈ order → units (f id) ≤ units total.
Proof.
  intros Hj Hlen Hf. revert acc j Hj Hlen.
  induction order as [|id order IH]; intros acc j Hj Hlen Hacc Hle; cbn [foldl].
  - split; [done|]. split; [|split; [done|by intros ? ?%not_elem_of_nil]].
    etrans; [exact Hle|]. simpl in Hlen. apply Z.mul_le_mono_nonneg_r; [by apply Z.pow_nonneg|lia].
  - rewrite length_cons in Hlen. destruct (Hf id) as [Hn Hu].
    assert (units acc + units (f id) ≤ (j + 1) * 2 ^ (99 - emin)) as Hsum.
    { rewrite Z.mul_add_distr_r, Z.mul_1_l. by apply Z.add_le_mono. }
    unfold maxEntries in Hlen. destruct (add_le acc (f id) (j + 1) (99 - emin)) as [Hn' Hle'];
      [done|done|lia|done|done|]. destruct (add_ge acc (f id) Hacc Hn Hn') as [Hge1 Hge2].
    destruct (IH (f64_add acc (f id)) (j + 1)) as (Ht & Htle & Hge & Hin);
      [lia|unfold maxEntries; lia|done|done|].
    split; [done|]. split; [done|]. split; [lia|].
    intros id' [->|?]%elem_of_cons; [lia|by apply Hin].
Qed.

Lemma sum_ok (f : string → float64) (order : list string) :
  Z.of_nat (length order) ≤ maxEntries → (∀ id, demandOk (f id)) →
  nonneg (sumOf f order) ∧ units (sumOf f order) ≤ maxEntries * 2 ^ (99 - emin) ∧
  ∀ id, id ∈ order → units (f id) ≤ units (sumOf f order).
Proof.
  intros Hlen Hf. by destruct (sum_from f order f64_zero 0) as (? & ? & _ & ?).
Qed.

Lemma add_unit x y :
  nonneg x → units x ≤ unit → nonneg y → units y ≤ unit → nonneg (f64_add x y).
Proof.
  intros Hx Hx1 Hy Hy1. assert (units x + units y ≤ 2 * 2 ^ (- emin)) as Hsum.
  { fold unit. rewrite <- Z.add_diag. by apply Z.add_le_mono. }
  assert (0 ≤ 2 ≤ 2 ^ 53 ∧ 0 ≤ - emin ≤ 1200) as [Htwo Hexp] by (clear; by unfold emin).
  by destruct (add_le x y 2 (- emin) Hx Hy Htwo Hexp Hsum).
Qed.

(** ** The quotients *)

(** Dividing by a count of replicas. *)
Lemma div_count x n :
  nonneg x → units x ≤ unit → 1 ≤ n ≤ maxEntries →
  nonneg (f64_div x (f64_of_Z n)) ∧ units (f64_div x (f64_of_Z n)) ≤ unit ∧
  rounds (units x * unit) (n * unit) (f64_div x (f64_of_Z n)).
Proof.
  intros Hx Hle Hn. pose proof unit_pos as Hu. pose proof (units_nonneg x Hx) as Hx0.
  destruct (of_Z_units n ltac:(unfold maxEntries in *; lia)) as [Hnn Hnu].
  assert (0 < n * unit) as Hpos by (apply Z.mul_pos_pos; lia).
  pose proof (div_rounds x (f64_of_Z n) Hx Hnn ltac:(by rewrite Hnu)) as Hr. rewrite Hnu in Hr.
  assert (0 ≤ units x * unit) as HN by (apply Z.mul_nonneg_nonneg; lia).
  assert (units x * unit ≤ unit * (n * unit)) as Hle1.
  { clear -Hle Hn Hu Hx0. generalize dependent unit. intros. nia. }
  assert (nonneg (f64_div x (f64_of_Z n))) as Hnd.
  { apply (rounds_finite (units x * unit) (n * unit)); [done|done|exact Hr|].
    eapply Z.le_lt_trans; [exact Hle1|]. rewrite Z.mul_comm.
    apply Z.mul_lt_mono_pos_l; [done|by vm_compute]. }
  split; [done|]. split; [|done]. replace unit with (1 * 2 ^ (- emin)) by reflexivity.
  apply (rounds_le (units x * unit) (n * unit)); [done|done|exact Hr|done|done|done|exact Hle1].
Qed.

(** The part of the allowance that is shared by demand. *)
Definition weight : float64 := f64_sub f64_one DefaultShareFloor.

Lemma weight_ok : nonneg weight ∧ units weight ≤ unit.
Proof. split; [by vm_compute|]. apply Z.leb_le. by vm_compute. Qed.

Lemma floor_ok : nonneg DefaultShareFloor ∧ 0 < units DefaultShareFloor ≤ unit.
Proof. split; [by vm_compute|]. split; [|apply Z.leb_le]; by vm_compute. Qed.

Lemma mul_weight d :
  demandOk d →
  nonneg (f64_mul weight d) ∧ units (f64_mul weight d) ≤ units d ∧
  rounds (units weight * units d) unit (f64_mul weight d).
Proof.
  intros [Hd Hle]. destruct weight_ok as [Hw Hw1]. pose proof unit_pos as Hu.
  pose proof (units_nonneg _ Hw) as Hw0. pose proof (units_nonneg d Hd) as Hd0.
  pose proof (mul_rounds weight d Hw Hd) as Hr.
  assert (0 ≤ units weight * units d) as HN by (by apply Z.mul_nonneg_nonneg).
  assert (units weight * units d ≤ units d * unit) as HN1.
  { rewrite Z.mul_comm. by apply Z.mul_le_mono_nonneg_l. }
  assert (nonneg (f64_mul weight d)) as Hn.
  { apply (rounds_finite (units weight * units d) unit); [done|done|exact Hr|].
    eapply Z.le_lt_trans; [exact HN1|]. rewrite Z.mul_comm. apply Z.mul_lt_mono_pos_l; [done|].
    eapply Z.le_lt_trans; [exact Hle|by vm_compute]. }
  split; [done|]. split; [|done]. destruct (nonneg_bits d Hd) as (md & kd & Hbits & Hmd & Hkd).
  rewrite Hbits. apply (rounds_le (units weight * units d) unit); [done|done|exact Hr|done|done|done|].
  by rewrite <- Hbits.
Qed.

Lemma div_total p total :
  nonneg p → nonneg total → 0 < units total → units p ≤ units total →
  nonneg (f64_div p total) ∧ units (f64_div p total) ≤ unit ∧
  rounds (units p * unit) (units total) (f64_div p total).
Proof.
  intros Hp Ht Hpos Hle. pose proof (div_rounds p total Hp Ht Hpos) as Hr.
  pose proof unit_pos as Hu. pose proof (units_nonneg p Hp) as Hp0.
  assert (0 ≤ units p * unit) as HN by (apply Z.mul_nonneg_nonneg; lia).
  assert (units p * unit ≤ unit * units total) as HN1.
  { rewrite Z.mul_comm. apply Z.mul_le_mono_nonneg_l; lia. }
  assert (nonneg (f64_div p total)) as Hn.
  { apply (rounds_finite (units p * unit) (units total)); [done|done|exact Hr|].
    eapply Z.le_lt_trans; [exact HN1|]. rewrite Z.mul_comm.
    apply Z.mul_lt_mono_pos_l; [done|by vm_compute]. }
  split; [done|]. split; [|done]. replace unit with (1 * 2 ^ (- emin)) by reflexivity.
  apply (rounds_le (units p * unit) (units total)); [done|done|exact Hr|done|done|done|exact HN1].
Qed.

(** ** The fraction *)

Definition demandOf (t : ShareTracker) (target : string) (m : metric) (id : string) : float64 :=
  match replicas t !! id with
  | Some r => value (metricOf m r) target
  | None => f64_zero
  end.

Lemma demandOf_ok t target m id : trackerOk t → demandOk (demandOf t target m id).
Proof.
  intros [_ Ht]. unfold demandOf. destruct (replicas t !! id) as [r|] eqn:Hr; [|apply demandOk_zero].
  destruct (Ht id r Hr). by destruct m; apply value_demandOk.
Qed.

(** The fraction by the demand of all. *)
Definition evenFraction (n : Z) : float64 := f64_div f64_one (f64_of_Z n).
Definition floorFraction (n : Z) : float64 := f64_div DefaultShareFloor (f64_of_Z n).
Definition weightedFraction (d total : float64) : float64 := f64_div (f64_mul weight d) total.

Lemma fraction_cases t id target m order :
  trackerOk t → 1 ≤ Z.of_nat (size (replicas t)) ≤ maxEntries →
  Z.of_nat (length order) ≤ maxEntries →
  let n := Z.of_nat (size (replicas t)) in
  let total := sumOf (demandOf t target m) order in
  fraction t id target m order =
    if units total =? 0 then evenFraction n
    else f64_add (floorFraction n) (weightedFraction (demandOf t target m id) total).
Proof.
  intros Ht Hn Hlen n total. destruct (of_Z_units n) as [Hnn Hnu]; [unfold n, maxEntries in *; lia|].
  destruct (sum_ok (demandOf t target m) order Hlen) as (Htot & _ & _);
    [intros; by apply demandOf_ok|]. fold total in Htot.
  unfold fraction. fold n. fold (demandOf t target m id).
  assert (f64_eqb (f64_of_Z n) f64_zero = false) as ->.
  { assert (f64_leb (f64_of_Z n) f64_zero = false) as Hleb.
    { rewrite nonneg_leb by done. apply Z.leb_gt. rewrite Hnu. apply Z.mul_pos_pos; [lia|].
      apply unit_pos. }
    revert Hleb. unfold f64_leb, f64_eqb, SFleb, SFeqb. by destruct (SFcompare _ _) as [[]|]. }
  change (foldl _ f64_zero order) with total. rewrite nonneg_leb by done.
  pose proof (units_nonneg total Htot). rewrite (tracker_floor t Ht).
  change (units f64_zero) with 0.
  replace (units total <=? 0) with (units total =? 0) by (destruct (units total); [done..|lia]).
  done.
Qed.

(** A power of two lies between the floor's part and the even part. *)
Lemma floor_le_even n :
  1 ≤ n ≤ maxEntries → units (floorFraction n) ≤ units (evenFraction n).
Proof.
  intros Hn. destruct floor_ok as [Hf [Hf0 Hf1]]. pose proof unit_pos as Hu.
  destruct (div_count DefaultShareFloor n Hf Hf1 Hn) as (Hq & _ & Hqr).
  destruct (div_count f64_one n) as (He & _ & Her); [by vm_compute|by apply Z.leb_le; vm_compute|done|].
  fold (floorFraction n) (evenFraction n) in *.
  replace (units f64_one) with unit in Her by (by vm_compute).
  assert (8 * units DefaultShareFloor ≤ unit) as H8 by (apply Z.leb_le; by vm_compute).
  pose proof (Z.log2_up_nonneg n) as Hk0. set (k := Z.log2_up n) in *.
  assert (k ≤ 36) as Hk.
  { apply Z.log2_up_le_pow2; [lia|apply Hn]. }
  assert (n ≤ 2 ^ k ∧ 2 ^ k ≤ 2 * n) as [Hlo Hhi].
  { destruct (decide (n = 1)) as [Hn1|Hne].
    { unfold k. rewrite Hn1. change (Z.log2_up 1) with 0. clear. lia. }
    pose proof (Z.log2_up_spec n ltac:(lia)) as Hspec. fold k in Hspec.
    assert (2 ^ k = 2 * 2 ^ Z.pred k) as Hp.
    { rewrite <- Z.pow_succ_r, Z.succ_pred; [done|]. unfold k. pose proof (Z.log2_up_pos n). lia. }
    lia. }
  assert (2 ^ (- emin - k) * 2 ^ k = unit) as Hs.
  { rewrite <- pow2_add; [|unfold emin; lia|done]. unfold unit. f_equal. lia. }
  pose proof (pow2_pos k Hk0) as Hkp. pose proof (pow2_pos (- emin - k) ltac:(unfold emin; lia)) as Hsp.
  assert (units DefaultShareFloor ≤ 2 ^ (- emin - k) * n ∧ 2 ^ (- emin - k) * n ≤ unit) as [Hle1 Hle2].
  { clear -H8 Hlo Hhi Hs Hkp Hsp Hn. generalize dependent unit.
    generalize dependent (2 ^ (- emin - k)). generalize dependent (units DefaultShareFloor).
    generalize dependent (2 ^ k). intros K HnK HK2 HK F s Hs u HF Hu. nia. }
  assert (0 ≤ - emin - k) as Hexp by (clear -Hk; unfold emin; lia).
  assert (0 < n * unit) as HD by (apply Z.mul_pos_pos; lia).
  assert (units DefaultShareFloor * unit ≤ 1 * 2 ^ (- emin - k) * (n * unit)) as HN1.
  { rewrite Z.mul_1_l, Z.mul_assoc. apply Z.mul_le_mono_nonneg_r; [lia|done]. }
  assert (1 * 2 ^ (- emin - k) * (n * unit) ≤ unit * unit) as HN2.
  { rewrite Z.mul_1_l, Z.mul_assoc. apply Z.mul_le_mono_nonneg_r; [lia|done]. }
  assert (0 ≤ 1 ≤ 2 ^ 53) as H1 by (clear; done).
  etrans.
  - refine (rounds_le _ _ _ HD _ Hqr 1 (- emin - k) Hq H1 Hexp HN1).
    apply Z.mul_nonneg_nonneg; lia.
  - refine (rounds_ge _ _ _ HD _ Her 1 (- emin - k) He H1 Hexp HN2).
    apply Z.mul_nonneg_nonneg; lia.
Qed.

(** ** The most that one replica is sent

    The floor's part and the weighted part add up to one for a lone replica. Rounding
    adds to that one part in [2 ^ 49] at most, unless the replica's average has faded
    into the subnormal numbers: these have no digits left for the weight, and a lone
    replica is then sent the floor on top of the whole allowance. *)

Definition faded (d : float64) : bool := (0 <? units d) && (units d <? 2 ^ 53).

Definition aboutOne : float64 := f64_const (2 ^ 49 + 1) (2 ^ 49).
Definition oneAndFloor : float64 := f64_const 11 10.

(** What is promised to one of [n] replicas, with demand [d], of the fraction [f]. *)
Definition promised (n : Z) (d f : float64) : Prop :=
  f64_leb (floorFraction n) f = true ∧ f64_leb f oneAndFloor = true ∧
  (faded d = false → f64_leb f aboutOne = true).

Lemma floorFraction_le n : 1 ≤ n ≤ maxEntries → units (floorFraction n) ≤ units DefaultShareFloor.
Proof.
  intros Hn. destruct floor_ok as [Hf [Hf0 Hf1]]. pose proof unit_pos as Hu.
  destruct (div_count DefaultShareFloor n Hf Hf1 Hn) as (Hq & _ & Hqr). fold (floorFraction n) in *.
  destruct (nonneg_bits _ Hf) as (mx & kx & Hbits & Hmx & Hkx).
  assert (0 < n * unit) as HD by (apply Z.mul_pos_pos; lia).
  assert (0 ≤ units DefaultShareFloor * unit) as HN by (apply Z.mul_nonneg_nonneg; lia).
  apply (Z.le_trans _ (mx * 2 ^ kx)); [|by rewrite Hbits].
  apply (rounds_le _ _ _ HD HN Hqr); [done..|]. rewrite <- Hbits.
  clear -Hu Hf0 Hn. generalize dependent unit. generalize dependent (units DefaultShareFloor).
  intros F HF u Hu. nia.
Qed.

Lemma add_oneAndFloor x y :
  nonneg x → nonneg y → nonneg (f64_add x y) → units x ≤ units DefaultShareFloor → units y ≤ unit →
  units (f64_add x y) ≤ units oneAndFloor.
Proof.
  intros Hx Hy Hs Hxf Hy1. pose proof (add_rounds x y Hx Hy) as Hr.
  pose proof (units_nonneg x Hx). pose proof (units_nonneg y Hy).
  assert (units DefaultShareFloor + unit ≤ units oneAndFloor) as Hbound
    by (apply Z.leb_le; by vm_compute).
  destruct (nonneg_bits oneAndFloor) as (mx & kx & Hbits & Hmx & Hkx); [by vm_compute|].
  rewrite Hbits in *. apply (rounds_le (units x + units y) 1); [done|lia|exact Hr|done..|].
  rewrite Z.mul_1_r. etrans; [|exact Hbound]. by apply Z.add_le_mono.
Qed.

(** A weighted part that is not faded is right to one part in [2 ^ 51]. *)
Lemma weighted_le d total :
  demandOk d → nonneg total → 0 < units total → units d ≤ units total → faded d = false →
  2 ^ 104 * units (weightedFraction d total) ≤ (2 ^ 52 + 1) ^ 2 * units weight + 2 ^ 104.
Proof.
  intros Hd Ht Hpos Hle Hfaded. destruct (mul_weight d Hd) as (Hp & Hp1 & Hpr).
  destruct (div_total (f64_mul weight d) total) as (Hw & _ & Hwr); [done|done|done|lia|].
  fold (weightedFraction d total) in *. pose proof unit_pos as Hu.
  destruct weight_ok as [Hww _]. destruct Hd as [Hdn _].
  pose proof (units_nonneg d Hdn) as Hd0. pose proof (units_nonneg _ Hp) as Hp0.
  assert (2 ^ 52 * unit ≤ units weight * 2 ^ 53 ∧ 0 ≤ units weight) as [Hhalf Hw0]
    by (split; apply Z.leb_le; by vm_compute).
  assert (2 ^ 52 * Z.abs (units (f64_mul weight d) * unit - units weight * units d) ≤
    units weight * units d) as Hmul.
  { apply rounds_error; [done|by apply Z.mul_nonneg_nonneg|exact Hpr|done|].
    unfold faded in Hfaded. destruct (Z.ltb_spec 0 (units d)) as [Hd1|Hd1]; simpl in Hfaded.
    - right; right. apply Z.ltb_ge in Hfaded. rewrite (Z.mul_comm unit).
      etrans; [exact Hhalf|]. by apply Z.mul_le_mono_nonneg_l.
    - left. assert (units d = 0) as -> by lia. apply Z.mul_0_r. }
  assert (2 ^ 52 * Z.abs (units (weightedFraction d total) * units total - units (f64_mul weight d) * unit) ≤
    units (f64_mul weight d) * unit + 2 ^ 52 * units total) as Hdiv.
  { apply rounds_near; [done|apply Z.mul_nonneg_nonneg; lia|exact Hwr|done]. }
  clear -Hmul Hdiv Hpos Hle Hw0. generalize dependent (units (f64_mul weight d) * unit).
  generalize dependent (units (weightedFraction d total)). generalize dependent (units total).
  generalize dependent (units d). generalize dependent (units weight).
  intros ww Hww du t Ht Hd w pu Hp Hw. assert (ww * du ≤ ww * t) by nia.
  apply (Z.mul_le_mono_pos_r _ _ t); [done|]. lia.
Qed.

Lemma add_aboutOne x y :
  nonneg x → nonneg y → nonneg (f64_add x y) → units x ≤ units DefaultShareFloor →
  2 ^ 104 * units y ≤ (2 ^ 52 + 1) ^ 2 * units weight + 2 ^ 104 →
  units (f64_add x y) ≤ units aboutOne.
Proof.
  intros Hx Hy Hs Hxf Hyw. pose proof (add_rounds x y Hx Hy) as Hr.
  pose proof (units_nonneg x Hx) as Hx0. pose proof (units_nonneg y Hy) as Hy0.
  assert (2 ^ 52 * Z.abs (units (f64_add x y) * 1 - (units x + units y)) ≤ units x + units y) as Hadd.
  { apply rounds_error; [done|lia|exact Hr|done|by right; left]. }
  assert (2 ^ 53 * (units DefaultShareFloor + units weight) ≤ unit * (2 ^ 53 + 2)) as Hone
    by (apply Z.leb_le; by vm_compute).
  assert (2 ^ 49 * units aboutOne = (2 ^ 49 + 1) * unit) as Habout by (apply Z.eqb_eq; by vm_compute).
  assert (2 ^ 200 ≤ unit ∧ 0 ≤ units weight) as [Hbig Hw0] by (split; apply Z.leb_le; by vm_compute).
  clear -Hadd Hone Habout Hbig Hxf Hyw Hw0 Hx0 Hy0. generalize dependent unit.
  generalize dependent (units aboutOne). generalize dependent (units weight).
  generalize dependent (units DefaultShareFloor). generalize dependent (units (f64_add x y)).
  generalize dependent (units x). generalize dependent (units y). intros. lia.
Qed.

(** What a replica is sent is a number, not below its part of the floor. *)
Lemma fraction_sound t id target m order :
  trackerOk t → 1 ≤ Z.of_nat (size (replicas t)) ≤ maxEntries →
  Z.of_nat (length order) ≤ maxEntries → id ∈ order →
  let n := Z.of_nat (size (replicas t)) in
  let f := fraction t id target m order in
  nonneg f ∧ f64_leb (floorFraction n) f = true.
Proof.
  intros Ht Hn Hlen Hin n f. unfold f. rewrite fraction_cases by done. fold n.
  destruct floor_ok as [Hf [Hf0 Hf1]].
  destruct (sum_ok (demandOf t target m) order Hlen) as (Htot & _ & Hle);
    [intros; by apply demandOf_ok|].
  set (total := sumOf _ order) in *. destruct (div_count DefaultShareFloor n) as (Hq & Hq1 & Hqr);
    [done|done|done|]. fold (floorFraction n) in *.
  destruct (Z.eqb_spec (units total) 0) as [Hz|Hz].
  - destruct (div_count f64_one n) as (He & He1 & Her); [by vm_compute|by apply Z.leb_le; vm_compute|done|].
    fold (evenFraction n) in *. split; [done|]. rewrite nonneg_leb by done.
    by apply Z.leb_le, floor_le_even.
  - destruct (mul_weight (demandOf t target m id)) as (Hp & Hp1 & _); [by apply demandOf_ok|].
    pose proof (Hle id Hin) as Hid. pose proof (units_nonneg total Htot).
    destruct (div_total (f64_mul weight (demandOf t target m id)) total) as (Hw & Hw1 & _);
      [done|done|lia|lia|]. fold (weightedFraction (demandOf t target m id) total) in *.
    pose proof (add_unit _ _ Hq Hq1 Hw Hw1) as Hs.
    split; [done|]. rewrite nonneg_leb by done. apply Z.leb_le.
    by apply (add_ge (floorFraction n) _).
Qed.

Lemma fraction_promised t id target m order :
  trackerOk t → 1 ≤ Z.of_nat (size (replicas t)) ≤ maxEntries →
  Z.of_nat (length order) ≤ maxEntries → id ∈ order →
  promised (Z.of_nat (size (replicas t))) (demandOf t target m id) (fraction t id target m order).
Proof.
  intros Ht Hn Hlen Hin. destruct (fraction_sound t id target m order Ht Hn Hlen Hin) as [Hf Hleast].
  split; [exact Hleast|]. clear Hleast. assert (nonneg oneAndFloor ∧ nonneg aboutOne) as [H11 H1]
    by (split; by vm_compute).
  rewrite !nonneg_leb, !Z.leb_le by done. revert Hf. rewrite fraction_cases by done.
  set (n := Z.of_nat _) in *. intros Hf. destruct floor_ok as [Hff [Hf0 Hf1]].
  destruct (sum_ok (demandOf t target m) order Hlen) as (Htot & _ & Hle);
    [intros; by apply demandOf_ok|].
  set (total := sumOf _ order) in *. destruct (Z.eqb_spec (units total) 0) as [Hz|Hz].
  - destruct (div_count f64_one n) as (_ & He1 & _); [by vm_compute|by apply Z.leb_le; vm_compute|done|].
    fold (evenFraction n) in He1.
    assert (unit ≤ units oneAndFloor ∧ unit ≤ units aboutOne) as [? ?]
      by (split; apply Z.leb_le; by vm_compute).
    split; [|intros _]; by etrans.
  - destruct (div_count DefaultShareFloor n Hff Hf1 Hn) as (Hq & _ & _). fold (floorFraction n) in *.
    pose proof (floorFraction_le n Hn) as Hqf. pose proof (Hle id Hin) as Hid.
    pose proof (demandOf_ok t target m id Ht) as Hd. pose proof (units_nonneg total Htot).
    destruct (mul_weight _ Hd) as (Hp & Hp1 & _).
    destruct (div_total (f64_mul weight (demandOf t target m id)) total) as (Hw & Hw1 & _);
      [done|done|lia|lia|]. fold (weightedFraction (demandOf t target m id) total) in *.
    split; [by apply add_oneAndFloor|]. intros Hfaded.
    apply add_aboutOne; [done..|]. apply weighted_le; [done|done|lia|done|done].
Qed.

Lemma nonneg_fraction_ok x : nonneg x → fraction_ok x.
Proof. by destruct x as [|[]| |s m e]; intros H; [split|destruct H..|destruct H; split]. Qed.

(** ** Reports *)

(** A possible order of [range] over the replicas. *)
Definition replicaOrder (t : ShareTracker) (order : list string) : Prop :=
  order ≡ₚ (map_to_list (replicas t)).*1.

Lemma replicaOrder_length t order :
  replicaOrder t order → Z.of_nat (length order) = Z.of_nat (size (replicas t)).
Proof. intros ->. by rewrite length_fmap, length_map_to_list. Qed.

Lemma replicaOrder_elem t order id :
  replicaOrder t order → is_Some (replicas t !! id) → id ∈ order.
Proof.
  intros -> [r Hr]. apply list_elem_of_fmap. exists (id, r). by rewrite elem_of_map_to_list.
Qed.

Section reports.
Context `{GoUnicode}.

Lemma Report_tracker t clientID demand now visit :
  trackerOk t → Forall entryOk demand → Z.of_nat (length demand) ≤ maxEntries →
  let t' := (Report t clientID demand now visit).2 in
  trackerOk t' ∧ (size (replicas t') ≤ S (size (replicas t)))%nat.
Proof.
  intros [Hf Ht] Hd Hlen. unfold Report.
  destruct (String.eqb (trim_space clientID) ""); [split; [by split|apply Nat.le_succ_diag_r]|].
  set (id := trim_space clientID). set (live := expire t id now).
  assert (map_Forall (λ _ r, averagesOk (requests r) ∧ averagesOk (tokens r)) live) as Hlive.
  { intros j r Hj. apply map_lookup_filter_Some in Hj as [Hj _]. by eapply Ht. }
  assert (∀ m, averagesOk (requests m) ∧ averagesOk (tokens m) →
    averagesOk (foldl addDemand (∅, ∅) demand).1 ∧ averagesOk (foldl addDemand (∅, ∅) demand).2)
    as Hadd.
  { intros _ _. apply (addDemand_ok demand 0); try done; try lia; apply map_Forall_empty. }
  destruct (match live !! id with Some r => _ | None => _ end) as [r ok] eqn:Hr.
  assert (averagesOk (requests r) ∧ averagesOk (tokens r)) as Hrok.
  { destruct (live !! id) as [r'|] eqn:Hl; simplify_eq; [by eapply Hlive|].
    split; apply map_Forall_empty. }
  destruct (Hadd r Hrok) as [Hreq Htok].
  destruct (foldl addDemand (∅, ∅) demand) as [latestReq latestTok]. cbn [fst snd] in *.
  cbn [replicas withReplicas]. split.
  - split; [done|]. apply map_Forall_insert_2; [|done].
    destruct Hrok. split; by apply smooth_ok.
  - etrans; [|apply le_n_S, (map_subseteq_size live), map_filter_subseteq].
    destruct (live !! id) eqn:Hl.
    + rewrite map_size_insert, Hl. simpl. lia.
    + rewrite map_size_insert, Hl. simpl. lia.
Qed.

Lemma Report_sound t clientID demand now visit :
  trackerOk t → Forall entryOk demand → Z.of_nat (length demand) ≤ maxEntries →
  Z.of_nat (size (replicas t)) < maxEntries →
  let t' := (Report t clientID demand now visit).2 in
  (∀ k m, replicaOrder t' (visit k m)) →
  trackerOk t' ∧
  match (Report t clientID demand now visit).1 with
  | Err _ => t' = t
  | Ok (shares, _) =>
      let ok m sh := promised (Z.of_nat (size (replicas t')))
                       (demandOf t' (pb.Share_Target sh) m (trim_space clientID)) in
      Forall (λ sh, Limiter.shareOk sh ∧ ok Requests sh (pb.RpmFraction sh) ∧
                    ok Tokens sh (pb.TpmFraction sh)) shares
  end.
Proof.
  intros Ht Hd Hlen Hsize t' Hvisit.
  destruct (Report_tracker t clientID demand now visit Ht Hd Hlen) as [Ht' Hsize'].
  fold t' in Ht', Hsize'. split; [done|].
  assert (is_Some (replicas t' !! trim_space clientID) ∨ t' = t) as Hin.
  { unfold t', Report. destruct (String.eqb _ ""); [by right|left].
    destruct (match expire _ _ _ !! _ with Some r => _ | None => _ end) as [r ok].
    destruct (foldl addDemand (∅, ∅) demand). cbn [snd replicas withReplicas]. by rewrite lookup_insert_eq. }
  revert Hvisit Hin. unfold t' in *. clear t'. unfold Report in *.
  destruct (String.eqb (trim_space clientID) "") eqn:Hid; [done|].
  destruct (match expire _ _ _ !! _ with Some r => _ | None => _ end) as [r ok].
  destruct (foldl addDemand (∅, ∅) demand) as [latestReq latestTok]. cbn [fst snd] in *.
  set (t' := withReplicas t _) in *. intros Hvisit _.
  assert (is_Some (replicas t' !! trim_space clientID)) as Hin
    by (unfold t'; cbn [replicas withReplicas]; by rewrite lookup_insert_eq).
  assert (1 ≤ Z.of_nat (size (replicas t')) ≤ maxEntries) as Hn.
  { split; [|lia]. destruct Hin as [r' Hr']. assert (size (replicas t') ≠ O); [|lia].
    intros Hz%map_size_empty_inv. by rewrite Hz in Hr'. }
  apply Forall_fmap, Forall_forall. intros k _. unfold compose. cbn [pb.RpmFraction pb.TpmFraction].
  assert (∀ m, Z.of_nat (length (visit k m)) ≤ maxEntries ∧ trim_space clientID ∈ visit k m) as Hv.
  { intros m. split; [|by eapply replicaOrder_elem].
    rewrite (replicaOrder_length t') by done. apply Hn. }
  destruct (Hv Requests) as [HlR HiR], (Hv Tokens) as [HlT HiT].
  split; [|split; by apply fraction_promised].
  split; apply nonneg_fraction_ok; by apply (fraction_sound t').
Qed.

(** ** Properties *)

(** C14: the answer to a report has sound shares. Whatever the replicas have
    reported and in whatever order the tracker sums it, every fraction is a number
    that a limiter accepts, at least the replica's part of the promised floor, and at
    most one but for one part in [2 ^ 49] of rounding, unless the replica's own average
    has faded below [2 ^ -1021], when it is still at most 1.1; the sums and averages
    stay finite, so the next answer is sound as well. Reports have at most [2 ^ 36]
    entries, the tracker as many replicas. *)
Theorem Report_shares_sound t clientID demand now visit :
  trackerOk t → Forall entryOk demand → Z.of_nat (length demand) ≤ maxEntries →
  Z.of_nat (size (replicas t)) < maxEntries →
  let t' := (Report t clientID demand now visit).2 in
  (∀ k m, replicaOrder t' (visit k m)) →
  trackerOk t' ∧
  match (Report t clientID demand now visit).1 with
  | Err _ => t' = t
  | Ok (shares, _) =>
      let ok m sh := promised (Z.of_nat (size (replicas t')))
                       (demandOf t' (pb.Share_Target sh) m (trim_space clientID)) in
      Forall (λ sh, Limiter.shareOk sh ∧ ok Requests sh (pb.RpmFraction sh) ∧
                    ok Tokens sh (pb.TpmFraction sh)) shares
  end.
Proof. exact (Report_sound t clientID demand now visit). Qed.

End reports.

Lemma NewShareTracker_ok : trackerOk NewShareTracker.
Proof. split; [done|]. apply map_Forall_empty. Qed.

Lemma small_report t id target req tok now visit :
  trackerOk t → 0 ≤ req ≤ 1000 → 0 ≤ tok ≤ 1000 →
  trackerOk (Report t id [Some (pb.mkTargetDemand target req tok)] now visit).2.
Proof.
  intros Ht Hr Hk. refine (proj1 (Report_tracker t id _ now visit Ht _ _)).
  - repeat constructor; simpl; unfold min_int64, max_int64; lia.
  - simpl. unfold maxEntries. lia.
Qed.

Definition sampleReport : result (list pb.TargetShare * Z) * ShareTracker :=
  Report NewShareTracker "replica-1" [Some (pb.mkTargetDemand "eu/flash" 9 700)] 0
    (λ _ _, ["replica-1"]).

(** The lone replica's share, from below and from above. *)
Lemma Report_shares_sound_witness :
  match sampleReport.1 with
  | Err _ => False
  | Ok (shares, _) => Forall (λ sh, f64_leb DefaultShareFloor (pb.RpmFraction sh) = true ∧
      f64_leb (pb.RpmFraction sh) aboutOne = true) shares
  end.
Proof.
  pose proof (Report_shares_sound NewShareTracker "replica-1"
    [Some (pb.mkTargetDemand "eu/flash" 9 700)] 0 (λ _ _, ["replica-1"]) NewShareTracker_ok) as H.
  cbn zeta in H. fold sampleReport in H.
  assert (Forall entryOk [Some (pb.mkTargetDemand "eu/flash" 9 700)]) as Hd by (by repeat constructor).
  specialize (H Hd ltac:(by vm_compute) ltac:(by vm_compute)).
  assert (∀ k m, replicaOrder sampleReport.2 ((λ (_ : string) (_ : metric), ["replica-1"]) k m)) as Ho.
  { intros k m. unfold replicaOrder.
    replace ((map_to_list _).*1) with ["replica-1"] by (by vm_compute). reflexivity. }
  destruct (H Ho) as [_ Hshares]. clear H Ho. revert Hshares.
  assert (match sampleReport.1 with
          | Ok (shares, _) => (pb.Share_Target <$> shares) = ["eu/flash"]
          | Err _ => False
          end) as Htargets by (by vm_compute).
  revert Htargets. destruct sampleReport.1 as [[shares active]|e]; [|done]. intros Htargets Hshares.
  destruct shares as [|sh [|]]; [done| |done]. injection Htargets as Htarget.
  apply Forall_singleton. apply Forall_singleton in Hshares as (_ & (Hlow & _ & Hhigh) & _).
  rewrite Htarget in *. split; [|by apply Hhigh; vm_compute].
  replace DefaultShareFloor with (floorFraction (Z.of_nat (size (replicas sampleReport.2))))
    by (by vm_compute). exact Hlow.
Defined.

(** A lone replica whose average has been halved down to the smallest number. *)
Definition fadedReplica : ShareTracker :=
  withReplicas NewShareTracker
    {["replica-1" := mkReplicaDemand 0 {["eu/flash" := S754_finite false 1 (-1074)]} ∅]}.

Lemma faded_replica_overshoots :
  f64_ltb f64_one (fraction fadedReplica "replica-1" "eu/flash" Requests ["replica-1"]) = true ∧
  fraction fadedReplica "replica-1" "eu/flash" Requests ["replica-1"] = oneAndFloor.
Proof. split; vm_compute; reflexivity. Qed.

End ShareBounds.
