(* ===== verification/ShareFleet.v ===== *)
(** * The shares of the whole fleet

    The fractions that [pkg/controlplane/shares.go] computes for all replicas add
    up to one, up to the rounding of the floating-point operations, and the
    allowances that the limiters make of them add up to the configured allowance,
    up to one unit per replica. *)

From S2P Require Import Prelude GoStrings GoFloat GoRound Quota Config Bucket Limiter Shares.
From S2P Require Import ShareBounds.
From stdpp Require Import options.
Import Shares ShareBounds.

Module ShareFleet.

(** ** Relative errors

    [near k x y]: [x] is [y] up to [k] parts in [2 ^ 52]. *)

Definition parts : Z := 2 ^ 52.

Definition near (k x y : Z) : Prop := (parts - k) * y ≤ parts * x ≤ (parts + k) * y.

Section near.
Implicit Types x y z c : Z.

Lemma near_refl x : near 0 x x.
Proof. unfold near. lia. Qed.

Lemma near_mono k l x y : 0 ≤ y → k ≤ l → near k x y → near l x y.
Proof. unfold near. nia. Qed.

Lemma near_trans k l x y z :
  0 ≤ z → 0 ≤ k ≤ parts → 0 ≤ l → k * l ≤ parts → near k x y → near l y z → near (k + l + 1) x z.
Proof.
  unfold near, parts. intros Hz Hk Hl Hkl [H1 H2] [H3 H4].
  assert (2 ^ 52 * ((2 ^ 52 - k) * y) ≤ 2 ^ 52 * (2 ^ 52 * x)) by lia.
  assert ((2 ^ 52 - k) * ((2 ^ 52 - l) * z) ≤ (2 ^ 52 - k) * (2 ^ 52 * y)) by nia.
  assert ((2 ^ 52 + k) * (2 ^ 52 * y) ≤ (2 ^ 52 + k) * ((2 ^ 52 + l) * z)) by nia.
  assert (0 ≤ k * l * z ≤ 2 ^ 52 * z) by nia. nia.
Qed.

Lemma near_scale k c x y : 0 ≤ c → near k x y → near k (c * x) (c * y).
Proof. unfold near. nia. Qed.

Lemma near_unscale k c x y : 0 < c → near k (c * x) (c * y) → near k x y.
Proof. unfold near. nia. Qed.

Lemma near_add k x y x' y' : near k x y → near k x' y' → near k (x + x') (y + y').
Proof. unfold near. lia. Qed.

Lemma near_abs k x y : near k x y ↔ parts * Z.abs (x - y) ≤ k * y.
Proof. unfold near, parts. lia. Qed.

End near.

Lemma sumZ_near {A} k (f g : A → Z) l : (∀ a, a ∈ l → near k (f a) (g a)) → near k (sumZ f l) (sumZ g l).
Proof.
  induction l as [|a l IH]; intros Hn; simpl; [unfold near; lia|].
  apply near_add; [apply Hn, list_elem_of_here|apply IH; intros; by apply Hn, list_elem_of_further].
Qed.

(** ** The sum of the demands *)

Lemma rounds_rel N D r :
  0 < D → 0 ≤ N → rounds N D r → nonneg r → N = 0 ∨ D = 1 ∨ D * parts ≤ N →
  near 1 (units r * D) N.
Proof.
  intros HD HN Hr Hn Hnormal. apply near_abs. rewrite Z.mul_1_l. by apply rounds_error.
Qed.

Definition demandUnits (f : string → float64) (l : list string) : Z := sumZ (λ id, units (f id)) l.

Lemma total_from (f : string → float64) order acc i s :
  0 ≤ i → i + Z.of_nat (length order) ≤ maxEntries → (∀ id, demandOk (f id)) →
  nonneg acc → units acc ≤ i * 2 ^ (99 - emin) → near (2 * i) (units acc) s → 0 ≤ s →
  near (2 * (i + Z.of_nat (length order)))
    (units (foldl (λ total id, f64_add total (f id)) acc order)) (s + demandUnits f order).
Proof.
  intros Hi Hlen Hf. revert acc i s Hi Hlen.
  induction order as [|id order IH]; intros acc i s Hi Hlen Hacc Hle Hnear Hs;
    unfold demandUnits in *; cbn [foldl sumZ foldr].
  - by rewrite !Z.add_0_r.
  - rewrite length_cons in *. destruct (Hf id) as [Hn Hu]. pose proof (units_nonneg _ Hn) as Hn0.
    assert (units acc + units (f id) ≤ (i + 1) * 2 ^ (99 - emin)) as Hsum.
    { rewrite Z.mul_add_distr_r, Z.mul_1_l. by apply Z.add_le_mono. }
    assert (0 ≤ i + 1 ≤ 2 ^ 53) as Hi1 by (clear -Hi Hlen; unfold maxEntries in *; lia).
    assert (0 ≤ 99 - emin ≤ 1200) as Hexp by (clear; by unfold emin).
    destruct (add_le acc (f id) (i + 1) (99 - emin) Hacc Hn Hi1 Hexp Hsum) as [Hn' Hle'].
    pose proof (units_nonneg _ Hacc) as Hacc0.
    assert (near 1 (units (f64_add acc (f id)) * 1) (units acc + units (f id))) as Hstep.
    { apply rounds_rel; [done|lia|by apply add_rounds|done|by right; left]. }
    rewrite Z.mul_1_r in Hstep.
    assert (near (2 * i) (units acc + units (f id)) (s + units (f id))) as Hadd.
    { apply near_add; [done|]. apply (near_mono 0); [done|lia|apply near_refl]. }
    rewrite Z.add_assoc. replace (i + Z.of_nat (S (length order))) with (i + 1 + Z.of_nat (length order)) by lia.
    apply IH; [lia|unfold maxEntries in *; lia|done|done| |lia].
    replace (2 * (i + 1)) with (1 + 2 * i + 1) by lia.
    apply (near_trans _ _ _ (units acc + units (f id))); try done; unfold maxEntries, parts in *; lia.
Qed.

Lemma total_near (f : string → float64) order :
  Z.of_nat (length order) ≤ maxEntries → (∀ id, demandOk (f id)) →
  near (2 * Z.of_nat (length order)) (units (sumOf f order)) (demandUnits f order).
Proof.
  intros Hlen Hf. by apply (total_from f order f64_zero 0 0).
Qed.

(** ** The sum of the weighted quotients *)

(** At most so many replicas, and a total demand at which no quotient is smaller
    than the normal numbers. *)
Definition fleetSize : Z := 2 ^ 24.
Definition leastDemand : Z := 2 ^ (-800 - emin).

Lemma quotient_rel n S p T q :
  0 ≤ n ≤ fleetSize → 0 ≤ q → near (2 * n) T S → parts * Z.abs (q * T - p) ≤ p + parts * T →
  (parts - 2 * n) * (S * q) ≤ (parts + 1) * p + (parts + 2 * n) * S ∧
  (parts - 1) * p - (parts + 2 * n) * S ≤ (parts + 2 * n) * (S * q).
Proof.
  unfold near, parts, fleetSize. intros Hn Hq [H1 H2] H.
  assert ((2 ^ 52 - 2 * n) * S * q ≤ 2 ^ 52 * T * q) by nia.
  assert (2 ^ 52 * T * q ≤ (2 ^ 52 + 2 * n) * S * q) by nia.
  split; lia.
Qed.

Lemma quotients_arith n S a Y :
  0 ≤ n ≤ fleetSize → 0 ≤ a → 0 ≤ Y → n * ((parts + 2 * n) * S) ≤ a →
  (parts - 2 * n) * Y ≤ (parts + 1) * a + n * ((parts + 2 * n) * S) →
  (parts - 1) * a - n * ((parts + 2 * n) * S) ≤ (parts + 2 * n) * Y →
  near (2 * n + 3) Y a.
Proof.
  unfold near, parts, fleetSize. intros Hn Ha HY Hsmall H1 H2.
  assert ((2 ^ 52 - 2 * n) * Y ≤ (2 ^ 52 + 2) * a) as H3 by lia.
  assert ((2 ^ 52 - 2) * a ≤ (2 ^ 52 + 2 * n) * Y) as H4 by lia.
  clear H1 H2 Hsmall. split.
  - assert ((2 ^ 52 - (2 * n + 3)) * (2 ^ 52 + 2 * n) ≤ 2 ^ 52 * (2 ^ 52 - 2)) as Hc by nia.
    assert ((2 ^ 52 - (2 * n + 3)) * (2 ^ 52 + 2 * n) * a ≤ 2 ^ 52 * (2 ^ 52 - 2) * a) by nia.
    assert (2 ^ 52 * ((2 ^ 52 - 2) * a) ≤ 2 ^ 52 * ((2 ^ 52 + 2 * n) * Y)) by lia.
    nia.
  - assert (2 ^ 52 * (2 ^ 52 + 2) ≤ (2 ^ 52 + (2 * n + 3)) * (2 ^ 52 - 2 * n)) as Hc by nia.
    assert (2 ^ 52 * (2 ^ 52 + 2) * a ≤ (2 ^ 52 + (2 * n + 3)) * (2 ^ 52 - 2 * n) * a) by nia.
    assert (2 ^ 52 * ((2 ^ 52 - 2 * n) * Y) ≤ 2 ^ 52 * ((2 ^ 52 + 2) * a)) by lia.
    nia.
Qed.

Section fleet.
Context (d : string → float64) (ids : list string) (order : string → list string).
Context (Hd : ∀ id, demandOk (d id)) (Hlen : 1 ≤ Z.of_nat (length ids) ≤ fleetSize).
Context (Horder : ∀ id, order id ≡ₚ ids) (Hleast : leastDemand ≤ demandUnits d ids).

#[local] Notation n := (Z.of_nat (length ids)).
#[local] Notation S0 := (demandUnits d ids).
#[local] Notation T := (λ id, sumOf d (order id)).
#[local] Notation p := (λ id, f64_mul weight (d id)).
#[local] Notation q := (λ id, weightedFraction (d id) (sumOf d (order id))).

Lemma fleet_entries : n ≤ maxEntries.
Proof using Hlen. clear -Hlen. unfold fleetSize, maxEntries in *. lia. Qed.

Lemma fleet_total id : nonneg (T id) ∧ near (2 * n) (units (T id)) S0.
Proof using Hd Hlen Horder.
  assert (Z.of_nat (length (order id)) = n) as Hl by (by rewrite Horder).
  pose proof fleet_entries. split.
  - apply sum_ok; [lia|done].
  - unfold demandUnits. rewrite <- (Horder id). apply total_near; [lia|done].
Qed.

Lemma fleet_total_pos id : 0 < units (T id).
Proof using Hd Hlen Horder Hleast.
  destruct (fleet_total id) as [Hn [Hlow _]]. assert (0 < leastDemand) by (by apply pow2_pos).
  clear Hd Horder. unfold fleetSize, parts in *. nia.
Qed.

Lemma fleet_product id :
  nonneg (p id) ∧ parts * Z.abs (unit * units (p id) - units weight * units (d id)) ≤
    units weight * units (d id) + parts * unit ∧ units (p id) ≤ units (d id).
Proof using Hd.
  destruct (mul_weight (d id) (Hd id)) as (Hn & Hle & Hr). split; [done|]. split; [|done].
  rewrite (Z.mul_comm unit). apply rounds_near; [apply unit_pos| |done|done].
  apply Z.mul_nonneg_nonneg; apply units_nonneg; [apply weight_ok|apply Hd].
Qed.

Lemma fleet_quotient id :
  id ∈ ids → nonneg (q id) ∧ units (q id) ≤ unit ∧
  parts * Z.abs (units (q id) * units (T id) - unit * units (p id)) ≤
    unit * units (p id) + parts * units (T id).
Proof using Hd Hlen Horder Hleast.
  intros Hid. destruct (fleet_product id) as (Hp & _ & Hle). pose proof (fleet_total_pos id) as Hpos.
  destruct (fleet_total id) as [Ht _].
  assert (units (p id) ≤ units (T id)) as Hpt.
  { etrans; [exact Hle|]. apply sum_ok; [|done|by rewrite Horder].
    rewrite Horder. apply fleet_entries. }
  destruct (div_total (p id) (T id) Hp Ht Hpos Hpt) as (Hq & Hq1 & Hr). split; [done|].
  split; [done|]. rewrite (Z.mul_comm unit). apply rounds_near; [done| |done|done].
  apply Z.mul_nonneg_nonneg; [by apply units_nonneg|]. pose proof unit_pos. lia.
Qed.

Lemma weight_large : unit ≤ 2 * units weight ∧ 2 ^ 80 ≤ units weight ∧ 2 ^ 80 ≤ leastDemand.
Proof. split_and!; apply Z.leb_le; by vm_compute. Qed.

Lemma fleet_products : near 2 (unit * sumZ (λ id, units (p id)) ids) (units weight * S0).
Proof using Hd Hlen Hleast.
  assert (parts * Z.abs (unit * sumZ (λ id, units (p id)) ids - units weight * S0) ≤
          units weight * S0 + parts * unit * n) as Habs.
  { unfold demandUnits. rewrite <- !sumZ_scale.
    replace (sumZ _ ids + parts * unit * n)
      with (sumZ (λ id, units weight * units (d id) + parts * unit) ids)
      by (by rewrite sumZ_add, sumZ_const).
    apply sumZ_abs; [done|]. intros id _. by destruct (fleet_product id) as (_ & ? & _). }
  apply near_abs. etrans; [exact Habs|].
  destruct weight_large as (H1 & H2 & H3). pose proof unit_pos as Hu.
  assert (2 ^ 80 ≤ S0) as HS by (etrans; [exact H3|exact Hleast]). revert Habs. clear -Hlen H1 H2 HS Hu.
  generalize dependent unit. generalize dependent (units weight). generalize dependent S0.
  intros s Hs W HW u Hu Hu0 _. unfold fleetSize, parts in *.
  assert (2 ^ 52 * u * n ≤ 2 ^ 76 * (2 * W)) by nia. nia.
Qed.

Lemma fleet_quotients : near (2 * n + 6) (sumZ (λ id, units (q id)) ids) (units weight).
Proof using Hd Hlen Horder Hleast.
  set (a := unit * sumZ (λ id, units (p id)) ids).
  set (Q := sumZ (λ id, units (q id)) ids).
  assert (∀ id, id ∈ ids → 0 ≤ units (q id)) as Hq0.
  { intros id Hid. apply units_nonneg. exact (proj1 (fleet_quotient id Hid)). }
  assert (0 ≤ Q) as HQ by (by apply sumZ_nonneg).
  destruct weight_large as (_ & H2 & H3).
  assert (2 ^ 80 ≤ S0) as HS by (etrans; [exact H3|exact Hleast]).
  pose proof fleet_products as Hprod. fold a in Hprod.
  assert (0 ≤ n ≤ fleetSize) as Hn by lia.
  assert (∀ id, id ∈ ids → 
    (parts - 2 * n) * (S0 * units (q id)) ≤ (parts + 1) * (unit * units (p id)) + (parts + 2 * n) * S0 ∧
    (parts - 1) * (unit * units (p id)) - (parts + 2 * n) * S0 ≤ (parts + 2 * n) * (S0 * units (q id)))
    as Hone.
  { intros id Hid. destruct (fleet_quotient id Hid) as (_ & _ & Herr).
    apply (quotient_rel n S0 _ (units (T id))); [done|by apply Hq0|by apply fleet_total|done]. }
  assert ((parts - 2 * n) * (S0 * Q) ≤ (parts + 1) * a + n * ((parts + 2 * n) * S0)) as Hup.
  { unfold Q, a. rewrite <- !sumZ_scale, (Z.mul_comm n), <- (sumZ_const ((parts + 2 * n) * S0)), <- sumZ_add.
    apply sumZ_le. intros id Hid. exact (proj1 (Hone id Hid)). }
  assert ((parts - 1) * a - n * ((parts + 2 * n) * S0) ≤ (parts + 2 * n) * (S0 * Q)) as Hlow.
  { enough ((parts - 1) * a ≤ (parts + 2 * n) * (S0 * Q) + n * ((parts + 2 * n) * S0)) by lia.
    unfold Q, a. rewrite <- !sumZ_scale, (Z.mul_comm n), <- (sumZ_const ((parts + 2 * n) * S0)), <- sumZ_add.
    apply sumZ_le. intros id Hid. destruct (Hone id Hid). lia. }
  revert Hprod Hup Hlow. clear -Hn H2 HS HQ. generalize dependent (units weight).
  generalize dependent S0. intros s Hs W HW [Hp1 Hp2] Hup Hlow.
  assert (near (2 * n + 3) (s * Q) a) as H1.
  { apply (quotients_arith n s); try done; unfold fleetSize, parts in *; nia. }
  apply (near_unscale _ s); [lia|]. rewrite (Z.mul_comm s W).
  replace (2 * n + 6) with (2 * n + 3 + 2 + 1) by lia.
  apply (near_trans _ _ _ a); unfold fleetSize, parts in *; (done || nia).
Qed.

(** Each replica's part of a constant. *)
Lemma fleet_part x :
  nonneg x → units x ≤ unit → units x = 0 ∨ 2 ^ 80 ≤ units x →
  nonneg (f64_div x (f64_of_Z n)) ∧ units (f64_div x (f64_of_Z n)) ≤ unit ∧
  near 1 (sumZ (λ _, units (f64_div x (f64_of_Z n))) ids) (units x).
Proof using Hlen.
  intros Hx Hx1 Hx2. destruct (div_count x n) as (Hq & Hq1 & Hr);
    [done|done|split; [lia|apply fleet_entries]|]. split; [done|]. split; [done|].
  pose proof unit_pos as Hu. pose proof (units_nonneg x Hx) as Hx0.
  assert (near 1 (units (f64_div x (f64_of_Z n)) * (n * unit)) (units x * unit)) as Hnear.
  { apply rounds_rel; [apply Z.mul_pos_pos; lia|apply Z.mul_nonneg_nonneg; lia|done|done|].
    destruct Hx2 as [->|Hx2]; [by left|right; right]. clear -Hx2 Hlen Hu.
    unfold fleetSize, parts in *. generalize dependent unit. intros u Hu. nia. }
  rewrite sumZ_const. apply (near_unscale _ unit); [done|].
  rewrite (Z.mul_comm unit (units x)). revert Hnear. unfold near. clear. lia.
Qed.

Lemma floor_and_weight : near 1 (units DefaultShareFloor + units weight) unit.
Proof. split; apply Z.leb_le; by vm_compute. Qed.

Lemma floor_large : 2 ^ 80 ≤ units DefaultShareFloor.
Proof. apply Z.leb_le. by vm_compute. Qed.

Lemma fleet_sum :
  near (2 * n + 10) (sumZ (λ id, units (f64_add (floorFraction n) (q id))) ids) unit.
Proof using Hd Hlen Horder Hleast.
  destruct floor_ok as [Hf [Hf0 Hf1]]. pose proof unit_pos as Hu.
  destruct (fleet_part DefaultShareFloor Hf Hf1 (or_intror floor_large)) as (Hq & Hq1 & Hfloor).
  fold (floorFraction n) in *.
  assert (0 ≤ units weight) as Hw by apply units_nonneg, weight_ok.
  assert (near (2 * n + 6) (sumZ (λ id, units (floorFraction n) + units (q id)) ids)
    (units DefaultShareFloor + units weight)) as Hparts.
  { rewrite sumZ_add. apply near_add; [|apply fleet_quotients].
    apply (near_mono 1); [lia|lia|exact Hfloor]. }
  assert (near 1 (sumZ (λ id, units (f64_add (floorFraction n) (q id))) ids)
    (sumZ (λ id, units (floorFraction n) + units (q id)) ids)) as Hadd.
  { apply sumZ_near. intros id Hid. destruct (fleet_quotient id Hid) as (Hqn & Hqn1 & _).
    pose proof (units_nonneg _ Hq). pose proof (units_nonneg _ Hqn).
    pose proof (add_unit _ _ Hq Hq1 Hqn Hqn1) as Hs.
    rewrite <- (Z.mul_1_r (units (f64_add _ _))).
    apply rounds_rel; [done|lia|by apply add_rounds|done|by right; left]. }
  replace (2 * n + 10) with (1 + (2 * n + 8) + 1) by lia.
  eapply near_trans; [lia| |lia| |exact Hadd|];
    [clear -Hlen; unfold fleetSize, parts in *; lia..|].
  replace (2 * n + 8) with (2 * n + 6 + 1 + 1) by lia.
  eapply near_trans; [lia| |lia| |exact Hparts|exact floor_and_weight];
    clear -Hlen; unfold fleetSize, parts in *; lia.
Qed.

End fleet.

(** ** The fractions *)

(** The fleet's demand for a target: no replica has any, or some replica has at
    least [2 ^ -800]. A positive average that is never renewed falls below that
    after 800 reports, more than two hours. *)
Definition settled (t : ShareTracker) (target : string) (m : metric) : Prop :=
  (∀ id, units (demandOf t target m id) = 0) ∨
  ∃ id, leastDemand ≤ units (demandOf t target m id).

Definition replicaIds (t : ShareTracker) : list string := (map_to_list (replicas t)).*1.

Lemma fractions_near t target m order :
  trackerOk t → 1 ≤ Z.of_nat (size (replicas t)) ≤ fleetSize →
  settled t target m → (∀ id, replicaOrder t (order id)) →
  near (2 * Z.of_nat (size (replicas t)) + 10)
    (sumZ (λ id, units (fraction t id target m (order id))) (replicaIds t)) unit.
Proof.
  intros Ht Hn Hs Ho. set (d := demandOf t target m).
  assert (length (replicaIds t) = size (replicas t)) as Hl
    by (unfold replicaIds; by rewrite length_fmap, length_map_to_list).
  assert (∀ id, demandOk (d id)) as Hd by (intros; by apply demandOf_ok).
  assert (∀ id, id ∈ replicaIds t → 0 ≤ units (d id)) as Hd0 by (intros; apply units_nonneg, Hd).
  assert (Z.of_nat (size (replicas t)) ≤ maxEntries) as Hmax
    by (unfold fleetSize, maxEntries in *; lia).
  assert (∀ id, fraction t id target m (order id) =
    if units (sumOf d (order id)) =? 0 then evenFraction (Z.of_nat (size (replicas t)))
    else f64_add (floorFraction (Z.of_nat (size (replicas t)))) (weightedFraction (d id) (sumOf d (order id)))) as Hf.
  { intros id. apply fraction_cases; [done|lia|]. by rewrite (replicaOrder_length t) by done. }
  erewrite sumZ_ext by (intros; by rewrite Hf). clear Hf. rewrite <- Hl in *.
  assert (∀ id, near (2 * Z.of_nat (length (replicaIds t))) (units (sumOf d (order id)))
    (demandUnits d (replicaIds t))) as Htot by (intros id; by apply fleet_total).
  destruct Hs as [Hz|[id Hid]].
  - assert (demandUnits d (replicaIds t) = 0) as Hzero.
    { unfold demandUnits. rewrite (sumZ_ext _ (λ _, 0)) by (intros; apply Hz). by rewrite sumZ_const. }
    erewrite sumZ_ext.
    + destruct (fleet_part (replicaIds t) Hn f64_one) as (_ & _ & Hone); [by vm_compute..| |].
      { right. apply Z.leb_le. by vm_compute. }
      replace (units f64_one) with unit in Hone by (by vm_compute).
      apply (near_mono 1); [apply Z.lt_le_incl, unit_pos|lia|exact Hone].
    + intros id _. cbv beta. specialize (Htot id). rewrite Hzero in Htot.
      assert (units (sumOf d (order id)) = 0) as -> by (unfold near, parts in Htot; lia). done.
  - assert (leastDemand ≤ demandUnits d (replicaIds t)) as Hleast.
    { etrans; [exact Hid|]. apply (sumZ_elem (λ id, units (d id))); [done|].
      apply list_elem_of_fmap. unfold d, demandOf in Hid.
      assert (0 < leastDemand) as Hpos by (by apply pow2_pos).
      destruct (replicas t !! id) as [r|] eqn:Hr; [|change (units f64_zero) with 0 in Hid; lia].
      exists (id, r). by rewrite elem_of_map_to_list. }
    erewrite sumZ_ext; [by apply fleet_sum|]. intros id' _. cbv beta.
    pose proof (fleet_total_pos d (replicaIds t) order Hd Hn Ho Hleast id') as Hpos.
    by destruct (Z.eqb_spec (units (sumOf d (order id'))) 0); [lia|].
Qed.

(** ** What the limiters make of the fractions *)

Section allowances.
Context `{GoArch}.

Lemma scaled_near L f :
  0 < L ≤ Limiter.maxLimit → nonneg f → 2 ^ 80 ≤ units f ≤ unit →
  let x := f64_mul (f64_of_Z L) f in
  nonneg x ∧ units x ≤ 2 ^ 53 * unit ∧ near 1 (units x) (L * units f).
Proof.
  intros HL Hf Hu x. unfold Limiter.maxLimit in HL. pose proof unit_pos as Hup.
  destruct (of_Z_units L ltac:(lia)) as [HLn HLu].
  pose proof (mul_rounds _ _ HLn Hf) as Hr. fold x in Hr. rewrite HLu in Hr.
  assert (0 ≤ L * unit * units f) as HN
    by (apply Z.mul_nonneg_nonneg; [apply Z.mul_nonneg_nonneg; lia|by apply units_nonneg]).
  assert (L * unit * units f ≤ L * 2 ^ (- emin) * unit) as Hle.
  { fold unit. apply Z.mul_le_mono_nonneg_l; [apply Z.mul_nonneg_nonneg; lia|apply Hu]. }
  assert (L * 2 ^ (- emin) ≤ 2 ^ 53 * unit) as Hmax.
  { fold unit. apply Z.mul_le_mono_nonneg_r; lia. }
  assert (nonneg x) as Hx.
  { apply (rounds_finite (L * unit * units f) unit); [done|done|exact Hr|].
    eapply Z.le_lt_trans; [exact Hle|]. rewrite (Z.mul_comm unit). apply Z.mul_lt_mono_pos_r; [done|].
    eapply Z.le_lt_trans; [exact Hmax|by vm_compute]. }
  split; [done|]. split.
  - etrans; [|exact Hmax]. assert (0 ≤ L ≤ 2 ^ 53 ∧ 0 ≤ - emin) as HLb by (split; [lia|done]).
    destruct HLb as [HL1 HL2]. exact (rounds_le _ _ _ Hup HN Hr L (- emin) Hx HL1 HL2 Hle).
  - apply (near_unscale _ unit); [done|]. rewrite (Z.mul_comm unit), Z.mul_assoc, (Z.mul_comm unit L).
    apply rounds_rel; [done|done|exact Hr|done|]. right. right. unfold parts.
    revert Hu Hup. clear -HL. generalize dependent unit. intros u [Hu _] Hup. assert (2 ^ 52 ≤ L * units f) by nia. nia.
Qed.

(** A fraction above one counts as one. *)
Definition scaled (L : Z) (f : float64) : Z :=
  units (f64_mul (f64_of_Z L) (if unit <? units f then f64_one else f)).

Lemma fractionOf_near L f :
  0 < L ≤ Limiter.maxLimit → nonneg f → 2 ^ 80 ≤ units f →
  let x := scaled L f in
  near 1 x (L * Z.min (units f) unit) ∧
    x - unit < Limiter.fractionOf L f * unit ≤ x + unit ∧
    (unit ≤ x → Limiter.fractionOf L f * unit ≤ x).
Proof.
  intros HL Hf Hu. pose proof unit_pos as Hup. unfold scaled, Limiter.fractionOf.
  assert (L <=? 0 = false) as -> by lia.
  assert (f64_leb f f64_zero = false) as ->.
  { rewrite nonneg_leb by done. change (units f64_zero) with 0. lia. }
  assert (nonneg f64_one ∧ units f64_one = unit) as [H1 H1u] by (by vm_compute).
  assert (f64_ltb f64_one f = (unit <? units f)) as -> by (by rewrite nonneg_ltb, H1u). cbn [orb].
  assert (2 ^ 80 ≤ unit) as Hbig by (apply Z.leb_le; by vm_compute).
  set (f' := if unit <? units f then f64_one else f).
  assert (nonneg f' ∧ units f' = Z.min (units f) unit) as [Hf' Hfu].
  { unfold f'. destruct (Z.ltb_spec unit (units f)); split; try done; lia. }
  destruct (scaled_near L f' HL Hf') as (Hx & Hxmax & Hnear); [rewrite Hfu; lia|].
  rewrite <- Hfu. split; [done|].
  destruct (nonneg_trunc _ Hx Hxmax) as (Hi & Hlo & Hhi).
  set (x := units _) in *. set (i := int64_of_f64 _) in *. clearbody x i.
  revert Hup Hi Hlo Hhi. clear. generalize unit. intros u. nia.
Qed.

(** The floor's part of every replica. *)
Lemma floor_part_near n :
  1 ≤ n ≤ fleetSize →
  nonneg (floorFraction n) ∧ 2 ^ 80 ≤ units (floorFraction n) ∧
  near 1 (n * units (floorFraction n)) (units DefaultShareFloor).
Proof.
  intros Hn. destruct floor_ok as [Hf [Hf0 Hf1]].
  pose (ids := replicate (Z.to_nat n) ""). assert (Z.of_nat (length ids) = n) as Hl
    by (unfold ids; rewrite length_replicate; lia).
  destruct (fleet_part ids) with (x := DefaultShareFloor) as (Hq & _ & Hnear);
    [by rewrite Hl|done|done|right; exact floor_large|].
  rewrite sumZ_const, Hl, Z.mul_comm in Hnear. rewrite Hl in Hq.
  fold (floorFraction n) in Hq, Hnear. split; [done|]. split; [|done].
  assert (2 ^ 110 ≤ units DefaultShareFloor) as Hbig by (apply Z.leb_le; by vm_compute).
  destruct Hnear as [Hlow _]. revert Hlow. clear -Hn Hbig. unfold parts, fleetSize in *.
  generalize dependent (units (floorFraction n)). generalize dependent (units DefaultShareFloor). nia.
Qed.

(** An allowance of at least eleven units per replica gives every replica one by
    its part of the floor alone. *)
Lemma floor_part_unit L n f x :
  1 ≤ n ≤ fleetSize → 11 * n ≤ L → units (floorFraction n) ≤ f →
  near 1 x (L * Z.min f unit) → unit ≤ x.
Proof.
  intros Hn HL Hf [Hx _]. destruct (floor_part_near n Hn) as (_ & H0 & [Hq _]).
  assert (unit ≤ 10 * units DefaultShareFloor) as H10 by (apply Z.leb_le; by vm_compute).
  pose proof unit_pos as Hu. revert Hf Hx H0 Hq H10 Hu. clear -Hn HL. unfold parts.
  generalize (units (floorFraction n)). generalize (units DefaultShareFloor). generalize unit.
  intros u F q Hf Hx Hq0 Hq H10 Hu.
  assert (21 * u ≤ 20 * (L * Z.min f u)) as Hscaled; [|lia].
  destruct (Z.min_spec f u) as [[_ ->]|[_ ->]]; [|nia].
  assert (11 * n * q ≤ L * f) by nia. lia.
Qed.

Section granted.
Context (t : ShareTracker) (target : string) (m : metric) (order : string → list string).
Context (Ht : trackerOk t) (Hn : 1 ≤ Z.of_nat (size (replicas t)) ≤ fleetSize).
Context (Hs : settled t target m) (Ho : ∀ id, replicaOrder t (order id)).

#[local] Notation n := (Z.of_nat (size (replicas t))).
#[local] Notation f := (λ id, fraction t id target m (order id)).
#[local] Notation clamped := (λ id, Z.min (units (f id)) unit).

Lemma granted_fraction id :
  id ∈ replicaIds t → nonneg (f id) ∧ units (floorFraction n) ≤ units (f id).
Proof using Ht Hn Ho.
  intros Hid. assert (n ≤ maxEntries) by (clear -Hn; unfold fleetSize, maxEntries in *; lia).
  destruct (fraction_sound t id target m (order id)) as [Hf Hle]; [done|lia| | |].
  - by rewrite (replicaOrder_length t).
  - by rewrite (Ho id).
  - split; [done|]. destruct (floor_part_near n Hn) as (Hq & _ & _).
    rewrite nonneg_leb in Hle by done. by apply Z.leb_le.
Qed.

Lemma clamped_near : near (4 * n + 21) (sumZ clamped (replicaIds t)) unit.
Proof using Ht Hn Hs Ho.
  pose proof (fractions_near t target m order Ht Hn Hs Ho) as Hsum. pose proof unit_pos as Hu.
  assert (∀ id, id ∈ replicaIds t → 0 ≤ units (f id)) as H0.
  { intros id Hid. by apply units_nonneg, (granted_fraction id). }
  assert (near (2 * n + 10) (sumZ clamped (replicaIds t)) (sumZ (λ id, units (f id)) (replicaIds t))).
  { apply sumZ_near. intros id Hid.
    assert (parts * units (f id) ≤ (parts + (2 * n + 10)) * unit) as Hone.
    { etrans; [|apply Hsum]. apply Z.mul_le_mono_nonneg_l; [done|].
      by apply (sumZ_elem (λ id, units (f id))). }
    pose proof (H0 id Hid) as Hf0. revert Hone Hf0. unfold near, parts, fleetSize in *.
    cbv beta. clear -Hn Hu. generalize (units (fraction t id target m (order id))).
    generalize dependent unit. intros u Hu r Hr Hr0.
    destruct (Z.min_spec r u) as [[_ ->]|[Hlt ->]]; split; nia. }
  replace (4 * n + 21) with ((2 * n + 10) + (2 * n + 10) + 1) by lia.
  eapply near_trans; [lia| |lia| |eassumption|exact Hsum];
    clear -Hn; unfold fleetSize, parts in *; nia.
Qed.

(** The units of an allowance that the fleet is given together. *)
Definition granted (L : Z) : Z := sumZ (λ id, Limiter.fractionOf L (f id)) (replicaIds t).

Lemma granted_near L :
  0 < L ≤ Limiter.maxLimit → L * (4 * n + 23) < parts →
  L - n ≤ granted L ≤ L + n ∧ (11 * n ≤ L → granted L ≤ L).
Proof using Ht Hn Hs Ho.
  intros HL Hround. pose proof unit_pos as Hu.
  destruct (floor_part_near n Hn) as (Hq & Hq80 & Hqn).
  assert (Z.of_nat (length (replicaIds t)) = n) as Hl
    by (unfold replicaIds; by rewrite length_fmap, length_map_to_list).
  assert (∀ id, id ∈ replicaIds t → near 1 (scaled L (f id)) (L * clamped id) ∧
    scaled L (f id) - unit < Limiter.fractionOf L (f id) * unit ≤ scaled L (f id) + unit ∧
    (unit ≤ scaled L (f id) → Limiter.fractionOf L (f id) * unit ≤ scaled L (f id))) as Hx.
  { intros id Hid. destruct (granted_fraction id Hid) as [Hf Hle].
    by apply fractionOf_near; [..|lia]. }
  set (X := sumZ (λ id, scaled L (f id)) (replicaIds t)).
  assert (near (4 * n + 23) X (L * unit)) as HX.
  { replace (4 * n + 23) with (1 + (4 * n + 21) + 1) by lia.
    apply (near_trans _ _ _ (L * sumZ clamped (replicaIds t))).
    - apply Z.mul_nonneg_nonneg; lia.
    - clear. unfold parts. lia.
    - lia.
    - clear -Hn. unfold fleetSize, parts in *. lia.
    - rewrite <- sumZ_scale. apply sumZ_near. intros id Hid. by apply Hx.
    - apply near_scale; [lia|apply clamped_near]. }
  assert (granted L * unit ≤ X + n * unit) as Hup.
  { unfold granted, X. rewrite Z.mul_comm, <- sumZ_scale, (Z.mul_comm n), <- Hl, <- sumZ_const, <- sumZ_add.
    apply sumZ_le. intros id Hid. rewrite Z.mul_comm. by apply Hx. }
  assert (X + 1 * n ≤ granted L * unit + unit * n) as Hlow.
  { unfold granted, X. rewrite (Z.mul_comm _ unit), <- sumZ_scale, <- Hl, <- !sumZ_const, <- !sumZ_add.
    apply sumZ_le. intros id Hid. rewrite (Z.mul_comm unit). destruct (Hx id Hid) as (_ & ? & _). lia. }
  assert (11 * n ≤ L → granted L * unit ≤ X) as Hlarge.
  { intros H11. unfold granted, X. rewrite Z.mul_comm, <- sumZ_scale.
    apply sumZ_le. intros id Hid. rewrite Z.mul_comm. apply (Hx id Hid).
    destruct (granted_fraction id Hid) as [_ Hle]. apply (floor_part_unit L n (units (f id))); [done..|].
    by apply Hx. }
  revert HX Hup Hlow Hlarge. generalize (granted L) as G. intros G [HX1 HX2] Hup Hlow Hlarge.
  revert HX1 HX2 Hup Hlow Hlarge Hround Hu. clear -Hn. unfold parts. generalize unit. intros u.
  intros HX1 HX2 Hup Hlow Hlarge Hround Hu.
  assert (L * (4 * n + 23) * u < 2 ^ 52 * u) as Hk by nia.
  assert ((L - 1) * u < X < (L + 1) * u) as [Hgt Hlt] by lia.
  split; [split|intros H11; specialize (Hlarge H11)]; nia.
Qed.

End granted.

(** ** Properties *)

(** C9: the replicas of the fleet together get the configured allowance. With any
    demand, rounded at every step of the tracker's arithmetic and of the limiters',
    and with every replica's total summed in an order of its own, the allowances
    that the limiters make of the fractions differ from the configured one by at
    most a unit per replica; and they do not exceed it when there are eleven units
    or more for each replica. *)
Theorem fleet_gets_the_allowance t target m order L :
  let n := Z.of_nat (size (replicas t)) in
  trackerOk t → 1 ≤ n ≤ fleetSize → settled t target m →
  (∀ id, replicaOrder t (order id)) →
  0 < L ≤ Limiter.maxLimit → L * (4 * n + 23) < 2 ^ 52 →
  let granted := sumZ (λ id, Limiter.fractionOf L (fraction t id target m (order id)))
                      (replicaIds t) in
  L - n ≤ granted ≤ L + n ∧ (11 * n ≤ L → granted ≤ L).
Proof. intros n Ht Hn Hs Ho. exact (granted_near t target m order Ht Hn Hs Ho L). Qed.

End allowances.

(** Two replicas after a report of each. *)
Definition twoReplicas : ShareTracker :=
  (Report (Report NewShareTracker "replica-1" [Some (pb.mkTargetDemand "eu/flash" 9 700)] 0
             (λ _ _, ["replica-1"])).2
     "replica-2" [Some (pb.mkTargetDemand "eu/flash" 20 100)] second
     (λ _ _, ["replica-1"; "replica-2"])).2.

Lemma twoReplicas_ok : trackerOk twoReplicas.
Proof. apply small_report; [apply small_report; [apply NewShareTracker_ok|lia..]|lia..]. Qed.

Lemma fleet_gets_the_allowance_witness :
  58 ≤ sumZ (λ id, Limiter.fractionOf 60 (fraction twoReplicas id "eu/flash" Requests
                     (replicaIds twoReplicas))) (replicaIds twoReplicas) ≤ 60.
Proof.
  pose proof (fleet_gets_the_allowance twoReplicas "eu/flash" Requests
    (λ _, replicaIds twoReplicas) 60) as H.
  replace (Z.of_nat (size (replicas twoReplicas))) with 2 in H by (by vm_compute).
  destruct H as [[Hlow _] Hhigh].
  - apply twoReplicas_ok.
  - by vm_compute.
  - right. exists "replica-1". apply Z.leb_le. by vm_compute.
  - intros id. exact (Permutation_refl _).
  - by vm_compute.
  - by vm_compute.
  - split; [exact Hlow|]. apply Hhigh. by vm_compute.
Defined.

(** When the averages of a target that the whole fleet has stopped using have
    decayed to the smallest numbers of all, a weighted demand rounds to the demand
    itself, and the fractions add up to the floor more than one. *)
Definition fadedDemand : replicaDemand :=
  mkReplicaDemand 0 {["eu/flash" := S754_finite false 1 emin]} ∅.

Definition fadedFleet : ShareTracker :=
  withReplicas NewShareTracker {["replica-1" := fadedDemand; "replica-2" := fadedDemand]}.

Example faded_demand_oversubscribes :
  sumZ (λ id, Limiter.fractionOf 100 (fraction fadedFleet id "eu/flash" Requests
                (replicaIds fadedFleet))) (replicaIds fadedFleet) = 110.
Proof. by vm_compute. Qed.

End ShareFleet.
