(* ===== verification/FleetRate.v ===== *)
(** * What the whole fleet admits

    The configured allowance is split evenly between the data planes until the
    control plane answers their reports, and again when it cannot be reached. Every
    replica's limiter has a bucket of its own with a clock of its own; here the
    best-effort traffic that all of them admit together is bounded by the configured
    allowance. *)

From S2P Require Import Prelude GoStrings GoFloat Quota Config Bucket Limiter Shares.
From stdpp Require Import options.
Import TokenBucket Limiter.

Module FleetRate.

(** ** One dimension of a bucket and of an allowance *)

Definition capacity (m : Shares.metric) (tb : TokenBucket) : Z :=
  match m with
  | Shares.Requests => maxRPM tb
  | Shares.Tokens => maxTPM tb
  end.

Definition limitOf (m : Shares.metric) (a : Config.ModelLimit) : Z :=
  match m with
  | Shares.Requests => Config.MaxRpm a
  | Shares.Tokens => Config.MaxTpm a
  end.

Definition dimension (m : Shares.metric) (granted : Z * Z) : Z :=
  match m with
  | Shares.Requests => granted.1
  | Shares.Tokens => granted.2
  end.

(** ** The bucket of one target in a limiter's run *)

(** What the actions grant to best-effort traffic of the target [k]. *)
Definition grantedBy (k : string) (l : Limiter) (a : action) : Z * Z :=
  match a with
  | ABucket j o =>
      if decide (j = k) then from_option (λ b, (step o (now l) b).1) (0, 0) (buckets l !! k)
      else (0, 0)
  | _ => (0, 0)
  end.

Fixpoint grantedTo (k : string) (l : Limiter) (acts : list action) : Z * Z :=
  match acts with
  | [] => (0, 0)
  | a :: acts =>
      let g := grantedBy k l a in
      let gs := grantedTo k (act l a) acts in
      (g.1 + gs.1, g.2 + gs.2)
  end.

(** Admissions, drains, and resizes of [k] that keep its capacities [rpm] and [tpm],
    as [ResetShares] makes them of a bucket at its even split. *)
Definition calm (k : string) (rpm tpm pct : Z) (a : action) : Prop :=
  match a with
  | ABucket j o => opOk o ∧ (j = k → gatedOp pct o ∨ o = OpSetCapacity rpm tpm)
  | _ => True
  end.

(** Such a resize only refills. *)
Definition plain (o : op) : op :=
  match o with
  | OpSetCapacity _ _ => OpGetAvailable
  | _ => o
  end.

Fixpoint callsOf (k : string) (l : Limiter) (acts : list action) : list (op * Time) :=
  match acts with
  | [] => []
  | a :: acts =>
      match a with
      | ABucket j o =>
          if decide (j = k) then (plain o, now l) :: callsOf k (act l a) acts
          else callsOf k (act l a) acts
      | _ => callsOf k (act l a) acts
      end
  end.

Lemma plain_step start t b o pct :
  bucketOk start t b → gatedOp pct o ∨ o = OpSetCapacity (maxRPM b) (maxTPM b) →
  step (plain o) t b = step o t b.
Proof.
  intros Hok [Ho| ->]; [by destruct o|]. cbn [plain step]. f_equal. unfold SetCapacity. cbn [GetAvailable snd].
  pose proof (refillLocked_ok _ _ _ Hok) as [(_ & [_ HR] & _) (_ & [_ HT] & _)].
  destruct (refillLocked_max b t) as [HmR HmT]. rewrite HmR in HR. rewrite HmT in HT.
  destruct (Z.ltb_spec (maxRPM b) (currentRPM (refillLocked b t))); [lia|].
  destruct (Z.ltb_spec (maxTPM b) (currentTPM (refillLocked b t))); [lia|].
  unfold refillLocked. reflexivity.
Qed.

Lemma gated_plain pct o rpm tpm : gatedOp pct o ∨ o = OpSetCapacity rpm tpm → gatedOp pct (plain o).
Proof. intros [Ho| ->]; [by destruct o|done]. Qed.

(** The clock that an action reads. *)
Lemma act_reads l a :
  clock (act l a) = clock l ∧ (reads l ≤ reads (act l a))%nat ∧ reservePercent (act l a) = reservePercent l.
Proof.
  destruct a as [k o|k|k n|k|k]; simpl; try (split_and!; done || lia).
  destruct (buckets l !! k); [|by split_and!]. unfold callBucket. destruct (step o (now l) _).
  simpl. split_and!; done || lia.
Qed.

Lemma act_other l a k :
  (∀ o, a ≠ ABucket k o) → buckets (act l a) !! k = buckets l !! k.
Proof.
  intros Ha. destruct a as [j o|j|j n|j|j]; try done. simpl.
  destruct (buckets l !! j); [|done]. unfold callBucket. destruct (step o (now l) _). simpl.
  rewrite lookup_insert_ne; [done|]. intros ->. by apply (Ha o).
Qed.

(** The bucket's part of a run is a run of the bucket. *)
Lemma run_bucket k l acts b pct :
  limiterOk l → buckets l !! k = Some b → debtOk b → 0 ≤ pct ≤ 90 →
  Forall (calm k (maxRPM b) (maxTPM b) pct) acts →
  let calls := callsOf k l acts in
  (∃ b', buckets (foldl act l acts) !! k = Some b' ∧ maxRPM b' = maxRPM b ∧ maxTPM b' = maxTPM b ∧
     debtOk b') ∧
  grantedTo k l acts = (run calls b).1 ∧ Forall (λ e, gatedOp pct e.1) calls ∧
  limiterOk (foldl act l acts) ∧
  ∀ t, clock l O ≤ t ≤ now l → clocked (clock l O) t calls ∧
    lastTime t calls ≤ Z.max t (lastRead (foldl act l acts)).
Proof.
  cbn zeta. revert l b. induction acts as [|a acts IH]; intros l b Hok Hb Hdebt Hpct Hcalm.
  { simpl. split_and!; [by exists b|done|done|done|]. intros t Ht.
    pose proof (lastRead_now l (lim_clock l Hok)). simpl. lia. }
  apply Forall_cons in Hcalm as [Ha Hcalm].
  destruct (act_reads l a) as (Hclk & Hreads & _).
  assert (limiterOk (act l a)) as Hok' by (apply act_ok; [done|]; by destruct a; [apply Ha|..]).
  assert (now l ≤ now (act l a)) as Hnow
    by (unfold now; rewrite Hclk; apply clock_mono; [apply Hok|done]).
  assert ((∃ o, a = ABucket k o) ∨ ∀ o, a ≠ ABucket k o) as [[o ->]|Hother].
  { destruct a as [j o|j|j n|j|j]; try (by right). destruct (decide (j = k)) as [->|Hne]; [by left; exists o|].
    right. intros o' [= ? ?]. done. }
  - destruct Ha as [Hop Ho]. specialize (Ho eq_refl).
    pose proof (limiter_bucket l k b Hok Hb) as Hbok. pose proof (gated_plain _ _ _ _ Ho) as Hgated.
    pose proof (gated_step (clock l O) (now l) b (now l) pct (plain o) Hbok Hdebt Hgated Hpct
      ltac:(lia)) as [(HR & HT & _) Hd].
    rewrite (plain_step _ _ _ _ _ Hbok Ho) in HR, HT, Hd.
    assert (buckets (act l (ABucket k o)) !! k = Some (step o (now l) b).2 ∧
            reads (act l (ABucket k o)) = S (reads l)) as [Hb' Hr'].
    { cbn [act]. rewrite Hb. unfold callBucket. destruct (step o (now l) b). simpl.
      by rewrite lookup_insert_eq. }
    rewrite <- HR, <- HT in Hcalm.
    destruct (IH _ _ Hok' Hb' Hd Hpct Hcalm) as (Hex & Hg & Hall & Hfin & Hcl). rewrite HR, HT in Hex.
    cbn [callsOf grantedTo grantedBy foldl]. rewrite !decide_True by done. rewrite Hb. cbn [from_option].
    rewrite run_cons, (plain_step _ _ _ _ _ Hbok Ho). destruct (step o (now l) b) as [g b1]. cbn [snd fst] in *.
    rewrite Hg. destruct (run _ b1) as [gs b2]. split_and!; [done|done|by constructor|done|].
    intros t Ht. destruct (Hcl (now l)) as [Hc Hl]; [rewrite Hclk; lia|]. rewrite Hclk in Hc.
    cbn [clocked lastTime]. split; [by split; [lia|]|].
    assert (now l ≤ lastRead (foldl act (act l (ABucket k o)) acts)) as Hlr; [|lia].
    assert (∀ l', clock l' = clock l → (reads (act l (ABucket k o)) ≤ reads l')%nat → now l ≤ lastRead l') as Hmono.
    { intros l' Hcl' Hrd. unfold now, lastRead. rewrite Hcl'. apply clock_mono; [apply Hok|lia]. }
    clear -Hmono Hclk. revert Hclk Hmono. generalize (act l (ABucket k o)). intros l1 Hclk Hmono.
    enough (clock (foldl act l1 acts) = clock l1 ∧ (reads l1 ≤ reads (foldl act l1 acts))%nat) as [? ?]
      by (apply Hmono; [congruence|done]).
    clear. revert l1. induction acts as [|a acts IH]; intros l1; [done|]. cbn [foldl].
    destruct (IH (act l1 a)), (act_reads l1 a) as (? & ? & _). split; [congruence|lia].
  - assert (buckets (act l a) !! k = Some b) as Hb' by (by rewrite act_other).
    destruct (IH _ b Hok' Hb' Hdebt Hpct Hcalm) as (Hex & Hg & Hall & Hfin & Hcl).
    assert (callsOf k l (a :: acts) = callsOf k (act l a) acts) as ->.
    { destruct a as [j o|j|j n|j|j]; try done. cbn [callsOf]. rewrite decide_False; [done|].
      intros ->. by apply (Hother o). }
    assert (grantedBy k l a = (0, 0)) as Hz.
    { destruct a as [j o|j|j n|j|j]; try done. cbn [grantedBy]. rewrite decide_False; [done|].
      intros ->. by apply (Hother o). }
    cbn [grantedTo foldl]. rewrite Hz, Hg. split_and!; try done.
    + destruct (run _ b) as [[? ?] ?]. simpl. done.
    + intros t Ht. rewrite Hclk in Hcl. apply Hcl. lia.
Qed.

(** ** Burst and refill of one capacity, and of all *)

(** The burst above the reserve. *)
Lemma burst_bound c pct :
  0 < c ≤ maxCapacity → 0 ≤ pct ≤ 90 → 100 * (c - floorOf c pct) ≤ (100 - pct) * c + 99.
Proof.
  intros Hc Hp. destruct (floorOf_range c pct Hc ltac:(lia)) as [-> _].
  pose proof (Z.div_mod (c * pct) 100 ltac:(lia)).
  pose proof (Z.mod_pos_bound (c * pct) 100 ltac:(lia)). lia.
Qed.

(** A capacity refills at most one minute's worth in a minute, but for the rounding
    of the time per unit to nanoseconds. *)
Lemma refill_bound c L W :
  0 < c ≤ L → L < minute → 0 ≤ W → (minute - L) * (W / nanosPer c) ≤ c * W.
Proof.
  unfold nanosPer. intros Hc HL HW. set (q := minute / c).
  assert (1 ≤ q) as Hq by (apply Z.div_le_lower_bound; lia).
  assert (minute - L ≤ c * q) as Hcq.
  { pose proof (Z.div_mod minute c ltac:(lia)). pose proof (Z.mod_pos_bound minute c ltac:(lia)). lia. }
  pose proof (Z.mul_div_le W q ltac:(lia)). pose proof (Z.div_pos W q HW ltac:(lia)). nia.
Qed.

Section sums.
Context {A : Type} (c : A → Z) (l : list A) (L : Z).

Lemma sumZ_burst (pct : Z) :
  (∀ a, a ∈ l → 0 < c a ≤ maxCapacity) → 0 ≤ pct ≤ 90 → sumZ c l ≤ L →
  sumZ (λ a, c a - floorOf (c a) pct) l ≤ (100 - pct) * L / 100 + Z.of_nat (length l).
Proof.
  intros Hc Hpct HL.
  assert (100 * sumZ (λ a, c a - floorOf (c a) pct) l ≤
    (100 - pct) * sumZ c l + 99 * Z.of_nat (length l)) as Hsum.
  { rewrite <- !sumZ_scale, <- sumZ_const, <- sumZ_add. apply sumZ_le. intros a Ha.
    by apply burst_bound; [apply Hc|]. }
  assert ((100 - pct) * sumZ c l ≤ (100 - pct) * L) by (apply Z.mul_le_mono_nonneg_l; lia).
  pose proof (Z.div_mod ((100 - pct) * L) 100 ltac:(lia)).
  pose proof (Z.mod_pos_bound ((100 - pct) * L) 100 ltac:(lia)). lia.
Qed.

Lemma sumZ_refill W :
  (∀ a, a ∈ l → 0 < c a ≤ L) → L < minute → 0 ≤ W → sumZ c l ≤ L →
  sumZ (λ a, W / nanosPer (c a)) l ≤ W * L / (minute - L).
Proof.
  intros Hc HLm HW HL. apply Z.div_le_lower_bound; [lia|]. rewrite <- sumZ_scale.
  etrans; [apply (sumZ_le _ (λ a, W * c a))|].
  - intros a Ha. rewrite (Z.mul_comm W). apply refill_bound; [by apply Hc|done|done].
  - rewrite sumZ_scale. apply Z.mul_le_mono_nonneg_l; lia.
Qed.

End sums.

(** ** The fleet *)

Section fleet.
Context `{GoUnicode} `{GoArch}.

(** A data plane: its clock, the entries of the configuration in the order in which
    its [range] visited them, the limiter [NewLimiter] made of them, and what happened
    to that limiter before the window and in it. *)
Record member := mkMember {
  mclock : nat → Time;
  mentries : list (string * option Config.ModelLimit);
  mlimiter : Limiter;
  before : list action;
  during : list action
}.

Definition opened (r : member) : Limiter := foldl act (mlimiter r) (before r).
Definition closed (r : member) : Limiter := foldl act (opened r) (during r).

(** The limiter's target [raw] with allowance [a] stays at its even split, and the
    window, from its opening to the last clock reading in it, lasts at most [W]. *)
Record memberOk (cfg : Config.Config) (raw : string) (a : Config.ModelLimit) (W : Z) (r : member)
    : Prop := {
  mem_new : NewLimiter (Some cfg) (mentries r) (mclock r) = Ok (mlimiter r);
  mem_clock : clockOk (mclock r);
  mem_entries : entriesOk (mentries r) ∧ NoDup (entryKey <$> mentries r) ∧
    (raw, Some a) ∈ mentries r;
  mem_calm : Forall (calm (to_lower raw) (share (Config.MaxRpm a) (Config.Replicas (Some cfg)))
      (share (Config.MaxTpm a) (Config.Replicas (Some cfg))) (Config.ReservePercent (Some cfg)))
      (before r ++ during r);
  mem_window : lastRead (closed r) - now (opened r) ≤ W
}.

Lemma member_granted cfg raw a W r m :
  configOk cfg → memberOk cfg raw a W r → 0 ≤ W →
  let pct := Config.ReservePercent (Some cfg) in
  let c := share (limitOf m a) (Config.Replicas (Some cfg)) in
  c < minute →
  dimension m (grantedTo (to_lower raw) (opened r) (during r)) ≤
    (c - floorOf c pct) + W / nanosPer c + 1.
Proof.
  intros Hcfg [Hnew Hclk (Hent & Hnd & Hin) [Hbefore Hduring]%Forall_app Hwin] HW pct c Hc.
  pose proof (NewLimiter_ok _ _ _ _ Hnew Hcfg Hclk Hent) as Hok.
  pose proof Hcfg as [Hpct Hreps]. fold pct in Hpct.
  assert (∃ t0, buckets (mlimiter r) !! to_lower raw =
    Some (NewTokenBucketWithClock (share (Config.MaxRpm a) (Config.Replicas (Some cfg)))
            (share (Config.MaxTpm a) (Config.Replicas (Some cfg))) t0)) as [t0 Hb0].
  { pose proof Hnew as Hn. injection Hn as <-.
    eapply (addAllowances_lookup (Config.Replicas (Some cfg))) in Hin; [apply Hin|done]. }
  pose proof (proj1 (Forall_forall _ _) Hent _ Hin a eq_refl) as [HR HT]. cbn [snd] in HR, HT.
  pose proof (share_capacity _ _ HR Hreps) as HcR. pose proof (share_capacity _ _ HT Hreps) as HcT.
  set (b0 := NewTokenBucketWithClock _ _ _) in Hb0.
  assert (debtOk b0) as Hd0 by (unfold debtOk; simpl; lia).
  destruct (run_bucket _ _ (before r) b0 pct Hok Hb0 Hd0 Hpct Hbefore)
    as ((b & Hb & HbR & HbT & Hd) & _ & _ & Hok1 & _). fold (opened r) in Hb, Hok1.
  change (maxRPM b0) with (share (Config.MaxRpm a) (Config.Replicas (Some cfg))) in HbR.
  change (maxTPM b0) with (share (Config.MaxTpm a) (Config.Replicas (Some cfg))) in HbT.
  rewrite <- HbR, <- HbT in Hduring.
  destruct (run_bucket _ _ (during r) b pct Hok1 Hb Hd Hpct Hduring) as (_ & Hg & Hall & _ & Hcl).
  fold (closed r) in Hcl. pose proof (lastRead_now _ (lim_clock _ Hok1)) as Hnow.
  assert (clock (opened r) O ≤ now (opened r)) as Hfirst by (apply clock_mono; [apply Hok1|lia]).
  destruct (Hcl (now (opened r))) as [Hclocked Hlast]; [lia|].
  pose proof (window_rates _ _ _ pct _ (limiter_bucket _ _ _ Hok1 Hb) Hd Hpct Hall Hclocked) as Hrate.
  cbn zeta in Hrate. rewrite Hg. destruct (run _ b).1 as [reqs toks].
  pose proof (nanosPer_pos c) as Hpos.
  destruct m; cbn [limitOf dimension fst snd] in *; subst c; rewrite ?HbR, ?HbT in Hrate;
    [destruct Hrate as [Hrate _]|destruct Hrate as [_ Hrate]];
    (etrans; [apply Hrate, Hpos; lia|]); apply Z.add_le_mono_r, Z.add_le_mono_l;
    (apply Z.div_le_mono; [apply Hpos; lia|lia]).
Qed.

(** C7: while the allowance of a target is split evenly, as every data plane starts
    out and as it falls back when the control plane is away, the best-effort traffic of
    that target that all the data planes together admit, each in a window of at most [W]
    of its own clock and with whatever critical traffic and other targets' traffic
    beside it, is at most the part of the configured limit above the critical reserve,
    plus what the limit refills in the window (a minute's worth per minute, but for the
    rounding to nanoseconds), plus two units per data plane. There are no more data
    planes than the configuration says, the limit is below [6 * 10^10] and no smaller
    than the number in the configuration, the clocks are monotone and cover at most
    [horizon], and token estimates are at most [2^56]. *)
Theorem fleet_rate_bounded cfg raw a m W fleet :
  let n := Z.of_nat (length fleet) in
  let L := limitOf m a in
  let pct := Config.ReservePercent (Some cfg) in
  configOk cfg → n ≤ Config.Replicas (Some cfg) ≤ L → L < minute → 0 ≤ W →
  Forall (memberOk cfg raw a W) fleet →
  sumZ (λ r, dimension m (grantedTo (to_lower raw) (opened r) (during r))) fleet ≤
    (100 - pct) * L / 100 + W * L / (minute - L) + 2 * n.
Proof.
  intros n L pct Hcfg Hn HLm HW Hfleet. pose proof Hcfg as [Hpct Hreps]. fold pct in Hpct.
  set (reps := Config.Replicas (Some cfg)) in *. set (c := share L reps).
  assert (minute ≤ maxLimit ∧ minute ≤ maxCapacity) as [Hmm Hmc] by (split; apply Z.leb_le; by vm_compute).
  destruct (share_range L reps) as [_ Hs]; [lia|lia|].
  destruct Hs as [Hc HrL]; [lia|]. specialize (HrL ltac:(lia)). fold c in Hc, HrL.
  assert (sumZ (λ _, c) fleet ≤ L) as HcL by (rewrite sumZ_const; fold n; nia).
  pose proof (sumZ_burst (λ _, c) fleet L pct) as Hburst.
  pose proof (sumZ_refill (λ _, c) fleet L W) as Hrefill. fold n in Hburst.
  assert (sumZ (λ r, dimension m (grantedTo (to_lower raw) (opened r) (during r))) fleet ≤
    sumZ (λ _, c - floorOf c pct) fleet + sumZ (λ _, W / nanosPer c) fleet + n) as Hsum.
  { replace n with (sumZ (λ _, 1) fleet) by (rewrite sumZ_const; lia).
    rewrite <- !sumZ_add. apply sumZ_le. intros r Hr.
    apply (member_granted cfg); [done|by eapply Forall_forall|done|].
    change (c < minute). lia. }
  etrans; [exact Hsum|].
  assert (sumZ (λ _, c - floorOf c pct) fleet ≤ (100 - pct) * L / 100 + n)
    by (apply Hburst; [intros; lia|done|done]).
  assert (sumZ (λ _, W / nanosPer c) fleet ≤ W * L / (minute - L))
    by (apply Hrefill; [intros; lia|done..]).
  unfold c in *. lia.
Qed.

End fleet.

(** Two data planes of the sample configuration: its 60 requests per minute of
    [eu/flash] are 30 for each. The first also resets its shares in between. *)
Definition sampleMember (acts : list action) : member :=
  mkMember sampleClock sampleEntries sampleLimiter
    [ABucket "us/flash" (OpForceAcquire 70); AAddRequest "eu/flash"] acts.

Definition sampleRequest : action := ABucket "eu/flash" (OpTryAcquireAbove 10 30).

Definition sampleFleet : list member :=
  [sampleMember [sampleRequest; ABucket "eu/flash" (OpForceAcquire 10);
                 ABucket "eu/flash" (OpSetCapacity 30 3000); sampleRequest];
   sampleMember (replicate 5 sampleRequest)].

Lemma fleet_rate_bounded_witness :
  let admitted := sumZ (λ r, dimension Shares.Requests (grantedTo "eu/flash" (opened r) (during r)))
    sampleFleet in
  admitted = 7 ∧
  admitted ≤ (100 - 30) * 60 / 100 + 5 * second * 60 / (minute - 60) + 2 * 2.
Proof.
  split; [by vm_compute|].
  apply (fleet_rate_bounded sampleConfig "eu/flash" (Config.mkModelLimit 60 6000) Shares.Requests
    (5 * second) sampleFleet sampleConfig_ok); [by vm_compute..|].
  repeat apply Forall_cons_2; [..|apply Forall_nil_2];
    (constructor; [exact sampleLimiter_new|exact sampleClock_ok| | |by vm_compute]).
  all: try (split_and!; [exact sampleEntries_ok| |left]; apply (bool_decide_unpack (NoDup _)); by vm_compute).
  all: repeat apply Forall_cons_2; try apply Forall_nil_2; try exact I.
  all: split; [concrete|intros Hk; first [discriminate Hk|left; solve [concrete]|right; by vm_compute]].
Defined.

End FleetRate.
