(* ===== verification/Server.v ===== *)
(** * The discovery service: [pkg/server/server.go]

    The three RPC handlers over the snapshot store and the share tracker. The
    streaming handler runs beside savers and other subscribers, so it is a state
    machine whose steps are interleaved with their operations on the store. *)

From S2P Require Import Prelude GoStrings GoFloat Quota Config Bucket Limiter Store Shares.
From stdpp Require Import options.
Import Store Shares.

Module Server.

(** The status errors that the handlers make, and [Failed] for an error of the
    context or of a send that is returned as it is. *)
Inductive status : Type :=
  | InvalidArgument (msg : string)
  | NotFound (msg : string)
  | Unavailable (msg : string)
  | Failed (msg : string).

Record Server := mkServer {
  store : InMemoryStore;
  shares : ShareTracker
}.

Definition NewServer (store : option InMemoryStore) : result Server :=
  match store with
  | None => Err "snapshot store cannot be nil"
  | Some store => Ok (mkServer store NewShareTracker)
  end.

Definition WithShareTracker (s : Server) (t : ShareTracker) : Server := mkServer (store s) t.

Record ReportUsageRequest := mkReportUsageRequest {
  ClientId : string;
  Demand : list (option pb.TargetDemand)
}.

Record ReportUsageResponse := mkReportUsageResponse {
  Shares : list pb.TargetShare;
  ActiveReplicas : Z
}.

(** [now] and [visit] are those of [ShareTracker.Report]. *)
Definition ReportUsage `{GoUnicode} (s : Server) (req : ReportUsageRequest)
    (now : Time) (visit : string → metric → list string)
    : (status + ReportUsageResponse) * Server :=
  let '(r, t) := Report (shares s) (ClientId req) (Demand req) now visit in
  (match r with
   | Err e => inl (InvalidArgument e)
   | Ok (sh, active) => inr (mkReportUsageResponse sh active)
   end, WithShareTracker s t).

Definition GetQuotaSnapshot (s : Server) : status + Snapshot :=
  match Get (store s) with
  | Err e => inl (NotFound ("quota snapshot not available: " +:+ e))
  | Ok snapshot => inr snapshot
  end.

(** ** [StreamQuotas] *)

(** Where a call of the handler is: before its first statement, between
    [Subscribe] and [Get], in the loop, [first] the snapshot that was sent before
    it, or returned, its deferred [unsubscribe] included. *)
Inductive phase : Type :=
  | Starting
  | Subscribed (id : nat)
  | Serving (id : nat) (first : option Snapshot)
  | Returned (id : nat) (err : status).

(** The store, with the saver's progress, and one call. *)
Record session := mkSession {
  shared : run;
  call : phase
}.

Definition store_ (s : session) : InMemoryStore := quotas (shared s).

(** A step of the call, with what [Send] returns, or of another goroutine. *)
Inductive action : Type :=
  | AOther (e : event)
  | ASubscribe
  | AInitial (sendErr : option string)
  | AReceive (sendErr : option string)
  | ADone (err : string).

(** Only the call itself uses its channel. *)
Definition onChannel (e : event) (p : phase) : bool :=
  match e, p with
  | (EReceive j | EUnsubscribe j), (Subscribed id | Serving id _ | Returned id _) =>
      bool_decide (j = id)
  | _, _ => false
  end.

Definition return_ (r : run) (id : nat) (err : status) : session :=
  mkSession (withQuotas r (unsubscribe (quotas r) id)) (Returned id err).

(** A step that is not enabled changes nothing. A [Save] whose pushes overlap the loop
    receives inside them, by its schedule; the sends of those snapshots succeed. *)
Definition step (s : session) (a : action) : session :=
  let r := shared s in
  match a, call s with
  | AOther e, p => if onChannel e p then s else mkSession (apply r e) p
  | ASubscribe, Starting =>
      let '(id, st) := Subscribe (quotas r) in mkSession (withQuotas r st) (Subscribed id)
  | AInitial sendErr, Subscribed id =>
      match Get (quotas r) with
      | Ok initial =>
          match sendErr with
          | Some e => return_ r id (Failed e)
          | None => mkSession r (Serving id (Some initial))
          end
      | Err _ => mkSession r (Serving id None)
      end
  | AReceive sendErr, Serving id first =>
      match channels (quotas r) !! id with
      | None => s
      | Some ch =>
          match buf ch with
          | Some snapshot =>
              let r := withQuotas r (receive (quotas r) id) in
              match sendErr with
              | Some e => return_ r id (Failed e)
              | None => mkSession r (Serving id first)
              end
          | None =>
              if closed ch
              then return_ r id (Unavailable "quota subscription closed unexpectedly")
              else s
          end
      end
  | ADone err, Serving id _ => return_ r id (Failed err)
  | _, _ => s
  end.

Definition StreamQuotas (actions : list action) : session :=
  foldl step (mkSession newRun Starting) actions.

(** What a call in its loop has sent. *)
Definition delivered (s : session) : list Snapshot :=
  match call s with
  | Serving id first => option_list first ++ default [] (got <$> channels (store_ s) !! id)
  | _ => []
  end.

(** ** Lemmas *)

Lemma apply_subscribers r e id :
  runOk r → is_Some (channels (quotas r) !! id) → e ≠ EUnsubscribe id →
  is_Some (channels (quotas (apply r e)) !! id) ∧
  (id ∈ subscribers (quotas (apply r e)) ↔ id ∈ subscribers (quotas r)).
Proof.
  intros [Hok _ _] Hch He. destruct r as [s h pending]. cbn [quotas] in *.
  destruct e as [snap|sch| |j|j]; cbn [apply saving quotas saved withQuotas].
  - by destruct pending.
  - destruct pending as [snap|]; [|done]. cbn [quotas].
    destruct (push_spec s snap sch Hok) as (_ & _ & Hsub & Hout & Hin). rewrite Hsub.
    split; [|done]. destruct (decide (id ∈ subscribers s)) as [Hid|Hid]; [|by rewrite Hout].
    rewrite Hin by done. by apply fmap_is_Some.
  - cbn [Subscribe snd channels subscribers].
    assert (fresh (dom (channels s)) ≠ id) as Hne.
    { intros <-. destruct Hch as [ch Hch]. apply (is_fresh (dom (channels s))).
      apply elem_of_dom. by eexists. }
    rewrite lookup_insert_ne by done. set_solver.
  - unfold unsubscribe. assert (j ≠ id) by congruence.
    destruct (channels s !! j) as [ch|]; [|done].
    destruct (fired ch); [done|]. destruct (closed ch); simpl; [set_solver|].
    rewrite lookup_insert_ne by done. set_solver.
  - unfold receive. destruct (channels s !! j) as [ch|]; [|done]. simpl.
    split; [|done]. destruct (decide (j = id)) as [->|Hne].
    + rewrite lookup_insert_eq. by eexists.
    + by rewrite lookup_insert_ne.
Qed.

Lemma unsubscribe_out s id :
  storeOk s → is_Some (channels s !! id) →
  id ∉ subscribers (unsubscribe s id) ∧ is_Some (channels (unsubscribe s id) !! id).
Proof.
  intros Hok [ch Hch]. unfold unsubscribe. rewrite Hch. destruct (fired ch) eqn:Hf.
  - split; [|by eexists]. intros Hid. destruct (store_open s Hok id Hid) as (ch' & Hch' & _ & Hf').
    congruence.
  - rewrite (store_fired s Hok id ch Hch), Hf. simpl. rewrite lookup_insert_eq.
    split; [set_solver|by eexists].
Qed.

(** What holds at every step. *)
Definition sessionOk (s : session) : Prop :=
  runOk (shared s) ∧
  match call s with
  | Starting => True
  | Subscribed id => is_Some (channels (store_ s) !! id) ∧ id ∈ subscribers (store_ s)
  | Serving id first => nothingSince first id (shared s) ∧ id ∈ subscribers (store_ s)
  | Returned id _ => is_Some (channels (store_ s) !! id) ∧ id ∉ subscribers (store_ s)
  end.

Lemma return_ok r id err :
  runOk r → is_Some (channels (quotas r) !! id) → sessionOk (return_ r id err).
Proof.
  intros Hr Hch. split; [exact (apply_ok r (EUnsubscribe id) Hr)|].
  destruct (unsubscribe_out (quotas r) id (run_store _ Hr) Hch). by split_and!.
Qed.

Lemma other_ok s e : sessionOk s → onChannel e (call s) = false →
  sessionOk (mkSession (apply (shared s) e) (call s)).
Proof.
  intros (Hr & Hcall) Hown. split; [by apply apply_ok|]. unfold store_ in *. simpl.
  destruct (call s) as [|id|id first|id err]; [done| | |];
    (assert (e ≠ EUnsubscribe id) as He
       by (intros ->; simpl in Hown; by rewrite bool_decide_eq_true_2 in Hown)).
  - destruct Hcall as [Hch Hin]. destruct (apply_subscribers _ e id Hr Hch He) as [? ->]. done.
  - destruct Hcall as [Hn Hin]. destruct (apply_subscribers _ e id Hr (proj1 Hn) He) as [? ->].
    auto with governor.
  - destruct Hcall as [Hch Hin]. destruct (apply_subscribers _ e id Hr Hch He) as [? ->]. done.
Qed.

(** What [Get] reads, published or saved. *)
Lemma first_since r id :
  runOk r → is_Some (channels (quotas r) !! id) → nothingSince (snapshot (quotas r)) id r.
Proof.
  intros [_ Hs _] Hch. split; [done|]. intros _ ch _ _. rewrite Hs. unfold published.
  destruct (saving r); simpl; [right|left].
  - split; [by eexists|]. by rewrite last_snoc.
  - by rewrite app_nil_r.
Qed.

Lemma session_step s a : sessionOk s → sessionOk (step s a).
Proof.
  intros Hs. destruct a as [e| |sendErr|sendErr|err]; cbn [step].
  { destruct (onChannel e (call s)) eqn:Hown; [done|]. by apply other_ok. }
  all: destruct s as [r c]; destruct Hs as (Hr & Hcall); unfold store_ in *; simpl in *;
    destruct c as [|id|id first|id e]; try (split_and!; done).
  - split; [exact (apply_ok r ESubscribe Hr)|]. unfold store_. simpl.
    rewrite lookup_insert_eq. split; [by eexists|set_solver].
  - destruct Hcall as [Hch Hin]. pose proof (first_since r id Hr Hch) as Hfirst.
    unfold Get. destruct (snapshot (quotas r)) as [snap|].
    + destruct sendErr; [by apply return_ok|]. by split_and!.
    + by split_and!.
  - destruct Hcall as [Hn Hin]. destruct (proj1 Hn) as [ch Hch]. rewrite Hch.
    pose proof (apply_ok r (EReceive id) Hr) as Hr'.
    pose proof (apply_nothingSince r (EReceive id) first id Hr Hn) as Hn'.
    destruct (apply_subscribers r (EReceive id) id Hr) as [Hch' Hin']; [by eexists|done|].
    destruct (buf ch); [destruct sendErr|destruct (closed ch)].
    + exact (return_ok _ id _ Hr' Hch').
    + split; [done|]. split; [done|by apply Hin'].
    + apply return_ok; [done|by eexists].
    + by split_and!.
  - destruct Hcall as [[Hch _] Hin]. by apply return_ok.
Qed.

Lemma StreamQuotas_ok actions : sessionOk (StreamQuotas actions).
Proof.
  unfold StreamQuotas. assert (sessionOk (mkSession newRun Starting)) as Hs
    by (split; [apply newRun_ok|done]).
  revert Hs. generalize (mkSession newRun Starting).
  induction actions as [|a actions IH]; intros s Hs; [done|]. by apply IH, session_step.
Qed.

(** A call in its loop that has received what its channel holds. *)
Lemma caught_up s id first :
  sessionOk s → call s = Serving id first → (channels (store_ s) !! id) ≫= buf = None →
  last (delivered s) = last (saved (shared s)) ∨
  (is_Some (saving (shared s)) ∧ last (delivered s) = saving (shared s)).
Proof.
  intros (Hr & Hs) Hcall Hbuf. rewrite Hcall in Hs. destruct Hs as [[[ch Hch] Hsince] Hin].
  unfold store_ in *. rewrite Hch in Hbuf. simpl in Hbuf. unfold delivered, store_. rewrite Hcall, Hch. simpl.
  assert (newest ch = last (got ch)) as Hnew by (unfold newest; by rewrite Hbuf).
  rewrite last_app. destruct (last (got ch)) as [v|].
  - left. symmetry. by apply (run_current _ Hr id ch).
  - assert (last (option_list first) = first) as -> by (by destruct first).
    apply (Hsince Hin ch Hch Hnew).
Qed.

(** ** Properties *)

(** C10: no save is lost to a streaming client. With one saver, however its saves,
    which publish a snapshot first and push it later, other subscribers and the call
    interleave: a call that has received what its channel holds has, whenever no save
    is under way, sent the store's snapshot last, wherever between [Subscribe], the
    first [Get] and the loop that snapshot was published or pushed; and while one is
    under way it has sent that snapshot or the one before it last. *)
Theorem StreamQuotas_catches_up actions id first :
  let s := StreamQuotas actions in
  call s = Serving id first → (channels (store_ s) !! id) ≫= buf = None →
  (saving (shared s) = None → last (delivered s) = snapshot (store_ s)) ∧
  (is_Some (saving (shared s)) →
     last (delivered s) = snapshot (store_ s) ∨ last (delivered s) = last (saved (shared s))).
Proof.
  cbn zeta. intros Hcall Hbuf. pose proof (StreamQuotas_ok actions) as Hs.
  destruct Hs as [Hr Hrest] eqn:Heq. clear Heq.
  pose proof (caught_up _ id first (conj Hr Hrest) Hcall Hbuf) as Hc.
  pose proof (run_snapshot _ Hr) as Hsnap. unfold published in Hsnap. unfold store_.
  split.
  - intros Hnone. rewrite Hnone in *. simpl in Hsnap. rewrite app_nil_r in Hsnap. rewrite Hsnap.
    destruct Hc as [->|[[? ?] _]]; done.
  - intros [b Hb]. rewrite Hb in *. simpl in Hsnap. rewrite last_snoc in Hsnap. rewrite Hsnap.
    destruct Hc as [->|[_ ->]]; [by right|by left].
Qed.

Definition snapAt (t : Time) : Snapshot := pb.mkQuotaSnapshot None None (Some t).

(** The schedule of a push during which nobody receives. *)
Definition idle : nat → schedule := λ _, (false, false).

Lemma StreamQuotas_catches_up_witness :
  let s := StreamQuotas
    [AOther (EStore (snapAt 1)); AOther (EPush idle); AOther (EStore (snapAt 2)); ASubscribe;
     AInitial None; AOther (EPush idle); AReceive None; AOther (EStore (snapAt 3));
     AOther (EPush idle); AReceive None] in
  delivered s = [snapAt 2; snapAt 2; snapAt 3] ∧ last (delivered s) = snapshot (store_ s).
Proof.
  cbn zeta. split; [by vm_compute|].
  eapply (StreamQuotas_catches_up _ 0%nat (Some (snapAt 2))); by vm_compute.
Defined.

(** A call that subscribes and reads the store's snapshot between the publication of a
    snapshot and its push can send the new one, then the one before it, then the new one
    again: here the first was pushed after it had subscribed. *)
Theorem stream_goes_back_and_forth :
  delivered (StreamQuotas
    [AOther (EStore (snapAt 1)); ASubscribe; AOther (EPush idle); AOther (EStore (snapAt 2));
     AInitial None; AReceive None; AOther (EPush idle); AReceive None])
  = [snapAt 2; snapAt 1; snapAt 2].
Proof. vm_compute. reflexivity. Qed.

(** A call that has returned, for whatever reason, has left no subscription
    behind, and no interleaving sends on a closed channel or closes one twice. *)
Theorem StreamQuotas_cleans_up actions :
  let s := StreamQuotas actions in
  panicked (store_ s) = false ∧
  match call s with
  | Starting => True
  | Subscribed id | Serving id _ => id ∈ subscribers (store_ s)
  | Returned id _ => id ∉ subscribers (store_ s)
  end.
Proof.
  cbn zeta. destruct (StreamQuotas_ok actions) as (Hr & Hs).
  split; [apply store_no_panic, Hr|]. by destruct (call _); try apply Hs.
Qed.

End Server.
