(* ===== verification/Client.v ===== *)
(** * The quota client: [pkg/controlplane/client.go]

    Limits from Cloud Quotas, usage from Cloud Monitoring, the configured
    fallbacks, and [FetchMetrics], which puts them together. The messages of the
    two services are read through an interface. *)

From Stdlib Require Import Ascii.
From S2P Require Import Prelude GoStrings GoFloat Quota Config.
From stdpp Require Import options.

Module Client.

Definition rpmQuotaID : string :=
  "GenerateContentRequestsPerMinutePerProjectPerRegionPerBaseModel".
Definition tpmQuotaID : string := "GenerateContentInputTokensPerMinutePerRegionPerBaseModel".
Definition rpmMetricType : string :=
  "aiplatform.googleapis.com/quota/generate_content_requests_per_minute_per_project_per_base_model/usage".
Definition tpmMetricType : string :=
  "aiplatform.googleapis.com/quota/generate_content_input_tokens_per_minute_per_base_model/usage".
Definition MetricLookupWindowMinutes : Z := 5.
Definition FallbackMaxRPM : Z := 1000.
Definition FallbackMaxTPM : Z := 2000000.
Definition UnlimitedQuota : Z := -1.

(** The getters of the services' messages that the code calls. *)
Class CloudMessages := {
  QuotaInfo : Type;
  DimensionsInfo : Type;
  TimeSeries : Type;
  GetDimensionsInfos : QuotaInfo → list DimensionsInfo;
  (** [GetDetails().GetValue()], nothing for nil details *)
  DetailsValue : DimensionsInfo → option Z;
  GetDimensions : DimensionsInfo → gmap string string;
  (** [GetResource().GetLabels()] and [GetMetric().GetLabels()] *)
  ResourceLabels : TimeSeries → gmap string string;
  MetricLabels : TimeSeries → gmap string string;
  (** [GetValue().GetInt64Value()] of each of [GetPoints()] *)
  PointValues : TimeSeries → list Z
}.

Record RawModelQuota := mkRawModelQuota {
  ProjectId : string;
  Model : string;
  Region : string;
  MaxTpm : Z;
  MaxRpm : Z;
  CurrentRpm : Z;
  CurrentTpm : Z
}.

(** A Cloud Monitoring request; its view, aligner and reducer are constants. *)
Record ListTimeSeriesRequest := mkListTimeSeriesRequest {
  Name : string;
  Filter : string;
  StartTime : Time;
  EndTime : Time;
  AlignmentPeriod : Z;
  GroupByFields : list string
}.

(** A call that can dereference a nil pointer. *)
Inductive outcome (A : Type) : Type :=
  | Returned (r : result A)
  | Panicked.
Arguments Returned {A} r.
Arguments Panicked {A}.

(** A loop whose body may return early, with an error or a panic. *)
Fixpoint each {A X} (f : A → X → outcome A) (xs : list X) (a : A) : outcome A :=
  match xs with
  | [] => Returned (Ok a)
  | x :: xs =>
      match f a x with
      | Returned (Ok a) => each f xs a
      | stop => stop
      end
  end.

(** [m[k]] of a map of strings: empty when missing. *)
Definition label (m : gmap string string) (k : string) : string := default "" (m !! k).

(** [limits[key]] for the limits reported by Cloud Quotas. *)
Definition resolveLimit (limits : gmap string Z) (key : string) (fallback : Z) : Z :=
  match limits !! key with
  | Some limit =>
      if limit =? UnlimitedQuota then 0
      else if 0 <? limit then limit
      else fallback
  | None => fallback
  end.

Section client.
Context `{GoUnicode} `{CloudMessages}.

Definition GetKey (q : RawModelQuota) : result string :=
  if String.eqb (ProjectId q) "" || String.eqb (Region q) "" || String.eqb (Model q) "" then
    Err ("need string value for project=" +:+ ProjectId q +:+ ", region=" +:+ Region q
         +:+ " and model=" +:+ Model q)
  else Ok (Helpers.projectKey (ProjectId q) (Region q) (Model q)).

(** ** Limits *)

(** The closure [contains] of [extractLimits]. *)
Definition contains (items : list string) (s : string) : bool :=
  existsb (λ item, equal_fold item s) items.

(** The loop body of [extractLimits] up to the inner loops: the value, the score
    and the regions and models that an entry is for; nothing for [continue]. *)
Definition entry (targetRegions targetModels : list string) (info : DimensionsInfo)
    : option (Z * Z * list string * list string) :=
  match DetailsValue info with
  | None => None
  | Some value =>
      let dims := GetDimensions info in
      let region := label dims "region" in
      let model := label dims "base_model" in
      if negb (String.eqb region "") && negb (contains targetRegions region) then None
      else if negb (String.eqb model "") && negb (contains targetModels model) then None
      else
        let '(score, regions) :=
          if String.eqb region "" then (0, targetRegions) else (1, [region]) in
        let '(score, models) :=
          if String.eqb model "" then (score, targetModels) else (score + 2, [model]) in
        Some (value, score, regions, models)
  end.

(** The body of the inner loops; the maps are [resp] and [specificity]. *)
Definition keepBest (value score : Z) (acc : gmap string Z * gmap string Z) (key : string)
    : gmap string Z * gmap string Z :=
  match acc.2 !! key with
  | Some prev => if score <? prev then acc else (<[key := value]> acc.1, <[key := score]> acc.2)
  | None => (<[key := value]> acc.1, <[key := score]> acc.2)
  end.

Definition keysOf (regions models : list string) : list string :=
  r ← regions; m ← models; [Helpers.orgKey r m].

Definition extractOne (targetRegions targetModels : list string)
    (acc : gmap string Z * gmap string Z) (info : DimensionsInfo)
    : gmap string Z * gmap string Z :=
  match entry targetRegions targetModels info with
  | None => acc
  | Some (value, score, regions, models) =>
      foldl (keepBest value score) acc (keysOf regions models)
  end.

Definition extractLimits (qi : option QuotaInfo) (targetRegions targetModels : list string)
    : gmap string Z :=
  match qi with
  | None => ∅
  | Some qi => (foldl (extractOne targetRegions targetModels) (∅, ∅) (GetDimensionsInfos qi)).1
  end.

(** The pointer it returns: an entry of the map may be nil. *)
Definition resolveFallbackLimit (limits : gmap string (option Config.ModelLimit))
    (project region model : string) : option Config.ModelLimit :=
  let modelLower := to_lower model in
  let regionLower := to_lower region in
  let projectLower := to_lower project in
  let at_ (found : bool) (key : string) (next : option Config.ModelLimit) :=
    match (if found then limits !! key else None) with
    | Some limit => limit
    | None => next
    end in
  at_ (negb (String.eqb project ""))
    (projectLower +:+ "/" +:+ regionLower +:+ "/" +:+ modelLower)
  (at_ true (regionLower +:+ "/" +:+ modelLower)
  (at_ true modelLower
  (at_ (GoStrings.contains modelLower "flash-lite") "flash-lite"
  (at_ (GoStrings.contains modelLower "flash") "flash"
  (at_ (GoStrings.contains modelLower "pro") "pro"
  (Some (Config.mkModelLimit FallbackMaxRPM FallbackMaxTPM))))))).

(** ** Requests *)

(** The two services: [makeQuotaRequest] for a resource name, with a response that
    may be nil, and [makeUsageRequest], with what the iterator gives before it is
    done. *)
Record GCPClient := mkGCPClient {
  projectLimits : gmap string (option Config.ModelLimit);
  allowances : gmap string (option Config.ModelLimit);
  makeQuotaRequest : string → result (option QuotaInfo);
  makeUsageRequest : ListTimeSeriesRequest → result (list (result TimeSeries))
}.

(** The maps and clients it is given; a nil map is refused. *)
Definition NewGCPClient (projectLimits allowances : option (gmap string (option Config.ModelLimit)))
    (quotaClient : string → result (option QuotaInfo))
    (monitoringClient : ListTimeSeriesRequest → result (list (result TimeSeries)))
    : result GCPClient :=
  match projectLimits, allowances with
  | None, _ => Err "project limits map cannot be nil."
  | _, None => Err "allowances map cannot be nil."
  | Some projectLimits, Some allowances =>
      Ok (mkGCPClient projectLimits allowances quotaClient monitoringClient)
  end.

Definition quotaResource (projectID quotaID : string) : string :=
  "projects/" +:+ projectID
    +:+ "/locations/global/services/aiplatform.googleapis.com/quotaInfos/" +:+ quotaID.

Definition fetchQuotaInfo (gqc : GCPClient) (projectID quotaID : string)
    : result (option QuotaInfo) :=
  let resourceName := quotaResource projectID quotaID in
  match makeQuotaRequest gqc resourceName with
  | Err e => Err ("failed to get quota info for " +:+ resourceName +:+ ": " +:+ e)
  | Ok info => Ok info
  end.

Definition quoted (s : string) : string :=
  String quote_mark (s +:+ String quote_mark EmptyString).

Definition usageRequest (projectID metricType : string) (now : Time) : ListTimeSeriesRequest :=
  {| Name := "projects/" +:+ projectID;
     Filter := "metric.type = " +:+ quoted metricType +:+ " AND resource.type = "
               +:+ quoted "aiplatform.googleapis.com/Location";
     StartTime := time_add now ((- MetricLookupWindowMinutes) *! minute);
     EndTime := now;
     AlignmentPeriod := minute;
     GroupByFields := ["resource.label.location"; "metric.label.base_model"] |}.

(** The newest point of a series, if it has one. *)
Definition addPoint (usage : gmap string Z) (resp : TimeSeries) : gmap string Z :=
  let region := label (ResourceLabels resp) "location" in
  let model := label (MetricLabels resp) "base_model" in
  match PointValues resp with
  | [] => usage
  | value :: _ => <[Helpers.orgKey region model := value]> usage
  end.

(** The loop over the iterator. *)
Fixpoint readUsage (projectID : string) (items : list (result TimeSeries)) (usage : gmap string Z)
    : result (gmap string Z) :=
  match items with
  | [] => Ok usage
  | Err e :: _ => Err ("failed to iterate timeseries for project " +:+ projectID +:+ ": " +:+ e)
  | Ok resp :: items => readUsage projectID items (addPoint usage resp)
  end.

Definition fetchUsageInfo (gqc : GCPClient) (projectID metricType : string) (now : Time)
    : result (gmap string Z) :=
  match makeUsageRequest gqc (usageRequest projectID metricType now) with
  | Err e => Err ("Cannot retrive usage metrics. " +:+ e)
  | Ok it => readUsage projectID it ∅
  end.

(** ** [FetchMetrics] *)

Record projectData := mkProjectData {
  rpmLimits : gmap string Z;
  tpmLimits : gmap string Z;
  rpmUsage : gmap string Z;
  tpmUsage : gmap string Z
}.

Definition noData : projectData := mkProjectData ∅ ∅ ∅ ∅.

(** [now] is the clock's reading for a project and a metric. *)
Definition gatherProject (gqc : GCPClient) (regions models : list string)
    (now : string → string → Time) (p : string) : result projectData :=
  let limitsOf (quotaID : string) :=
    match fetchQuotaInfo gqc p quotaID with
    | Err _ => None
    | Ok info => info
    end in
  let rawRPM := limitsOf rpmQuotaID in
  let rawTPM := limitsOf tpmQuotaID in
  match fetchUsageInfo gqc p rpmMetricType (now p rpmMetricType) with
  | Err e => Err ("failed to fetch RPM usage for project " +:+ p +:+ ": " +:+ e)
  | Ok rpm =>
      match fetchUsageInfo gqc p tpmMetricType (now p tpmMetricType) with
      | Err e => Err ("failed to fetch TPM usage for project " +:+ p +:+ ": " +:+ e)
      | Ok tpm =>
          Ok (mkProjectData (extractLimits rawRPM regions models)
                            (extractLimits rawTPM regions models) rpm tpm)
      end
  end.

(** The first loop: [gcpData]. *)
Fixpoint gather (gqc : GCPClient) (regions models : list string)
    (now : string → string → Time) (projects : list string) (gcpData : gmap string projectData)
    : result (gmap string projectData) :=
  match projects with
  | [] => Ok gcpData
  | p :: projects =>
      let? data := gatherProject gqc regions models now p in
      gather gqc regions models now projects (<[p := data]> gcpData)
  end.

Definition orgEntry (r m : string) (orgLimit : Config.ModelLimit) : RawModelQuota :=
  {| ProjectId := ""; Model := m; Region := r; MaxTpm := Config.MaxTpm orgLimit;
     MaxRpm := Config.MaxRpm orgLimit; CurrentRpm := 0; CurrentTpm := 0 |}.

Definition projectEntry (data : projectData) (fallback : Config.ModelLimit) (p r m : string)
    : RawModelQuota :=
  let key := Helpers.orgKey r m in
  {| ProjectId := p; Model := m; Region := r;
     MaxTpm := resolveLimit (tpmLimits data) key (Config.MaxTpm fallback);
     MaxRpm := resolveLimit (rpmLimits data) key (Config.MaxRpm fallback);
     CurrentRpm := default 0 (rpmUsage data !! key);
     CurrentTpm := default 0 (tpmUsage data !! key) |}.

Definition addProject (gqc : GCPClient) (gcpData : gmap string projectData) (r m : string)
    (resp : gmap string RawModelQuota) (p : string) : outcome (gmap string RawModelQuota) :=
  match resolveFallbackLimit (projectLimits gqc) p r m with
  | None => Panicked
  | Some fallback =>
      let prmq := projectEntry (default noData (gcpData !! p)) fallback p r m in
      match GetKey prmq with
      | Err e => Returned (Err e)
      | Ok pKey => Returned (Ok (<[pKey := prmq]> resp))
      end
  end.

Definition addTarget (gqc : GCPClient) (gcpData : gmap string projectData)
    (projectIDs : list string) (resp : gmap string RawModelQuota) (rm : string * string)
    : outcome (gmap string RawModelQuota) :=
  let '(r, m) := rm in
  match resolveFallbackLimit (allowances gqc) "" r m with
  | None => Panicked
  | Some orgLimit =>
      each (addProject gqc gcpData r m) projectIDs
        (<[Helpers.orgKey r m := orgEntry r m orgLimit]> resp)
  end.

(** The pairs that the two outer loops visit. *)
Definition targets (regions models : list string) : list (string * string) :=
  r ← regions; m ← models; [(r, m)].

Definition FetchMetrics (gqc : GCPClient) (projectIDs regions models : list string)
    (now : string → string → Time) : outcome (gmap string RawModelQuota) :=
  match gather gqc regions models now projectIDs ∅ with
  | Err e => Returned (Err e)
  | Ok gcpData => each (addTarget gqc gcpData projectIDs) (targets regions models) ∅
  end.

End client.

(** ** Lemmas *)

(** A loop that ends keeps what its steps keep, and what a step gives its element. *)
Lemma each_spec {A X} (f : A → X → outcome A) (P : A → Prop) (Q : X → A → Prop) xs a a' :
  (∀ a x a', x ∈ xs → f a x = Returned (Ok a') → P a → P a' ∧ Q x a' ∧ ∀ y, Q y a → Q y a') →
  each f xs a = Returned (Ok a') → P a →
  P a' ∧ (∀ x, x ∈ xs → Q x a') ∧ ∀ y, Q y a → Q y a'.
Proof.
  revert a. induction xs as [|x xs IH]; intros a Hstep Hrun Ha; simpl in Hrun.
  { injection Hrun as <-. split_and!; [done|set_solver|done]. }
  destruct (f a x) as [[a1|e]|] eqn:Hf; [|done|done].
  destruct (Hstep a x a1) as (Ha1 & Hx & Hkeep); [left|done|done|].
  destruct (IH a1) as (Ha' & Hall & Hmono); [|done|done|].
  { intros. apply Hstep; [by right|done|done]. }
  split_and!; [done| |by auto]. intros y [->|Hy]%elem_of_cons; auto.
Qed.

Lemma each_total {A X} (f : A → X → outcome A) xs a :
  (∀ a x, x ∈ xs → ∃ a', f a x = Returned (Ok a')) → ∃ a', each f xs a = Returned (Ok a').
Proof.
  revert a. induction xs as [|x xs IH]; intros a Hf; [by eexists|]. simpl.
  destruct (Hf a x) as [a1 ->]; [left|]. apply IH. intros. apply Hf. by right.
Qed.

Lemma elem_of_targets regions models r m :
  (r, m) ∈ targets regions models ↔ r ∈ regions ∧ m ∈ models.
Proof. unfold targets. set_solver. Qed.

Section client_facts.
Context `{GoUnicode} `{CloudMessages}.

Lemma foldl_keepBest value score keys acc k :
  let acc' := foldl (keepBest value score) acc keys in
  let kept := match acc.2 !! k with Some prev => score <? prev | None => false end in
  (acc'.1 !! k, acc'.2 !! k) =
    if decide (k ∈ keys) then
      if kept then (acc.1 !! k, acc.2 !! k) else (Some value, Some score)
    else (acc.1 !! k, acc.2 !! k).
Proof.
  cbn zeta. revert acc. induction keys as [|j keys IH]; intros acc; [done|]. cbn [foldl].
  rewrite IH. clear IH. unfold keepBest.
  destruct (decide (j = k)) as [->|Hne].
  - rewrite (decide_True (P := k ∈ k :: keys)) by left.
    destruct (acc.2 !! k) as [prev|] eqn:Hp.
    + destruct (score <? prev) eqn:Hlt; simpl.
      * rewrite Hp, Hlt. by destruct (decide _).
      * rewrite !lookup_insert_eq, Z.ltb_irrefl. by destruct (decide _).
    + simpl. rewrite !lookup_insert_eq, Z.ltb_irrefl. by destruct (decide _).
  - rewrite (decide_ext (k ∈ j :: keys) (k ∈ keys)) by set_solver.
    destruct (acc.2 !! j) as [prev|]; [destruct (score <? prev); [done|]|];
      simpl; by rewrite !lookup_insert_ne.
Qed.

(** The score and the value that an entry has for a key. *)
Definition coverage (regions models : list string) (k : string) (info : DimensionsInfo)
    : option (Z * Z) :=
  match entry regions models info with
  | Some (value, score, rs, ms) => if decide (k ∈ keysOf rs ms) then Some (score, value) else None
  | None => None
  end.

Lemma lookup_extractOne regions models acc info k :
  let acc' := extractOne regions models acc info in
  (acc'.1 !! k, acc'.2 !! k) =
    match coverage regions models k info with
    | Some (score, value) =>
        if (match acc.2 !! k with Some prev => score <? prev | None => false end)
        then (acc.1 !! k, acc.2 !! k) else (Some value, Some score)
    | None => (acc.1 !! k, acc.2 !! k)
    end.
Proof.
  cbn zeta. unfold extractOne, coverage.
  destruct (entry regions models info) as [[[[value score] rs] ms]|]; [|done].
  rewrite foldl_keepBest. by destruct (decide _).
Qed.

(** *** What Cloud Quotas says about a key

    As documented: an entry is for a region and a model that it names, if they are
    targeted, whatever their case, and for every targeted one where it names none; the
    most specific entry wins, region+model > model-only > region-only > global. *)

Inductive specificity : Type := Global | RegionOnly | ModelOnly | RegionAndModel.

Definition specificityOf (info : DimensionsInfo) : specificity :=
  match GetDimensions info !! "region", GetDimensions info !! "base_model" with
  | None, None => Global
  | Some r, None => if String.eqb r "" then Global else RegionOnly
  | None, Some m => if String.eqb m "" then Global else ModelOnly
  | Some r, Some m =>
      if String.eqb r "" then if String.eqb m "" then Global else ModelOnly
      else if String.eqb m "" then RegionOnly else RegionAndModel
  end.

Definition moreSpecific (a b : specificity) : bool :=
  match a, b with
  | RegionAndModel, (ModelOnly | RegionOnly | Global) => true
  | ModelOnly, (RegionOnly | Global) => true
  | RegionOnly, Global => true
  | _, _ => false
  end.

(** A dimension with the value [named], or without one, is for the target [x]. *)
Definition isFor (named : option string) (targets : list string) (x : string) : Prop :=
  match named with
  | None | Some "" => x ∈ targets
  | Some l => x = l ∧ ∃ t, t ∈ targets ∧ equal_fold t l = true
  end.

Definition limitFor (regions models : list string) (k : string) (info : DimensionsInfo) (value : Z)
    : Prop :=
  DetailsValue info = Some value ∧
  ∃ r m, isFor (GetDimensions info !! "region") regions r ∧
    isFor (GetDimensions info !! "base_model") models m ∧ k = Helpers.orgKey r m.

(** The limit for a key: no entry for it is more specific, and no later one as specific. *)
Definition mostSpecific (regions models : list string) (infos : list DimensionsInfo)
    (k : string) (value : Z) : Prop :=
  ∃ before info after,
    infos = before ++ info :: after ∧ limitFor regions models k info value ∧
    (∀ i v, i ∈ before → limitFor regions models k i v →
       moreSpecific (specificityOf i) (specificityOf info) = false) ∧
    (∀ i v, i ∈ after → limitFor regions models k i v →
       moreSpecific (specificityOf info) (specificityOf i) = true).

Definition scoreOf (sp : specificity) : Z :=
  match sp with Global => 0 | RegionOnly => 1 | ModelOnly => 2 | RegionAndModel => 3 end.

Lemma moreSpecific_score a b : moreSpecific a b = (scoreOf b <? scoreOf a).
Proof. by destruct a, b. Qed.

Lemma elem_of_keysOf regions models k :
  k ∈ keysOf regions models ↔ ∃ r m, r ∈ regions ∧ m ∈ models ∧ k = Helpers.orgKey r m.
Proof. unfold keysOf. set_solver. Qed.

Lemma contains_true items s : contains items s = true ↔ ∃ t, t ∈ items ∧ equal_fold t s = true.
Proof. unfold contains. rewrite existsb_exists. by setoid_rewrite list_elem_of_In. Qed.

(** One dimension of [entry]: what it is for and what it scores. *)
Lemma isFor_label (dims : gmap string string) (name : string) (targets : list string) x :
  isFor (dims !! name) targets x ↔
    if String.eqb (label dims name) "" then x ∈ targets
    else contains targets (label dims name) = true ∧ x ∈ [label dims name].
Proof.
  unfold isFor, label. destruct (dims !! name) as [l|]; simpl; [|done].
  destruct l as [|c l]; [done|]. cbn [String.eqb]. rewrite contains_true, list_elem_of_singleton.
  naive_solver.
Qed.

Lemma specificity_label info :
  scoreOf (specificityOf info) =
    (if String.eqb (label (GetDimensions info) "region") "" then 0 else 1) +
    (if String.eqb (label (GetDimensions info) "base_model") "" then 0 else 2).
Proof.
  unfold specificityOf, label.
  destruct (_ !! "region") as [r|], (_ !! "base_model") as [m|]; simpl;
    repeat destruct (String.eqb _ _); done.
Qed.

(** The entry scores a key exactly when it is for it. *)
Lemma coverage_limitFor regions models k info score value :
  coverage regions models k info = Some (score, value) ↔
    limitFor regions models k info value ∧ score = scoreOf (specificityOf info).
Proof.
  unfold limitFor. setoid_rewrite isFor_label. rewrite specificity_label.
  unfold coverage, entry. destruct (DetailsValue info) as [v|]; [|naive_solver].
  set (region := label _ "region"). set (model := label _ "base_model").
  destruct (String.eqb region "") eqn:Hr; [|destruct (contains regions region) eqn:Hcr];
    (destruct (String.eqb model "") eqn:Hm; [|destruct (contains models model) eqn:Hcm]);
    cbn [negb andb]; try (destruct (decide _) as [Hk|Hk]; rewrite elem_of_keysOf in Hk);
    naive_solver.
Qed.

Lemma coverage_None regions models k info :
  coverage regions models k info = None ↔ ∀ value, ¬ limitFor regions models k info value.
Proof.
  split.
  - intros Hc value Hl. pose proof (proj2 (coverage_limitFor regions models k info _ value)
      (conj Hl eq_refl)). congruence.
  - intros Hl. destruct (coverage regions models k info) as [[score value]|] eqn:Hc; [|done].
    apply coverage_limitFor in Hc as [Hc _]. by destruct (Hl value).
Qed.

(** What the loop keeps for a key: no later entry scores as high and no earlier one
    higher. *)
Definition kept (regions models : list string) (infos : list DimensionsInfo)
    (k : string) (score value : Z) : Prop :=
  ∃ before info after,
    infos = before ++ info :: after ∧ coverage regions models k info = Some (score, value) ∧
    (∀ i s v, i ∈ before → coverage regions models k i = Some (s, v) → s ≤ score) ∧
    (∀ i s v, i ∈ after → coverage regions models k i = Some (s, v) → s < score).

Lemma kept_mostSpecific regions models infos k score value :
  kept regions models infos k score value → mostSpecific regions models infos k value.
Proof.
  intros (before & info & after & -> & Hinfo & Hb & Ha).
  apply coverage_limitFor in Hinfo as [Hl ->]. exists before, info, after. split; [done|].
  split; [done|]. split; intros i v Hi Hli; rewrite moreSpecific_score;
    pose proof (proj2 (coverage_limitFor regions models k i _ v) (conj Hli eq_refl)) as Hci.
  - apply Z.ltb_ge. by eapply Hb.
  - apply Z.ltb_lt. by eapply Ha.
Qed.

Lemma extract_inv regions models infos k :
  let acc := foldl (extractOne regions models) (∅, ∅) infos in
  match acc.1 !! k, acc.2 !! k with
  | None, None => ∀ i, i ∈ infos → coverage regions models k i = None
  | Some value, Some score => kept regions models infos k score value
  | _, _ => False
  end.
Proof.
  induction infos as [|info infos IH] using rev_ind; cbn zeta in *.
  { simpl. rewrite !lookup_empty. intros i Hi. by apply not_elem_of_nil in Hi. }
  rewrite foldl_snoc. pose proof (lookup_extractOne regions models
    (foldl (extractOne regions models) (∅, ∅) infos) info k) as Hl. cbn zeta in Hl.
  revert Hl.
  destruct (extractOne _ _ _ info) as [resp' spec']. simpl.
  destruct (foldl _ (∅, ∅) infos) as [resp spec]. simpl in *.
  destruct (coverage regions models k info) as [[s v]|] eqn:Hcov.
  - destruct (resp !! k) as [v0|], (spec !! k) as [s0|]; try done.
    + destruct (Z.ltb_spec s s0) as [Hlt|Hge]; intros [= -> ->].
      * destruct IH as (before & i0 & after & -> & Hi0 & Hb & Ha).
        exists before, i0, (after ++ [info]). rewrite <- app_assoc. split_and!; [done..|].
        intros i s1 v1 [Hi| ->]%elem_of_snoc Hci; [by eapply Ha|].
        rewrite Hcov in Hci. by injection Hci as <- <-.
      * destruct IH as (before & i0 & after & -> & Hi0 & Hb & Ha).
        exists (before ++ i0 :: after), info, []. split_and!; [done..| |set_solver].
        intros i s1 v1 [Hi|[->|Hi]%elem_of_cons]%elem_of_app Hci.
        -- specialize (Hb i s1 v1 Hi Hci). lia.
        -- rewrite Hi0 in Hci. injection Hci as <- <-. lia.
        -- specialize (Ha i s1 v1 Hi Hci). lia.
    + intros [= -> ->]. exists infos, info, []. split_and!; [done..| |set_solver].
      intros i s1 v1 Hi Hci. by rewrite (IH i Hi) in Hci.
  - intros [= -> ->]. destruct (resp !! k) as [v0|], (spec !! k) as [s0|]; try done.
    + destruct IH as (before & i0 & after & -> & Hi0 & Hb & Ha).
      exists before, i0, (after ++ [info]). rewrite <- app_assoc. split_and!; [done..|].
      intros i s1 v1 [Hi| ->]%elem_of_snoc Hci; [by eapply Ha|].
      by rewrite Hcov in Hci.
    + intros i [Hi| ->]%elem_of_snoc; auto.
Qed.

Lemma extractLimits_spec qi regions models k :
  match extractLimits (Some qi) regions models !! k with
  | Some value => mostSpecific regions models (GetDimensionsInfos qi) k value
  | None => ∀ i value, i ∈ GetDimensionsInfos qi → ¬ limitFor regions models k i value
  end.
Proof.
  unfold extractLimits. pose proof (extract_inv regions models (GetDimensionsInfos qi) k) as Hinv.
  cbn zeta in Hinv. destruct (_.1 !! k), (_.2 !! k); try done.
  - by eapply kept_mostSpecific.
  - intros i value Hi. by apply coverage_None, Hinv.
Qed.

(** ** Usage *)

(** A series of a location and a model, and its newest point, the first. *)
Definition seriesFor (k : string) (ts : TimeSeries) (n : Z) : Prop :=
  k = Helpers.orgKey (default "" (ResourceLabels ts !! "location"))
                     (default "" (MetricLabels ts !! "base_model")) ∧
  ∃ older, PointValues ts = n :: older.

(** The newest point of the last series for a key. *)
Definition newestUsage (items : list (result TimeSeries)) (k : string) (n : Z) : Prop :=
  ∃ before ts after,
    items = before ++ Ok ts :: after ∧ seriesFor k ts n ∧
    ∀ ts' n', Ok ts' ∈ after → ¬ seriesFor k ts' n'.

Definition noSeries (items : list (result TimeSeries)) (k : string) : Prop :=
  ∀ ts n, Ok ts ∈ items → ¬ seriesFor k ts n.

Lemma addPoint_lookup usage ts k :
  match addPoint usage ts !! k with
  | Some n => seriesFor k ts n ∨ (usage !! k = Some n ∧ ∀ n', ¬ seriesFor k ts n')
  | None => usage !! k = None ∧ ∀ n', ¬ seriesFor k ts n'
  end.
Proof.
  unfold addPoint, seriesFor, label.
  set (key := Helpers.orgKey _ _). destruct (PointValues ts) as [|n older].
  - destruct (usage !! k); [right|]; (split; [done|]); by intros n' [_ [older ?]].
  - destruct (decide (key = k)) as [<-|Hne].
    + rewrite lookup_insert_eq. left. eauto.
    + rewrite lookup_insert_ne by done. destruct (usage !! k); [right|]; (split; [done|]);
        by intros n' [? _].
Qed.

Lemma readUsage_Ok p items usage u :
  readUsage p items usage = Ok u →
  (∀ e, Err e ∉ items) ∧
  ∀ k, match u !! k with
       | Some n => newestUsage items k n ∨ (usage !! k = Some n ∧ noSeries items k)
       | None => usage !! k = None ∧ noSeries items k
       end.
Proof.
  revert usage. induction items as [|[ts|e] items IH]; intros usage; cbn [readUsage]; [|..].
  - intros [= <-]. split; [by intros e ?%elem_of_nil|]. intros k.
    destruct (usage !! k); [right|]; (split; [done|]); by intros ? ? ?%elem_of_nil.
  - intros Hrun. destruct (IH _ Hrun) as [Herr Hk]. split.
    { intros e [?|?]%elem_of_cons; [done|by eapply Herr]. }
    intros k. specialize (Hk k). pose proof (addPoint_lookup usage ts k) as Hadd.
    assert (noSeries items k → (∀ n', ¬ seriesFor k ts n') → noSeries (Ok ts :: items) k) as Hno.
    { intros H1 H2 ts' n' [[= ->]|?]%elem_of_cons; [apply H2|by apply H1]. }
    destruct (u !! k) as [n|].
    + destruct Hk as [(before & ts' & after & -> & Hk)|[Hn Hitems]].
      { left. by exists (Ok ts :: before), ts', after. }
      rewrite Hn in Hadd. destruct Hadd as [Hts|[? ?]]; [left|right; auto].
      exists [], ts, items. split_and!; [done|done|]. intros ts' n' Hin. by apply Hitems.
    + destruct Hk as [Hn Hitems]. rewrite Hn in Hadd. destruct Hadd. auto.
  - done.
Qed.

Lemma readUsage_Err p items usage e :
  readUsage p items usage = Err e →
  ∃ e', Err e' ∈ items ∧ e = "failed to iterate timeseries for project " +:+ p +:+ ": " +:+ e'.
Proof.
  revert usage. induction items as [|[ts|e'] items IH]; intros usage; cbn [readUsage]; [done|..].
  - intros Hrun. destruct (IH _ Hrun) as (e' & Hin & ->). exists e'. split; [by right|done].
  - intros [= <-]. exists e'. split; [left|done].
Qed.

(** ** Configured limits *)

(** The keys of the configuration that can hold the limit of a model, the first one
    that is there wins: project, region and model; region and model; the model; and
    its family. *)
Definition candidates (project region model : string) : list string :=
  (if String.eqb project "" then [] else [Helpers.projectKey project region model]) ++
  [Helpers.orgKey region model; to_lower model] ++
  filter (λ family, GoStrings.contains (to_lower model) family = true)
    ["flash-lite"; "flash"; "pro"].

(** The limit may be null in the file; without any key there is a built-in one. *)
Inductive configured (limits : gmap string (option Config.ModelLimit)) (keys : list string)
    : option Config.ModelLimit → Prop :=
  | configured_key before k after limit :
      keys = before ++ k :: after → (∀ j, j ∈ before → limits !! j = None) →
      limits !! k = Some limit → configured limits keys limit
  | configured_builtin :
      (∀ j, j ∈ keys → limits !! j = None) →
      configured limits keys (Some (Config.mkModelLimit 1000 2000000)).

Definition builtin : option Config.ModelLimit := Some (Config.mkModelLimit 1000 2000000).

Definition firstKey (limits : gmap string (option Config.ModelLimit)) (keys : list string)
    : option Config.ModelLimit :=
  foldr (λ k next, default next (limits !! k)) builtin keys.

Lemma firstKey_app limits keys1 keys2 :
  firstKey limits (keys1 ++ keys2) =
    foldr (λ k next, default next (limits !! k)) (firstKey limits keys2) keys1.
Proof. unfold firstKey. by rewrite foldr_app. Qed.

Lemma resolve_firstKey limits project region model :
  resolveFallbackLimit limits project region model =
    firstKey limits (candidates project region model).
Proof.
  unfold resolveFallbackLimit, candidates, Helpers.projectKey, Helpers.orgKey.
  rewrite !firstKey_app. unfold firstKey.
  repeat (rewrite filter_cons || rewrite filter_nil).
  destruct (String.eqb project ""); cbn [negb foldr];
    repeat (destruct (decide (GoStrings.contains (to_lower model) _ = true)) as [Hc|Hc];
            [|apply not_true_is_false in Hc]; rewrite Hc; clear Hc);
    cbn [foldr]; repeat (destruct (limits !! _); cbn [default]; [done|]); done.
Qed.

Lemma firstKey_configured limits keys : configured limits keys (firstKey limits keys).
Proof.
  induction keys as [|k keys IH]; [apply configured_builtin; by intros ? ?%elem_of_nil|].
  cbn [firstKey foldr]. fold (firstKey limits keys). destruct (limits !! k) as [limit|] eqn:Hk; cbn [default].
  - eapply (configured_key _ _ []); [done|by intros ? ?%elem_of_nil|done].
  - destruct IH as [before j after limit -> Hb Hj|Hall].
    + apply (configured_key _ _ (k :: before) j after); [done| |done].
      intros i [->|Hi]%elem_of_cons; auto.
    + apply configured_builtin. intros i [->|Hi]%elem_of_cons; auto.
Qed.

Lemma configured_unique limits keys limit : configured limits keys limit → limit = firstKey limits keys.
Proof.
  assert (∀ before after, (∀ j, j ∈ before → limits !! j = None) →
    firstKey limits (before ++ after) = firstKey limits after) as Hskip.
  { intros before after Hb. rewrite firstKey_app.
    induction before as [|k before IH]; [done|]. cbn [foldr]. rewrite (Hb k) by left.
    apply IH. intros. apply Hb. by right. }
  intros [before k after limit' -> Hb Hk|Hall].
  - rewrite Hskip by done. cbn [firstKey foldr]. by rewrite Hk.
  - pose proof (Hskip keys [] Hall) as Hs. rewrite app_nil_r in Hs. by rewrite Hs.
Qed.

Lemma configured_resolve limits project region model limit :
  configured limits (candidates project region model) limit ↔
    resolveFallbackLimit limits project region model = limit.
Proof.
  rewrite resolve_firstKey. split; [by intros ->%configured_unique|].
  intros <-. apply firstKey_configured.
Qed.

(** ** Properties *)

(** C20: for every region and model the most specific limit wins, wherever it stands
    in the response: the value comes from an entry for them (which names the region, or
    no region, and the model, or no model, whatever the case, and has a value) such
    that no entry for them is more specific, in the order region+model > model-only >
    region-only > global, and no later one as specific; a key has no limit only if no
    entry is for it. *)
Theorem extractLimits_most_specific qi regions models k :
  match extractLimits (Some qi) regions models !! k with
  | Some value => mostSpecific regions models (GetDimensionsInfos qi) k value
  | None => ∀ i value, i ∈ GetDimensionsInfos qi → ¬ limitFor regions models k i value
  end.
Proof. exact (extractLimits_spec qi regions models k). Qed.

(** *** What a fetch reports *)

(** The limit of one metric of a project: what Cloud Quotas says of the target, when it
    answers and says something, 0 for its -1, "no limit"; otherwise the configured one. *)
Inductive limitIs (answer : result (option QuotaInfo)) (regions models : list string) (k : string)
    (configuredLimit : Z) : Z → Prop :=
  | limit_stated qi value :
      answer = Ok (Some qi) → mostSpecific regions models (GetDimensionsInfos qi) k value →
      0 < value → limitIs answer regions models k configuredLimit value
  | limit_unlimited qi :
      answer = Ok (Some qi) → mostSpecific regions models (GetDimensionsInfos qi) k (-1) →
      limitIs answer regions models k configuredLimit 0
  | limit_useless qi value :
      answer = Ok (Some qi) → mostSpecific regions models (GetDimensionsInfos qi) k value →
      value ≤ 0 → value ≠ -1 → limitIs answer regions models k configuredLimit configuredLimit
  | limit_unstated qi :
      answer = Ok (Some qi) →
      (∀ i value, i ∈ GetDimensionsInfos qi → ¬ limitFor regions models k i value) →
      limitIs answer regions models k configuredLimit configuredLimit
  | limit_unanswered :
      answer = Ok None ∨ (∃ e, answer = Err e) →
      limitIs answer regions models k configuredLimit configuredLimit.

(** The usage of one metric: the newest point of the target's series, or zero. *)
Inductive usageIs (answer : result (list (result TimeSeries))) (k : string) : Z → Prop :=
  | usage_stated items n :
      answer = Ok items → (∀ e, Err e ∉ items) → newestUsage items k n → usageIs answer k n
  | usage_unstated items :
      answer = Ok items → (∀ e, Err e ∉ items) → noSeries items k → usageIs answer k 0.

(** The entries: one per target for the organisation, with the configured allowance,
    and one per target and project. *)
Inductive reported (gqc : GCPClient) (projectIDs regions models : list string)
    (now : string → string → Time) : string → RawModelQuota → Prop :=
  | reported_org r m allowance :
      r ∈ regions → m ∈ models →
      configured (allowances gqc) (candidates "" r m) (Some allowance) →
      reported gqc projectIDs regions models now (to_lower r +:+ "/" +:+ to_lower m)
        {| ProjectId := ""; Model := m; Region := r;
           MaxTpm := Config.MaxTpm allowance; MaxRpm := Config.MaxRpm allowance;
           CurrentRpm := 0; CurrentTpm := 0 |}
  | reported_project p r m fallback maxRpm maxTpm usedRpm usedTpm :
      p ∈ projectIDs → r ∈ regions → m ∈ models → p ≠ "" → r ≠ "" → m ≠ "" →
      configured (projectLimits gqc) (candidates p r m) (Some fallback) →
      let target := to_lower r +:+ "/" +:+ to_lower m in
      limitIs (makeQuotaRequest gqc (quotaResource p rpmQuotaID)) regions models target
        (Config.MaxRpm fallback) maxRpm →
      limitIs (makeQuotaRequest gqc (quotaResource p tpmQuotaID)) regions models target
        (Config.MaxTpm fallback) maxTpm →
      usageIs (makeUsageRequest gqc (usageRequest p rpmMetricType (now p rpmMetricType))) target
        usedRpm →
      usageIs (makeUsageRequest gqc (usageRequest p tpmMetricType (now p tpmMetricType))) target
        usedTpm →
      reported gqc projectIDs regions models now
        (to_lower p +:+ "/" +:+ to_lower r +:+ "/" +:+ to_lower m)
        {| ProjectId := p; Model := m; Region := r; MaxTpm := maxTpm; MaxRpm := maxRpm;
           CurrentRpm := usedRpm; CurrentTpm := usedTpm |}.

Lemma resolveLimit_limitIs gqc p quotaID regions models k fallback :
  limitIs (makeQuotaRequest gqc (quotaResource p quotaID)) regions models k fallback
    (resolveLimit
       (extractLimits (match fetchQuotaInfo gqc p quotaID with Err _ => None | Ok info => info end)
                      regions models) k fallback).
Proof.
  unfold fetchQuotaInfo. cbn zeta.
  destruct (makeQuotaRequest gqc _) as [[qi|]|e]; unfold resolveLimit.
  - pose proof (extractLimits_spec qi regions models k) as Hspec.
    destruct (extractLimits (Some qi) regions models !! k) as [value|].
    + unfold UnlimitedQuota. destruct (Z.eqb_spec value (-1)) as [->|Hne].
      { by apply (limit_unlimited _ _ _ _ _ qi). }
      destruct (Z.ltb_spec 0 value); [by eapply limit_stated|by eapply limit_useless].
    + by eapply limit_unstated.
  - cbn. rewrite lookup_empty. apply limit_unanswered. by left.
  - cbn. rewrite lookup_empty. apply limit_unanswered. right. by eexists.
Qed.

Lemma fetchUsage_usageIs gqc p metric t usage k :
  fetchUsageInfo gqc p metric t = Ok usage →
  usageIs (makeUsageRequest gqc (usageRequest p metric t)) k (default 0 (usage !! k)).
Proof.
  unfold fetchUsageInfo. destruct (makeUsageRequest gqc _) as [items|e] eqn:Hreq; [|done].
  intros Hread. destruct (readUsage_Ok _ _ _ _ Hread) as [Herr Hk]. specialize (Hk k).
  destruct (usage !! k) as [n|]; cbn [default].
  - destruct Hk as [Hn|[Hempty _]]; [by eapply usage_stated|by rewrite lookup_empty in Hempty].
  - eapply usage_unstated; [done|done|apply Hk].
Qed.

Lemma projectEntry_reported gqc projectIDs regions models now p r m fallback data :
  p ∈ projectIDs → r ∈ regions → m ∈ models → p ≠ "" → r ≠ "" → m ≠ "" →
  resolveFallbackLimit (projectLimits gqc) p r m = Some fallback →
  gatherProject gqc regions models now p = Ok data →
  reported gqc projectIDs regions models now (Helpers.projectKey p r m)
    (projectEntry data fallback p r m).
Proof.
  intros Hp Hr Hm Hp0 Hr0 Hm0 Hfb. unfold gatherProject.
  destruct (fetchUsageInfo gqc p rpmMetricType _) as [rpm|] eqn:Hrpm; [|done].
  destruct (fetchUsageInfo gqc p tpmMetricType _) as [tpm|] eqn:Htpm; [|done]. intros [= <-].
  apply reported_project with (fallback := fallback); [done..| | | | |].
  - by apply configured_resolve.
  - apply resolveLimit_limitIs.
  - apply resolveLimit_limitIs.
  - by apply (fetchUsage_usageIs gqc p rpmMetricType).
  - by apply (fetchUsage_usageIs gqc p tpmMetricType).
Qed.

Lemma gather_Ok gqc regions models now projects data data' :
  gather gqc regions models now projects data = Ok data' →
  (∀ p d, data !! p = Some d → gatherProject gqc regions models now p = Ok d) →
  (∀ p d, data' !! p = Some d → gatherProject gqc regions models now p = Ok d) ∧
  (∀ p, p ∈ projects ∨ is_Some (data !! p) → is_Some (data' !! p)).
Proof.
  revert data. induction projects as [|p projects IH]; intros data; simpl.
  { intros [= <-] Hd. split; [done|]. set_solver. }
  intros (d & Hp & Hrest)%result_bind_Ok Hdata.
  destruct (IH _ Hrest) as [Hsound Hdom].
  { intros q d'. destruct (decide (p = q)) as [<-|Hne].
    - rewrite lookup_insert_eq. by intros [= <-].
    - rewrite lookup_insert_ne by done. apply Hdata. }
  split; [done|]. intros q Hq. apply Hdom. destruct (decide (p = q)) as [<-|Hne].
  - right. rewrite lookup_insert_eq. by eexists.
  - rewrite lookup_insert_ne by done. destruct Hq as [[->|?]%elem_of_cons|?]; [done|by left|by right].
Qed.

Lemma gather_total gqc regions models now projects data :
  (∀ p, p ∈ projects → ∃ d, gatherProject gqc regions models now p = Ok d) →
  ∃ data', gather gqc regions models now projects data = Ok data'.
Proof.
  revert data. induction projects as [|p projects IH]; intros data Hp; [by eexists|]. simpl.
  destruct (Hp p) as [d ->]; [left|]. apply IH. intros. apply Hp. by right.
Qed.

Lemma GetKey_Ok q k :
  GetKey q = Ok k ↔
  ProjectId q ≠ "" ∧ Region q ≠ "" ∧ Model q ≠ "" ∧
  k = Helpers.projectKey (ProjectId q) (Region q) (Model q).
Proof.
  unfold GetKey. destruct (String.eqb_spec (ProjectId q) ""), (String.eqb_spec (Region q) ""),
    (String.eqb_spec (Model q) ""); simpl; naive_solver.
Qed.

Lemma addProject_step gqc gcpData r m resp p resp' :
  addProject gqc gcpData r m resp p = Returned (Ok resp') →
  ∃ fallback, resolveFallbackLimit (projectLimits gqc) p r m = Some fallback ∧
    p ≠ "" ∧ r ≠ "" ∧ m ≠ "" ∧
    resp' = <[Helpers.projectKey p r m :=
              projectEntry (default noData (gcpData !! p)) fallback p r m]> resp.
Proof.
  unfold addProject. destruct (resolveFallbackLimit _ p r m) as [fb|]; [|done].
  destruct (GetKey _) as [k|] eqn:Hk; [|done]. intros [= <-].
  apply GetKey_Ok in Hk as (? & ? & ? & ->). by eexists.
Qed.

Lemma is_Some_insert {A} (m : gmap string A) k a j :
  is_Some (m !! j) → is_Some (<[k := a]> m !! j).
Proof. rewrite lookup_insert_is_Some'. auto. Qed.

Lemma addTarget_step gqc projectIDs regions models now gcpData resp r m resp' :
  (∀ p, p ∈ projectIDs → ∃ d, gcpData !! p = Some d ∧ gatherProject gqc regions models now p = Ok d) →
  r ∈ regions → m ∈ models →
  addTarget gqc gcpData projectIDs resp (r, m) = Returned (Ok resp') →
  (∀ k q, resp !! k = Some q → reported gqc projectIDs regions models now k q) →
  (∀ k q, resp' !! k = Some q → reported gqc projectIDs regions models now k q) ∧
  (is_Some (resp' !! Helpers.orgKey r m) ∧
   ∀ p, p ∈ projectIDs → is_Some (resp' !! Helpers.projectKey p r m)) ∧
  (∀ k, is_Some (resp !! k) → is_Some (resp' !! k)).
Proof.
  intros Hdata Hr Hm Hrun Hresp. unfold addTarget in Hrun.
  destruct (resolveFallbackLimit (allowances gqc) "" r m) as [limit|] eqn:Hlimit; [|done].
  set (resp0 := <[Helpers.orgKey r m := orgEntry r m limit]> resp) in Hrun.
  set (P := λ a : gmap string RawModelQuota, (∀ k q, a !! k = Some q → reported gqc projectIDs regions models now k q) ∧
                 ∀ k, is_Some (resp0 !! k) → is_Some (a !! k)).
  assert (P resp0) as HP0.
  { split; [|done]. intros k q. unfold resp0.
    destruct (decide (Helpers.orgKey r m = k)) as [<-|Hne].
    - rewrite lookup_insert_eq. intros [= <-]. apply reported_org; [done..|]. by apply configured_resolve.
    - rewrite lookup_insert_ne by done. apply Hresp. }
  assert (∀ (a : gmap string RawModelQuota) p a', p ∈ projectIDs → addProject gqc gcpData r m a p = Returned (Ok a') → P a →
    P a' ∧ is_Some (a' !! Helpers.projectKey p r m) ∧
    ∀ j, is_Some (a !! Helpers.projectKey j r m) → is_Some (a' !! Helpers.projectKey j r m)) as Hstep.
  { intros a p a' Hp Hadd [Ha Hk]. apply addProject_step in Hadd as (fb & Hfb & ? & ? & ? & ->).
    destruct (Hdata p Hp) as (d & Hd & Hg). rewrite Hd. simpl.
    split; [split|split]; [| |rewrite lookup_insert_eq; by eexists|]; auto using is_Some_insert.
    intros k q. destruct (decide (Helpers.projectKey p r m = k)) as [<-|Hne].
    - rewrite lookup_insert_eq. intros [= <-]. by apply projectEntry_reported.
    - rewrite lookup_insert_ne by done. apply Ha. }
  destruct (each_spec _ P (λ p (a : gmap string RawModelQuota), is_Some (a !! Helpers.projectKey p r m)) _ _ _ Hstep Hrun HP0)
    as ((Hrep & Hmono) & Hall & _).
  split_and!; [done| |done|].
  - apply Hmono. unfold resp0. rewrite lookup_insert_eq. by eexists.
  - intros k Hk. by apply Hmono, is_Some_insert.
Qed.

Lemma FetchMetrics_spec gqc projectIDs regions models now resp :
  FetchMetrics gqc projectIDs regions models now = Returned (Ok resp) →
  (∀ k q, resp !! k = Some q → reported gqc projectIDs regions models now k q) ∧
  (∀ r m, r ∈ regions → m ∈ models → is_Some (resp !! Helpers.orgKey r m)) ∧
  (∀ p r m, p ∈ projectIDs → r ∈ regions → m ∈ models →
     is_Some (resp !! Helpers.projectKey p r m)).
Proof.
  unfold FetchMetrics. destruct (gather _ _ _ _ _ ∅) as [gcpData|] eqn:Hg; [|done].
  intros Hrun. destruct (gather_Ok _ _ _ _ _ _ _ Hg) as [Hsound Hdom]; [done|].
  assert (∀ p, p ∈ projectIDs → ∃ d, gcpData !! p = Some d ∧
            gatherProject gqc regions models now p = Ok d) as Hdata.
  { intros p Hp. destruct (Hdom p) as [d Hd]; [by left|]. eauto. }
  destruct (each_spec (addTarget gqc gcpData projectIDs)
    (λ resp : gmap string RawModelQuota,
       ∀ k q, resp !! k = Some q → reported gqc projectIDs regions models now k q)
    (λ rm (resp : gmap string RawModelQuota), is_Some (resp !! Helpers.orgKey rm.1 rm.2) ∧
       ∀ p, p ∈ projectIDs → is_Some (resp !! Helpers.projectKey p rm.1 rm.2))
    (targets regions models) ∅ resp) with (2 := Hrun) as (Hrep & Hall & _); [|done|].
  - intros a [r m] a' [Hr Hm]%elem_of_targets Hstep Ha.
    pose proof (addTarget_step _ _ _ _ _ _ _ _ _ _ Hdata Hr Hm Hstep Ha) as (Ha' & HQ & Hmono).
    split; [exact Ha'|]. split; [exact HQ|]. naive_solver.
  - split; [done|]. split; [intros r m Hr Hm|intros p r m Hp Hr Hm];
      destruct (Hall (r, m)) as [Horg Hprojects]; auto; by apply elem_of_targets.
Qed.

(** C21: a fetch that succeeds reports exactly the configured targets: for every
    region and model the configured allowance as the organisation's limits with no
    usage; and for every project, region and model the limits that Cloud Quotas states
    for them, requests and tokens each under its own quota, with zero for unlimited
    (-1) and the configured fallback for what it does not state, and as usage the newest
    point of their series, requests and tokens each under its own metric. *)
Theorem FetchMetrics_reports gqc projectIDs regions models now resp :
  FetchMetrics gqc projectIDs regions models now = Returned (Ok resp) →
  (∀ k q, resp !! k = Some q → reported gqc projectIDs regions models now k q) ∧
  (∀ r m, r ∈ regions → m ∈ models → is_Some (resp !! Helpers.orgKey r m)) ∧
  (∀ p r m, p ∈ projectIDs → r ∈ regions → m ∈ models →
     is_Some (resp !! Helpers.projectKey p r m)).
Proof. apply FetchMetrics_spec. Qed.

Lemma resolveFallbackLimit_Some limits project region model :
  (∀ k, limits !! k ≠ Some None) →
  ∃ limit, resolveFallbackLimit limits project region model = Some limit.
Proof.
  intros Hl. unfold resolveFallbackLimit.
  assert (∀ (found : bool) k next, (∃ limit, next = Some limit) →
    ∃ limit, match (if found then limits !! k else None) with
             | Some limit => limit | None => next end = Some limit) as Hnext.
  { intros [] k next [limit ->]; [|by eexists]. pose proof (Hl k).
    destruct (limits !! k) as [[l|]|]; [by eexists|done|by eexists]. }
  do 6 (apply Hnext || apply (Hnext true)). by eexists.
Qed.

Lemma gatherProject_total gqc regions models now p :
  is_ok (fetchUsageInfo gqc p rpmMetricType (now p rpmMetricType)) = true →
  is_ok (fetchUsageInfo gqc p tpmMetricType (now p tpmMetricType)) = true →
  ∃ d, gatherProject gqc regions models now p = Ok d.
Proof.
  unfold gatherProject. destruct (fetchUsageInfo _ _ rpmMetricType _); [|done].
  destruct (fetchUsageInfo _ _ tpmMetricType _); [|done]. by eexists.
Qed.

(** C36: only usage can fail a fetch: with no empty name and no null limit in the
    configuration, and usage for every project, the fetch succeeds whatever Cloud
    Quotas answers or fails to answer. *)
Theorem FetchMetrics_survives_quota_outage gqc projectIDs regions models now :
  "" ∉ projectIDs → "" ∉ regions → "" ∉ models →
  (∀ k, projectLimits gqc !! k ≠ Some None) → (∀ k, allowances gqc !! k ≠ Some None) →
  Forall (λ p, is_ok (fetchUsageInfo gqc p rpmMetricType (now p rpmMetricType)) = true ∧
               is_ok (fetchUsageInfo gqc p tpmMetricType (now p tpmMetricType)) = true)
    projectIDs →
  ∃ resp, FetchMetrics gqc projectIDs regions models now = Returned (Ok resp).
Proof.
  intros Hp Hr Hm Hpl Hal Husage. rewrite Forall_forall in Husage. unfold FetchMetrics.
  destruct (gather_total gqc regions models now projectIDs ∅) as [gcpData ->].
  { intros p Hin. destruct (Husage p Hin). by apply gatherProject_total. }
  apply each_total. intros resp [r m] [Hrin Hmin]%elem_of_targets. unfold addTarget.
  destruct (resolveFallbackLimit_Some (allowances gqc) "" r m Hal) as [limit ->].
  apply each_total. intros a p Hpin. unfold addProject.
  destruct (resolveFallbackLimit_Some (projectLimits gqc) p r m Hpl) as [fb ->].
  destruct (GetKey _) as [k|e] eqn:Hk; [by eexists|].
  assert (GetKey (projectEntry (default noData (gcpData !! p)) fb p r m) =
          Ok (Helpers.projectKey p r m)) as Hk'; [|congruence].
  apply GetKey_Ok. simpl. split_and!; [..|done]; by intros ->.
Qed.

Lemma each_panics {A X} (f : A → X → outcome A) (P : X → Prop) xs a :
  (∀ a x, x ∈ xs → f a x = Panicked ∨ ∃ a', f a x = Returned (Ok a')) →
  (∀ a x, x ∈ xs → f a x = Panicked ↔ P x) →
  (each f xs a = Panicked ↔ ∃ x, x ∈ xs ∧ P x) ∧
  (each f xs a = Panicked ∨ ∃ a', each f xs a = Returned (Ok a')).
Proof.
  revert a. induction xs as [|x xs IH]; intros a Hrun Hpanic; cbn [each].
  { split; [|right; by eexists]. split; [done|]. by intros (x & ?%elem_of_nil & _). }
  destruct (IH) with (a := a) as [_ _]; [intros; apply Hrun; by right|intros; apply Hpanic; by right|].
  pose proof (Hpanic a x ltac:(left)) as Hx. destruct (Hrun a x ltac:(left)) as [Hf|[a' Hf]]; rewrite Hf in *.
  - split; [|by left]. split; [|done]. intros _. exists x. split; [left|by apply Hx].
  - destruct (IH a') as [Hiff Htot]; [intros; apply Hrun; by right|intros; apply Hpanic; by right|].
    split; [|done]. rewrite Hiff. split.
    + intros (y & Hy & HP). exists y. split; [by right|done].
    + intros (y & [->|Hy]%elem_of_cons & HP); [by apply Hx in HP|eauto].
Qed.

(** The fetch needs the limit of this target, and it is null. *)
Definition needsNull (gqc : GCPClient) (projectIDs : list string) (r m : string) : Prop :=
  configured (allowances gqc) (candidates "" r m) None ∨
  ∃ p, p ∈ projectIDs ∧ configured (projectLimits gqc) (candidates p r m) None.

Lemma addProject_panics gqc gcpData r m resp p :
  p ≠ "" → r ≠ "" → m ≠ "" →
  (addProject gqc gcpData r m resp p = Panicked ↔
     configured (projectLimits gqc) (candidates p r m) None) ∧
  (addProject gqc gcpData r m resp p = Panicked ∨
   ∃ resp', addProject gqc gcpData r m resp p = Returned (Ok resp')).
Proof.
  intros Hp Hr Hm. rewrite configured_resolve. unfold addProject.
  destruct (resolveFallbackLimit (projectLimits gqc) p r m) as [fb|]; [|split; [done|by left]].
  destruct (GetKey _) as [k|e] eqn:Hk; [split; [done|right; by eexists]|].
  assert (GetKey (projectEntry (default noData (gcpData !! p)) fb p r m) =
          Ok (Helpers.projectKey p r m)) as Hk'; [|congruence].
  by apply GetKey_Ok.
Qed.

Lemma addTarget_panics gqc gcpData projectIDs resp r m :
  "" ∉ projectIDs → r ≠ "" → m ≠ "" →
  (addTarget gqc gcpData projectIDs resp (r, m) = Panicked ↔ needsNull gqc projectIDs r m) ∧
  (addTarget gqc gcpData projectIDs resp (r, m) = Panicked ∨
   ∃ resp', addTarget gqc gcpData projectIDs resp (r, m) = Returned (Ok resp')).
Proof.
  intros Hp Hr Hm. unfold needsNull. rewrite configured_resolve. unfold addTarget.
  destruct (resolveFallbackLimit (allowances gqc) "" r m) as [limit|].
  2: { split; [|by left]. split; [by left|done]. }
  assert (∀ (a : gmap string RawModelQuota) p, p ∈ projectIDs → p ≠ "") as Hpne by (by intros _ p ? ->).
  destruct (each_panics (addProject gqc gcpData r m)
    (λ p, configured (projectLimits gqc) (candidates p r m) None) projectIDs
    (<[Helpers.orgKey r m := orgEntry r m limit]> resp)) as [Hiff Htot].
  - intros a p Hin. apply addProject_panics; eauto.
  - intros a p Hin. apply addProject_panics; eauto.
  - split; [|done]. rewrite Hiff. split; [by right|by intros [?|?]].
Qed.

(** C40: a null limit panics exactly when it is needed. A fetch with usage for every
    project and no empty name dereferences a nil pointer if and only if, for some region
    and model, the first key with which the configuration holds their allowance, or the
    limit of some project for them, has a null entry. ([LoadConfig] accepts such an
    entry, as the witness shows.) *)
Theorem null_limit_panics gqc projectIDs regions models now :
  "" ∉ projectIDs → "" ∉ regions → "" ∉ models →
  Forall (λ p, is_ok (fetchUsageInfo gqc p rpmMetricType (now p rpmMetricType)) = true ∧
               is_ok (fetchUsageInfo gqc p tpmMetricType (now p tpmMetricType)) = true)
    projectIDs →
  FetchMetrics gqc projectIDs regions models now = Panicked ↔
    ∃ r m, r ∈ regions ∧ m ∈ models ∧ needsNull gqc projectIDs r m.
Proof.
  intros Hp Hr Hm Husage. rewrite Forall_forall in Husage. unfold FetchMetrics.
  destruct (gather_total gqc regions models now projectIDs ∅) as [gcpData ->].
  { intros p Hin. destruct (Husage p Hin). by apply gatherProject_total. }
  assert (∀ resp rm, rm ∈ targets regions models →
    (addTarget gqc gcpData projectIDs resp rm = Panicked ↔ needsNull gqc projectIDs rm.1 rm.2) ∧
    (addTarget gqc gcpData projectIDs resp rm = Panicked ∨
     ∃ resp', addTarget gqc gcpData projectIDs resp rm = Returned (Ok resp'))) as Hstep.
  { intros resp [r m] [Hrin Hmin]%elem_of_targets.
    apply addTarget_panics; [done|by intros ->..]. }
  destruct (each_panics (addTarget gqc gcpData projectIDs)
    (λ rm, needsNull gqc projectIDs rm.1 rm.2) (targets regions models) ∅) as [-> _].
  - intros. by apply Hstep.
  - intros. by apply Hstep.
  - split.
    + intros ([r m] & [Hrin Hmin]%elem_of_targets & Hn). by exists r, m.
    + intros (r & m & Hrin & Hmin & Hn). exists (r, m). by rewrite elem_of_targets.
Qed.

End client_facts.

(** ** A concrete client *)

(** Messages as the records of their getters. *)
#[export] Instance plainMessages : CloudMessages | 100 := {
  QuotaInfo := list (option Z * gmap string string);
  DimensionsInfo := option Z * gmap string string;
  TimeSeries := gmap string string * gmap string string * list Z;
  GetDimensionsInfos qi := qi;
  DetailsValue := fst;
  GetDimensions := snd;
  ResourceLabels := λ ts, ts.1.1;
  MetricLabels := λ ts, ts.1.2;
  PointValues := snd
}.

(** Cloud Quotas knows the token limit only, and it is unlimited. *)
Definition sampleClient (limits : gmap string (option Config.ModelLimit)) : GCPClient :=
  {| projectLimits := limits;
     allowances := {["eu/flash" := Some (Config.mkModelLimit 60 90000)]};
     makeQuotaRequest name :=
       if String.eqb name (quotaResource "p1" tpmQuotaID)
       then Ok (Some [(Some (-1), {["base_model" := "FLASH"]}); (Some 5, ∅)])
       else Err "quota API is not enabled";
     makeUsageRequest req :=
       Ok [Ok ({["location" := "eu"]}, {["base_model" := "flash"]}, [7; 3])] |}.

Definition sampleFetch (limits : gmap string (option Config.ModelLimit))
    : outcome (gmap string RawModelQuota) :=
  FetchMetrics (sampleClient limits) ["p1"] ["EU"] ["Flash"] (λ _ _, 0).

Definition sampleLimits : gmap string (option Config.ModelLimit) :=
  {["flash" := Some (Config.mkModelLimit 30 4000)]}.

Definition sampleRaws : gmap string RawModelQuota :=
  <["p1/eu/flash" := mkRawModelQuota "p1" "Flash" "EU" 0 30 7 7]>
    {["eu/flash" := mkRawModelQuota "" "Flash" "EU" 90000 60 0 0]}.

Lemma sampleFetch_Ok : sampleFetch sampleLimits = Returned (Ok sampleRaws).
Proof. vm_compute. reflexivity. Qed.

Lemma FetchMetrics_reports_witness :
  sampleFetch sampleLimits = Returned (Ok sampleRaws) ∧
  ∀ k q, sampleRaws !! k = Some q →
    reported (sampleClient sampleLimits) ["p1"] ["EU"] ["Flash"] (λ _ _, 0) k q.
Proof.
  split; [exact sampleFetch_Ok|]. exact (proj1 (FetchMetrics_reports _ _ _ _ _ _ sampleFetch_Ok)).
Defined.

Lemma FetchMetrics_survives_quota_outage_witness :
  is_ok (fetchQuotaInfo (sampleClient sampleLimits) "p1" rpmQuotaID) = false ∧
  ∃ resp, sampleFetch sampleLimits = Returned (Ok resp).
Proof.
  split; [vm_compute; reflexivity|].
  apply (FetchMetrics_survives_quota_outage (sampleClient sampleLimits));
    try (by rewrite list_elem_of_singleton).
  - intros k. simpl. unfold sampleLimits. rewrite lookup_singleton_Some. naive_solver.
  - intros k. simpl. rewrite lookup_singleton_Some. naive_solver.
  - repeat constructor.
Defined.

(** A configuration with a project limit that is null in the file. *)
Definition nullLimitConfig : Config.Config :=
  {| Config.ProjectIDs := ["p1"]; Config.Regions := ["EU"]; Config.Models := ["Flash"];
     Config.PollInterval := 0; Config.PollTimeout := 0; Config.SafetyMarginPercent := 0;
     Config.DefaultProjectLimits := Some {["flash" := None]};
     Config.Allowances := {["eu/flash" := Some (Config.mkModelLimit 60 90000)]};
     Config.CriticalReservePercent := None; Config.DataplaneReplicas := None;
     Config.DefaultRequestTokens := 0; Config.CustomPolicies := None |}.

Definition nullLoaded : result Config.Config :=
  Config.LoadConfig "config.yaml" (Ok "") (λ _, Ok nullLimitConfig).

Definition limitsOf (r : result Config.Config) : gmap string (option Config.ModelLimit) :=
  match r with Ok c => default ∅ (Config.DefaultProjectLimits c) | Err _ => ∅ end.

(** The null limit is the one that the model's family falls back to. *)
Lemma null_limit_panics_witness :
  is_ok nullLoaded = true ∧ sampleFetch (limitsOf nullLoaded) = Panicked.
Proof.
  split; [vm_compute; reflexivity|].
  assert (limitsOf nullLoaded = {["flash" := None]}) as -> by (vm_compute; reflexivity).
  apply (null_limit_panics (sampleClient {["flash" := None]}));
    [by rewrite list_elem_of_singleton..|by repeat constructor|].
  exists "EU", "Flash". split; [left|]. split; [left|]. right. exists "p1". split; [left|].
  apply (configured_key _ _ ["p1/eu/flash"; "eu/flash"] "flash" ["flash"]); [by vm_compute| |done].
  intros j [->|[->|?%elem_of_nil]%elem_of_cons]%elem_of_cons; [by vm_compute..|done].
Defined.

End Client.
