(* ===== verification/Services.v ===== *)
(** * The clients of the two services: the wrappers of [pkg/controlplane/client.go]

    [GCPQuotaRequestClient] and [GCPUsageRequestClient] hold a client of Google's
    libraries, which is a parameter; the loop of [fetchUsageInfo] over the iterator
    that the monitoring client returns; and the mocks that the package exports.
    [Client] works with what the iterator gives; here the loop is shown to come to
    the same. *)

From S2P Require Import Prelude GoStrings GoFloat Quota Config Client.
From stdpp Require Import options.

Module Services.
Import Client.

Section services.
Context `{GoUnicode} `{CloudMessages}.

(** ** The wrappers *)

(** A [cloudquotas.Client]: what [GetQuotaInfo] answers for a resource name, and
    [Close]. *)
Record CloudQuotas := mkCloudQuotas {
  GetQuotaInfo : string → result (option QuotaInfo);
  closeQuotas : result unit
}.

(** A [monitoring.MetricClient]: what the iterator of [ListTimeSeries] gives. *)
Record MetricClient := mkMetricClient {
  ListTimeSeries : ListTimeSeriesRequest → list (result TimeSeries);
  closeMetrics : result unit
}.

Record GCPQuotaRequestClient := mkGCPQuotaRequestClient {
  cloudQuotasClient : option CloudQuotas
}.

Record GCPUsageRequestClient := mkGCPUsageRequestClient {
  monitoringMetricClient : option MetricClient
}.

(** The argument is the outcome of the library's [NewClient]. *)
Definition NewGCPQuotaRequestClient (newClient : result CloudQuotas) : result GCPQuotaRequestClient :=
  match newClient with
  | Err e => Err ("failed to create cloudquotas client: " +:+ e)
  | Ok quotaClient => Ok (mkGCPQuotaRequestClient (Some quotaClient))
  end.

Definition makeQuotaRequest (c : GCPQuotaRequestClient) (name : string) : result (option QuotaInfo) :=
  match cloudQuotasClient c with
  | None => Err "cannot retreive quota info with a nil quota request client"
  | Some client => GetQuotaInfo client name
  end.

Definition NewGCPUsageRequestClient (newClient : result MetricClient) : result GCPUsageRequestClient :=
  match newClient with
  | Err e => Err ("failed to create monitoring client: " +:+ e)
  | Ok monitoringClient => Ok (mkGCPUsageRequestClient (Some monitoringClient))
  end.

Definition makeUsageRequest (c : GCPUsageRequestClient) (req : ListTimeSeriesRequest)
    : result (list (result TimeSeries)) :=
  match monitoringMetricClient c with
  | None => Err "cannot retreive metrics with a nil monitoring metric client"
  | Some client => Ok (ListTimeSeries client req)
  end.

(** The two [Close] methods, on a pointer that may be nil. *)
Definition closeQuotaClient (c : option GCPQuotaRequestClient) : result unit :=
  match c ≫= cloudQuotasClient with
  | None => Ok tt
  | Some client => closeQuotas client
  end.

Definition closeUsageClient (c : option GCPUsageRequestClient) : result unit :=
  match c ≫= monitoringMetricClient with
  | None => Ok tt
  | Some client => closeMetrics client
  end.

(** ** The loop over an iterator *)

(** What [Next] returns; [Done] is [iterator.Done]. *)
Inductive next : Type :=
  | Item (ts : TimeSeries)
  | Done
  | Failed (err : string).

(** The interface [TimeSeriesIterator]: [Next] moves the iterator. *)
Class TimeSeriesIterator (I : Type) := Next : I → next * I.

(** [for { resp, err := it.Next() ... }], with at most [fuel] calls of [Next]. *)
Fixpoint usageLoop {I} `{!TimeSeriesIterator I} (fuel : nat) (projectID : string) (it : I)
    (usage : gmap string Z) : option (result (gmap string Z)) :=
  match fuel with
  | O => None
  | S fuel =>
      match Next it with
      | (Done, _) => Some (Ok usage)
      | (Failed e, _) =>
          Some (Err ("failed to iterate timeseries for project " +:+ projectID +:+ ": " +:+ e))
      | (Item resp, it) => usageLoop fuel projectID it (addPoint usage resp)
      end
  end.

(** [gives it items]: the iterator gives [items] before it is done; the last one may
    be an error. *)
Inductive gives {I} `{!TimeSeriesIterator I} : I → list (result TimeSeries) → Prop :=
  | gives_done it it' : Next it = (Done, it') → gives it []
  | gives_failed it it' e : Next it = (Failed e, it') → gives it [Err e]
  | gives_item it it' ts items : Next it = (Item ts, it') → gives it' items → gives it (Ok ts :: items).

(** ** The mocks *)

Record MockQuotaRequestClient := mkMockQuotaRequestClient {
  ReturnValue : option QuotaInfo;
  quotaErr : option string
}.

(** With an error the value is not used. *)
Definition mockQuotaRequest (c : MockQuotaRequestClient) (name : string) : result (option QuotaInfo) :=
  match quotaErr c with
  | Some e => Err e
  | None => Ok (ReturnValue c)
  end.

Record MockTimeSeriesIterator := mkMockTimeSeriesIterator {
  Items : list TimeSeries;
  Index : nat;
  iteratorErr : option string
}.

Definition mockNext (m : MockTimeSeriesIterator) : next * MockTimeSeriesIterator :=
  match iteratorErr m with
  | Some e => (Failed e, m)
  | None =>
      match Items m !! Index m with
      | None => (Done, m)
      | Some item => (Item item, mkMockTimeSeriesIterator (Items m) (S (Index m)) None)
      end
  end.

#[export] Instance mock_iterator : TimeSeriesIterator MockTimeSeriesIterator := mockNext.

(** The iterators it returns, one per request, are of a type that the test chooses. *)
Record MockUsageRequestClient (I : Type) := mkMockUsageRequestClient {
  ReturnValues : list I;
  callCount : nat;
  usageErr : option string
}.
Arguments mkMockUsageRequestClient {I} ReturnValues callCount usageErr.
Arguments ReturnValues {I} c : rename.
Arguments callCount {I} c : rename.
Arguments usageErr {I} c : rename.

Definition mockUsageRequest {I} (c : MockUsageRequestClient I)
    : result (I + MockTimeSeriesIterator) * MockUsageRequestClient I :=
  match usageErr c with
  | Some e => (Err e, c)
  | None =>
      match ReturnValues c !! callCount c with
      | None => (Ok (inr (mkMockTimeSeriesIterator [] O None)), c)
      | Some val =>
          (Ok (inl val), mkMockUsageRequestClient (ReturnValues c) (S (callCount c)) None)
      end
  end.

(** What a mock iterator gives. *)
Definition mockItems (m : MockTimeSeriesIterator) : list (result TimeSeries) :=
  match iteratorErr m with
  | Some e => [Err e]
  | None => Ok <$> drop (Index m) (Items m)
  end.

(** Both mocks are empty: no quota information, and an iterator that is done. *)
Definition NewMockGCPClient (projectLimits allowances : gmap string (option Config.ModelLimit))
    : GCPClient :=
  mkGCPClient projectLimits allowances (mockQuotaRequest (mkMockQuotaRequestClient None None))
    (λ _, Ok (mockItems (mkMockTimeSeriesIterator [] O None))).

(** ** Lemmas *)

Lemma mock_gives m : gives m (mockItems m).
Proof.
  destruct m as [items i [e|]].
  { eapply gives_failed. reflexivity. }
  unfold mockItems. cbn [iteratorErr Items Index].
  remember (drop i items) as rest eqn:Hrest. revert i Hrest.
  induction rest as [|ts rest IH]; intros i Hrest.
  - eapply gives_done. cbn. unfold mockNext. cbn [iteratorErr Items Index].
    rewrite (lookup_ge_None_2 items i); [reflexivity|].
    assert (length (drop i items) = O) as Hlen by (by rewrite <- Hrest). rewrite length_drop in Hlen. lia.
  - assert (items !! i = Some ts) as Hts.
    { rewrite <- (Nat.add_0_r i), <- lookup_drop, <- Hrest. reflexivity. }
    eapply gives_item; [cbn; unfold mockNext; cbn [iteratorErr Items Index]; by rewrite Hts|].
    apply IH. rewrite (drop_S _ ts _ Hts) in Hrest. by injection Hrest.
Qed.

(** The empty usage client always answers the same. *)
Lemma mockUsageRequest_empty {I} :
  mockUsageRequest (mkMockUsageRequestClient ([] : list I) O None) =
    (Ok (inr (mkMockTimeSeriesIterator [] O None)), mkMockUsageRequestClient [] O None).
Proof. reflexivity. Qed.

(** The loop comes to what [Client] makes of the list of items. *)
Lemma usageLoop_reads {I} `{!TimeSeriesIterator I} (it : I) items projectID usage fuel :
  gives it items → (length items < fuel)%nat →
  usageLoop fuel projectID it usage = Some (readUsage projectID items usage).
Proof.
  intros Hgives. revert usage fuel.
  induction Hgives as [it it' Hnext|it it' e Hnext|it it' ts items Hnext _ IH];
    intros usage [|fuel] Hfuel; simpl in *; try lia; rewrite Hnext; [done|done|].
  apply IH. lia.
Qed.

(** ** Properties *)

(** C38: the loop of [fetchUsageInfo] over an iterator that gives finitely many
    items ends, after one call of [Next] more than there are items at most. When no item
    is an error, the usage under a key is the newest (first) point of the last series
    with points whose location and base model, in lower case, make that key, and a key
    without such a series has none; otherwise the error names the project and the
    iterator's error. *)
Theorem usage_loop_ends {I} `{!TimeSeriesIterator I} (it : I) items projectID fuel :
  gives it items → (length items < fuel)%nat →
  match usageLoop fuel projectID it ∅ with
  | None => False
  | Some (Ok usage) =>
      (∀ e, Err e ∉ items) ∧
      ∀ k, match usage !! k with
           | Some n => newestUsage items k n
           | None => noSeries items k
           end
  | Some (Err e) =>
      ∃ e', Err e' ∈ items ∧
        e = "failed to iterate timeseries for project " +:+ projectID +:+ ": " +:+ e'
  end.
Proof.
  intros Hgives Hfuel. rewrite (usageLoop_reads it items) by done.
  destruct (readUsage projectID items ∅) as [usage|e] eqn:Hread; [|by eapply readUsage_Err].
  destruct (readUsage_Ok _ _ _ _ Hread) as [Herr Hk]. split; [done|]. intros k. specialize (Hk k).
  destruct (usage !! k); [|apply Hk]. destruct Hk as [?|[Hempty _]]; [done|by rewrite lookup_empty in Hempty].
Qed.

End services.

(** ** A concrete iterator *)

#[local] Existing Instance plainMessages.

(** Two series of one target: the second one's point stays. *)
Definition sampleIterator : MockTimeSeriesIterator :=
  mkMockTimeSeriesIterator
    [({["location" := "EU"]}, {["base_model" := "Flash"]}, [7; 3]); (∅, ∅, []);
     ({["location" := "eu"]}, {["base_model" := "flash"]}, [9])] O None.

Lemma usage_loop_ends_witness :
  usageLoop 4 "p1" sampleIterator ∅ = Some (Ok {["eu/flash" := 9]}) ∧
  newestUsage (mockItems sampleIterator) "eu/flash" 9.
Proof.
  assert (usageLoop 4 "p1" sampleIterator ∅ = Some (Ok {["eu/flash" := 9]})) as Hrun
    by (by vm_compute).
  split; [exact Hrun|].
  pose proof (usage_loop_ends sampleIterator (mockItems sampleIterator) "p1" 4
    (mock_gives sampleIterator) ltac:(cbn; lia)) as H. rewrite Hrun in H.
  destruct H as [_ H]. exact (H "eu/flash").
Defined.

End Services.
