(* ===== verification/Reconciler.v ===== *)
(** * The reconciler: [pkg/controlplane/reconciler.go]

    One poll fetches limits and usage, sums the projects' usage into the quota of
    the organisation, computes headroom and utilization, and saves the snapshot. *)

From S2P Require Import Prelude GoStrings GoFloat Quota Config Store Client.
From stdpp Require Import options.
Import Store Client.

Module Reconciler.

(** [MetricsClient.FetchMetrics] for project IDs, regions and models. *)
Definition MetricsClient : Type :=
  list string → list string → list string → outcome (gmap string RawModelQuota).

(** The store is any implementation of its interface. *)
Record Reconciler (S : Type) := mkReconciler {
  config : Config.Config;
  quotaClient : MetricsClient;
  snapshotStore : S
}.
Arguments mkReconciler {S} config quotaClient snapshotStore.
Arguments config {S} r.
Arguments quotaClient {S} r.
Arguments snapshotStore {S} r.

Definition NewReconciler {S} (config : option Config.Config) (client : option MetricsClient)
    (store : option S) : result (Reconciler S) :=
  match config, client, store with
  | None, _, _ => Err "config cannot be nil"
  | _, None, _ => Err "quota client cannot be nil"
  | _, _, None => Err "snapshot store cannot be nil"
  | Some config, Some client, Some store => Ok (mkReconciler config client store)
  end.

(** ** Headroom *)

Definition computeHeadroomMetric (mx current safetyMarginPercent : Z) : Z * float64 :=
  let usable := (mx *! (100 -! safetyMarginPercent)) /! 100 in
  let utilization :=
    if 0 <? mx then f64_div (f64_of_Z current) (f64_of_Z mx) else f64_zero in
  (usable -! current, utilization).

Definition populateQuotaMetrics (safetyMarginPercent : Z) (q : pb.ModelQuota) : pb.ModelQuota :=
  let rpm := computeHeadroomMetric (pb.MaxRpm q) (pb.CurrentRpm q) safetyMarginPercent in
  let tpm := computeHeadroomMetric (pb.MaxTpm q) (pb.CurrentTpm q) safetyMarginPercent in
  {| pb.ProjectId := pb.ProjectId q; pb.Model := pb.Model q; pb.Region := pb.Region q;
     pb.MaxTpm := pb.MaxTpm q; pb.MaxRpm := pb.MaxRpm q;
     pb.CurrentRpm := pb.CurrentRpm q; pb.CurrentTpm := pb.CurrentTpm q;
     pb.HeadroomRpm := rpm.1; pb.HeadroomTpm := tpm.1;
     pb.UtilizationRpm := rpm.2; pb.UtilizationTpm := tpm.2 |}.

(** ** Aggregation *)

Section reconciler.
Context `{GoUnicode}.

(** A message with the identity of [raw] and no numbers yet. *)
Definition newOrgQuota (raw : RawModelQuota) : pb.ModelQuota :=
  {| pb.ProjectId := ""; pb.Model := Model raw; pb.Region := Region raw;
     pb.MaxTpm := 0; pb.MaxRpm := 0; pb.CurrentRpm := 0; pb.CurrentTpm := 0;
     pb.HeadroomRpm := 0; pb.HeadroomTpm := 0;
     pb.UtilizationRpm := f64_zero; pb.UtilizationTpm := f64_zero |}.

(** The project's quota before [populateQuotaMetrics]. *)
Definition projectQuota (raw : RawModelQuota) : pb.ModelQuota :=
  {| pb.ProjectId := ProjectId raw; pb.Model := Model raw; pb.Region := Region raw;
     pb.MaxTpm := MaxTpm raw; pb.MaxRpm := MaxRpm raw;
     pb.CurrentRpm := CurrentRpm raw; pb.CurrentTpm := CurrentTpm raw;
     pb.HeadroomRpm := 0; pb.HeadroomTpm := 0;
     pb.UtilizationRpm := f64_zero; pb.UtilizationTpm := f64_zero |}.

(** [orgQuotas[orgKey].MaxRpm = ...] and the next line. *)
Definition setLimits (raw : RawModelQuota) (q : pb.ModelQuota) : pb.ModelQuota :=
  {| pb.ProjectId := pb.ProjectId q; pb.Model := pb.Model q; pb.Region := pb.Region q;
     pb.MaxTpm := MaxTpm raw; pb.MaxRpm := MaxRpm raw;
     pb.CurrentRpm := pb.CurrentRpm q; pb.CurrentTpm := pb.CurrentTpm q;
     pb.HeadroomRpm := pb.HeadroomRpm q; pb.HeadroomTpm := pb.HeadroomTpm q;
     pb.UtilizationRpm := pb.UtilizationRpm q; pb.UtilizationTpm := pb.UtilizationTpm q |}.

(** [orgQuotas[orgKey].CurrentRpm += ...] and the next line. *)
Definition addUsage (raw : RawModelQuota) (q : pb.ModelQuota) : pb.ModelQuota :=
  {| pb.ProjectId := pb.ProjectId q; pb.Model := pb.Model q; pb.Region := pb.Region q;
     pb.MaxTpm := pb.MaxTpm q; pb.MaxRpm := pb.MaxRpm q;
     pb.CurrentRpm := pb.CurrentRpm q +! CurrentRpm raw;
     pb.CurrentTpm := pb.CurrentTpm q +! CurrentTpm raw;
     pb.HeadroomRpm := pb.HeadroomRpm q; pb.HeadroomTpm := pb.HeadroomTpm q;
     pb.UtilizationRpm := pb.UtilizationRpm q; pb.UtilizationTpm := pb.UtilizationTpm q |}.

Definition rawKey (raw : RawModelQuota) : string := Helpers.orgKey (Region raw) (Model raw).

(** The statements on [orgQuotas] of one iteration. *)
Definition updateOrg (f : pb.ModelQuota → pb.ModelQuota) (raw : RawModelQuota)
    (orgQuotas : gmap string pb.ModelQuota) : gmap string pb.ModelQuota :=
  <[rawKey raw := f (default (newOrgQuota raw) (orgQuotas !! rawKey raw))]> orgQuotas.

(** The loop over the raw quotas: [(projectQuotas, orgQuotas)]. *)
Fixpoint aggregate (margin : Z) (raws : list RawModelQuota)
    (acc : gmap string pb.ModelQuota * gmap string pb.ModelQuota)
    : result (gmap string pb.ModelQuota * gmap string pb.ModelQuota) :=
  match raws with
  | [] => Ok acc
  | raw :: raws =>
      if String.eqb (ProjectId raw) "" then
        aggregate margin raws (acc.1, updateOrg (setLimits raw) raw acc.2)
      else
        match GetKey raw with
        | Err e => Err e
        | Ok pKey =>
            aggregate margin raws
              (<[pKey := populateQuotaMetrics margin (projectQuota raw)]> acc.1,
               updateOrg (addUsage raw) raw acc.2)
        end
  end.

Section polling.
Context {S : Type} `{SnapshotStore S}.

(** The order of [range] over the raw quotas, the clock's reading, and what goes on
    beside [Save]. *)
Record poll := mkPoll {
  order : gmap string RawModelQuota → list (string * RawModelQuota);
  syncedAt : Time;
  meanwhile : beside
}.

Definition withStore (r : Reconciler S) (s : S) : Reconciler S :=
  mkReconciler (config r) (quotaClient r) s.

(** [reconcile] up to [Save]: the snapshot of what the client fetches. The second loop
    treats every key on its own. *)
Definition snapshotOf (r : Reconciler S)
    (order : gmap string RawModelQuota → list (string * RawModelQuota)) (syncedAt : Time)
    : outcome Snapshot :=
  let c := config r in
  match quotaClient r (Config.ProjectIDs c) (Config.Regions c) (Config.Models c) with
  | Panicked => Panicked
  | Returned (Err e) => Returned (Err e)
  | Returned (Ok rawQuotas) =>
      match aggregate (Config.SafetyMarginPercent c) (order rawQuotas).*2 (∅, ∅) with
      | Err e => Returned (Err e)
      | Ok (projectQuotas, orgQuotas) =>
          let orgQuotas := populateQuotaMetrics (Config.SafetyMarginPercent c) <$> orgQuotas in
          Returned (Ok (pb.mkQuotaSnapshot (Some orgQuotas) (Some projectQuotas) (Some syncedAt)))
      end
  end.

Definition reconcile (r : Reconciler S) (p : poll) : outcome unit * Reconciler S :=
  match snapshotOf r (order p) (syncedAt p) with
  | Panicked => (Panicked, r)
  | Returned (Err e) => (Returned (Err e), r)
  | Returned (Ok snapshot) =>
      let '(err, s) := save (snapshotStore r) (Some snapshot) (meanwhile p) in
      (Returned err, withStore r s)
  end.

(** [Start]: a poll at once and one on every tick; an error is printed and a panic
    ends the program. The client may answer differently on every poll. *)
Fixpoint Start (r : Reconciler S) (polls : list (MetricsClient * poll))
    : option (Reconciler S) :=
  match polls with
  | [] => Some r
  | (client, p) :: polls =>
      match reconcile (mkReconciler (config r) client (snapshotStore r)) p with
      | (Panicked, _) => None
      | (_, r) => Start r polls
      end
  end.

End polling.

(** ** What the snapshot holds *)

(** The sum over the projects of a region and model. *)
Definition usageAt (f : RawModelQuota → Z) (k : string) (raws : list RawModelQuota) : Z :=
  foldr (λ q n, if bool_decide (rawKey q = k ∧ ProjectId q ≠ "") then f q + n else n) 0 raws.

(** The last limit that was set for a region and model. *)
Definition limitAt (f : RawModelQuota → Z) (k : string) (raws : list RawModelQuota) : Z :=
  foldl (λ n q, if bool_decide (rawKey q = k ∧ ProjectId q = "") then f q else n) 0 raws.

(** Keys are where [FetchMetrics] puts them. *)
Definition keyed (raws : gmap string RawModelQuota) : Prop :=
  ∀ k q, raws !! k = Some q →
    if String.eqb (ProjectId q) "" then k = rawKey q else GetKey q = Ok k.

(** An organisation's quota as the raw quotas add up. *)
Definition addsUp (k : string) (raws : list RawModelQuota) (q : pb.ModelQuota) : Prop :=
  pb.CurrentRpm q = wrap64 (usageAt CurrentRpm k raws) ∧
  pb.CurrentTpm q = wrap64 (usageAt CurrentTpm k raws) ∧
  pb.MaxRpm q = limitAt MaxRpm k raws ∧ pb.MaxTpm q = limitAt MaxTpm k raws ∧
  Helpers.orgKey (pb.Region q) (pb.Model q) = k.

Lemma wrap64_add_l a b : wrap64 (wrap64 a + b) = wrap64 (a + b).
Proof.
  unfold wrap64. replace ((a + 2 ^ 63) mod 2 ^ 64 - 2 ^ 63 + b + 2 ^ 63)
    with ((a + 2 ^ 63) mod 2 ^ 64 + b) by lia.
  rewrite Zplus_mod_idemp_l. do 2 f_equal. lia.
Qed.

Lemma usageAt_snoc f k raws q :
  usageAt f k (raws ++ [q]) =
    usageAt f k raws + (if bool_decide (rawKey q = k ∧ ProjectId q ≠ "") then f q else 0).
Proof.
  unfold usageAt. rewrite foldr_snoc.
  set (n := if bool_decide _ then f q + 0 else 0).
  replace (if bool_decide _ then f q else 0) with n by (unfold n; case_bool_decide; lia).
  clearbody n. induction raws as [|q' raws IH]; simpl; [lia|]. rewrite IH. case_bool_decide; lia.
Qed.

Lemma usageAt_perm f k raws raws' : raws ≡ₚ raws' → usageAt f k raws = usageAt f k raws'.
Proof.
  unfold usageAt. induction 1 as [|q l l' _ IH|q q' l|l l' l'' _ IH _ IH']; simpl.
  - done.
  - by rewrite IH.
  - repeat case_bool_decide; lia.
  - congruence.
Qed.

(** One raw quota more. *)
Lemma updateOrg_spec raws raw (org : gmap string pb.ModelQuota) f :
  (∀ k, match org !! k with
        | None => ∀ q, q ∈ raws → rawKey q ≠ k
        | Some q => addsUp k raws q
        end) →
  (∀ q, addsUp (rawKey raw) raws q → addsUp (rawKey raw) (raws ++ [raw]) (f q)) →
  ∀ k, match updateOrg f raw org !! k with
       | None => ∀ q, q ∈ raws ++ [raw] → rawKey q ≠ k
       | Some q => addsUp k (raws ++ [raw]) q
       end.
Proof.
  intros Horg Hf k. unfold updateOrg. destruct (decide (rawKey raw = k)) as [<-|Hne].
  - rewrite lookup_insert_eq. apply Hf. specialize (Horg (rawKey raw)).
    destruct (org !! rawKey raw) as [q|]; [exact Horg|]. simpl.
    assert (∀ f, usageAt f (rawKey raw) raws = 0) as Hu.
    { intros g. clear -Horg. induction raws as [|q raws IH]; [done|]. simpl.
      rewrite bool_decide_eq_false_2; [apply IH; set_solver|].
      intros [Hq _]. by apply (Horg q); [left|]. }
    assert (∀ f, limitAt f (rawKey raw) raws = 0) as Hl.
    { intros g. unfold limitAt. clear -Horg. induction raws as [|q raws IH] using rev_ind; [done|].
      rewrite foldl_snoc, bool_decide_eq_false_2; [apply IH; set_solver|].
      intros [Hq _]. apply (Horg q); [|done]. set_solver. }
    split_and!; simpl; rewrite ?Hu, ?Hl; done.
  - rewrite lookup_insert_ne by done. specialize (Horg k). destruct (org !! k) as [q|].
    + destruct Horg as (? & ? & ? & ? & ?).
      assert (bool_decide (rawKey raw = k ∧ ProjectId raw ≠ "") = false) as Hb
        by (apply bool_decide_eq_false_2; naive_solver).
      assert (bool_decide (rawKey raw = k ∧ ProjectId raw = "") = false) as Hb'
        by (apply bool_decide_eq_false_2; naive_solver).
      unfold addsUp. rewrite !usageAt_snoc, Hb, !Z.add_0_r.
      unfold limitAt. rewrite !foldl_snoc, Hb'. by split_and!.
    + intros q [Hq| ->]%elem_of_snoc; auto.
Qed.

Lemma setLimits_adds raws raw q :
  ProjectId raw = "" → addsUp (rawKey raw) raws q →
  addsUp (rawKey raw) (raws ++ [raw]) (setLimits raw q).
Proof.
  intros Hp (? & ? & ? & ? & ?). unfold addsUp. rewrite !usageAt_snoc.
  unfold limitAt. rewrite !foldl_snoc, bool_decide_eq_false_2 by naive_solver.
  rewrite bool_decide_eq_true_2 by done. by rewrite !Z.add_0_r.
Qed.

Lemma addUsage_adds raws raw q :
  ProjectId raw ≠ "" → addsUp (rawKey raw) raws q →
  addsUp (rawKey raw) (raws ++ [raw]) (addUsage raw q).
Proof.
  intros Hp (Hr & Ht & ? & ? & ?). unfold addsUp. rewrite !usageAt_snoc.
  unfold limitAt. rewrite !foldl_snoc, (bool_decide_eq_true_2 (_ ∧ _)) by done.
  rewrite bool_decide_eq_false_2 by naive_solver. simpl. by rewrite Hr, Ht, !wrap64_add_l.
Qed.

(** The quotas of a list of raw quotas whose projects have keys. *)
Definition aggregated (margin : Z) (raws : list RawModelQuota)
    (acc : gmap string pb.ModelQuota * gmap string pb.ModelQuota) : Prop :=
  (∀ k pq, acc.1 !! k = Some pq ↔
     ∃ q, q ∈ raws ∧ ProjectId q ≠ "" ∧ GetKey q = Ok k ∧
       pq = populateQuotaMetrics margin (projectQuota q)) ∧
  ∀ k, match acc.2 !! k with
       | None => ∀ q, q ∈ raws → rawKey q ≠ k
       | Some q => addsUp k raws q
       end.

(** No two projects of the list have the same key. *)
Definition distinct (raws : list RawModelQuota) : Prop :=
  ∀ q q' k, q ∈ raws → q' ∈ raws → GetKey q = Ok k → GetKey q' = Ok k → q = q'.

Lemma aggregate_spec margin raws done acc :
  distinct (done ++ raws) →
  Forall (λ q, ProjectId q = "" ∨ is_ok (GetKey q) = true) raws →
  aggregated margin done acc →
  ∃ acc', aggregate margin raws acc = Ok acc' ∧ aggregated margin (done ++ raws) acc'.
Proof.
  revert done acc. induction raws as [|raw raws IH]; intros done acc Hd Hall Hacc.
  { exists acc. by rewrite app_nil_r. }
  apply Forall_cons in Hall as [Hraw Hall]. simpl.
  rewrite cons_middle, app_assoc in Hd |- *. destruct Hacc as [Hproj Horg].
  destruct (String.eqb_spec (ProjectId raw) "") as [Hp|Hp].
  - apply IH; [done..|]. split; simpl.
    + intros k pq. rewrite Hproj. split; intros (q & Hq & Hpq & Hk & ->).
      * exists q. split_and!; [apply elem_of_snoc; by left|done..].
      * apply elem_of_snoc in Hq as [Hq| ->]; [by eauto 6|done].
    + apply updateOrg_spec; [done|]. intros. by apply setLimits_adds.
  - destruct Hraw as [|Hkey]; [done|]. destruct (GetKey raw) as [key|] eqn:Hk; [|done].
    apply IH; [done..|]. split; simpl.
    + intros k pq. destruct (decide (key = k)) as [<-|Hne].
      * rewrite lookup_insert_eq. split.
        -- intros [= <-]. exists raw. split_and!; [apply elem_of_snoc; by right|done..].
        -- intros (q & Hq & _ & Hkq & ->). do 3 f_equal. apply (Hd raw q key); [..|done|done];
             apply elem_of_app; left; [apply elem_of_snoc; by right|done].
      * rewrite lookup_insert_ne, Hproj by done. split; intros (q & Hq & Hpq & Hkq & ->).
        -- exists q. split_and!; [apply elem_of_snoc; by left|done..].
        -- apply elem_of_snoc in Hq as [Hq| ->]; [by eauto 6|congruence].
    + apply updateOrg_spec; [done|]. intros. by apply addUsage_adds.
Qed.

Lemma limitAt_unique f k raws v :
  (∀ q, q ∈ raws → rawKey q = k → ProjectId q = "" → f q = v) →
  limitAt f k raws = v ∨
  limitAt f k raws = 0 ∧ ∀ q, q ∈ raws → rawKey q = k → ProjectId q ≠ "".
Proof.
  unfold limitAt. induction raws as [|q raws IH] using rev_ind; intros Hv.
  { right. split; [done|]. set_solver. }
  rewrite foldl_snoc. case_bool_decide as Hq.
  - left. apply Hv; [set_solver|apply Hq..].
  - destruct IH as [IH|[IH Hno]]; [set_solver|by left|right]. split; [done|].
    intros q' [Hin| ->]%elem_of_snoc; naive_solver.
Qed.

(** The limit at a key is that of the raw quota at the key. *)
Definition limitOf (f : RawModelQuota → Z) (raws : gmap string RawModelQuota) (k : string) : Z :=
  match raws !! k with
  | Some q => if String.eqb (ProjectId q) "" then f q else 0
  | None => 0
  end.

Lemma limitAt_keyed f k raws (l : list RawModelQuota) :
  keyed raws → (∀ q, q ∈ l ↔ ∃ j, raws !! j = Some q) →
  limitAt f k l = limitOf f raws k.
Proof.
  intros Hkeyed Hl.
  assert (∀ q, q ∈ l → rawKey q = k → ProjectId q = "" → raws !! k = Some q) as Hat.
  { intros q Hq Hk Hp. apply Hl in Hq as [j Hj]. pose proof (Hkeyed j q Hj) as Hkq.
    rewrite Hp in Hkq. simpl in Hkq. congruence. }
  destruct (limitAt_unique f k l (limitOf f raws k)) as [|[-> Hno]]; [|done|].
  { intros q Hq Hk Hp. unfold limitOf. by rewrite (Hat q Hq Hk Hp), Hp. }
  unfold limitOf. destruct (raws !! k) as [q|] eqn:Hq; [|done].
  pose proof (Hkeyed k q Hq) as Hkq. destruct (String.eqb_spec (ProjectId q) ""); [|done].
  exfalso. apply (Hno q); [apply Hl; by eexists|done..].
Qed.

Lemma elem_of_order raws (order : list (string * RawModelQuota)) q :
  rangeOrder raws order → q ∈ order.*2 ↔ ∃ k, raws !! k = Some q.
Proof.
  intros Ho. rewrite list_elem_of_fmap. split.
  - intros ([k q'] & -> & Hin). exists k. by apply (rangeOrder_elem raws order).
  - intros [k Hk]. exists (k, q). split; [done|]. by apply (rangeOrder_elem raws order).
Qed.

Lemma keyed_distinct raws order :
  keyed raws → rangeOrder raws order → distinct order.*2.
Proof.
  intros Hkeyed Ho q q' k (j & Hj)%(elem_of_order _ _ _ Ho) (j' & Hj')%(elem_of_order _ _ _ Ho) Hk Hk'.
  pose proof (Hkeyed j q Hj) as Hq. pose proof (Hkeyed j' q' Hj') as Hq'.
  apply GetKey_Ok in Hk as Hp, Hk' as Hp'. destruct Hp as [Hp _], Hp' as [Hp' _].
  apply String.eqb_neq in Hp, Hp'. rewrite Hp in Hq. rewrite Hp' in Hq'. congruence.
Qed.

(** ** Properties *)

(** What a poll that fetched [raws] saves. *)
Definition summarizes (margin : Z) (raws : gmap string RawModelQuota) (now : Time)
    (snap : Snapshot) : Prop :=
  ∃ org proj,
    snap = pb.mkQuotaSnapshot (Some org) (Some proj) (Some now) ∧
    (∀ k, proj !! k = raws !! k ≫= λ q,
       if String.eqb (ProjectId q) "" then None
       else Some (populateQuotaMetrics margin (projectQuota q))) ∧
    ∀ k, match org !! k with
         | None => ∀ j q, raws !! j = Some q → rawKey q ≠ k
         | Some oq => ∃ q, oq = populateQuotaMetrics margin q ∧
             pb.CurrentRpm q = wrap64 (usageAt CurrentRpm k (map_to_list raws).*2) ∧
             pb.CurrentTpm q = wrap64 (usageAt CurrentTpm k (map_to_list raws).*2) ∧
             pb.MaxRpm q = limitOf MaxRpm raws k ∧ pb.MaxTpm q = limitOf MaxTpm raws k
         end.

Lemma snapshotOf_spec {S : Type} (r : Reconciler S)
    (order : gmap string RawModelQuota → list (string * RawModelQuota)) t raws :
  let c := config r in
  quotaClient r (Config.ProjectIDs c) (Config.Regions c) (Config.Models c) = Returned (Ok raws) →
  keyed raws → rangeOrder raws (order raws) →
  ∃ snap, snapshotOf r order t = Returned (Ok snap) ∧
    summarizes (Config.SafetyMarginPercent c) raws t snap.
Proof.
  intros c Hfetch Hkeyed Ho. unfold snapshotOf. fold c. rewrite Hfetch.
  assert (Forall (λ q, ProjectId q = "" ∨ is_ok (GetKey q) = true) (order raws).*2) as Hkeys.
  { apply Forall_forall. intros q (k & Hq)%(elem_of_order _ _ _ Ho).
    pose proof (Hkeyed k q Hq) as Hkq. destruct (String.eqb_spec (ProjectId q) ""); [by left|right].
    by rewrite Hkq. }
  destruct (aggregate_spec (Config.SafetyMarginPercent c) (order raws).*2 [] (∅, ∅))
    as ([proj org] & -> & Hproj & Horg); [by apply keyed_distinct with raws|done| |].
  { split; simpl; intros k; rewrite lookup_empty; [|intros q Hq; by apply not_elem_of_nil in Hq].
    intros pq. split; [done|]. by intros (q & Hq%not_elem_of_nil & _). }
  simpl in Hproj, Horg. eexists. split; [reflexivity|]. eexists _, proj. split; [done|]. split.
  - intros k. apply option_eq. intros pq. rewrite Hproj. split.
    + intros (q & (j & Hj)%(elem_of_order _ _ _ Ho) & Hp & Hk & ->).
      pose proof (Hkeyed j q Hj) as Hkq. apply String.eqb_neq in Hp. rewrite Hp in Hkq.
      assert (j = k) as -> by congruence. rewrite Hj. simpl. by rewrite Hp.
    + intros (q & Hq & Hpq)%bind_Some. pose proof (Hkeyed k q Hq) as Hkq.
      destruct (String.eqb_spec (ProjectId q) "") as [|Hp]; [done|]. exists q.
      split_and!; [apply (elem_of_order _ _ _ Ho); by eexists|done|done|by injection Hpq].
  - intros k. rewrite lookup_fmap. specialize (Horg k). destruct (org !! k) as [q|]; simpl.
    + exists q. destruct Horg as (-> & -> & -> & -> & _). split; [done|].
      assert ((order raws).*2 ≡ₚ (map_to_list raws).*2) as Hperm by (by rewrite Ho).
      rewrite !(usageAt_perm _ _ _ _ Hperm), !(limitAt_keyed _ _ raws) by
        (done || (intros q'; by apply elem_of_order)). done.
    + intros j q Hq. apply Horg, (elem_of_order _ _ _ Ho). by eexists.
Qed.

Lemma reconcile_spec {S : Type} `{SnapshotStoreLaws S} (r : Reconciler S) p raws :
  let c := config r in
  quotaClient r (Config.ProjectIDs c) (Config.Regions c) (Config.Models c) = Returned (Ok raws) →
  keyed raws → rangeOrder raws (order p raws) →
  let '(out, r') := reconcile r p in
  out = Returned (Ok tt) ∧
  ∃ snap, get (snapshotStore r') = Ok snap ∧
    summarizes (Config.SafetyMarginPercent c) raws (syncedAt p) snap.
Proof.
  intros c Hfetch Hkeyed Ho. unfold reconcile.
  destruct (snapshotOf_spec r (order p) (syncedAt p) raws Hfetch Hkeyed Ho) as (snap & -> & Hsum).
  edestruct (save_snapshot (snapshotStore r)) as (s' & -> & Hget). split; [done|]. by exists snap.
Qed.

(** A poll whose fetch does not succeed changes nothing. *)
Lemma reconcile_failed {S : Type} `{SnapshotStoreLaws S} (r : Reconciler S) p :
  let c := config r in
  (∀ raws, quotaClient r (Config.ProjectIDs c) (Config.Regions c) (Config.Models c) ≠
     Returned (Ok raws)) →
  (reconcile r p).2 = r.
Proof.
  intros c Hf. unfold reconcile, snapshotOf. fold c.
  destruct (quotaClient r _ _ _) as [[raws|e]|]; [by destruct (Hf raws)|done|done].
Qed.

(** ** The loop *)

(** What a client answers to the configured names. *)
Definition fetched (c : Config.Config) (client : MetricsClient) : outcome (gmap string RawModelQuota) :=
  client (Config.ProjectIDs c) (Config.Regions c) (Config.Models c).

(** The last of the polls that fetched something fetched [raws], at [t]; or none did. *)
Definition lastFetch {B} (c : Config.Config) (syncedAt : B → Time) (polls : list (MetricsClient * B))
    (raws : gmap string RawModelQuota) (t : Time) : Prop :=
  ∃ before client p after, polls = before ++ (client, p) :: after ∧
    fetched c client = Returned (Ok raws) ∧ t = syncedAt p ∧
    ∀ e raws', e ∈ after → fetched c e.1 ≠ Returned (Ok raws').

Definition noFetch {B} (c : Config.Config) (polls : list (MetricsClient * B)) : Prop :=
  ∀ e raws, e ∈ polls → fetched c e.1 ≠ Returned (Ok raws).

Lemma reconcile_config {S : Type} `{SnapshotStore S} (r : Reconciler S) p :
  config (reconcile r p).2 = config r ∧ quotaClient (reconcile r p).2 = quotaClient r.
Proof.
  unfold reconcile. destruct (snapshotOf _ _ _) as [[snap|e]|]; [|done|done].
  by destruct (save _ _ _).
Qed.

Lemma Start_spec {S : Type} `{SnapshotStoreLaws S} (r r' : Reconciler S) polls :
  Start r polls = Some r' →
  (∀ e raws, e ∈ polls → fetched (config r) e.1 = Returned (Ok raws) →
     keyed raws ∧ rangeOrder raws (order e.2 raws)) →
  config r' = config r ∧
  ((noFetch (config r) polls ∧ snapshotStore r' = snapshotStore r) ∨
   ∃ raws t snap, lastFetch (config r) syncedAt polls raws t ∧ get (snapshotStore r') = Ok snap ∧
     summarizes (Config.SafetyMarginPercent (config r)) raws t snap).
Proof.
  revert r. induction polls as [|[client p] polls IH]; intros r Hrun Hkeys; cbn [Start] in Hrun.
  { injection Hrun as <-. split; [done|]. left. split; [|done]. by intros e raws ?%elem_of_nil. }
  set (r0 := mkReconciler (config r) client (snapshotStore r)) in Hrun.
  destruct (reconcile_config r0 p) as [Hc _].
  pose proof (reconcile_spec r0 p) as Hspec. pose proof (reconcile_failed r0 p) as Hfail.
  cbn zeta in Hspec, Hfail. cbn [r0 config quotaClient] in Hspec, Hfail. fold (fetched (config r) client) in Hspec, Hfail.
  assert (∀ out r1, reconcile r0 p = (out, r1) → out ≠ Panicked → Start r1 polls = Some r' →
    config r' = config r ∧
    ((noFetch (config r) polls ∧ snapshotStore r' = snapshotStore r1) ∨
     ∃ raws t snap, lastFetch (config r) syncedAt polls raws t ∧ get (snapshotStore r') = Ok snap ∧
       summarizes (Config.SafetyMarginPercent (config r)) raws t snap)) as Hrest.
  { intros out r1 Hr1 _ Hrun1. rewrite Hr1 in Hc. cbn [snd r0 config] in Hc.
    destruct (IH r1 Hrun1) as [Hc' Hor].
    - intros e raws He. rewrite Hc. apply Hkeys. by right.
    - rewrite Hc in Hc', Hor. by split. }
  destruct (reconcile r0 p) as [out r1] eqn:Hr1.
  assert (out ≠ Panicked ∧ Start r1 polls = Some r') as [Hout Hrun1] by (by destruct out).
  destruct (Hrest out r1 eq_refl Hout Hrun1) as [Hc' Hor]. split; [exact Hc'|].
  destruct Hor as [[Hno Hst]|(raws & t & snap & (before & cl & q & after & -> & Hrest') & Hget & Hsum)].
  2: { right. exists raws, t, snap. split; [|done]. by exists ((client, p) :: before), cl, q, after. }
  destruct (fetched (config r) client) as [[raws|e]|] eqn:Hf.
  - destruct (Hkeys (client, p) raws ltac:(left) Hf) as [Hk Ho].
    destruct (Hspec raws eq_refl Hk Ho) as (_ & snap & Hget & Hsum). right.
    exists raws, (syncedAt p), snap. rewrite Hst. split; [|done].
    by exists [], client, p, polls.
  - assert (r1 = r0) as -> by (by apply Hfail). left. split; [|by rewrite Hst].
    intros x raws [->|Hx]%elem_of_cons; [cbn [fst]; by rewrite Hf|by apply Hno].
  - assert (r1 = r0) as -> by (by apply Hfail). left. split; [|by rewrite Hst].
    intros x raws [->|Hx]%elem_of_cons; [cbn [fst]; by rewrite Hf|by apply Hno].
Qed.


(** What the client fetches is keyed. *)
Lemma FetchMetrics_keyed `{CloudMessages} gqc projectIDs regions models now raws :
  FetchMetrics gqc projectIDs regions models now = Returned (Ok raws) → keyed raws.
Proof.
  intros (Hrep & _)%FetchMetrics_spec k q Hq.
  destruct (Hrep k q Hq) as [r m limit|p r m fb mr mt ur ut ? ? ? Hp]; [done|].
  simpl. apply String.eqb_neq in Hp as Hp'. rewrite Hp'. by apply GetKey_Ok.
Qed.

(** A metric has used up what the safety margin leaves of its limit; a limit of zero
    is no limit. *)
Definition usedUp (margin mx current : Z) : bool :=
  (0 <? mx) && (mx * (100 - margin) / 100 <=? current).

Lemma computeHeadroomMetric_spec margin mx current :
  0 ≤ margin ≤ 100 → 0 ≤ mx < 2 ^ prec → 0 ≤ current < 2 ^ prec →
  let '(headroom, utilization) := computeHeadroomMetric mx current margin in
  headroom = mx * (100 - margin) / 100 - current ∧
  f64_leb f64_one utilization || ((0 <? mx) && (headroom <=? 0)) = usedUp margin mx current.
Proof.
  unfold prec. intros Hm Hmx Hc. unfold computeHeadroomMetric, usedUp.
  rewrite (wrap64_id (100 - margin)) by int64_solve.
  assert (0 ≤ mx * (100 - margin) ≤ mx * 100) as Hprod by nia.
  rewrite (wrap64_id (mx * _)) by int64_solve. rewrite Z.quot_div_nonneg by lia.
  pose proof (Z.div_pos (mx * (100 - margin)) 100 ltac:(lia) ltac:(lia)).
  pose proof (Z.div_le_upper_bound (mx * (100 - margin)) 100 mx ltac:(lia) ltac:(lia)).
  rewrite (wrap64_id (_ / 100)) by int64_solve. rewrite wrap64_id by int64_solve.
  split; [done|]. set (usable := mx * (100 - margin) / 100) in *.
  destruct (Z.ltb_spec 0 mx) as [Hpos|]; [|done]. rewrite !andb_true_l.
  replace (usable - current <=? 0) with (usable <=? current)
    by (destruct (Z.leb_spec usable current), (Z.leb_spec (usable - current) 0); lia).
  destruct (Z.leb_spec usable current); [apply orb_true_r|].
  by rewrite f64_div_below_one by (unfold prec; lia).
Qed.

(** C34: a quota is saturated exactly when a metric that has a limit has used up
    what the safety margin leaves of it, in spite of the floating-point
    utilization; a limit of zero, as an unlimited quota gets, never is. *)
Theorem populated_saturated margin q :
  0 ≤ margin ≤ 100 →
  0 ≤ pb.MaxRpm q < 2 ^ prec → 0 ≤ pb.CurrentRpm q < 2 ^ prec →
  0 ≤ pb.MaxTpm q < 2 ^ prec → 0 ≤ pb.CurrentTpm q < 2 ^ prec →
  Priority.IsSaturated (Some (populateQuotaMetrics margin q)) =
    usedUp margin (pb.MaxRpm q) (pb.CurrentRpm q) || usedUp margin (pb.MaxTpm q) (pb.CurrentTpm q).
Proof.
  intros Hm Hmr Hcr Hmt Hct. unfold Priority.IsSaturated, populateQuotaMetrics. cbv zeta.
  pose proof (computeHeadroomMetric_spec margin _ _ Hm Hmr Hcr) as Hr.
  pose proof (computeHeadroomMetric_spec margin _ _ Hm Hmt Hct) as Ht.
  destruct (computeHeadroomMetric (pb.MaxRpm q) _ _) as [hr ur], Hr as [_ <-].
  destruct (computeHeadroomMetric (pb.MaxTpm q) _ _) as [ht ut], Ht as [_ <-]. simpl.
  destruct (f64_leb f64_one ur), (f64_leb f64_one ut), (0 <? pb.MaxRpm q), (0 <? pb.MaxTpm q),
    (hr <=? 0), (ht <=? 0); reflexivity.
Qed.

(** A poll that fails leaves the store as it was, so the snapshot of the last
    poll that succeeded stays in force; a fetch fails the poll, and so does a raw
    quota of a project with an empty name in it. *)
Theorem failed_poll_keeps_store {S : Type} `{SnapshotStoreLaws S} (r : Reconciler S) p :
  match reconcile r p with
  | (Returned (Ok _), r') =>
      config r' = config r ∧
      ∃ snap, get (snapshotStore r') = Ok snap ∧ pb.LastSyncedAt snap = Some (syncedAt p)
  | (_, r') => r' = r
  end.
Proof.
  unfold reconcile, snapshotOf. destruct (quotaClient r _ _ _) as [[raws|e]|]; [|done|done].
  destruct (aggregate _ _ _) as [[proj org]|e]; [|done].
  edestruct (save_snapshot (snapshotStore r)) as (s' & -> & Hget). split; [done|].
  eexists. by split; [exact Hget|].
Qed.

End reconciler.

(** ** Concrete runs *)

Definition sampleConfig : Config.Config :=
  {| Config.ProjectIDs := ["p1"]; Config.Regions := ["EU"]; Config.Models := ["Flash"];
     Config.PollInterval := Config.MinPollInterval; Config.PollTimeout := 0;
     Config.SafetyMarginPercent := 10; Config.DefaultProjectLimits := Some sampleLimits;
     Config.Allowances := {["eu/flash" := Some (Config.mkModelLimit 60 90000)]};
     Config.CriticalReservePercent := None; Config.DataplaneReplicas := None;
     Config.DefaultRequestTokens := 0; Config.CustomPolicies := None |}.

Definition sampleReconciler : Reconciler InMemoryStore :=
  {| config := sampleConfig;
     quotaClient := λ ps rs ms, FetchMetrics (sampleClient sampleLimits) ps rs ms (λ _ _, 0);
     snapshotStore := NewInMemoryStore |}.

Definition samplePoll : poll :=
  {| order := λ raws, reverse (map_to_list raws); syncedAt := 5; meanwhile := [] |}.


(** The organisation's limit of 60 requests, of which 54 are usable and used. *)
Definition fullQuota : pb.ModelQuota :=
  addUsage (mkRawModelQuota "p1" "Flash" "EU" 0 30 54 7)
    (setLimits (mkRawModelQuota "" "Flash" "EU" 90000 60 0 0)
      (newOrgQuota (mkRawModelQuota "" "Flash" "EU" 0 0 0 0))).

Lemma populated_saturated_witness :
  pb.CurrentRpm fullQuota = 54 ∧
  Priority.IsSaturated (Some (populateQuotaMetrics 10 fullQuota)) =
    usedUp 10 60 54 || usedUp 10 90000 7.
Proof.
  split; [reflexivity|].
  apply (populated_saturated 10 fullQuota); split; by vm_compute.
Defined.

End Reconciler.
