(* ===== verification/Transport.v ===== *)
(** * Transport credentials: [pkg/transport/credentials.go]

    Which credentials the two programs use on the link between the control plane
    and the data plane. Reading files and parsing certificates are parameters. *)

From S2P Require Import Prelude.
From stdpp Require Import options.

Module Transport.

(** [tls.VersionTLS12]. *)
Definition VersionTLS12 : Z := 771.

(** What the code calls of [crypto/tls], [crypto/x509] and [os]. *)
Class TLSFiles := {
  KeyPair : Type;
  CertPool : Type;
  LoadX509KeyPair : string → string → result KeyPair;
  ReadFile : string → result string;
  (** a new pool after [AppendCertsFromPEM], nothing when that returns false *)
  CertsFromPEM : string → option CertPool
}.

Section transport.
Context `{TLSFiles}.

(** The fields of [tls.Config] that the code sets. *)
Record TLSConfig := mkTLSConfig {
  Certificates : list KeyPair;
  MinVersion : Z;
  ServerName : string;
  RootCAs : option CertPool
}.

Inductive TransportCredentials : Type :=
  | Insecure
  | TLS (cfg : TLSConfig).

Definition ServerCredentials (certFile keyFile : string) (allowInsecure : bool)
    : result TransportCredentials :=
  if String.eqb certFile "" && String.eqb keyFile "" then
    if allowInsecure then Ok Insecure
    else Err "TLS cert and key are required (or pass --insecure for local development)"
  else if String.eqb certFile "" || String.eqb keyFile "" then
    Err "both TLS cert and key must be set"
  else if allowInsecure then Err "--insecure cannot be combined with a TLS cert/key"
  else
    match LoadX509KeyPair certFile keyFile with
    | Err e => Err ("load TLS key pair: " +:+ e)
    | Ok cert => Ok (TLS (mkTLSConfig [cert] VersionTLS12 "" None))
    end.

Definition ClientCredentials (caFile serverName : string) (allowInsecure : bool)
    : result TransportCredentials :=
  if allowInsecure then
    if negb (String.eqb caFile "") then Err "--insecure cannot be combined with a TLS CA file"
    else Ok Insecure
  else
    let cfg := mkTLSConfig [] VersionTLS12 serverName None in
    if String.eqb caFile "" then Ok (TLS cfg)
    else
      match ReadFile caFile with
      | Err e => Err ("read CA file: " +:+ e)
      | Ok pem =>
          match CertsFromPEM pem with
          | None => Err ("no valid certificates in CA file " +:+ caFile)
          | Some pool => Ok (TLS (mkTLSConfig [] VersionTLS12 serverName (Some pool)))
          end
      end.

(** What the credentials of a program that starts say of its flags. *)
Definition servedWith (file key : string) (allowInsecure : bool) (creds : TransportCredentials)
    : Prop :=
  match creds with
  | Insecure => allowInsecure = true ∧ file = "" ∧ key = ""
  | TLS cfg => allowInsecure = false ∧ VersionTLS12 ≤ MinVersion cfg ∧
      ∃ pair, LoadX509KeyPair file key = Ok pair ∧ Certificates cfg = [pair]
  end.

Definition dialedWith (caFile serverName : string) (allowInsecure : bool)
    (creds : TransportCredentials) : Prop :=
  match creds with
  | Insecure => allowInsecure = true ∧ caFile = ""
  | TLS cfg => allowInsecure = false ∧ VersionTLS12 ≤ MinVersion cfg ∧
      ServerName cfg = serverName ∧
      match RootCAs cfg with
      | None => caFile = ""
      | Some pool => ∃ pem, ReadFile caFile = Ok pem ∧ CertsFromPEM pem = Some pool
      end
  end.

Lemma ServerCredentials_Ok file key allowInsecure creds :
  ServerCredentials file key allowInsecure = Ok creds → servedWith file key allowInsecure creds.
Proof.
  unfold ServerCredentials.
  destruct (String.eqb_spec file ""), (String.eqb_spec key ""), allowInsecure; simpl; try done;
    try (by intros [= <-]); destruct (LoadX509KeyPair file key) as [pair|] eqn:Hp; try done;
    intros [= <-]; split_and!; [done|done|by exists pair].
Qed.

Lemma ClientCredentials_Ok caFile serverName allowInsecure creds :
  ClientCredentials caFile serverName allowInsecure = Ok creds →
  dialedWith caFile serverName allowInsecure creds.
Proof.
  unfold ClientCredentials.
  destruct allowInsecure, (String.eqb_spec caFile ""); simpl; try done; try (by intros [= <-]; split_and!).
  destruct (ReadFile caFile) as [pem|] eqn:Hr; [|done].
  destruct (CertsFromPEM pem) as [pool|] eqn:Hc; [|done]. intros [= <-]. split_and!; [done..|by exists pem].
Qed.

(** Plaintext is used only when it was asked for and no file was named;
    otherwise a program that starts uses TLS 1.2 or newer, the server with the
    pair it loaded from its two files, and the client against the named
    certificates, or the system's roots when no file is named. *)
Theorem credentials_never_silently_plain file key caFile serverName allowInsecure creds :
  (ServerCredentials file key allowInsecure = Ok creds → servedWith file key allowInsecure creds) ∧
  (ClientCredentials caFile serverName allowInsecure = Ok creds →
     dialedWith caFile serverName allowInsecure creds).
Proof. split; [apply ServerCredentials_Ok|apply ClientCredentials_Ok]. Qed.

End transport.

(** Files that hold what their names say. *)
#[export] Instance namedFiles : TLSFiles | 100 := {
  KeyPair := string * string;
  CertPool := string;
  LoadX509KeyPair cert key := Ok (cert, key);
  ReadFile name := Ok name;
  CertsFromPEM pem := Some pem
}.

Definition servedPair : KeyPair := ("cert.pem", "key.pem").

Lemma credentials_never_silently_plain_witness :
  ServerCredentials "cert.pem" "key.pem" false =
    Ok (TLS (mkTLSConfig [servedPair] VersionTLS12 "" None)) ∧
  ∃ pair, LoadX509KeyPair "cert.pem" "key.pem" = Ok pair ∧ [servedPair] = [pair].
Proof.
  split; [done|].
  destruct (proj1 (credentials_never_silently_plain "cert.pem" "key.pem" "" "" false
    (TLS (mkTLSConfig [servedPair] VersionTLS12 "" None))) eq_refl) as (_ & _ & Hpair).
  exact Hpair.
Defined.

End Transport.
