(* ===== verification/Programs.v ===== *)
(** * The two programs: [cmd/controlplane/main.go] and [cmd/dataplane/main.go]

    What [main] reads, in which order it can fail, and how it wires the components:
    which of them hold the same pointer. A running process is the state its
    components share, with the view of it that each component has. Flags, files,
    sockets and the services of Google Cloud are arguments. *)

From S2P Require Import Prelude GoStrings GoFloat Quota Config Bucket Limiter Cascade Cache.
From S2P Require Import Router Evaluator ExtProc Reporter Store Shares Server Client Services.
From S2P Require Import Reconciler Transport.
From stdpp Require Import options.

Module Programs.

(** [log.Fatalf(format + ": %v", err)]. *)
Definition fatal {A} (prefix : string) (r : result A) : result A :=
  match r with
  | Ok a => Ok a
  | Err e => Err (prefix +:+ ": " +:+ e)
  end.

Lemma fatal_Ok {A} prefix (r : result A) a : fatal prefix r = Ok a ↔ r = Ok a.
Proof. by destruct r. Qed.

End Programs.
Import Programs.

#[local] Existing Instance Store.InMemoryStore_store.
#[local] Existing Instance Store.InMemoryStore_laws.

Module ControlPlane.

Record Flags := mkFlags {
  configPath : string;
  port : Z;
  tlsCert : string;
  tlsKey : string;
  allowInsecure : bool;
  once : bool
}.

Definition defaultFlags : Flags := mkFlags "config/governor.yaml" 50051 "" "" false false.

Section main.
Context `{GoUnicode} `{Client.CloudMessages} `{Transport.TLSFiles}.

(** A running control plane: the stores in memory by their addresses, the addresses
    that the server and the reconciler hold, the server's share tracker, and what the
    reconciler polls with. *)
Record ControlPlane := mkControlPlane {
  config : Config.Config;
  gcp : Client.GCPClient;
  stores : gmap nat Store.InMemoryStore;
  serverStore : nat;
  reconcilerStore : nat;
  shares : Shares.ShareTracker
}.

Definition storeAt (cp : ControlPlane) (p : nat) : Store.InMemoryStore :=
  default Store.NewInMemoryStore (stores cp !! p).

Definition writeStore (cp : ControlPlane) (p : nat) (st : Store.InMemoryStore) : ControlPlane :=
  mkControlPlane (config cp) (gcp cp) (<[p := st]> (stores cp)) (serverStore cp) (reconcilerStore cp)
    (shares cp).

(** The store that the server serves from. *)
Definition store (cp : ControlPlane) : Store.InMemoryStore := storeAt cp (serverStore cp).

Definition server (cp : ControlPlane) : Server.Server := Server.mkServer (store cp) (shares cp).

(** [now] is the clock of a fetch. *)
Definition metricsClient (gqc : Client.GCPClient) (now : string → string → Time)
    : Reconciler.MetricsClient :=
  λ projects regions models, Client.FetchMetrics gqc projects regions models now.

(** The client is given with what the two services answer at the time. *)
Definition reconciler (cp : ControlPlane) (client : Reconciler.MetricsClient)
    : Reconciler.Reconciler Store.InMemoryStore :=
  Reconciler.mkReconciler (config cp) client (storeAt cp (reconcilerStore cp)).

(** What the two services answer during one poll, and its clock. *)
Record Answers := mkAnswers {
  quotaAnswer : string → result (option Client.QuotaInfo);
  usageAnswer : Client.ListTimeSeriesRequest → result (list (result Client.TimeSeries));
  fetchClock : string → string → Time
}.

Definition clientWith (gqc : Client.GCPClient) (a : Answers) : Reconciler.MetricsClient :=
  metricsClient (Client.mkGCPClient (Client.projectLimits gqc) (Client.allowances gqc)
                   (quotaAnswer a) (usageAnswer a)) (fetchClock a).

(** What [main] finds outside: the outcome of reading and decoding the file, of the
    constructors of the two clients of Google Cloud, and of listening, and
    [protojson]. *)
Record World := mkWorld {
  configFile : result string;
  unmarshal : string → result Config.Config;
  newQuotaClient : result Services.CloudQuotas;
  newUsageClient : result Services.MetricClient;
  listen : Z → result unit;
  marshal : Store.Snapshot → result string
}.

(** [main] up to the reconciler. *)
Definition setup (f : Flags) (w : World) : result ControlPlane :=
  let? cfg := fatal ("Failed to load config from " +:+ configPath f)
                (Config.LoadConfig (configPath f) (configFile w) (unmarshal w)) in
  let store := O in
  let stores := {[store := Store.NewInMemoryStore]} in
  let? quotaServer := fatal "Failed to create quota server" (Server.NewServer (stores !! store)) in
  let? quotaClient := fatal "Failed to create quota request client"
                        (Services.NewGCPQuotaRequestClient (newQuotaClient w)) in
  let? usageClient := fatal "Failed to create usage request client"
                        (Services.NewGCPUsageRequestClient (newUsageClient w)) in
  let? gcpClient := fatal "Failed to create GCP client"
                      (Client.NewGCPClient (Config.DefaultProjectLimits cfg)
                         (Some (Config.Allowances cfg)) (Services.makeQuotaRequest quotaClient)
                         (Services.makeUsageRequest usageClient)) in
  let? _ := fatal "Failed to create reconciler"
              (Reconciler.NewReconciler (Some cfg) (Some (metricsClient gcpClient (λ _ _, 0)))
                 (stores !! store)) in
  Ok (mkControlPlane cfg gcpClient stores store store (Server.shares quotaServer)).

(** The text that is printed; the store it reads is the one the reconciler saves
    to. *)
Definition runOnce (r : Reconciler.Reconciler Store.InMemoryStore) (p : Reconciler.poll)
    (marshal : Store.Snapshot → result string) : Client.outcome string :=
  match Reconciler.reconcile r p with
  | (Client.Panicked, _) => Client.Panicked
  | (Client.Returned (Err e), _) => Client.Returned (Err e)
  | (Client.Returned (Ok tt), r) =>
      Client.Returned (let? snap := Store.Get (Reconciler.snapshotStore r) in marshal snap)
  end.

(** How [main] ends, or the state in which it starts to serve. *)
Inductive exit : Type :=
  | Fatal (msg : string)
  | Crashed
  | Printed (out : string)
  | Serving (cp : ControlPlane) (creds : Transport.TransportCredentials).

(** What the goroutine of [reconciler.Start] has done so far: nothing that it does
    before the first subscription shows the two parts of a [Save]. *)
Definition startReconciler (cp : ControlPlane) (polls : list (Answers * Reconciler.poll))
    : option ControlPlane :=
  (λ r, writeStore cp (reconcilerStore cp) (Reconciler.snapshotStore r)) <$>
  Reconciler.Start (reconciler cp (metricsClient (gcp cp) (λ _ _, 0)))
    ((λ e, (clientWith (gcp cp) e.1, e.2)) <$> polls).

(** [p] and [now] are those of the poll of [--once]; [background] lists the polls that
    the reconciler's goroutine makes before [main] serves. *)
Definition main (f : Flags) (w : World) (p : Reconciler.poll) (now : string → string → Time)
    (background : list (Answers * Reconciler.poll)) : exit :=
  match setup f w with
  | Err e => Fatal e
  | Ok cp =>
      if once f then
        match runOnce (reconciler cp (metricsClient (gcp cp) now)) p (marshal w) with
        | Client.Panicked => Crashed
        | Client.Returned (Err e) => Fatal ("One-shot reconcile failed: " +:+ e)
        | Client.Returned (Ok out) => Printed out
        end
      else
        match listen w (port f) with
        | Err e => Fatal ("Failed to listen on port " +:+ fmt_d (port f) +:+ ": " +:+ e)
        | Ok tt =>
            match startReconciler cp background with
            | None => Crashed
            | Some cp =>
                match Transport.ServerCredentials (tlsCert f) (tlsKey f) (allowInsecure f) with
                | Err e => Fatal ("Invalid TLS settings: " +:+ e)
                | Ok creds => Serving cp creds
                end
            end
        end
  end.

(** ** Running *)

(** What a handler of the server makes of its store. *)
Definition withStore (cp : ControlPlane) (st : Store.InMemoryStore) : ControlPlane :=
  writeStore cp (serverStore cp) st.

(** The two parts of a poll that succeeds: [Save] publishes the snapshot, and pushes
    it. *)
Definition publish (cp : ControlPlane) (snap : Store.Snapshot) : ControlPlane :=
  writeStore cp (reconcilerStore cp) (Store.saveStore (storeAt cp (reconcilerStore cp)) snap).

Definition push (cp : ControlPlane) (snap : Store.Snapshot) (sch : nat → Store.schedule)
    : ControlPlane :=
  let st := storeAt cp (reconcilerStore cp) in
  writeStore cp (reconcilerStore cp) (Store.savePush st snap (Store.visits st sch)).

(** A whole poll, when nothing comes between. *)
Definition poll (cp : ControlPlane) (client : Reconciler.MetricsClient) (p : Reconciler.poll)
    : Client.outcome unit * ControlPlane :=
  let '(out, r) := Reconciler.reconcile (reconciler cp client) p in
  (out, writeStore cp (reconcilerStore cp) (Reconciler.snapshotStore r)).

Definition reportUsage (cp : ControlPlane) (req : Server.ReportUsageRequest) (now : Time)
    (visit : string → Shares.metric → list string)
    : (Server.status + Server.ReportUsageResponse) * ControlPlane :=
  let '(resp, s) := Server.ReportUsage (server cp) req now visit in
  (resp, mkControlPlane (config cp) (gcp cp) (stores cp) (serverStore cp) (reconcilerStore cp)
           (Server.shares s)).

(** What happens to a control plane that serves. *)
Inductive step : ControlPlane → ControlPlane → Prop :=
  | step_publish cp snap : step cp (publish cp snap)
  | step_push cp snap sch : step cp (push cp snap sch)
  | step_stream cp st : step cp (withStore cp st)
  | step_report cp req now visit : step cp (reportUsage cp req now visit).2.

(** ** Lemmas *)

(** The server and the reconciler hold one store. *)
Definition wired (cp : ControlPlane) : Prop :=
  reconcilerStore cp = serverStore cp ∧ is_Some (stores cp !! serverStore cp).

Lemma writeStore_wired cp p st : wired cp → wired (writeStore cp p st).
Proof. intros [Heq Hs]. split; [done|]. simpl. apply lookup_insert_is_Some'. by right. Qed.

Lemma storeAt_write cp p st : storeAt (writeStore cp p st) p = st.
Proof. unfold storeAt. simpl. by rewrite lookup_insert_eq. Qed.

(** Writing back what is there changes nothing. *)
Lemma writeStore_same cp p : is_Some (stores cp !! p) → writeStore cp p (storeAt cp p) = cp.
Proof.
  intros [st Hst]. unfold writeStore, storeAt. rewrite Hst. simpl. rewrite insert_id by done.
  by destruct cp.
Qed.

Lemma reportUsage_keeps cp req now visit :
  stores (reportUsage cp req now visit).2 = stores cp ∧
  serverStore (reportUsage cp req now visit).2 = serverStore cp ∧
  reconcilerStore (reportUsage cp req now visit).2 = reconcilerStore cp.
Proof.
  unfold reportUsage. by destruct (Server.ReportUsage _ _ _ _).
Qed.

Lemma step_wired cp cp' : wired cp → step cp cp' → wired cp'.
Proof.
  intros Hw Hstep. destruct Hstep as [c snap|c snap sch|c st|c req now visit];
    [by apply writeStore_wired..|]. unfold wired.
  by destruct (reportUsage_keeps c req now visit) as (-> & -> & ->).
Qed.

Lemma steps_wired cp cp' : wired cp → rtc step cp cp' → wired cp'.
Proof. intros Hw Hsteps. induction Hsteps as [|cp cp1 cp' Hstep _ IH]; [done|]. by eapply IH, step_wired. Qed.

Lemma wired_shared cp client :
  wired cp → Server.store (server cp) = Reconciler.snapshotStore (reconciler cp client).
Proof. intros [Heq _]. unfold server, store. simpl. by rewrite Heq. Qed.

(** A poll is its two parts. *)
Lemma poll_parts cp client p snap sch :
  wired cp → Reconciler.snapshotOf (reconciler cp client) (Reconciler.order p) (Reconciler.syncedAt p) =
    Client.Returned (Ok snap) →
  Reconciler.meanwhile p = Store.visits (store cp) sch →
  poll cp client p = (Client.Returned (Ok tt), push (publish cp snap) snap sch).
Proof.
  intros [Heq Hs] Hsnap Hsch. unfold poll, Reconciler.reconcile. rewrite Hsnap, Hsch.
  unfold store. rewrite <- Heq. simpl. unfold push, publish. cbn [reconcilerStore writeStore].
  rewrite storeAt_write. unfold writeStore. simpl. by rewrite insert_insert_eq.
Qed.

Lemma setup_Ok f w cp :
  setup f w = Ok cp →
  Config.LoadConfig (configPath f) (configFile w) (unmarshal w) = Ok (config cp) ∧
  wired cp ∧ store cp = Store.NewInMemoryStore ∧ shares cp = Shares.NewShareTracker ∧
  Some (Client.projectLimits (gcp cp)) = Config.DefaultProjectLimits (config cp) ∧
  Client.allowances (gcp cp) = Config.Allowances (config cp).
Proof.
  unfold setup. intros (cfg & Hcfg & Hrest)%result_bind_Ok. apply fatal_Ok in Hcfg.
  apply result_bind_Ok in Hrest as (srv & Hsrv & Hrest). apply fatal_Ok in Hsrv.
  apply result_bind_Ok in Hrest as (qc & _ & Hrest).
  apply result_bind_Ok in Hrest as (uc & _ & Hrest).
  apply result_bind_Ok in Hrest as (gqc & Hgqc & Hrest). apply fatal_Ok in Hgqc.
  apply result_bind_Ok in Hrest as (rec & _ & Hrest).
  rewrite lookup_singleton_eq in Hsrv. injection Hsrv as <-. injection Hrest as <-. simpl.
  unfold Client.NewGCPClient in Hgqc.
  destruct (Config.DefaultProjectLimits cfg) as [limits|]; [|done]. injection Hgqc as <-.
  split; [exact Hcfg|]. split; [split; [done|by exists Store.NewInMemoryStore]|]. by split_and!.
Qed.

Lemma main_serves f w p now background cp creds :
  main f w p now background = Serving cp creds →
  ∃ cp0, setup f w = Ok cp0 ∧ once f = false ∧ startReconciler cp0 background = Some cp ∧
    Transport.ServerCredentials (tlsCert f) (tlsKey f) (allowInsecure f) = Ok creds.
Proof.
  unfold main. destruct (setup f w) as [cp'|]; [|done].
  destruct (once f); [by destruct (runOnce _ _ _) as [[]|]|].
  destruct (listen w (port f)) as [[]|]; [|done].
  destruct (startReconciler cp' background) as [cp1|] eqn:Hstart; [|done].
  destruct (Transport.ServerCredentials _ _ _) as [creds'|] eqn:Hcreds; [|done].
  intros [= <- <-]. by exists cp'.
Qed.

(** ** Properties *)

(** C24: a control plane that serves has the loaded configuration, its limits and
    allowances, and shares that nobody has reported for; its store holds the snapshot
    that sums up what the last background poll that fetched something fetched, or
    nothing if none has, since the reconciler polls before [main] serves; and for as
    long as it runs the server reads the store that the reconciler saves to. It serves
    plaintext only when that was asked for and no certificate was named. *)
Theorem serving_control_plane f w p now background cp creds :
  main f w p now background = Serving cp creds →
  (∀ a q raws, (a, q) ∈ background → rangeOrder raws (Reconciler.order q raws)) →
  let polls := (λ e, (clientWith (gcp cp) e.1, e.2)) <$> background in
  once f = false ∧
  Config.LoadConfig (configPath f) (configFile w) (unmarshal w) = Ok (config cp) ∧
  Some (Client.projectLimits (gcp cp)) = Config.DefaultProjectLimits (config cp) ∧
  Client.allowances (gcp cp) = Config.Allowances (config cp) ∧
  shares cp = Shares.NewShareTracker ∧
  ((Reconciler.noFetch (config cp) polls ∧
    Server.GetQuotaSnapshot (server cp) =
      inl (Server.NotFound "quota snapshot not available: no quota snapshot available")) ∨
   ∃ raws t snap, Reconciler.lastFetch (config cp) Reconciler.syncedAt polls raws t ∧
     Server.GetQuotaSnapshot (server cp) = inr snap ∧
     Reconciler.summarizes (Config.SafetyMarginPercent (config cp)) raws t snap) ∧
  (∀ cp' client, rtc step cp cp' →
     Server.store (server cp') = Reconciler.snapshotStore (reconciler cp' client)) ∧
  Transport.servedWith (tlsCert f) (tlsKey f) (allowInsecure f) creds.
Proof.
  intros (cp0 & Hsetup & Honce & Hstart & Hcreds)%main_serves Horders polls.
  destruct (setup_Ok f w cp0 Hsetup) as (Hload & Hwired & Hstore & Hshares & Hlimits & Hallow).
  unfold startReconciler in Hstart. apply fmap_Some in Hstart as (r & Hrun & ->).
  pose proof (writeStore_wired cp0 (reconcilerStore cp0) (Reconciler.snapshotStore r) Hwired) as Hwired'.
  destruct (Reconciler.Start_spec _ _ _ Hrun) as [Hc Hor].
  { intros e raws ([a q] & -> & Hin)%list_elem_of_fmap Hf. split; [|by eapply Horders].
    by eapply Reconciler.FetchMetrics_keyed. }
  cbn [reconciler Reconciler.config Reconciler.snapshotStore] in Hc, Hor.
  assert (Server.GetQuotaSnapshot (server (writeStore cp0 (reconcilerStore cp0) (Reconciler.snapshotStore r))) =
    match Store.Get (Reconciler.snapshotStore r) with
    | Err e => inl (Server.NotFound ("quota snapshot not available: " +:+ e))
    | Ok snap => inr snap
    end) as Hget.
  { unfold Server.GetQuotaSnapshot, server, store. cbn [Server.store serverStore writeStore].
    destruct Hwired as [Hw _]. rewrite <- Hw at 1. fold (writeStore cp0 (reconcilerStore cp0) (Reconciler.snapshotStore r)).
    by rewrite storeAt_write. }
  rewrite Hget. split_and!; try done.
  - destruct Hor as [[Hno Hst]|(raws & t & snap & Hlast & Hg & Hsum)]; [left|right].
    + split; [exact Hno|]. destruct Hwired as [Hw _]. unfold store in Hstore.
      by rewrite Hst, Hw, Hstore.
    + exists raws, t, snap. split; [exact Hlast|]. simpl in Hg. by rewrite Hg.
  - intros cp' client Hsteps. apply wired_shared. by eapply steps_wired.
  - by apply Transport.ServerCredentials_Ok.
Qed.

(** C37: [--once] prints what it has just polled: the text is that of a snapshot
    that sums up the quotas fetched with the loaded configuration, and nothing is
    printed, and nothing served, when the fetch fails. *)
Theorem once_prints_the_poll f w p now background cp :
  once f = true → setup f w = Ok cp → (∀ raws, rangeOrder raws (Reconciler.order p raws)) →
  let c := config cp in
  match Client.FetchMetrics (gcp cp) (Config.ProjectIDs c) (Config.Regions c) (Config.Models c) now,
        main f w p now background with
  | Client.Returned (Ok raws), Printed out =>
      ∃ snap, marshal w snap = Ok out ∧
        Reconciler.summarizes (Config.SafetyMarginPercent c) raws (Reconciler.syncedAt p) snap
  | Client.Returned (Ok raws), Fatal _ => ∃ snap e, marshal w snap = Err e
  | Client.Returned (Err e), Fatal msg => msg = "One-shot reconcile failed: " +:+ e
  | Client.Panicked, Crashed => True
  | _, _ => False
  end.
Proof.
  intros Honce Hsetup Horder c. unfold main. rewrite Hsetup, Honce. unfold runOnce.
  pose proof (Reconciler.reconcile_spec (reconciler cp (metricsClient (gcp cp) now)) p) as Hspec.
  destruct (Client.FetchMetrics _ _ _ _ _) as [[raws|e]|] eqn:Hfetch.
  - specialize (Hspec raws Hfetch (Reconciler.FetchMetrics_keyed _ _ _ _ _ _ Hfetch) (Horder raws)).
    destruct (Reconciler.reconcile _ _) as [out r]. destruct Hspec as (-> & snap & Hget & Hsum).
    simpl in Hget. rewrite Hget. simpl. destruct (marshal w snap) as [text|e] eqn:Hm; eauto.
  - unfold Reconciler.reconcile, Reconciler.snapshotOf. simpl. unfold metricsClient. fold c. by rewrite Hfetch.
  - unfold Reconciler.reconcile, Reconciler.snapshotOf. simpl. unfold metricsClient. fold c. by rewrite Hfetch.
Qed.

End main.

End ControlPlane.

Module DataPlane.

Record Flags := mkFlags {
  configPath : string;
  port : Z;
  controlPlane : string;
  cpCA : string;
  cpServerName : string;
  allowInsecure : bool
}.

Definition defaultFlags : Flags :=
  mkFlags "config/governor.yaml" 50052 "localhost:50051" "" "" false.

(** A running replica: the caches and limiters in memory by their addresses; the
    addresses that the goroutine of [cache.Run], the evaluator, the engine and the
    reporter hold (a limiter's may be nil); the engine's own fields, the evaluator's
    default estimate, and the reporter's own state. *)
Record DataPlane := mkDataPlane {
  caches : gmap nat Cache.SnapshotCache;
  limiters : gmap nat Limiter.Limiter;
  streamCache : nat;
  evaluatorCache : nat;
  policies : gmap string Config.CustomPolicy;
  ceiling : float64;
  engineLimiter : option nat;
  reporterLimiter : option nat;
  defaultTokens : Z;
  clientID : string;
  interval : Z;
  failures : Z
}.

Definition cacheAt (dp : DataPlane) (p : nat) : Cache.SnapshotCache :=
  default Cache.NewSnapshotCache (caches dp !! p).

Definition limiterAt (dp : DataPlane) (p : option nat) : option Limiter.Limiter :=
  p ≫= λ p, limiters dp !! p.

Definition writeCache (dp : DataPlane) (p : nat) (c : Cache.SnapshotCache) : DataPlane :=
  {| caches := <[p := c]> (caches dp); limiters := limiters dp; streamCache := streamCache dp;
     evaluatorCache := evaluatorCache dp; policies := policies dp; ceiling := ceiling dp;
     engineLimiter := engineLimiter dp; reporterLimiter := reporterLimiter dp;
     defaultTokens := defaultTokens dp; clientID := clientID dp; interval := interval dp;
     failures := failures dp |}.

(** Through a nil pointer nothing is written. *)
Definition writeLimiter (dp : DataPlane) (p : option nat) (l : option Limiter.Limiter) : DataPlane :=
  {| caches := caches dp;
     limiters := match p, l with Some p, Some l => <[p := l]> (limiters dp) | _, _ => limiters dp end;
     streamCache := streamCache dp; evaluatorCache := evaluatorCache dp; policies := policies dp;
     ceiling := ceiling dp; engineLimiter := engineLimiter dp;
     reporterLimiter := reporterLimiter dp; defaultTokens := defaultTokens dp;
     clientID := clientID dp; interval := interval dp; failures := failures dp |}.

Definition withFailures (dp : DataPlane) (n : Z) : DataPlane :=
  {| caches := caches dp; limiters := limiters dp; streamCache := streamCache dp;
     evaluatorCache := evaluatorCache dp; policies := policies dp; ceiling := ceiling dp;
     engineLimiter := engineLimiter dp; reporterLimiter := reporterLimiter dp;
     defaultTokens := defaultTokens dp; clientID := clientID dp; interval := interval dp;
     failures := n |}.

(** The components, each through the pointers that it holds. *)
Definition cache (dp : DataPlane) : Cache.SnapshotCache := cacheAt dp (evaluatorCache dp).

Definition engine (dp : DataPlane) : Cascade.CascadeEngine :=
  Cascade.mkCascadeEngine (policies dp) (ceiling dp) (limiterAt dp (engineLimiter dp)).

Definition evaluator (dp : DataPlane) : Evaluator.Evaluator :=
  Evaluator.mkEvaluator (cache dp) (engine dp) (defaultTokens dp).

Definition reporter (dp : DataPlane) : Reporter.UsageReporter :=
  Reporter.mkUsageReporter (limiterAt dp (reporterLimiter dp)) (clientID dp) (interval dp)
    (failures dp).

(** What an evaluation leaves, and what the reporter leaves. *)
Definition evaluated (dp : DataPlane) (e : Evaluator.Evaluator) : DataPlane :=
  writeLimiter dp (engineLimiter dp) (Cascade.limiter (Evaluator.engine e)).

Definition reported (dp : DataPlane) (r : Reporter.UsageReporter) : DataPlane :=
  withFailures (writeLimiter dp (reporterLimiter dp) (Reporter.limiter r)) (Reporter.failures r).

Section main.
Context `{GoUnicode} `{GoArch} `{Transport.TLSFiles}.

(** What [main] finds outside: the file, the orders in which [range] visits the
    configuration's maps, the clock, [grpc.NewClient], the host's name, empty when
    unknown, the process, and the listener. *)
Record World := mkWorld {
  configFile : result string;
  unmarshal : string → result Config.Config;
  policyOrder : Config.Config → list (string * Config.CustomPolicy);
  allowanceOrder : Config.Config → list (string * option Config.ModelLimit);
  clock : nat → Time;
  dial : string → Transport.TransportCredentials → result unit;
  hostname : string;
  pid : Z;
  listen : Z → result unit
}.

Inductive exit : Type :=
  | Fatal (msg : string)
  | Serving (dp : DataPlane) (creds : Transport.TransportCredentials).

(** The limiter of an engine in memory, and its address. *)
Definition allocate (l : option Limiter.Limiter) : gmap nat Limiter.Limiter * option nat :=
  match l with
  | Some l => ({[O := l]}, Some O)
  | None => (∅, None)
  end.

(** [main] up to the goroutines that run beside it. *)
Definition wire (f : Flags) (w : World) : result (DataPlane * Transport.TransportCredentials) :=
  let? cfg := fatal ("Failed to load config from " +:+ configPath f)
                (Config.LoadConfig (configPath f) (configFile w) (unmarshal w)) in
  let? engine := fatal "Failed to build cascade engine"
                   (Cascade.NewCascadeEngineFromConfig (Some cfg) (policyOrder w cfg)
                      (allowanceOrder w cfg) (clock w)) in
  let '(limiters, limiter) := allocate (Cascade.limiter engine) in
  let? creds := fatal "Invalid control plane TLS settings"
                  (Transport.ClientCredentials (cpCA f) (cpServerName f) (allowInsecure f)) in
  let? _ := fatal ("Failed to create control plane client for " +:+ controlPlane f)
              (dial w (controlPlane f) creds) in
  let cache := O in
  let caches := {[cache := Cache.NewSnapshotCache]} in
  let replicaID := hostname w +:+ "-" +:+ fmt_d (pid w) in
  let reporterLimiter := limiter in
  let reporter := Reporter.NewUsageReporter (reporterLimiter ≫= λ p, limiters !! p) replicaID 0 in
  let? _ := fatal ("Failed to listen on port " +:+ fmt_d (port f)) (listen w (port f)) in
  let evaluator := Evaluator.WithDefaultTokens
                     (Evaluator.NewEvaluator Cache.NewSnapshotCache engine)
                     (Config.RequestTokens (Some cfg)) in
  Ok ({| caches := caches; limiters := limiters; streamCache := cache; evaluatorCache := cache;
         policies := Cascade.customPolicies engine; ceiling := Cascade.bestEffortCeiling engine;
         engineLimiter := limiter; reporterLimiter := reporterLimiter;
         defaultTokens := Evaluator.defaultTokens evaluator;
         clientID := Reporter.clientID reporter; interval := Reporter.interval reporter;
         failures := Reporter.failures reporter |}, creds).

(** The goroutines of [cache.Run] and [reporter.Run]: the attempts to stream and the
    ticks so far. They share nothing with each other, so their order does not matter. *)
Definition runCache (dp : DataPlane) (attempts : list Cache.attempt) : DataPlane :=
  writeCache dp (streamCache dp)
    (Cache.Run (cacheAt dp (streamCache dp)) Cache.initialBackoff attempts).2.

Definition runReporter (dp : DataPlane) (ticks : list Reporter.tick) : DataPlane :=
  reported dp (Reporter.Run (reporter dp) ticks).2.

(** [attempts] and [ticks] are what the two goroutines do before [main] serves. *)
Definition main (f : Flags) (w : World) (attempts : list Cache.attempt)
    (ticks : list Reporter.tick) : exit :=
  match wire f w with
  | Err e => Fatal e
  | Ok (dp, creds) => Serving (runReporter (runCache dp attempts) ticks) creds
  end.

(** ** Running *)

(** The stream delivers a snapshot. *)
Definition setSnapshot (dp : DataPlane) (snap : Store.Snapshot) : DataPlane :=
  writeCache dp (streamCache dp) (Cache.Set' (cacheAt dp (streamCache dp)) (Some snap)).

(** Envoy sends a message. *)
Definition process (dp : DataPlane) (req : ExtProc.ProcessingRequest)
    : (ExtProc.processError + ExtProc.ProcessingResponse) * DataPlane :=
  let '(resp, s) := ExtProc.answer (ExtProc.NewExtProcServer (evaluator dp)) req in
  (resp, evaluated dp (ExtProc.evaluator s)).

(** The reporter ticks. *)
Definition report (dp : DataPlane) (t : Reporter.tick)
    : (bool * Reporter.ReportUsageRequest) * DataPlane :=
  let '(sent, r) := Reporter.ReportOnce (reporter dp) t in
  (sent, reported dp r).

(** What happens to a data plane that serves. *)
Inductive step : DataPlane → DataPlane → Prop :=
  | step_snapshot dp snap : step dp (setSnapshot dp snap)
  | step_message dp req : step dp (process dp req).2
  | step_report dp t : step dp (report dp t).2.

(** ** Lemmas *)

(** The stream writes the cache that the evaluator reads, and the reporter and the
    engine hold one limiter. *)
Definition wired (dp : DataPlane) : Prop :=
  streamCache dp = evaluatorCache dp ∧ reporterLimiter dp = engineLimiter dp ∧
  is_Some (limiterAt dp (engineLimiter dp)).

Lemma limiterAt_write dp p l :
  is_Some (limiterAt dp p) → limiterAt (writeLimiter dp p (Some l)) p = Some l.
Proof. unfold limiterAt. destruct p as [p|]; [|by intros [? ?]]. intros _. simpl. by rewrite lookup_insert_eq. Qed.

Lemma limiterAt_written dp p l :
  is_Some (limiterAt dp p) → is_Some l → limiterAt (writeLimiter dp p l) p = l.
Proof. intros Hp [l' ->]. by apply limiterAt_write. Qed.

Lemma wired_set dp snap :
  wired dp → wired (setSnapshot dp snap) ∧ cache (setSnapshot dp snap) = Cache.Set' (cache dp) (Some snap) ∧
  engine (setSnapshot dp snap) = engine dp.
Proof.
  intros (Hc & Hl & Hs). split; [done|]. split; [|done].
  unfold setSnapshot, cache, cacheAt. simpl. by rewrite Hc, lookup_insert_eq.
Qed.

Lemma wired_evaluated dp e :
  wired dp → is_Some (Cascade.limiter (Evaluator.engine e)) →
  wired (evaluated dp e) ∧ cache (evaluated dp e) = cache dp ∧
  Cascade.limiter (engine (evaluated dp e)) = Cascade.limiter (Evaluator.engine e).
Proof.
  intros (Hc & Hl & Hs) He.
  pose proof (limiterAt_written dp (engineLimiter dp) _ Hs He) as Hlim.
  split; [|split; [done|exact Hlim]]. split_and!; [done|done|]. cbn [evaluated writeLimiter engineLimiter].
  unfold evaluated. by rewrite Hlim.
Qed.

Lemma wired_reported dp r :
  wired dp → is_Some (Reporter.limiter r) →
  wired (reported dp r) ∧ cache (reported dp r) = cache dp ∧
  Cascade.limiter (engine (reported dp r)) = Reporter.limiter r ∧
  clientID (reported dp r) = clientID dp.
Proof.
  intros (Hc & Hl & Hs) Hr.
  assert (limiterAt (reported dp r) (engineLimiter dp) = Reporter.limiter r) as Hlim.
  { unfold reported. rewrite Hl.
    change (limiterAt (writeLimiter dp (engineLimiter dp) (Reporter.limiter r)) (engineLimiter dp) =
      Reporter.limiter r). by apply limiterAt_written. }
  split; [|by split_and!]. split_and!; [done|done|].
  change (engineLimiter (reported dp r)) with (engineLimiter dp). by rewrite Hlim.
Qed.

Lemma wired_views dp :
  wired dp → Reporter.limiter (reporter dp) = Cascade.limiter (Evaluator.engine (evaluator dp)) ∧
  cacheAt dp (streamCache dp) = Evaluator.cache (evaluator dp).
Proof. intros (Hc & Hl & _). simpl. by rewrite Hc, Hl. Qed.

(** Evaluating, reporting and reporting again leave a limiter where there was one. *)
Lemma answer_limiter s req :
  is_Some (Cascade.limiter (Evaluator.engine (ExtProc.evaluator s))) →
  is_Some (Cascade.limiter (Evaluator.engine (ExtProc.evaluator (ExtProc.answer s req).2))).
Proof.
  intros Hs. destruct req as [h| | | | | |]; try done. cbn [ExtProc.answer].
  unfold ExtProc.handleRequestHeaders. set (headers := ExtProc.headerMap h).
  assert (is_Some (Cascade.limiter (Evaluator.engine
    (Evaluator.Evaluate (ExtProc.evaluator s) headers).2))) as Hev.
  { unfold Evaluator.Evaluate. destruct (Router.Parse _ _) as [err|info]; [done|].
    pose proof (Cascade.Decide_limiter (Evaluator.engine (ExtProc.evaluator s))
      (Cache.Get (Evaluator.cache (ExtProc.evaluator s)))
      (Evaluator.requestOf (ExtProc.evaluator s) headers info) Hs) as Hd.
    destruct (Cascade.Decide _ _ _) as [d ce]. exact Hd. }
  destruct (Evaluator.Evaluate _ _) as [res e]. by destruct (Evaluator.Shed res).
Qed.

Lemma ReportOnce_limiter r t :
  is_Some (Reporter.limiter r) → is_Some (Reporter.limiter (Reporter.ReportOnce r t).2).
Proof.
  intros [l Hl]. unfold Reporter.ReportOnce, Limiter.DrainDemand. rewrite Hl.
  destruct (foldl Limiter.drainOne _ _) as [out l']. destruct (Reporter.response t); [by eexists|].
  cbn [snd Reporter.withLimiter Reporter.limiter]. destruct (_ =? _); by eexists.
Qed.

Lemma Run_limiter r ticks :
  is_Some (Reporter.limiter r) → is_Some (Reporter.limiter (Reporter.Run r ticks).2).
Proof.
  intros Hr. unfold Reporter.Run. destruct (Reporter.limiter r) as [l|] eqn:Hl; [|by destruct Hr].
  assert (is_Some (Reporter.limiter r)) as Hr' by (by rewrite Hl). clear Hr Hl l. revert r Hr'.
  induction ticks as [|t ticks IH]; intros r Hr; [done|]. cbn [Reporter.reports].
  pose proof (ReportOnce_limiter r t Hr) as Hr1. destruct (Reporter.ReportOnce r t) as [sent r1].
  specialize (IH r1 Hr1). by destruct (Reporter.reports r1 ticks).
Qed.

Lemma step_keeps_wired dp dp' : wired dp → step dp dp' → wired dp'.
Proof.
  intros Hw Hstep. destruct Hstep as [dp snap|dp req|dp t].
  - by apply wired_set.
  - unfold process. pose proof (answer_limiter (ExtProc.NewExtProcServer (evaluator dp)) req) as Ha.
    destruct (ExtProc.answer _ _) as [resp s]. apply wired_evaluated; [done|]. apply Ha, Hw.
  - unfold report. pose proof (ReportOnce_limiter (reporter dp) t) as Hr.
    destruct (Reporter.ReportOnce _ _) as [sent r]. apply wired_reported; [done|]. apply Hr.
    destruct Hw as (_ & Hl & Hs). simpl. by rewrite Hl.
Qed.

Lemma steps_keep_wired dp dp' : wired dp → rtc step dp dp' → wired dp'.
Proof. intros Hw Hsteps. induction Hsteps as [|dp dp1 dp' Hstep _ IH]; [done|]. by eapply IH, step_keeps_wired. Qed.

(** What is wired is made from a valid configuration. *)
Lemma wire_Ok f w dp creds :
  wire f w = Ok (dp, creds) →
  ∃ cfg ce,
    Config.LoadConfig (configPath f) (configFile w) (unmarshal w) = Ok cfg ∧
    Cascade.NewCascadeEngineFromConfig (Some cfg) (policyOrder w cfg) (allowanceOrder w cfg)
      (clock w) = Ok ce ∧
    Transport.ClientCredentials (cpCA f) (cpServerName f) (allowInsecure f) = Ok creds ∧
    1 ≤ Config.RequestTokens (Some cfg) ∧
    wired dp ∧ cache dp = Cache.NewSnapshotCache ∧ engine dp = ce ∧
    defaultTokens dp = Config.RequestTokens (Some cfg) ∧
    clientID dp = hostname w +:+ "-" +:+ fmt_d (pid w) ∧
    interval dp = Reporter.DefaultReportInterval ∧ failures dp = 0.
Proof.
  unfold wire. intros Hstart.
  apply result_bind_Ok in Hstart as (cfg & Hcfg%fatal_Ok & Hstart).
  apply result_bind_Ok in Hstart as (ce & Hce%fatal_Ok & Hstart).
  destruct (Cascade.NewCascadeEngineFromConfig_Ok _ _ _ _ _ Hce) as (ce0 & l & _ & _ & Hl).
  assert (Cascade.limiter ce = Some l) as Hlim by (by rewrite Hl).
  rewrite Hlim in Hstart. cbn [allocate] in Hstart.
  apply result_bind_Ok in Hstart as (cr & Hcr%fatal_Ok & Hstart).
  apply result_bind_Ok in Hstart as (u & _ & Hstart).
  apply result_bind_Ok in Hstart as (u' & _ & Hstart).
  assert (1 ≤ Config.RequestTokens (Some cfg)) as Htok.
  { simpl. pose proof (Config.valid_tokens cfg (Config.LoadConfig_Ok _ _ _ _ Hcfg)).
    unfold Config.DefaultRequestTokensEstimate.
    destruct (Z.leb_spec (Config.DefaultRequestTokens cfg) 0); lia. }
  exists cfg, ce. revert Hstart Htok. generalize (Config.RequestTokens (Some cfg)). intros n Hstart Htok.
  injection Hstart as <- <-. split; [done|]. split; [done|]. split; [done|]. split; [done|].
  split; [split_and!; [done|done|by exists l]|]. split; [done|].
  split; [by rewrite Hl|]. split; [|done].
  unfold Evaluator.WithDefaultTokens. by destruct (Z.ltb_spec 0 n); [|lia].
Qed.

(** What the goroutines leave. *)
Lemma goroutines_ok dp attempts ticks :
  wired dp →
  let dp' := runReporter (runCache dp attempts) ticks in
  wired dp' ∧
  cache dp' = (Cache.Run (cache dp) Cache.initialBackoff attempts).2 ∧
  Cascade.limiter (engine dp') = Reporter.limiter (Reporter.Run (reporter dp) ticks).2 ∧
  policies dp' = policies dp ∧ defaultTokens dp' = defaultTokens dp ∧ clientID dp' = clientID dp ∧
  interval dp' = interval dp.
Proof.
  intros Hw dp'. pose proof Hw as (Hc & Hl & Hs).
  assert (wired (runCache dp attempts)) as Hw1 by done.
  destruct (wired_reported (runCache dp attempts)
    (Reporter.Run (reporter (runCache dp attempts)) ticks).2 Hw1) as (Hw' & Hc' & Hl' & Hid).
  { apply Run_limiter. simpl. rewrite Hl. exact Hs. }
  split; [exact Hw'|]. split; [|by split].
  unfold dp', runReporter. rewrite Hc'.
  unfold runCache, cache, cacheAt. simpl. by rewrite Hc, lookup_insert_eq.
Qed.

(** Worlds that the theorems on limiters cover: a monotone clock, and a configuration
    file whose limits are below [2 ^ 53] and whose number of replicas is a 64-bit
    integer. *)
Definition modest (f : Flags) (w : World) : Prop :=
  Limiter.clockOk (clock w) ∧
  ∀ cfg, Config.LoadConfig (configPath f) (configFile w) (unmarshal w) = Ok cfg →
    Config.Replicas (Some cfg) ≤ max_int64 ∧ Limiter.entriesOk (allowanceOrder w cfg).

Lemma serves_wired f w attempts ticks dp creds :
  main f w attempts ticks = Serving dp creds →
  ∃ dp0, wire f w = Ok (dp0, creds) ∧ dp = runReporter (runCache dp0 attempts) ticks.
Proof.
  unfold main. destruct (wire f w) as [[dp0 cr]|e]; [|done]. intros [= <- <-]. by exists dp0.
Qed.

Lemma wire_engineOk f w dp creds :
  wire f w = Ok (dp, creds) → modest f w →
  ∃ l, Cascade.limiter (engine dp) = Some l ∧ Limiter.limiterOk l.
Proof.
  intros (cfg & ce & Hcfg & Hce & _ & _ & _ & _ & -> & _)%wire_Ok [Hclk Hw]. destruct (Hw cfg Hcfg) as [Hrep Hent].
  destruct (Cascade.NewCascadeEngineFromConfig_Ok _ _ _ _ _ Hce) as (? & l & _ & Hl & ->).
  exists l. split; [done|]. apply Config.LoadConfig_Ok in Hcfg.
  eapply Limiter.NewLimiter_ok; [exact Hl| |exact Hclk|exact Hent].
  split; [apply Hcfg|]. split; [apply Hcfg|done].
Qed.

(** ** Properties *)

(** C23: a data plane that serves has its parts wired to each other, for as long as
    it runs: the evaluator reads the very cache that the stream writes, so a snapshot
    that arrives is the next decision's, and the reporter holds the very limiter that
    admits requests, so that it reports what was admitted and resizes what admits. When
    it starts to serve, the cache holds the newest snapshot that the streams have
    delivered by then, if any, and the limiter is the configuration's after the reports
    of that time; requests that state no size are charged the configured estimate, at
    least one token; the replica reports every ten seconds under its host and process;
    and the link to the control plane is plaintext only when that was asked for and no
    CA was named. *)
Theorem serving_data_plane f w attempts ticks dp creds :
  main f w attempts ticks = Serving dp creds →
  (∀ dp', rtc step dp dp' →
     is_Some (Cascade.limiter (engine dp')) ∧
     (∀ snap, Cache.Get (Evaluator.cache (evaluator (setSnapshot dp' snap))) = Some snap) ∧
     (∀ req, Reporter.limiter (reporter (process dp' req).2) =
        Cascade.limiter (Evaluator.engine (ExtProc.evaluator
          (ExtProc.answer (ExtProc.NewExtProcServer (evaluator dp')) req).2))) ∧
     (∀ t, Cascade.limiter (Evaluator.engine (evaluator (report dp' t).2)) =
        Reporter.limiter (Reporter.ReportOnce (reporter dp') t).2)) ∧
  Cache.Get (Evaluator.cache (evaluator dp)) = Cache.newest None attempts ∧
  ∃ cfg l,
    Config.LoadConfig (configPath f) (configFile w) (unmarshal w) = Ok cfg ∧
    Limiter.NewLimiter (Some cfg) (allowanceOrder w cfg) (clock w) = Ok l ∧
    Cascade.limiter (engine dp) =
      Reporter.limiter (Reporter.Run (Reporter.mkUsageReporter (Some l) (clientID dp) (interval dp) 0)
                          ticks).2 ∧
    Evaluator.defaultTokens (evaluator dp) = Config.RequestTokens (Some cfg) ∧
    1 ≤ Evaluator.defaultTokens (evaluator dp) ∧
    clientID dp = hostname w +:+ "-" +:+ fmt_d (pid w) ∧ interval dp = 10 * second ∧
    Transport.dialedWith (cpCA f) (cpServerName f) (allowInsecure f) creds.
Proof.
  intros (dp0 & Hwire & ->)%serves_wired.
  destruct (wire_Ok f w dp0 creds Hwire) as (cfg & ce & Hcfg & Hce & Hcreds & Htok & Hw & Hc0 & He0 &
    Ht0 & Hid0 & Hi0 & Hf0).
  destruct (goroutines_ok dp0 attempts ticks Hw) as (Hwired & Hc & Hl & _ & Ht & Hid & Hi).
  set (dp := runReporter (runCache dp0 attempts) ticks) in *. split; [|split].
  - intros dp' Hsteps. pose proof (steps_keep_wired _ _ Hwired Hsteps) as Hw'.
    split; [apply Hw'|]. split; [|split].
    + intros snap. destruct (wired_set dp' snap Hw') as (_ & Hc' & _). simpl. by rewrite Hc'.
    + intros req. assert (wired (process dp' req).2) as Hw2 by (eapply step_keeps_wired; [exact Hw'|constructor]).
      destruct (wired_views _ Hw2) as [-> _]. cbn [Evaluator.engine evaluator].
      unfold process. pose proof (answer_limiter (ExtProc.NewExtProcServer (evaluator dp')) req) as Ha.
      destruct (ExtProc.answer _ _) as [resp s]. apply wired_evaluated; [done|]. apply Ha, Hw'.
    + intros t. unfold report. pose proof (ReportOnce_limiter (reporter dp') t) as Hr.
      destruct (Reporter.ReportOnce _ _) as [sent r]. apply wired_reported; [done|]. apply Hr.
      destruct Hw' as (_ & Hlp & Hs). simpl. by rewrite Hlp.
  - cbn [evaluator Evaluator.cache]. rewrite Hc, Hc0. unfold Cache.Get. by rewrite Cache.Run_newest.
  - destruct (Cascade.NewCascadeEngineFromConfig_Ok _ _ _ _ _ Hce) as (ce0 & l & _ & Hnew & Hce0).
    exists cfg, l. cbn [evaluator Evaluator.defaultTokens]. rewrite Ht, Hid, Hi, Ht0, Hid0, Hi0.
    split_and!; try done.
    + rewrite Hl. do 2 f_equal. destruct (wired_views dp0 Hw) as [Hsh _].
      unfold reporter in *. cbn [Reporter.limiter evaluator Evaluator.engine] in Hsh.
      rewrite Hsh, He0, Hid0, Hi0, Hf0. by rewrite Hce0.
    + by apply Transport.ClientCredentials_Ok.
Qed.

End main.

End DataPlane.

(** ** Concrete programs *)

Module Samples.

#[local] Existing Instance Client.plainMessages.
#[local] Existing Instance Transport.namedFiles.

(** A control plane over the configuration of [Cascade.rawConfig], with Cloud Quotas
    down and Cloud Monitoring silent. *)
Definition cpWorld : ControlPlane.World :=
  {| ControlPlane.configFile := Ok ""; ControlPlane.unmarshal _ := Ok Cascade.rawConfig;
     ControlPlane.newQuotaClient := Ok (Services.mkCloudQuotas (λ _, Err "unavailable") (Ok tt));
     ControlPlane.newUsageClient := Ok (Services.mkMetricClient (λ _, []) (Ok tt));
     ControlPlane.listen _ := Ok tt;
     ControlPlane.marshal snap := Ok (fmt_d (default 0 (pb.LastSyncedAt snap))) |}.

Definition cpPoll : Reconciler.poll :=
  {| Reconciler.order := map_to_list; Reconciler.syncedAt := 7;
     Reconciler.meanwhile := ([] : Store.beside (S := Store.InMemoryStore)) |}.

Definition cpFlags (once : bool) : ControlPlane.Flags :=
  ControlPlane.mkFlags "config.yaml" 50051 "cert.pem" "key.pem" false once.

Definition dpServes (e : DataPlane.exit) : bool :=
  match e with DataPlane.Serving _ _ => true | _ => false end.

(** The reconciler's first poll comes before the server. *)
Definition cpBackground : list (ControlPlane.Answers * Reconciler.poll) :=
  [(ControlPlane.mkAnswers (λ _, Err "unavailable") (λ _, Ok []) (λ _ _, 0), cpPoll)].

Definition cpServed : ControlPlane.exit :=
  ControlPlane.main (cpFlags false) cpWorld cpPoll (λ _ _, 0) cpBackground.

Lemma serving_control_plane_witness :
  ∃ cp creds,
    cpServed = ControlPlane.Serving cp creds ∧
    (∃ raws snap, Server.GetQuotaSnapshot (ControlPlane.server cp) = inr snap ∧
       Reconciler.summarizes (Config.SafetyMarginPercent (ControlPlane.config cp)) raws 7 snap) ∧
    Transport.servedWith "cert.pem" "key.pem" false creds.
Proof.
  assert (match cpServed with
          | ControlPlane.Serving cp _ =>
              match Server.GetQuotaSnapshot (ControlPlane.server cp) with
              | inr snap => bool_decide (pb.LastSyncedAt snap = Some 7)
              | inl _ => false
              end
          | _ => false
          end = true) as Hserves by (vm_compute; reflexivity).
  destruct cpServed as [m| |o|cp creds] eqn:Hmain; [discriminate Hserves..|].
  exists cp, creds. split; [done|].
  destruct (ControlPlane.serving_control_plane _ _ _ _ _ _ _ Hmain)
    as (_ & _ & _ & _ & _ & Hsnap & _ & Hcreds).
  { intros a q raws Hin. apply list_elem_of_singleton in Hin. injection Hin as -> ->.
    exact (Permutation_refl _). }
  split; [|exact Hcreds].
  destruct Hsnap as [[_ Hnone]|(raws & t & snap & _ & Hget & Hsum)];
    [rewrite Hnone in Hserves; discriminate Hserves|].
  rewrite Hget in Hserves. apply bool_decide_eq_true_1 in Hserves. exists raws, snap. split; [exact Hget|].
  pose proof Hsum as (org & proj & Hsnap & _). rewrite Hsnap in Hserves. injection Hserves as Ht.
  rewrite Ht in Hsum. exact Hsum.
Defined.

Lemma once_prints_the_poll_witness :
  ∃ cp, ControlPlane.setup (cpFlags true) cpWorld = Ok cp ∧
    ControlPlane.main (cpFlags true) cpWorld cpPoll (λ _ _, 0) [] = ControlPlane.Printed "7" ∧
    ∃ raws snap, Reconciler.summarizes (Config.SafetyMarginPercent (ControlPlane.config cp)) raws 7 snap.
Proof.
  assert (is_ok (ControlPlane.setup (cpFlags true) cpWorld) = true) as Hok by (vm_compute; reflexivity).
  destruct (ControlPlane.setup (cpFlags true) cpWorld) as [cp|e] eqn:Hsetup; [|discriminate Hok].
  assert (ControlPlane.main (cpFlags true) cpWorld cpPoll (λ _ _, 0) [] = ControlPlane.Printed "7") as Hmain
    by (vm_compute; reflexivity).
  exists cp. split; [done|]. split; [exact Hmain|].
  pose proof (ControlPlane.once_prints_the_poll (cpFlags true) cpWorld cpPoll (λ _ _, 0) [] cp eq_refl
    Hsetup (λ raws, Permutation_refl _)) as H. rewrite Hmain in H. cbv zeta in H.
  destruct (Client.FetchMetrics _ _ _ _ _) as [[raws|e]|]; [|destruct H|destruct H].
  destruct H as (snap & _ & Hsum). exists raws, snap. exact Hsum.
Defined.

(** A data plane over the same configuration. *)
Definition dpWorld : DataPlane.World :=
  {| DataPlane.configFile := Ok ""; DataPlane.unmarshal _ := Ok Cascade.rawConfig;
     DataPlane.policyOrder cfg := map_to_list (default ∅ (Config.CustomPolicies cfg));
     DataPlane.allowanceOrder cfg := map_to_list (Config.Allowances cfg);
     DataPlane.clock := Limiter.sampleClock; DataPlane.dial _ _ := Ok tt;
     DataPlane.hostname := "host"; DataPlane.pid := 42; DataPlane.listen _ := Ok tt |}.

Definition dpFlags : DataPlane.Flags :=
  DataPlane.mkFlags "config.yaml" 50052 "localhost:50051" "" "" true.

(** A stream that delivers a snapshot and breaks, and a report that fails, before the
    listener is there. *)
Definition dpAttempts : list Cache.attempt :=
  [Cache.mkAttempt (Ok tt) [Ok (Some Cache.firstSnapshot); Err "reset"]].

Definition dpTicks : list Reporter.tick := [Reporter.mkTick ["us/flash"] [] (Err "unavailable")].

Lemma serving_data_plane_witness :
  ∃ dp creds,
    DataPlane.main dpFlags dpWorld dpAttempts dpTicks = DataPlane.Serving dp creds ∧
    Cache.Get (Evaluator.cache (DataPlane.evaluator dp)) = Some Cache.firstSnapshot ∧
    DataPlane.clientID dp = "host-42" ∧ 1 ≤ Evaluator.defaultTokens (DataPlane.evaluator dp).
Proof.
  assert (dpServes (DataPlane.main dpFlags dpWorld dpAttempts dpTicks) = true) as Hserves
    by (vm_compute; reflexivity).
  destruct (DataPlane.main dpFlags dpWorld dpAttempts dpTicks) as [m|dp creds] eqn:Hmain;
    [discriminate Hserves|].
  exists dp, creds. split; [done|].
  destruct (DataPlane.serving_data_plane dpFlags dpWorld dpAttempts dpTicks dp creds Hmain)
    as (_ & Hcache & cfg & l & _ & _ & _ & _ & Htok & Hid & _).
  split; [rewrite Hcache; reflexivity|]. split; [|exact Htok]. rewrite Hid. by vm_compute.
Defined.

End Samples.
