(* ===== verification/System.v ===== *)
(** * The whole system: a control plane and its data planes

    The two programs of [cmd] running together: the reconciler polls and saves,
    every replica has a streaming call of the discovery service that feeds its
    cache, reports its demand and resizes its limiter to the answer, and decides
    the requests that Envoy sends it. A run is any interleaving of these. *)

From S2P Require Import Prelude GoStrings GoFloat GoRound Quota Config Bucket Limiter.
From S2P Require Import Cascade Router Cache Evaluator ExtProc Reporter Store Shares.
From S2P Require Import ShareBounds Server Client Reconciler Transport Programs.
From stdpp Require Import options.
Import ShareBounds.

#[local] Existing Instance Store.InMemoryStore_store.
#[local] Existing Instance Store.InMemoryStore_laws.

(** ** Order

    [inOrder h l]: the elements of [l] occur in the history [h], none more than one
    place before an earlier one of [l]. *)
Module Order.

Section order.
Context {A : Type}.
Implicit Types (h l : list A).

Definition notFarBack (i j : nat) : Prop := (i ≤ S j)%nat.

Definition inOrder h l : Prop :=
  ∃ idx : list nat, StronglySorted notFarBack idx ∧ Forall2 (λ i x, h !! i = Some x) idx l.

Lemma inOrder_nil h : inOrder h [].
Proof. exists []. split; constructor. Qed.

Lemma inOrder_history h l h' : inOrder h l → inOrder (h ++ h') l.
Proof.
  intros (idx & Hs & Hall). exists idx. split; [done|].
  eapply Forall2_impl; [exact Hall|]. simpl. intros i y Hi. by apply lookup_app_l_Some.
Qed.

(** One of the last two of the history can come next, again and again. *)
Lemma inOrder_late h l i x : h !! i = Some x → (length h ≤ 2 + i)%nat → inOrder h l → inOrder h (l ++ [x]).
Proof.
  intros Hx Hi (idx & Hs & Hall). exists (idx ++ [i]). split.
  - apply StronglySorted_app_2; [|done|repeat constructor]. intros m j Hm ->%list_elem_of_singleton.
    apply list_elem_of_lookup in Hm as [n Hn].
    destruct (Forall2_lookup_l _ _ _ _ _ Hall Hn) as (y & _ & Hy). apply lookup_lt_Some in Hy.
    unfold notFarBack. lia.
  - apply Forall2_app; [done|]. by repeat constructor.
Qed.

Lemma inOrder_last h l x : last h = Some x → inOrder h l → inOrder h (l ++ [x]).
Proof. rewrite last_lookup. intros Hx. apply (inOrder_late h l (pred (length h)) x Hx). lia. Qed.

(** The last one before the one that is being added. *)
Lemma inOrder_before h pending l x :
  last h = Some x → inOrder (h ++ option_list pending) l → inOrder (h ++ option_list pending) (l ++ [x]).
Proof.
  rewrite last_lookup. intros Hx. apply (inOrder_late _ _ (pred (length h))).
  - by apply lookup_app_l_Some.
  - rewrite length_app. destruct pending; simpl; lia.
Qed.

Lemma Forall2_sublist {B} (P : B → A → Prop) idx l l' :
  l' `sublist_of` l → Forall2 P idx l → ∃ idx', idx' `sublist_of` idx ∧ Forall2 P idx' l'.
Proof.
  intros Hsub. revert idx. induction Hsub as [|x l' l Hsub IH|x l' l Hsub IH]; intros idx Hall.
  - exists []. split; [apply sublist_nil_l|constructor].
  - apply Forall2_cons_inv_r in Hall as (i & idx1 & Hi & Hall & ->).
    destruct (IH idx1 Hall) as (idx' & Hs & Hall'). exists (i :: idx'). split; by constructor.
  - apply Forall2_cons_inv_r in Hall as (i & idx1 & Hi & Hall & ->).
    destruct (IH idx1 Hall) as (idx' & Hs & Hall'). exists idx'. split; [by constructor|done].
Qed.

Lemma StronglySorted_sublist (idx idx' : list nat) :
  idx' `sublist_of` idx → StronglySorted notFarBack idx → StronglySorted notFarBack idx'.
Proof.
  induction 1 as [|i l' l Hsub IH|i l' l Hsub IH]; intros Hs; [done| |];
    apply StronglySorted_inv in Hs as [Hs Hle]; [|by apply IH].
  constructor; [by apply IH|]. rewrite Forall_forall in *. intros j Hj. apply Hle.
  by eapply elem_of_sublist.
Qed.

Lemma inOrder_sublist h l l' : l' `sublist_of` l → inOrder h l → inOrder h l'.
Proof.
  intros Hsub (idx & Hs & Hall). destruct (Forall2_sublist _ idx l l' Hsub Hall) as (idx' & Hi & Hall').
  exists idx'. split; [by eapply StronglySorted_sublist|done].
Qed.

Lemma inOrder_elem h l x : inOrder h l → x ∈ l → x ∈ h.
Proof.
  intros (idx & _ & Hall) Hx. apply list_elem_of_lookup in Hx as [i Hi].
  destruct (Forall2_lookup_r _ _ _ _ _ Hall Hi) as (j & _ & Hj). by eapply list_elem_of_lookup_2.
Qed.

End order.

End Order.

(** ** The service between the two programs

    What a reporting replica relies on of the service it reports to: from a state
    in which the service is sound and in the circumstances of a call that are
    possible, a report leaves it sound and is answered with shares that a limiter
    accepts. *)
Module Discovery.

Class DiscoveryService (S : Type) := {
  circumstances : Type;
  reportUsage : S → Server.ReportUsageRequest → circumstances →
    (Server.status + Server.ReportUsageResponse) * S;
  sound : S → Prop;
  possible : S → Server.ReportUsageRequest → circumstances → Prop
}.

Class DiscoveryServiceLaws (S : Type) `{DiscoveryService S} : Prop := {
  report_sound s req c : sound s → possible s req c →
    sound (reportUsage s req c).2 ∧
    ∀ m, (reportUsage s req c).1 = inr m → Forall Limiter.shareOk (Server.Shares m)
}.

Section client.
Context `{GoUnicode} `{GoArch}.

(** The text of a status error. *)
Definition statusText (st : Server.status) : string :=
  match st with
  | Server.InvalidArgument m | Server.NotFound m | Server.Unavailable m | Server.Failed m => m
  end.

(** The request of a tick, as it arrives. *)
Definition requestOf (r : Reporter.UsageReporter) (drain : list string) : Server.ReportUsageRequest :=
  Server.mkReportUsageRequest (Reporter.clientID r)
    (Some <$> (Limiter.DrainDemand (Reporter.limiter r) drain).1).

(** What the call returns; [lost] is an error of the link after the service has
    answered. *)
Definition responseOf (resp : Server.status + Server.ReportUsageResponse) (lost : option string)
    : result (list pb.TargetShare) :=
  match lost, resp with
  | Some e, _ => Err e
  | None, inl st => Err (statusText st)
  | None, inr m => Ok (Server.Shares m)
  end.

Lemma ReportOnce_request r t :
  requestOf r (Reporter.drainOrder t) =
    Server.mkReportUsageRequest (Reporter.ClientId (Reporter.ReportOnce r t).1.2)
      (Some <$> Reporter.Demand (Reporter.ReportOnce r t).1.2).
Proof.
  unfold requestOf, Reporter.ReportOnce.
  destruct (Limiter.DrainDemand _ _). by destruct (Reporter.response t).
Qed.

(** The entries of a limiter in range are 64-bit integers. *)
Lemma requestOf_entries r drain l :
  Reporter.limiter r = Some l → Limiter.limiterOk l →
  Forall entryOk (Server.Demand (requestOf r drain)) ∧
  (length (Server.Demand (requestOf r drain)) ≤ length drain)%nat.
Proof.
  intros Hl Hok. unfold requestOf. rewrite Hl. cbn [Server.Demand]. rewrite length_fmap.
  assert (∀ out l, Limiter.limiterOk l → Forall (λ d, entryOk (Some d)) out →
    Forall (λ d, entryOk (Some d)) (foldl Limiter.drainOne (out, l) drain).1 ∧
    (length (foldl Limiter.drainOne (out, l) drain).1 ≤ length out + length drain)%nat) as Hfold.
  { clear. induction drain as [|k drain IH]; intros out l Hok Hout; [simpl; split; [done|lia]|].
    cbn [foldl]. rewrite length_cons. pose proof (Limiter.drainOne_ok out l k Hok) as Hok'.
    assert (Forall (λ d, entryOk (Some d)) (Limiter.drainOne (out, l) k).1 ∧
      (length (Limiter.drainOne (out, l) k).1 ≤ S (length out))%nat) as [Hall Hlen].
    { unfold Limiter.drainOne. destruct (Limiter.demand l !! k) as [d|] eqn:Hd; [|split; [done|simpl; lia]].
      destruct (Limiter.lim_counters l Hok k d Hd). unfold Limiter.emit. destruct (_ && _); simpl; [split; [done|lia]|].
      split; [apply Forall_app; split; [done|by apply Forall_singleton]|].
      rewrite length_app. simpl. lia. }
    destruct (Limiter.drainOne (out, l) k) as [out' l']. simpl in *.
    destruct (IH out' l' Hok' Hall) as [Hall' Hlen']. split; [done|lia]. }
  unfold Limiter.DrainDemand. destruct (Hfold [] l Hok) as [Hall Hlen]; [constructor|].
  destruct (foldl Limiter.drainOne ([], l) drain) as [out l']. simpl in *.
  split; [by apply Forall_fmap|done].
Qed.

Section call.
Context {S : Type} `{!DiscoveryService S} {Laws : DiscoveryServiceLaws S}.

(** One report over the link: [(reporter, service)]. *)
Definition roundTrip (r : Reporter.UsageReporter) (s : S) (drain reset : list string)
    (c : circumstances) (lost : option string) : Reporter.UsageReporter * S :=
  let '(resp, s) := reportUsage s (requestOf r drain) c in
  ((Reporter.ReportOnce r (Reporter.mkTick drain reset (responseOf resp lost))).2, s).

Lemma roundTrip_ok r l s drain reset c lost :
  Reporter.limiter r = Some l → Limiter.limiterOk l → sound s → possible s (requestOf r drain) c →
  let '(r', s') := roundTrip r s drain reset c lost in
  sound s' ∧ ∃ l', Reporter.limiter r' = Some l' ∧ Limiter.limiterOk l'.
Proof using Laws.
  intros Hl Hok Hs Hp. unfold roundTrip.
  destruct (report_sound s (requestOf r drain) c Hs Hp) as [Hs' Hm].
  destruct (reportUsage s (requestOf r drain) c) as [resp s']. split; [exact Hs'|].
  apply (Reporter.ReportOnce_ok r l); [done|done|]. simpl. intros shares Hresp.
  destruct lost, resp; simplify_eq/=. by apply Hm.
Qed.

End call.

End client.

End Discovery.
Import Discovery.

(** ** The control plane is such a service *)

Module Implementation.

Section implementation.
Context `{GoUnicode} `{Client.CloudMessages}.

(** The clock's reading and the order of [range] for every sum. *)
#[export] Instance ControlPlane_service : DiscoveryService ControlPlane.ControlPlane := {
  circumstances := Time * (string → Shares.metric → list string);
  reportUsage cp req c := ControlPlane.reportUsage cp req c.1 c.2;
  sound cp := trackerOk (ControlPlane.shares cp);
  possible cp req c :=
    Forall entryOk (Server.Demand req) ∧
    Z.of_nat (length (Server.Demand req)) ≤ maxEntries ∧
    Z.of_nat (size (Shares.replicas (ControlPlane.shares cp))) < maxEntries ∧
    ∀ k m, replicaOrder (ControlPlane.shares (ControlPlane.reportUsage cp req c.1 c.2).2) (c.2 k m)
}.

Lemma reportUsage_shares cp req now visit :
  ControlPlane.shares (ControlPlane.reportUsage cp req now visit).2 =
    (Shares.Report (ControlPlane.shares cp) (Server.ClientId req) (Server.Demand req) now visit).2.
Proof.
  unfold ControlPlane.reportUsage, Server.ReportUsage, ControlPlane.server. simpl.
  by destruct (Shares.Report _ _ _ _ _).
Qed.

#[export] Instance ControlPlane_laws : DiscoveryServiceLaws ControlPlane.ControlPlane.
Proof.
  split. intros cp req [now visit] Hs (Hd & Hlen & Hsize & Ho). cbn [fst snd] in *.
  cbn [sound reportUsage ControlPlane_service] in *. setoid_rewrite reportUsage_shares in Ho.
  destruct (Report_sound (ControlPlane.shares cp) (Server.ClientId req) (Server.Demand req) now visit
    Hs Hd Hlen Hsize Ho) as [Hok Hshares].
  rewrite reportUsage_shares. split; [done|].
  unfold ControlPlane.reportUsage, Server.ReportUsage, ControlPlane.server.
  cbn [Server.shares fst snd]. destruct (Shares.Report _ _ _ _ _) as [[[sh active]|e] t]; [|done].
  intros m [= <-]. simpl in *. eapply Forall_impl; [exact Hshares|]. by intros sh' [? _].
Qed.

End implementation.

End Implementation.

(** ** Runs *)

Module System.
Import Order Implementation.

(** A replica's streaming call at the server, what it had sent when it returned, and
    how many of its snapshots the replica has received: the link delivers them in
    order. *)
Record stream := mkStream {
  call : Server.phase;
  final : list Store.Snapshot;
  received : nat
}.

(** A data plane with its call; [seen] lists the snapshots it has received. *)
Record replica := mkReplica {
  process : DataPlane.DataPlane;
  link : stream;
  seen : list Store.Snapshot
}.

Section system.
Context `{GoUnicode} `{GoArch} `{Client.CloudMessages}.

(** [saved] lists the snapshots whose [Save] has returned, and [saving] is the one that
    the reconciler has published and not pushed yet. *)
Record system := mkSystem {
  control : ControlPlane.ControlPlane;
  fleet : gmap string replica;
  saved : list Store.Snapshot;
  saving : option Store.Snapshot
}.

Definition store (s : system) : Store.InMemoryStore := ControlPlane.store (control s).

(** The store and its saver. *)
Definition runOf (s : system) : Store.run := Store.mkRun (store s) (saved s) (saving s).

Definition newStream : stream := mkStream Server.Starting [] 0.

Definition sessionOf (w : Store.run) (p : Server.phase) : Server.session :=
  Server.mkSession w p.

(** The snapshots that the call has sent so far. *)
Definition sent (w : Store.run) (k : stream) : list Store.Snapshot :=
  match call k with
  | Server.Serving _ _ => Server.delivered (sessionOf w (call k))
  | _ => final k
  end.

(** What happens next. *)
Inductive label : Type :=
  | LPoll (client : Reconciler.MetricsClient)
      (order : gmap string Client.RawModelQuota → list (string * Client.RawModelQuota))
      (syncedAt : Time)
  | LPush (sch : nat → Store.schedule)
  | LStream (name : string) (a : Server.action)
  | LCall (name : string)
  | LReceive (name : string)
  | LReport (name : string) (drain reset : list string) (now : Time)
      (visit : string → Shares.metric → list string) (lost : option string)
  | LUnreachable (name : string) (drain reset : list string) (err : string)
  | LMessage (name : string) (req : ExtProc.ProcessingRequest).

Definition withReplica (s : system) (name : string) (r : replica) : system :=
  mkSystem (control s) (<[name := r]> (fleet s)) (saved s) (saving s).

(** The reconciler polls when its last [Save] has returned; a snapshot is published at
    once and pushed later. *)
Definition execPoll (s : system) (client : Reconciler.MetricsClient)
    (order : gmap string Client.RawModelQuota → list (string * Client.RawModelQuota))
    (syncedAt : Time) : system :=
  match saving s with
  | Some _ => s
  | None =>
      match Reconciler.snapshotOf (ControlPlane.reconciler (control s) client) order syncedAt with
      | Client.Returned (Ok snap) =>
          mkSystem (ControlPlane.publish (control s) snap) (fleet s) (saved s) (Some snap)
      | _ => s
      end
  end.

Definition execPush (s : system) (sch : nat → Store.schedule) : system :=
  match saving s with
  | Some snap => mkSystem (ControlPlane.push (control s) snap sch) (fleet s) (saved s ++ [snap]) None
  | None => s
  end.

(** The call takes a step of its own. *)
Definition execStream (s : system) (name : string) (r : replica) (a : Server.action) : system :=
  let after := Server.step (sessionOf (runOf s) (call (link r))) a in
  let final :=
    match Server.call after with
    | Server.Returned _ _ => sent (runOf s) (link r)
    | _ => final (link r)
    end in
  mkSystem (ControlPlane.withStore (control s) (Server.store_ after))
    (<[name := mkReplica (process r) (mkStream (Server.call after) final (received (link r))) (seen r)]>
       (fleet s))
    (saved s) (saving s).

(** The replica's goroutine calls again after its call has ended. *)
Definition execCall (s : system) (name : string) (r : replica) : system :=
  match call (link r) with
  | Server.Returned _ _ => withReplica s name (mkReplica (process r) newStream (seen r))
  | _ => s
  end.

(** The next snapshot arrives. *)
Definition execReceive (s : system) (name : string) (r : replica) : system :=
  match sent (runOf s) (link r) !! received (link r) with
  | None => s
  | Some snap =>
      withReplica s name
        (mkReplica (DataPlane.setSnapshot (process r) snap)
           (mkStream (call (link r)) (final (link r)) (S (received (link r)))) (seen r ++ [snap]))
  end.

(** The replica reports, and the answer may get lost. *)
Definition execReport (s : system) (name : string) (r : replica) (drain reset : list string)
    (now : Time) (visit : string → Shares.metric → list string) (lost : option string) : system :=
  let '(rep, cp) := roundTrip (DataPlane.reporter (process r)) (control s) drain reset
                      ((now, visit) : circumstances (S := ControlPlane.ControlPlane)) lost in
  mkSystem cp
    (<[name := mkReplica (DataPlane.reported (process r) rep) (link r) (seen r)]> (fleet s))
    (saved s) (saving s).

Definition exec (s : system) (l : label) : system :=
  match l with
  | LPoll client order syncedAt => execPoll s client order syncedAt
  | LPush sch => execPush s sch
  | LStream name a => from_option (λ r, execStream s name r a) s (fleet s !! name)
  | LCall name => from_option (execCall s name) s (fleet s !! name)
  | LReceive name => from_option (execReceive s name) s (fleet s !! name)
  | LReport name drain reset now visit lost =>
      from_option (λ r, execReport s name r drain reset now visit lost) s (fleet s !! name)
  | LUnreachable name drain reset err =>
      from_option (λ r, withReplica s name
        (mkReplica (DataPlane.report (process r) (Reporter.mkTick drain reset (Err err))).2
           (link r) (seen r))) s (fleet s !! name)
  | LMessage name req =>
      from_option (λ r, withReplica s name
        (mkReplica (DataPlane.process (process r) req).2 (link r) (seen r))) s (fleet s !! name)
  end.

(** Whether it can happen: only a call in its loop receives while the pushes are going
    on, a call takes steps of its own only, and the orders are those of [range] over
    the maps that are there. *)
Definition enabled (s : system) (l : label) : Prop :=
  match l with
  | LPush sch =>
      ∀ name r id, fleet s !! name = Some r → call (link r) = Server.Subscribed id →
        sch id = (false, false)
  | LStream _ a => match a with Server.AOther _ => False | _ => True end
  | LReport name drain _ now visit _ =>
      Z.of_nat (length drain) ≤ maxEntries ∧
      ∀ r, fleet s !! name = Some r →
        let req := requestOf (DataPlane.reporter (process r)) drain in
        ∀ k m, replicaOrder (ControlPlane.shares (ControlPlane.reportUsage (control s) req now visit).2)
                 (visit k m)
  | _ => True
  end.

Definition step (s s' : system) : Prop := ∃ l, enabled s l ∧ s' = exec s l.

(** Two programs that have just started: the control plane serves, and so does each
    data plane, with a monotone clock and limits below [2 ^ 53]. What their goroutines
    do before [main] serves is left to the steps that follow. *)
Record started `{Transport.TLSFiles} (s : system) : Prop := {
  started_control : ∃ f w p now creds,
    ControlPlane.main f w p now [] = ControlPlane.Serving (control s) creds;
  started_fleet : map_Forall (λ _ r, ∃ f w creds,
    DataPlane.main f w [] [] = DataPlane.Serving (process r) creds ∧
    DataPlane.modest f w ∧ link r = newStream ∧ seen r = []) (fleet s);
  started_size : Z.of_nat (size (fleet s)) < maxEntries;
  started_saved : saved s = [] ∧ saving s = None
}.

(** ** Links

    What holds of a replica's call and of what it has received. *)

Definition chan (w : Store.run) (p : Server.phase) : option Store.channel :=
  match p with
  | Server.Subscribed id | Server.Serving id _ => Store.channels (Store.quotas w) !! id
  | _ => None
  end.

Definition callId (p : Server.phase) : option nat :=
  match p with
  | Server.Starting => None
  | Server.Subscribed id | Server.Serving id _ | Server.Returned id _ => Some id
  end.

(** What the call's channel holds. *)
Definition buffered (w : Store.run) (k : stream) : list Store.Snapshot :=
  option_list (chan w (call k) ≫= Store.buf).

Record linkOk (w : Store.run) (r : replica) : Prop := {
  link_session : Server.sessionOk (sessionOf w (call (link r)));
  link_fresh : match call (link r) with
               | Server.Starting | Server.Subscribed _ =>
                   final (link r) = [] ∧
                   ∀ ch, chan w (call (link r)) = Some ch → Store.got ch = []
               | _ => True
               end;
  link_received : (received (link r) ≤ length (sent w (link r)))%nat;
  link_seen : ∃ before, seen r = before ++ take (received (link r)) (sent w (link r));
  link_cached : Cache.current (DataPlane.cache (process r)) = last (seen r);
  link_order : inOrder (Store.published w)
                 (seen r ++ drop (received (link r)) (sent w (link r)) ++ buffered w (link r))
}.

Lemma sent_Serving w k id first :
  call k = Server.Serving id first →
  sent w k = option_list first ++ default [] (Store.got <$> chan w (call k)).
Proof. intros Hk. unfold sent. by rewrite Hk. Qed.

Lemma sent_same w w' k : chan w' (call k) = chan w (call k) → sent w' k = sent w k.
Proof.
  unfold sent. destruct (call k); simpl; try done. intros Hc. unfold Server.delivered, Server.store_.
  simpl. by rewrite Hc.
Qed.

(** Another goroutine's operation on the store. *)
Lemma linkOk_same w w' r :
  linkOk w r → Server.sessionOk (sessionOf w' (call (link r))) →
  chan w' (call (link r)) = chan w (call (link r)) →
  (∃ more, Store.published w' = Store.published w ++ more) → linkOk w' r.
Proof.
  intros [Hs Hf Hr Hseen Hc Ho] Hs' Hch [more Hmore]. pose proof (sent_same w w' (link r) Hch) as Hsent.
  assert (buffered w' (link r) = buffered w (link r)) as Hbuf by (unfold buffered; by rewrite Hch).
  constructor; rewrite ?Hsent, ?Hbuf, ?Hmore; try done; [by rewrite Hch|]. by apply inOrder_history.
Qed.

(** The operations of a call on the store: it subscribes first, and then uses its
    own channel only. *)
Definition ownEvent (p : Server.phase) (e : Store.event) : Prop :=
  match e with
  | Store.EStore _ | Store.EPush _ => False
  | Store.ESubscribe => p = Server.Starting
  | Store.EUnsubscribe j | Store.EReceive j => callId p = Some j
  end.

Lemma apply_published w e :
  ∃ more, Store.published (Store.apply w e) = Store.published w ++ more.
Proof.
  unfold Store.published. destruct w as [st h pending], e as [snap|sch| |j|j], pending as [b|];
    cbn [Store.apply Store.saving Store.saved Store.withQuotas option_list];
    try (exists []; by rewrite !app_nil_r).
  exists [snap]. by rewrite !app_nil_r.
Qed.

Lemma apply_chan w e p :
  Server.sessionOk (sessionOf w p) → Server.onChannel e p = false →
  match e with Store.EPush _ => False | _ => True end →
  chan (Store.apply w e) p = chan w p.
Proof.
  intros (Hok & Hcall) Hown He. destruct w as [st h pending].
  assert (∀ id, callId p = Some id → is_Some (Store.channels st !! id)) as Hch.
  { intros id. destruct p; simpl in *; intros; simplify_eq; try apply Hcall. }
  assert (∀ id, callId p = Some id → Store.channels (Store.quotas (Store.apply (Store.mkRun st h pending) e)) !! id =
    Store.channels st !! id) as Hsame.
  { intros id Hid. destruct (Hch id Hid) as [ch Hchan]. destruct e as [snap|sch| |j|j]; [| | | |];
      cbn [Store.apply Store.saving Store.quotas Store.saved Store.withQuotas].
    - by destruct pending.
    - done.
    - simpl. rewrite lookup_insert_ne; [done|]. intros Heq.
      apply (is_fresh (dom (Store.channels st))). rewrite Heq. by apply elem_of_dom_2 in Hchan.
    - assert (j ≠ id) as Hne.
      { intros ->. destruct p; simpl in *; simplify_eq; by rewrite bool_decide_eq_true_2 in Hown. }
      unfold Store.unsubscribe. destruct (Store.channels st !! j) as [chj|]; [|done].
      destruct (Store.fired chj); [done|]. destruct (Store.closed chj); [done|]. simpl.
      by rewrite lookup_insert_ne.
    - assert (j ≠ id) as Hne.
      { intros ->. destruct p; simpl in *; simplify_eq; by rewrite bool_decide_eq_true_2 in Hown. }
      unfold Store.receive. destruct (Store.channels st !! j) as [chj|]; [|done]. simpl.
      by rewrite lookup_insert_ne. }
  destruct p; simpl; try done; by apply Hsame.
Qed.

Lemma step_events se a :
  match a with Server.AOther _ => False | _ => True end →
  (∃ es, Server.shared (Server.step se a) = foldl Store.apply (Server.shared se) es ∧
     Forall (ownEvent (Server.call se)) es) ∧
  (callId (Server.call (Server.step se a)) = callId (Server.call se) ∨
   Server.call se = Server.Starting ∧
   callId (Server.call (Server.step se a)) = Some (fresh (dom (Store.channels (Server.store_ se))))).
Proof.
  intros Ha. destruct se as [w p]. unfold Server.store_. cbn [Server.shared Server.call].
  assert (∀ p', Server.step (Server.mkSession w p) a = Server.mkSession w p' →
    callId p' = callId p →
    (∃ es, Server.shared (Server.step (Server.mkSession w p) a) = foldl Store.apply w es ∧ Forall (ownEvent p) es) ∧
    (callId (Server.call (Server.step (Server.mkSession w p) a)) = callId p ∨ p = Server.Starting ∧
       callId (Server.call (Server.step (Server.mkSession w p) a)) = Some (fresh (dom (Store.channels (Store.quotas w))))))
    as Hidle.
  { intros p' -> Hid. split; [by exists []|by left]. }
  destruct a as [e| |sendErr|sendErr|err]; [done| | | |];
    destruct p as [|id|id first|id e]; try (by eapply Hidle); clear Hidle;
    cbn [Server.step Server.call Server.shared].
  - split; [|right; by split]. exists [Store.ESubscribe]. split; [done|by repeat constructor].
  - destruct (Store.Get (Store.quotas w)); [destruct sendErr|]; cbn [Server.shared Server.call Server.return_ callId];
      (split; [|by left]); try (by exists []).
    exists [Store.EUnsubscribe id]. split; [done|by repeat constructor].
  - destruct (Store.channels (Store.quotas w) !! id) as [ch|]; [|split; [by exists []|by left]].
    destruct (Store.buf ch); [destruct sendErr|destruct (Store.closed ch)];
      cbn [Server.shared Server.call Server.return_ callId]; (split; [|by left]).
    + exists [Store.EReceive id; Store.EUnsubscribe id]. split; [done|by repeat constructor].
    + exists [Store.EReceive id]. split; [done|by repeat constructor].
    + exists [Store.EUnsubscribe id]. split; [done|by repeat constructor].
    + by exists [].
  - split; [|by left]. exists [Store.EUnsubscribe id]. split; [done|by repeat constructor].
Qed.

(** A call's own steps leave the saver and the store's snapshot alone. *)
Lemma events_kept p w es :
  Forall (ownEvent p) es →
  Store.saved (foldl Store.apply w es) = Store.saved w ∧
  Store.saving (foldl Store.apply w es) = Store.saving w.
Proof.
  intros Hown. revert w. induction Hown as [|e es He _ IH]; intros w; [done|]. cbn [foldl].
  destruct (IH (Store.apply w e)) as [-> ->]. by destruct e.
Qed.

Lemma link_others w r p es :
  linkOk w r → Forall (ownEvent p) es →
  (∀ id, callId p = Some id → callId (call (link r)) ≠ Some id) →
  linkOk (foldl Store.apply w es) r.
Proof.
  intros Hl Hes Hdiff. revert w Hl.
  induction Hes as [|e es He _ IH]; intros w Hl; [done|]. apply IH.
  assert (Server.onChannel e (call (link r)) = false) as Hown.
  { destruct e as [?|?| |j|j]; try done; simpl in He; specialize (Hdiff j He);
      destruct (call (link r)); simpl in *; try done; apply bool_decide_eq_false_2; congruence. }
  apply (linkOk_same w); [done| | |].
  - exact (Server.other_ok _ e (link_session _ _ Hl) Hown).
  - apply apply_chan; [apply Hl|done|by destruct e].
  - apply apply_published.
Qed.

(** The replica's record after a step of its call. *)
Definition stepped (w : Store.run) (r : replica) (a : Server.action) : replica :=
  let after := Server.step (sessionOf w (call (link r))) a in
  mkReplica (process r)
    (mkStream (Server.call after)
       match Server.call after with
       | Server.Returned _ _ => sent w (link r)
       | _ => final (link r)
       end (received (link r))) (seen r).

Lemma inOrder_drop_buffer (h l1 l2 l3 : list Store.Snapshot) : inOrder h (l1 ++ l2 ++ l3) → inOrder h (l1 ++ l2 ++ []).
Proof.
  apply inOrder_sublist. apply sublist_app; [done|]. apply sublist_app; [done|apply sublist_nil_l].
Qed.

(** A call that returns. *)
Lemma linkOk_returned w w' r id err :
  linkOk w r → Store.published w' = Store.published w →
  Server.sessionOk (sessionOf w' (Server.Returned id err)) →
  linkOk w' (mkReplica (process r)
    (mkStream (Server.Returned id err) (sent w (link r)) (received (link r))) (seen r)).
Proof.
  intros [Hs Hf Hr Hseen Hc Ho] Hp Hs'. constructor; try done.
  unfold buffered. rewrite Hp. cbn [call link chan mbind option_bind option_list sent received seen final].
  by eapply inOrder_drop_buffer.
Qed.

Lemma receive_chan st id ch v :
  Store.channels st !! id = Some ch → Store.buf ch = Some v →
  Store.channels (Store.receive st id) !! id =
    Some (Store.mkChannel None (Store.closed ch) (Store.fired ch) (Store.got ch ++ [v])).
Proof.
  intros Hch Hb. unfold Store.receive, Store.consume. rewrite Hch, Hb. simpl. by rewrite lookup_insert_eq.
Qed.

(** The first statement: subscribing. *)
Lemma linkOk_subscribe w r :
  linkOk w r → call (link r) = Server.Starting →
  linkOk (Server.shared (Server.step (sessionOf w (call (link r))) Server.ASubscribe))
    (stepped w r Server.ASubscribe).
Proof.
  intros Hl Hp. pose proof (Server.session_step _ Server.ASubscribe (link_session _ _ Hl)) as Hs'.
  destruct Hl as [Hs Hf Hr Hseen Hc Ho], r as [dp [p fin rcv] sn]. unfold stepped, sent, buffered in *.
  cbn [link call] in Hp. subst p. cbn [link call final received seen process sessionOf] in *.
  destruct Hf as [-> _]. constructor; try done.
  - split; [done|]. simpl. rewrite lookup_insert_eq. by intros ch [= <-].
  - unfold buffered. simpl. by rewrite lookup_insert_eq.
Qed.

(** [stepped] when the outcome of the step is known. *)
Lemma linkOk_step w w' r a p :
  Server.step (sessionOf w (call (link r))) a = Server.mkSession w' p →
  linkOk w' (mkReplica (process r)
    (mkStream p match p with Server.Returned _ _ => sent w (link r) | _ => final (link r) end
       (received (link r))) (seen r)) →
  linkOk (Server.shared (Server.step (sessionOf w (call (link r))) a)) (stepped w r a).
Proof. intros Hstep Hl. unfold stepped. by rewrite Hstep. Qed.

Lemma session_after w w' r a p :
  linkOk w r → Server.step (sessionOf w (call (link r))) a = Server.mkSession w' p →
  Server.sessionOk (sessionOf w' p).
Proof. intros Hl Hstep. pose proof (Server.session_step _ a (link_session _ _ Hl)) as Hs. by rewrite Hstep in Hs. Qed.

(** The first [Get] and the first [Send]: the snapshot may be one that is not pushed
    yet, while the channel already holds the one before it. *)
Lemma linkOk_initial w r id sendErr :
  linkOk w r → call (link r) = Server.Subscribed id →
  linkOk (Server.shared (Server.step (sessionOf w (call (link r))) (Server.AInitial sendErr)))
    (stepped w r (Server.AInitial sendErr)).
Proof.
  intros Hl Hp. set (st := Store.quotas w).
  assert (Server.step (sessionOf w (call (link r))) (Server.AInitial sendErr) =
    match Store.snapshot st, sendErr with
    | Some initial, None => Server.mkSession w (Server.Serving id (Some initial))
    | Some _, Some e => Server.return_ w id (Server.Failed e)
    | None, _ => Server.mkSession w (Server.Serving id None)
    end) as Hstep.
  { rewrite Hp. cbn. unfold Store.Get. fold st. by destruct (Store.snapshot st), sendErr. }
  pose proof Hl as [(Hrun & Hs) Hf Hr Hseen Hc Ho]. rewrite Hp in Hf, Hs.
  unfold sent, buffered in Hr, Hseen, Ho. rewrite Hp in Hr, Hseen, Ho. simpl in Hf, Hs, Ho.
  unfold Server.store_ in Hs. simpl in Hs. fold st in Hf, Hs, Ho.
  destruct Hf as [Hfin Hgot], Hs as [[ch Hch] Hin]. rewrite Hfin in Hr, Hseen, Ho. simpl in Hr.
  assert (received (link r) = O) as Hrcv by lia. rewrite Hrcv in Ho. specialize (Hgot ch Hch).
  rewrite Hch in Ho. simpl in Ho.
  pose proof (Store.run_snapshot _ Hrun) as Hsnap. cbn [sessionOf Server.shared] in Hsnap. fold st in Hsnap.
  destruct (Store.snapshot st) as [initial|]; [destruct sendErr as [e|]|];
    apply (linkOk_step _ _ _ _ _ Hstep);
    pose proof (session_after _ _ _ _ _ Hl Hstep) as Hs';
    [by apply (linkOk_returned w)| |];
    (constructor; cbn [link call final received seen process]; try done;
      unfold sent, buffered, Server.delivered, Server.store_; simpl; fold st; rewrite Hch, Hrcv; simpl;
      rewrite ?Hgot).
  - lia.
  - exists (seen r). by rewrite app_nil_r.
  - assert (inOrder (Store.published w) (seen r ++ [initial])) as Hfirst.
    { apply inOrder_last; [done|]. eapply inOrder_sublist; [|exact Ho]. by apply sublist_inserts_r. }
    destruct (Store.buf ch) as [v|] eqn:Hb; simpl in *; [|done].
    replace (seen r ++ [initial; v]) with ((seen r ++ [initial]) ++ [v]) by (by rewrite <- app_assoc).
    apply inOrder_before; [|done].
    apply (Store.run_current _ Hrun id ch); [done|done|]. unfold Store.newest. by rewrite Hb.
  - lia.
  - exists (seen r). by rewrite app_nil_r.
  - done.
Qed.

(** A snapshot from the channel. *)
Lemma linkOk_receive w r id first sendErr :
  linkOk w r → call (link r) = Server.Serving id first →
  linkOk (Server.shared (Server.step (sessionOf w (call (link r))) (Server.AReceive sendErr)))
    (stepped w r (Server.AReceive sendErr)).
Proof.
  intros Hl Hp. pose proof Hl as [(_ & Hs) Hf Hr Hseen Hc Ho]. rewrite Hp in Hs. simpl in Hs.
  destruct Hs as [[[ch Hch] _] Hin].
  assert (sent w (link r) = option_list first ++ Store.got ch) as Hsent.
  { rewrite (sent_Serving w (link r) id first Hp), Hp. simpl. by rewrite Hch. }
  assert (buffered w (link r) = option_list (Store.buf ch)) as Hbuf.
  { unfold buffered. rewrite Hp. simpl. by rewrite Hch. }
  set (w' := Store.withQuotas w (Store.receive (Store.quotas w) id)).
  assert (Server.step (sessionOf w (call (link r))) (Server.AReceive sendErr) =
    match Store.buf ch with
    | Some _ =>
        match sendErr with
        | Some e => Server.return_ w' id (Server.Failed e)
        | None => Server.mkSession w' (Server.Serving id first)
        end
    | None =>
        if Store.closed ch
        then Server.return_ w id (Server.Unavailable "quota subscription closed unexpectedly")
        else Server.mkSession w (Server.Serving id first)
    end) as Hstep.
  { rewrite Hp. cbn. rewrite Hch. by destruct (Store.buf ch), sendErr. }
  destruct (Store.buf ch) as [v|] eqn:Hb; [destruct sendErr as [e|]|destruct (Store.closed ch)];
    apply (linkOk_step _ _ _ _ _ Hstep);
    pose proof (session_after _ _ _ _ _ Hl Hstep) as Hs';
    [by apply (linkOk_returned w)| |by apply (linkOk_returned w)|].
  - rewrite Hsent in Hr, Hseen. rewrite Hsent, Hbuf in Ho.
    assert (sent w' (mkStream (Server.Serving id first) (final (link r)) (received (link r))) =
      (option_list first ++ Store.got ch) ++ [v]) as Hsent'.
    { unfold sent, Server.delivered, Server.store_. simpl.
      by rewrite (receive_chan (Store.quotas w) id ch v Hch Hb), <- app_assoc. }
    constructor; cbn [link call final received seen process]; try done; rewrite ?Hsent'.
    + rewrite length_app. simpl. lia.
    + destruct Hseen as [before ->]. exists before.
      by rewrite (take_app_le (option_list first ++ Store.got ch)).
    + unfold buffered. simpl. rewrite (receive_chan (Store.quotas w) id ch v Hch Hb). simpl.
      by rewrite (drop_app_le (option_list first ++ Store.got ch)), app_nil_r.
  - apply (linkOk_same w); [|exact Hs'|done|by exists []; rewrite app_nil_r].
    destruct Hl. destruct r as [dp [p fin rcv] sn]. simpl in Hp. subst p. by constructor.
Qed.

Lemma linkOk_own w r a :
  linkOk w r → match a with Server.AOther _ => False | _ => True end →
  linkOk (Server.shared (Server.step (sessionOf w (call (link r))) a)) (stepped w r a).
Proof.
  intros Hl Ha.
  assert (∀ p, call (link r) = p → Server.step (sessionOf w p) a = sessionOf w p →
    linkOk (Server.shared (Server.step (sessionOf w (call (link r))) a)) (stepped w r a)) as Hidle.
  { intros p Hp Hstep. apply (linkOk_step _ w _ _ p); [by rewrite Hp|].
    destruct r as [dp [p' fin rcv] sn]. simpl in Hp. subst p'. destruct p; [exact Hl..|].
    destruct Hl. by constructor. }
  destruct (call (link r)) as [|id|id first|id e] eqn:Hp;
    destruct a as [ev| |sendErr|sendErr|err]; try done; try (by apply (Hidle _ eq_refl));
    rewrite <- Hp.
  - by apply linkOk_subscribe.
  - by eapply linkOk_initial.
  - by eapply linkOk_receive.
  - assert (Server.step (sessionOf w (call (link r))) (Server.ADone err) =
      Server.return_ w id (Server.Failed err)) as Hstep by (by rewrite Hp).
    apply (linkOk_step _ _ _ _ _ Hstep).
    pose proof (session_after _ _ _ _ _ Hl Hstep) as Hs'. by apply (linkOk_returned w).
Qed.

(** What a push leaves of the channel: what its consumer took meanwhile, if
    anything, and the new snapshot. *)
Lemma pushTo_got snap sch ch :
  ∃ taken, taken `sublist_of` option_list (Store.buf ch) ∧
    Store.got (Store.pushTo snap sch ch) = Store.got ch ++ taken ∧
    Store.buf (Store.pushTo snap sch ch) = Some snap ∧ (sch = (false, false) → taken = []).
Proof.
  exists (if sch.1 then option_list (Store.buf ch) else []).
  destruct ch as [[old|] c f g], sch as [[] []]; simpl; rewrite ?app_nil_r;
    (split_and!; [apply sublist_nil_l || done|done..]).
Qed.

(** The saver publishes. *)
Lemma linkOk_publish w r snap :
  linkOk w r → Store.saving w = None → linkOk (Store.apply w (Store.EStore snap)) r.
Proof.
  intros Hl Hnone. apply (linkOk_same w); [done| | |apply apply_published].
  - exact (Server.other_ok _ (Store.EStore snap) (link_session _ _ Hl) eq_refl).
  - apply apply_chan; [apply Hl|done|done].
Qed.

(** The saver pushes. *)
Lemma linkOk_push w r sch :
  linkOk w r → (∀ id, call (link r) = Server.Subscribed id → sch id = (false, false)) →
  linkOk (Store.apply w (Store.EPush sch)) r.
Proof.
  intros Hl Hidle. destruct w as [st h [snap|]]; [|exact Hl].
  pose proof Hl as [Hsess Hf Hr Hseen Hc Ho].
  set (w := Store.mkRun st h (Some snap)) in *. set (w' := Store.apply w (Store.EPush sch)).
  assert (Server.sessionOk (sessionOf w' (call (link r)))) as Hs'
    by exact (Server.other_ok _ (Store.EPush sch) Hsess eq_refl).
  assert (Store.published w = h ++ [snap] ∧ Store.published w' = h ++ [snap]) as [Hpub Hpub'].
  { split; [done|]. unfold Store.published. simpl. by rewrite app_nil_r. }
  destruct Hsess as (Hrun & Hs). simpl in Hrun. pose proof (Store.run_store _ Hrun) as Hok. simpl in Hok.
  destruct (Store.push_spec st snap sch Hok) as (_ & _ & _ & _ & Hpush).
  assert (chan w' (call (link r)) = chan w (call (link r)) → linkOk w' r) as Hsame.
  { intros Hch. apply (linkOk_same w); [done|done|done|]. exists []. by rewrite app_nil_r, Hpub, Hpub'. }
  destruct (call (link r)) as [|id|id first|id err] eqn:Hp; [by apply Hsame| | |by apply Hsame];
    simpl in Hs; unfold Server.store_ in Hs; simpl in Hs.
  - destruct Hs as [[ch Hch] Hin]. destruct Hf as [Hfin Hgot]. simpl in Hgot. specialize (Hgot ch Hch).
    destruct (pushTo_got snap (sch id) ch) as (taken & _ & Hgot' & Hbuf' & Hnone).
    rewrite (Hnone (Hidle id eq_refl)), Hgot in Hgot'.
    assert (Store.channels (Store.quotas w') !! id = Some (Store.pushTo snap (sch id) ch)) as Hch'
      by (unfold w'; simpl; by rewrite Hpush, Hch).
    constructor; rewrite ?Hp; unfold sent, buffered in *; rewrite ?Hp in *; try done.
    + split; [done|]. cbn [chan]. rewrite Hch'. by intros ? [= <-].
    + cbn [chan]. rewrite Hch', Hpub'. simpl. rewrite Hbuf', app_assoc. rewrite Hpub in Ho.
      apply inOrder_last; [apply last_snoc|].
      eapply inOrder_sublist; [|exact Ho]. apply sublist_app; [done|]. by apply sublist_inserts_r.
  - destruct Hs as [[[ch Hch] _] Hin]. simpl in Hch.
    destruct (pushTo_got snap (sch id) ch) as (taken & Htaken & Hgot' & Hbuf' & _).
    assert (Store.channels (Store.quotas w') !! id = Some (Store.pushTo snap (sch id) ch)) as Hch'
      by (unfold w'; simpl; by rewrite Hpush, Hch).
    assert (sent w (link r) = option_list first ++ Store.got ch) as Hsent.
    { rewrite (sent_Serving w (link r) id first Hp), Hp. simpl. by rewrite Hch. }
    assert (sent w' (link r) = (option_list first ++ Store.got ch) ++ taken) as Hsent'.
    { rewrite (sent_Serving _ (link r) id first Hp), Hp. cbn [chan].
      rewrite Hch'. simpl. by rewrite Hgot', app_assoc. }
    assert (buffered w (link r) = option_list (Store.buf ch)) as Hbuf.
    { unfold buffered. rewrite Hp. cbn [chan]. simpl. by rewrite Hch. }
    assert (buffered w' (link r) = [snap]) as Hbuf1.
    { unfold buffered. rewrite Hp. cbn [chan]. rewrite Hch'. simpl. by rewrite Hbuf'. }
    rewrite Hsent in Hr, Hseen. rewrite Hsent, Hbuf, Hpub in Ho.
    constructor; rewrite ?Hp, ?Hsent', ?Hbuf1, ?Hpub'; try done.
    + rewrite length_app. lia.
    + destruct Hseen as [before ->]. exists before.
      by rewrite (take_app_le (option_list first ++ Store.got ch)).
    + rewrite (drop_app_le (option_list first ++ Store.got ch)) by done.
      rewrite !app_assoc. apply inOrder_last; [apply last_snoc|]. eapply inOrder_sublist; [|exact Ho].
      rewrite <- !app_assoc. by repeat (apply sublist_app; [done|]).
Qed.

(** ** The invariant *)

(** Every replica that the tracker knows is one of the fleet. *)
Definition knownClients (s : system) : Prop :=
  ∀ id, is_Some (Shares.replicas (ControlPlane.shares (control s)) !! id) →
    ∃ name r, fleet s !! name = Some r ∧ id = trim_space (DataPlane.clientID (process r)).

Definition inRange (dp : DataPlane.DataPlane) : Prop :=
  DataPlane.wired dp ∧
  ∃ l, Cascade.limiter (DataPlane.engine dp) = Some l ∧ Limiter.limiterOk l.

Record systemOk (s : system) : Prop := {
  sys_run : Store.runOk (runOf s);
  sys_wired : ControlPlane.wired (control s);
  sys_links : map_Forall (λ _ r, linkOk (runOf s) r) (fleet s);
  sys_calls n1 n2 r1 r2 id :
    fleet s !! n1 = Some r1 → fleet s !! n2 = Some r2 → n1 ≠ n2 →
    callId (call (link r1)) = Some id → callId (call (link r2)) ≠ Some id;
  sys_limiters : map_Forall (λ _ r, inRange (process r)) (fleet s);
  sys_tracker : trackerOk (ControlPlane.shares (control s));
  sys_clients : knownClients s;
  sys_size : Z.of_nat (size (fleet s)) < maxEntries
}.

(** What happens to one replica alone. *)
Lemma systemOk_replica s name r r' :
  systemOk s → fleet s !! name = Some r →
  callId (call (link r')) = callId (call (link r)) ∨ callId (call (link r')) = None →
  linkOk (runOf s) r' → inRange (process r') →
  DataPlane.clientID (process r') = DataPlane.clientID (process r) →
  systemOk (withReplica s name r').
Proof.
  intros [Hrun Hw Hlinks Hcalls Hlim Htr Hcl Hsize] Hr Hid Hl Hin Hclient.
  constructor; cbn [withReplica control fleet saved]; try done.
  - by apply map_Forall_insert_2.
  - intros n1 n2 r1 r2 id Hf1 Hf2 Hne Hc1 Hc2.
    destruct (decide (name = n1)) as [<-|], (decide (name = n2)) as [<-|]; [done| | |].
    + rewrite lookup_insert_eq in Hf1. rewrite lookup_insert_ne in Hf2 by done. injection Hf1 as <-.
      destruct Hid as [Hid|Hid]; rewrite Hid in Hc1; [|done]. by apply (Hcalls name n2 r r2 id).
    + rewrite lookup_insert_eq in Hf2. rewrite lookup_insert_ne in Hf1 by done. injection Hf2 as <-.
      destruct Hid as [Hid|Hid]; rewrite Hid in Hc2; [|done]. by apply (Hcalls n1 name r1 r id).
    + rewrite lookup_insert_ne in Hf1, Hf2 by done. by apply (Hcalls n1 n2 r1 r2 id).
  - by apply map_Forall_insert_2.
  - intros id Hk. destruct (Hcl id Hk) as (n & rn & Hn & ->). cbn [withReplica fleet].
    destruct (decide (name = n)) as [<-|Hne].
    + exists name, r'. rewrite lookup_insert_eq. split; [done|]. rewrite Hclient. congruence.
    + exists n, rn. by rewrite lookup_insert_ne.
  - rewrite map_size_insert, Hr. simpl. lia.
Qed.

(** ** The saver *)

(** What the reconciler writes is in the store that the server reads. *)
Lemma store_written cp st fl h pending :
  ControlPlane.wired cp →
  runOf (mkSystem (ControlPlane.writeStore cp (ControlPlane.reconcilerStore cp) st) fl h pending) =
    Store.mkRun st h pending.
Proof.
  intros [Heq _]. unfold runOf, store, ControlPlane.store. cbn [control saved saving].
  cbn [ControlPlane.writeStore ControlPlane.serverStore]. rewrite <- Heq.
  fold (ControlPlane.writeStore cp (ControlPlane.reconcilerStore cp) st). by rewrite ControlPlane.storeAt_write.
Qed.

Lemma runOf_store s :
  ControlPlane.wired (control s) →
  ControlPlane.storeAt (control s) (ControlPlane.reconcilerStore (control s)) = store s.
Proof. intros [Heq _]. unfold store, ControlPlane.store. by rewrite Heq. Qed.

(** A step of the saver, which touches the control plane's store only. *)
Lemma systemOk_saver s st h pending e :
  systemOk s → Store.apply (runOf s) e = Store.mkRun st h pending →
  (∀ r, linkOk (runOf s) r → (∃ name, fleet s !! name = Some r) → linkOk (Store.mkRun st h pending) r) →
  systemOk (mkSystem (ControlPlane.writeStore (control s) (ControlPlane.reconcilerStore (control s)) st)
    (fleet s) h pending).
Proof.
  intros [Hrun Hw Hlinks Hcalls Hlim Htr Hcl Hsize] He Hl.
  constructor; rewrite ?store_written by done; cbn [control fleet]; try done.
  - rewrite <- He. by apply Store.apply_ok.
  - by apply ControlPlane.writeStore_wired.
  - intros name r Hr. apply Hl; [by apply (Hlinks name)|by exists name].
Qed.

Lemma poll_ok s client order syncedAt : systemOk s → systemOk (exec s (LPoll client order syncedAt)).
Proof.
  intros Hs. cbn [exec]. unfold execPoll. destruct (saving s) eqn:Hnone; [done|].
  destruct (Reconciler.snapshotOf _ _ _) as [[snap|e]|]; try done. unfold ControlPlane.publish.
  rewrite runOf_store by apply Hs.
  assert (Store.apply (runOf s) (Store.EStore snap) =
    Store.mkRun (Store.saveStore (store s) snap) (saved s) (Some snap)) as He.
  { unfold runOf. rewrite Hnone. reflexivity. }
  apply (systemOk_saver s _ _ _ _ Hs He). intros r Hr _. rewrite <- He. by apply linkOk_publish.
Qed.

Lemma push_ok s sch : systemOk s → enabled s (LPush sch) → systemOk (exec s (LPush sch)).
Proof.
  intros Hs Hen. cbn [exec]. unfold execPush. destruct (saving s) as [snap|] eqn:Hsome; [|done].
  unfold ControlPlane.push. rewrite runOf_store by apply Hs.
  assert (Store.apply (runOf s) (Store.EPush sch) =
    Store.mkRun (Store.savePush (store s) snap (Store.visits (store s) sch)) (saved s ++ [snap]) None) as He.
  { unfold runOf. rewrite Hsome. reflexivity. }
  apply (systemOk_saver s _ _ _ _ Hs He). intros r Hr [name Hname]. rewrite <- He.
  apply linkOk_push; [done|]. intros id Hid. by apply (Hen name r).
Qed.

(** ** Streams *)

(** A call's own step is one of the store's runs. *)
Lemma runOf_stream s name r a :
  match a with Server.AOther _ => False | _ => True end →
  runOf (execStream s name r a) = Server.shared (Server.step (sessionOf (runOf s) (call (link r))) a).
Proof.
  intros Ha. destruct (step_events (sessionOf (runOf s) (call (link r))) a Ha) as [(es & Hes & Hown) _].
  destruct (events_kept _ (runOf s) es Hown) as [Hsaved Hsaving].
  unfold execStream, runOf at 1, store, ControlPlane.store, ControlPlane.withStore.
  cbn [control saved saving ControlPlane.writeStore ControlPlane.serverStore].
  rewrite ControlPlane.storeAt_write. unfold Server.store_.
  cbn [sessionOf Server.shared] in Hes. rewrite <- Hes in Hsaved, Hsaving.
  destruct (Server.shared _) as [st h pending]. cbn [Store.quotas Store.saved Store.saving runOf] in *. by subst.
Qed.

Lemma stream_ok s name a :
  systemOk s → enabled s (LStream name a) → systemOk (exec s (LStream name a)).
Proof.
  intros Hs Ha. cbn [exec enabled] in *. destruct (fleet s !! name) as [r|] eqn:Hr; [|done]. simpl.
  destruct Hs as [Hrun Hw Hlinks Hcalls Hlim Htr Hcl Hsize].
  pose proof (Hlinks name r Hr) as Hl.
  destruct (step_events (sessionOf (runOf s) (call (link r))) a Ha) as [(es & Hes & Hown) Hid].
  pose proof (linkOk_own (runOf s) r a Hl Ha) as Hl'.
  pose proof (runOf_stream s name r a Ha) as Hrun'.
  assert (fleet (execStream s name r a) = <[name := stepped (runOf s) r a]> (fleet s)) as Hfleet by done.
  set (se := Server.step (sessionOf (runOf s) (call (link r))) a) in *.
  cbn [sessionOf Server.shared Server.call] in Hes, Hown, Hid.
  pose proof (link_session _ _ Hl') as [Hok' _]. cbn [sessionOf Server.shared] in Hok'.
  constructor; rewrite ?Hrun', ?Hfleet; try done.
  - by apply ControlPlane.writeStore_wired.
  - intros n rn. destruct (decide (name = n)) as [<-|Hne].
    + rewrite lookup_insert_eq. intros [= <-]. exact Hl'.
    + rewrite lookup_insert_ne by done. intros Hn. rewrite Hes.
      apply (link_others _ _ (call (link r))); [by apply (Hlinks n)|done|].
      intros id Hc. by apply (Hcalls name n r rn id).
  - intros n1 n2 r1 r2 id Hf1 Hf2 Hne Hc1 Hc2.
    assert (∀ n rn, fleet s !! n = Some rn → n ≠ name → callId (call (link rn)) = Some id →
      callId (Server.call se) ≠ Some id) as Hother.
    { intros n rn Hn Hnn Hc Hse. destruct Hid as [Hid|[_ Hid]]; rewrite Hid in Hse.
      - by apply (Hcalls n name rn r id).
      - injection Hse as <-. apply (is_fresh (dom (Store.channels (store s)))).
        apply elem_of_dom. destruct (link_session _ _ (Hlinks n rn Hn)) as (_ & Hch).
        destruct (call (link rn)); simplify_eq/=; apply Hch. }
    destruct (decide (name = n1)) as [<-|Hn1], (decide (name = n2)) as [<-|Hn2]; [done| | |];
      rewrite ?lookup_insert_eq, ?lookup_insert_ne in Hf1 by done;
      rewrite ?lookup_insert_eq, ?lookup_insert_ne in Hf2 by done.
    + injection Hf1 as <-. by apply (Hother n2 r2).
    + injection Hf2 as <-. by apply (Hother n1 r1).
    + by apply (Hcalls n1 n2 r1 r2 id).
  - apply map_Forall_insert_2; [exact (Hlim name r Hr)|done].
  - intros id Hk. destruct (Hcl id Hk) as (n & rn & Hn & ->). rewrite Hfleet.
    destruct (decide (name = n)) as [<-|Hne].
    + exists name, (stepped (runOf s) r a). rewrite lookup_insert_eq. split; [done|].
      assert (r = rn) as -> by congruence. done.
    + exists n, rn. by rewrite lookup_insert_ne.
  - rewrite map_size_insert, Hr. simpl. lia.
Qed.

(** ** Replicas *)

Lemma linkOk_process w r dp :
  linkOk w r → DataPlane.cache dp = DataPlane.cache (process r) →
  linkOk w (mkReplica dp (link r) (seen r)).
Proof. intros [] Hc. constructor; try done. cbn [process seen]. by rewrite Hc. Qed.

Lemma linkOk_call w r :
  linkOk w r → linkOk w (mkReplica (process r) newStream (seen r)).
Proof.
  intros [(Hrun & _) _ _ _ Hc Ho]. constructor; try done.
  - exists (seen r). by rewrite app_nil_r.
  - eapply inOrder_sublist; [|exact Ho]. apply sublist_app; [done|apply sublist_nil_l].
Qed.

Lemma linkOk_arrives w r snap :
  linkOk w r → DataPlane.wired (process r) → sent w (link r) !! received (link r) = Some snap →
  linkOk w (mkReplica (DataPlane.setSnapshot (process r) snap)
    (mkStream (call (link r)) (final (link r)) (S (received (link r)))) (seen r ++ [snap])).
Proof.
  intros [Hs Hf Hr Hseen Hc Ho] Hw Hsnap.
  assert (sent w (mkStream (call (link r)) (final (link r)) (S (received (link r)))) = sent w (link r))
    as Hsent by done.
  destruct (DataPlane.wired_set (process r) snap Hw) as (_ & Hset & _).
  constructor; cbn [link call received seen final process]; rewrite ?Hsent; try done.
  - by apply lookup_lt_Some in Hsnap.
  - destruct Hseen as [before ->]. exists before. by rewrite (take_S_r _ _ snap), app_assoc.
  - rewrite Hset. by rewrite last_snoc.
  - rewrite <- app_assoc. by rewrite (drop_S _ snap _ Hsnap) in Ho.
Qed.

Lemma set_inRange dp snap : inRange dp → inRange (DataPlane.setSnapshot dp snap).
Proof.
  intros [Hw Hl]. destruct (DataPlane.wired_set dp snap Hw) as (Hw' & _ & He). split; [done|].
  by rewrite He.
Qed.

(** An evaluation keeps the limiter's invariant. *)
Lemma Evaluate_inRange e headers l :
  Cascade.limiter (Evaluator.engine e) = Some l → Limiter.limiterOk l →
  ∃ l', Cascade.limiter (Evaluator.engine (Evaluator.Evaluate e headers).2) = Some l' ∧
    Limiter.limiterOk l'.
Proof.
  intros Hl Hok. unfold Evaluator.Evaluate. destruct (Router.Parse _ _) as [err|info]; [by exists l|].
  pose proof (Cascade.Decide_ok (Evaluator.engine e) (Cache.Get (Evaluator.cache e))
    (Evaluator.requestOf e headers info)) as Hd.
  pose proof (Cascade.Decide_limiter (Evaluator.engine e) (Cache.Get (Evaluator.cache e))
    (Evaluator.requestOf e headers info)) as Hsome.
  destruct (Cascade.Decide _ _ _) as [d ce]. cbn [snd Evaluator.withEngine Evaluator.engine] in *.
  destruct Hsome as [l' Hl']; [by exists l|]. exists l'. split; [done|].
  apply Hd; [|apply Evaluator.EstimateTokens_le|done]. intros l0 Hl0. congruence.
Qed.

Lemma answer_inRange s req l :
  Cascade.limiter (Evaluator.engine (ExtProc.evaluator s)) = Some l → Limiter.limiterOk l →
  ∃ l', Cascade.limiter (Evaluator.engine (ExtProc.evaluator (ExtProc.answer s req).2)) = Some l' ∧
    Limiter.limiterOk l'.
Proof.
  intros Hl Hok. destruct req as [h| | | | | |]; cbn [ExtProc.answer]; try (by exists l).
  unfold ExtProc.handleRequestHeaders.
  destruct (Evaluate_inRange (ExtProc.evaluator s) (ExtProc.headerMap h) l Hl Hok) as (l' & Hl' & Hok').
  destruct (Evaluator.Evaluate _ _) as [res e]. exists l'. by destruct (Evaluator.Shed res).
Qed.

Lemma process_inRange dp req :
  inRange dp → inRange (DataPlane.process dp req).2 ∧
  DataPlane.cache (DataPlane.process dp req).2 = DataPlane.cache dp ∧
  DataPlane.clientID (DataPlane.process dp req).2 = DataPlane.clientID dp.
Proof.
  intros (Hw & l & Hl & Hok). unfold DataPlane.process.
  destruct (answer_inRange (ExtProc.NewExtProcServer (DataPlane.evaluator dp)) req l Hl Hok)
    as (l' & Hl' & Hok').
  destruct (ExtProc.answer _ _) as [resp s]. cbn [snd] in *.
  destruct (DataPlane.wired_evaluated dp (ExtProc.evaluator s) Hw) as (Hw' & Hc & He); [by exists l'|].
  split; [split; [done|]; exists l'; by rewrite He|done].
Qed.

Lemma reported_inRange dp t :
  inRange dp → (∀ shares, Reporter.response t = Ok shares → Forall Limiter.shareOk shares) →
  let dp' := DataPlane.reported dp (Reporter.ReportOnce (DataPlane.reporter dp) t).2 in
  inRange dp' ∧ DataPlane.cache dp' = DataPlane.cache dp ∧ DataPlane.clientID dp' = DataPlane.clientID dp.
Proof.
  intros (Hw & l & Hl & Hok) Ht.
  assert (Reporter.limiter (DataPlane.reporter dp) = Some l) as Hrl.
  { destruct (DataPlane.wired_views dp Hw) as [-> _]. exact Hl. }
  destruct (Reporter.ReportOnce_ok (DataPlane.reporter dp) l t Hrl Hok Ht) as (l' & Hl' & Hok').
  destruct (DataPlane.wired_reported dp (Reporter.ReportOnce (DataPlane.reporter dp) t).2 Hw)
    as (Hw' & Hc & He & Hid); [by exists l'|].
  split; [split; [done|]; exists l'; by rewrite He|done].
Qed.

(** ** Reports *)

Lemma size_list_to_set_le (l : list string) : (size (list_to_set l : gset string) ≤ length l)%nat.
Proof.
  induction l as [|x l IH]; [done|]. cbn [list_to_set length]. rewrite size_union_alt, size_singleton.
  assert (size (list_to_set l ∖ {[x]} : gset string) ≤ size (list_to_set l : gset string))%nat
    by (apply subseteq_size; set_solver). lia.
Qed.

Lemma clients_size s :
  knownClients s →
  (size (Shares.replicas (ControlPlane.shares (control s))) ≤ size (fleet s))%nat.
Proof.
  intros Hcl. set (names := (λ e, trim_space (DataPlane.clientID (process e.2))) <$> map_to_list (fleet s)).
  assert (length names = size (fleet s)) as <- by (unfold names; by rewrite length_fmap, length_map_to_list).
  etrans; [|apply size_list_to_set_le]. rewrite <- size_dom. apply subseteq_size.
  intros id [rd Hid]%elem_of_dom. destruct (Hcl id) as (name & r & Hr & ->); [by exists rd|].
  apply elem_of_list_to_set, list_elem_of_fmap. exists (name, r). by rewrite elem_of_map_to_list.
Qed.

(** Only the caller can be new among the replicas that the tracker knows. *)
Lemma Report_clients t clientID demand now visit id :
  is_Some (Shares.replicas (Shares.Report t clientID demand now visit).2 !! id) →
  id = trim_space clientID ∨ is_Some (Shares.replicas t !! id).
Proof.
  unfold Shares.Report. destruct (String.eqb _ ""); [by right|].
  destruct (match Shares.expire _ _ _ !! _ with Some r => _ | None => _ end) as [r ok].
  destruct (foldl Shares.addDemand (∅, ∅) demand). cbn [snd Shares.replicas Shares.withReplicas].
  destruct (decide (trim_space clientID = id)) as [<-|Hne]; [by left|].
  rewrite lookup_insert_ne by done. intros [rd Hid]. right.
  unfold Shares.expire in Hid. apply map_lookup_filter_Some in Hid as [Hid _]. by exists rd.
Qed.

Lemma report_ok s name drain reset now visit lost :
  systemOk s → enabled s (LReport name drain reset now visit lost) →
  systemOk (exec s (LReport name drain reset now visit lost)).
Proof.
  intros Hs [Hdrain Horders]. cbn [exec]. destruct (fleet s !! name) as [r|] eqn:Hr; [|done]. simpl.
  specialize (Horders r eq_refl). pose proof (clients_size s (sys_clients s Hs)) as Hclients.
  pose proof (sys_size s Hs) as Hsize.
  destruct (sys_limiters s Hs name r Hr) as (Hwp & l & Hl & Hok).
  assert (Reporter.limiter (DataPlane.reporter (process r)) = Some l) as Hrl.
  { destruct (DataPlane.wired_views _ Hwp) as [-> _]. exact Hl. }
  set (req := requestOf (DataPlane.reporter (process r)) drain) in *.
  destruct (requestOf_entries (DataPlane.reporter (process r)) drain l Hrl Hok) as [Hentries Hlen].
  fold req in Hentries, Hlen.
  assert (possible (control s) req ((now, visit) : circumstances (S := ControlPlane.ControlPlane)))
    as Hpossible by (split_and!; [done|lia|lia|done]).
  pose proof (report_sound (control s) req (now, visit) (sys_tracker s Hs) Hpossible) as [Hsound Hshares].
  unfold execReport, roundTrip. fold req. cbn [reportUsage ControlPlane_service fst snd] in *.
  pose proof (reportUsage_shares (control s) req now visit) as Hsh.
  pose proof (ControlPlane.reportUsage_keeps (control s) req now visit) as (Hst & Hsp & Hrp).
  destruct (ControlPlane.reportUsage (control s) req now visit) as [resp cp]. cbn [fst snd] in *.
  set (t := Reporter.mkTick drain reset (responseOf resp lost)).
  destruct (reported_inRange (process r) t) as (Hin & Hcache & Hid).
  { split; [done|]. by exists l. }
  { intros shares Hresp. destruct lost, resp; simplify_eq/=. by apply Hshares. }
  set (r' := mkReplica _ (link r) (seen r)) in |- *.
  assert (systemOk (withReplica s name r')) as Hs'.
  { apply (systemOk_replica s name r); try done; [by left|].
    apply linkOk_process; [by apply (sys_links s Hs name)|done]. }
  assert (ControlPlane.store cp = store s) as Hstore.
  { unfold store, ControlPlane.store, ControlPlane.storeAt. by rewrite Hst, Hsp. }
  destruct Hs' as [Hrun Hw Hlinks Hcalls Hlim Htr Hcl Hsz].
  unfold runOf, store, knownClients, ControlPlane.wired in *. cbn [withReplica control fleet saved saving] in *.
  constructor; unfold runOf, store, knownClients, ControlPlane.wired; cbn [control fleet saved saving];
    rewrite ?Hstore, ?Hst, ?Hsp, ?Hrp; try done.
  intros id Hk. rewrite Hsh in Hk. apply Report_clients in Hk as [->|Hk]; [|by apply Hcl].
  exists name, r'. rewrite lookup_insert_eq. split; [done|]. unfold r'. cbn [process]. rewrite Hid. done.
Qed.

(** ** Every step *)

Lemma exec_ok s s' : systemOk s → step s s' → systemOk s'.
Proof.
  intros Hs (l & Hen & ->). destruct l as [client order syncedAt|sch|name a|name|name
    |name drain reset now visit lost|name drain reset err|name req].
  - by apply poll_ok.
  - by apply push_ok.
  - by apply stream_ok.
  - cbn [exec]. destruct (fleet s !! name) as [r|] eqn:Hr; [|done]. simpl. unfold execCall.
    destruct (call (link r)); try done.
    apply (systemOk_replica s name r); try done; [by right| |exact (sys_limiters s Hs name r Hr)].
    apply linkOk_call. by apply (sys_links s Hs name).
  - cbn [exec]. destruct (fleet s !! name) as [r|] eqn:Hr; [|done]. simpl. unfold execReceive.
    destruct (sent _ _ !! _) as [snap|] eqn:Hsnap; [|done].
    pose proof (sys_limiters s Hs name r Hr) as Hin.
    apply (systemOk_replica s name r); [done|done|by left| |by apply set_inRange|done].
    apply linkOk_arrives; [by apply (sys_links s Hs name)|apply Hin|done].
  - by apply report_ok.
  - cbn [exec]. destruct (fleet s !! name) as [r|] eqn:Hr; [|done]. simpl.
    destruct (reported_inRange (process r) (Reporter.mkTick drain reset (Err err))) as (Hin & Hc & Hid);
      [by apply (sys_limiters s Hs name)|done|].
    unfold DataPlane.report. destruct (Reporter.ReportOnce _ _) as [m r'].
    apply (systemOk_replica s name r); [done|done|by left| |done|done].
    apply linkOk_process; [by apply (sys_links s Hs name)|done].
  - cbn [exec]. destruct (fleet s !! name) as [r|] eqn:Hr; [|done]. simpl.
    destruct (process_inRange (process r) req) as (Hin & Hc & Hid); [exact (sys_limiters s Hs name r Hr)|].
    apply (systemOk_replica s name r); [done|done|by left| |done|done].
    apply linkOk_process; [by apply (sys_links s Hs name)|done].
Qed.

(** A control plane whose goroutine has not polled yet. *)
Lemma main_fresh `{Transport.TLSFiles} f w p now cp creds :
  ControlPlane.main f w p now [] = ControlPlane.Serving cp creds →
  ControlPlane.wired cp ∧ ControlPlane.store cp = Store.NewInMemoryStore ∧
  ControlPlane.shares cp = Shares.NewShareTracker.
Proof.
  intros (cp0 & Hsetup & _ & Hstart & _)%ControlPlane.main_serves.
  destruct (ControlPlane.setup_Ok f w cp0 Hsetup) as (_ & Hw & Hstore & Hshares & _).
  unfold ControlPlane.startReconciler in Hstart. simpl in Hstart. injection Hstart as <-.
  pose proof Hw as [Heq Hs]. rewrite ControlPlane.writeStore_same by (by rewrite Heq). done.
Qed.

Lemma started_ok `{Transport.TLSFiles} s : started s → systemOk s.
Proof.
  intros [(f & w & p & now & creds & Hmain) Hfleet Hsize [Hsaved Hsaving]].
  destruct (main_fresh f w p now (control s) creds Hmain) as (Hw & Hstore & Hshares).
  assert (runOf s = Store.newRun) as Hst by (unfold runOf, store; by rewrite Hstore, Hsaved, Hsaving).
  assert (∀ name r, fleet s !! name = Some r → inRange (process r) ∧ link r = newStream ∧ seen r = [] ∧
    DataPlane.cache (process r) = Cache.NewSnapshotCache) as Hreplica.
  { intros name r Hr. destruct (Hfleet name r Hr) as (f' & w' & creds' & Hserve & Hm & Hlink & Hseen).
    apply DataPlane.serves_wired in Hserve as (dp0 & Hwire & Hdp).
    destruct (DataPlane.wire_engineOk f' w' dp0 creds' Hwire Hm) as (l & Hl & Hok).
    destruct (DataPlane.wire_Ok f' w' dp0 creds' Hwire) as (cfg & ce & _ & _ & _ & _ & Hwd & Hc & _).
    destruct (DataPlane.goroutines_ok dp0 [] [] Hwd) as (Hwd' & Hc' & Hl' & _).
    rewrite Hdp. split; [|by rewrite Hc', Hc]. split; [exact Hwd'|].
    exists l. split; [|done]. rewrite Hl'. destruct (DataPlane.wired_views dp0 Hwd) as [Hsh _].
    unfold Reporter.Run. rewrite Hsh. cbn [DataPlane.evaluator Evaluator.engine]. rewrite Hl. simpl.
    cbn [DataPlane.evaluator Evaluator.engine] in Hsh. exact (eq_trans Hsh Hl). }
  constructor; rewrite ?Hst; try done.
  - intros name r Hr. destruct (Hreplica name r Hr) as (_ & Hlink & Hseen & Hc).
    constructor; rewrite ?Hlink, ?Hseen; try done.
    + by exists [].
    + by rewrite Hc.
    + apply inOrder_nil.
  - intros n1 n2 r1 r2 id Hr1 _ _ Hid. destruct (Hreplica n1 r1 Hr1) as (_ & Hlink & _).
    by rewrite Hlink in Hid.
  - intros name r Hr. by destruct (Hreplica name r Hr).
  - rewrite Hshares. apply NewShareTracker_ok.
  - intros id [rd Hid]. by rewrite Hshares in Hid.
Qed.

Lemma steps_ok s s' : systemOk s → rtc step s s' → systemOk s'.
Proof. intros Hs Hsteps. induction Hsteps as [|s s1 s' Hstep _ IH]; [done|]. by eapply IH, exec_ok. Qed.

(** What two programs that have started can come to. *)
Definition reachable `{Transport.TLSFiles} (s : system) : Prop := ∃ s0, started s0 ∧ rtc step s0 s.

Lemma reachable_ok `{Transport.TLSFiles} s : reachable s → systemOk s.
Proof. intros (s0 & Hs0 & Hsteps). eapply steps_ok; [|exact Hsteps]. by apply started_ok. Qed.

(** ** Catching up *)

(** The last snapshot has arrived when nothing is under way. *)
Lemma quiescent s name r id first :
  systemOk s → saving s = None → fleet s !! name = Some r → call (link r) = Server.Serving id first →
  buffered (runOf s) (link r) = [] → received (link r) = length (sent (runOf s) (link r)) →
  Cache.Get (DataPlane.cache (process r)) = last (saved s).
Proof.
  intros Hs Hnone Hr Hcall Hbuf Hrcv. destruct (sys_links s Hs name r Hr) as [Hsess _ _ Hseen Hc Ho].
  assert (last (sent (runOf s) (link r)) = last (saved s)) as Hlast.
  { unfold sent. rewrite Hcall. rewrite Hcall in Hsess.
    destruct (Server.caught_up _ id first Hsess eq_refl) as [Hl|[[? Hsome] _]]; [|exact Hl|].
    - unfold buffered in Hbuf. rewrite Hcall in Hbuf. cbn [chan] in Hbuf. unfold Server.store_.
      cbn [sessionOf Server.shared]. by destruct (_ ≫= Store.buf).
    - cbn [sessionOf Server.shared runOf Store.saving] in Hsome. congruence. }
  unfold Cache.Get. rewrite Hc. destruct Hseen as [before Hseen].
  rewrite Hrcv, firstn_all in Hseen. destruct (last (saved s)) as [snap|] eqn:Hsaved.
  - by rewrite Hseen, last_app, Hlast.
  - apply last_None in Hsaved. destruct (last (seen r)) as [snap|] eqn:Hsn; [|done].
    apply last_Some_elem_of in Hsn. exfalso. unfold runOf, Store.published in Ho.
    cbn [Store.saved Store.saving] in Ho. rewrite Hsaved, Hnone in Ho.
    apply (not_elem_of_nil snap), (inOrder_elem _ _ _ Ho), elem_of_app. by left.
Qed.

(** What only [name]'s stream does when nothing fails: its call's own steps, calling
    again, and the arrival of what was sent. *)
Definition forwarding (name : string) : list label :=
  [LCall name; LStream name Server.ASubscribe; LStream name (Server.AInitial None);
   LStream name (Server.AReceive None); LReceive name].

(** Whether there is something to do for the step: the call is where it happens, and
    for a receive something is there. *)
Definition ready (s : system) (r : replica) (l : label) : Prop :=
  match l, call (link r) with
  | LCall _, Server.Returned _ _ => True
  | LStream _ Server.ASubscribe, Server.Starting => True
  | LStream _ (Server.AInitial _), Server.Subscribed _ => True
  | LStream _ (Server.AReceive _), Server.Serving id _ =>
      ∃ ch, Store.channels (store s) !! id = Some ch ∧ (is_Some (Store.buf ch) ∨ Store.closed ch = true)
  | LReceive _, _ => (received (link r) < length (sent (runOf s) (link r)))%nat
  | _, _ => False
  end.

Definition forwards (name : string) (s s' : system) : Prop :=
  ∃ r l, fleet s !! name = Some r ∧ l ∈ forwarding name ∧ ready s r l ∧ s' = exec s l.

(** What is left to do: for the call to get to its loop, for its channel, and for the
    link. *)
Definition toLoop (p : Server.phase) : nat :=
  match p with
  | Server.Returned _ _ => 4
  | Server.Starting => 3
  | Server.Subscribed _ => 2
  | Server.Serving _ _ => 0
  end.

Definition undelivered (w : Store.run) (k : stream) : nat := length (sent w k) - received k.

Definition work (w : Store.run) (k : stream) : nat :=
  toLoop (call k) + 2 * length (buffered w k) + undelivered w k.

Lemma work_subscribe w r :
  linkOk w r → call (link r) = Server.Starting →
  (work (Server.shared (Server.step (sessionOf w (call (link r))) Server.ASubscribe))
     (link (stepped w r Server.ASubscribe)) < work w (link r))%nat.
Proof.
  intros Hl Hp. pose proof (link_fresh _ _ Hl) as Hf. destruct r as [dp [p fin rcv] sn].
  unfold stepped. cbn [link call] in *. subst p. destruct Hf as [Hfin _]. cbn [final] in Hfin. subst fin.
  unfold work, undelivered, buffered. simpl. rewrite lookup_insert_eq. simpl. lia.
Qed.

Lemma work_initial w r id :
  linkOk w r → call (link r) = Server.Subscribed id →
  (work (Server.shared (Server.step (sessionOf w (call (link r))) (Server.AInitial None)))
     (link (stepped w r (Server.AInitial None))) < work w (link r))%nat.
Proof.
  intros Hl Hp. pose proof (link_fresh _ _ Hl) as Hf. pose proof (link_session _ _ Hl) as [_ Hs].
  destruct r as [dp [p fin rcv] sn]. unfold stepped. cbn [link call] in *. subst p.
  destruct Hf as [Hfin Hgot]. cbn [final chan] in Hfin, Hgot. subst fin.
  cbn [sessionOf Server.call] in Hs. destruct Hs as [[ch Hch] _]. unfold Server.store_ in Hch.
  cbn [sessionOf Server.shared] in Hch. specialize (Hgot ch Hch).
  cbn. unfold Store.Get. destruct (Store.snapshot (Store.quotas w)) as [snap|];
    unfold work, undelivered, buffered, sent, Server.delivered, Server.store_; simpl; rewrite Hch; simpl;
    rewrite Hgot; simpl; lia.
Qed.

Lemma work_receive w r id first v ch :
  linkOk w r → call (link r) = Server.Serving id first →
  Store.channels (Store.quotas w) !! id = Some ch → Store.buf ch = Some v →
  call (link (stepped w r (Server.AReceive None))) = Server.Serving id first ∧
  (work (Server.shared (Server.step (sessionOf w (call (link r))) (Server.AReceive None)))
     (link (stepped w r (Server.AReceive None))) < work w (link r))%nat.
Proof.
  intros Hl Hp Hch Hb. destruct r as [dp [p fin rcv] sn]. unfold stepped.
  pose proof (link_received _ _ Hl) as Hr. cbn [link call received] in *. subst p.
  assert (Server.step (sessionOf w (Server.Serving id first)) (Server.AReceive None) =
    Server.mkSession (Store.withQuotas w (Store.receive (Store.quotas w) id)) (Server.Serving id first))
    as Hstep by (cbn; by rewrite Hch, Hb).
  rewrite Hstep. split; [done|]. revert Hr.
  unfold work, undelivered, buffered, sent, Server.delivered, Server.store_.
  cbn [Server.shared Server.call call chan received toLoop link sessionOf].
  cbn [Store.withQuotas Store.quotas]. rewrite (receive_chan (Store.quotas w) id ch v Hch Hb), Hch. simpl.
  rewrite Hb, !length_app. simpl. lia.
Qed.

(** Less is left to do, nothing is saved meanwhile, and a call in its loop stays
    there. *)
Definition progress (name : string) (s s' : system) : Prop :=
  saved s' = saved s ∧ saving s' = saving s ∧
  ∃ r r', fleet s !! name = Some r ∧ fleet s' !! name = Some r' ∧
    (work (runOf s') (link r') < work (runOf s) (link r))%nat ∧
    ∀ id first, call (link r) = Server.Serving id first → call (link r') = Server.Serving id first.

Lemma progress_call s name r id err :
  fleet s !! name = Some r → call (link r) = Server.Returned id err →
  progress name s (exec s (LCall name)).
Proof.
  intros Hr Hc. cbn [exec]. rewrite Hr. simpl. unfold execCall. rewrite Hc.
  split; [done|]. split; [done|]. exists r, (mkReplica (process r) newStream (seen r)).
  split; [done|]. split; [simpl; by rewrite lookup_insert_eq|]. split; [|by rewrite Hc].
  unfold work at 2. rewrite Hc. unfold work, undelivered, buffered. simpl. lia.
Qed.

Lemma progress_stream s name r a :
  fleet s !! name = Some r → match a with Server.AOther _ => False | _ => True end →
  (work (Server.shared (Server.step (sessionOf (runOf s) (call (link r))) a)) (link (stepped (runOf s) r a)) <
     work (runOf s) (link r))%nat →
  (∀ id first, call (link r) = Server.Serving id first →
     call (link (stepped (runOf s) r a)) = Server.Serving id first) →
  progress name s (exec s (LStream name a)).
Proof.
  intros Hr Ha Hw Hc. cbn [exec]. rewrite Hr. simpl. split; [done|]. split; [done|].
  exists r, (stepped (runOf s) r a). split; [done|]. split; [simpl; by rewrite lookup_insert_eq|].
  split; [|done]. by rewrite runOf_stream.
Qed.

Lemma progress_arrives s name r :
  fleet s !! name = Some r → (received (link r) < length (sent (runOf s) (link r)))%nat →
  progress name s (exec s (LReceive name)).
Proof.
  intros Hr Hlt. destruct (lookup_lt_is_Some_2 _ _ Hlt) as [snap Hsnap]. cbn [exec]. rewrite Hr. simpl.
  unfold execReceive. rewrite Hsnap. set (r' := mkReplica _ _ _). split; [done|]. split; [done|].
  exists r, r'. split; [done|]. split; [simpl; by rewrite lookup_insert_eq|]. split; [|done].
  assert (buffered (runOf (withReplica s name r')) (link r') = buffered (runOf s) (link r) ∧
    sent (runOf (withReplica s name r')) (link r') = sent (runOf s) (link r)) as [Hbuf Hsent] by done.
  unfold work, undelivered. rewrite Hbuf, Hsent. simpl. lia.
Qed.

(** The channel of a call in its loop is open. *)
Lemma channel_open s name r id first ch :
  systemOk s → fleet s !! name = Some r → call (link r) = Server.Serving id first →
  Store.channels (store s) !! id = Some ch → Store.closed ch = false.
Proof.
  intros Hs Hr Hc Hch. pose proof (link_session _ _ (sys_links s Hs name r Hr)) as [_ Hsess].
  rewrite Hc in Hsess. destruct Hsess as [_ Hsub].
  destruct (Store.store_open _ (Store.run_store _ (sys_run s Hs)) id Hsub) as (ch' & Hch' & Ho & _).
  cbn [runOf Store.quotas] in Hch'. congruence.
Qed.

(** No step of the stream is idle, and none ends a call. *)
Lemma forwards_work s s' name :
  systemOk s → forwards name s s' → systemOk s' ∧ progress name s s'.
Proof.
  intros Hs (r & l & Hr & Hin & Hready & ->).
  assert (enabled s l) as Hen by (unfold forwarding in Hin; set_solver).
  split; [apply (exec_ok s); [done|by exists l]|].
  pose proof (sys_links s Hs name r Hr) as Hl.
  unfold forwarding in Hin. rewrite !elem_of_cons, elem_of_nil in Hin.
  destruct Hin as [->|[->|[->|[->|[->|[]]]]]]; cbn [ready] in Hready;
    [destruct (call (link r)) as [|id|id first|id err] eqn:Hc; try done..|].
  - by eapply progress_call.
  - apply (progress_stream s name r); [done|done|by apply work_subscribe|by rewrite Hc].
  - apply (progress_stream s name r); [done|done|by eapply work_initial|by rewrite Hc].
  - destruct Hready as (ch & Hch & [[v Hb]|Hclosed]).
    + destruct (work_receive (runOf s) r id first v ch Hl Hc Hch Hb) as [Hc' Hw].
      apply (progress_stream s name r); [done|done|exact Hw|]. congruence.
    + by rewrite (channel_open s name r id first ch) in Hclosed.
  - apply (progress_arrives s name r); [done|]. destruct (call (link r)); exact Hready.
Qed.

Lemma forwards_steps s s' name n r :
  systemOk s → nsteps (forwards name) n s s' → fleet s !! name = Some r →
  systemOk s' ∧ saved s' = saved s ∧ saving s' = saving s ∧
  ∃ r', fleet s' !! name = Some r' ∧
    (n + work (runOf s') (link r') ≤ work (runOf s) (link r))%nat ∧
    ∀ id first, call (link r) = Server.Serving id first → call (link r') = Server.Serving id first.
Proof.
  intros Hs Hn. revert r Hs. induction Hn as [s|n s s1 s' Hstep _ IH]; intros r Hs Hr.
  { split_and!; [done..|]. exists r. by split. }
  destruct (forwards_work s s1 name Hs Hstep) as (Hs1 & Hsv & Hsg & r0 & r1 & Hr0 & Hr1 & Hw & Hserving).
  rewrite Hr in Hr0. injection Hr0 as <-.
  destruct (IH r1 Hs1 Hr1) as (Hs' & -> & -> & r' & Hr' & Hw' & Hserving').
  split; [done|]. split; [done|]. split; [done|]. exists r'. split; [done|]. split; [lia|].
  intros id first Hc. by apply Hserving', Hserving.
Qed.

(** Where no step of the stream is left, everything has arrived. *)
Lemma idle_caught_up s name r :
  systemOk s → saving s = None → fleet s !! name = Some r → nf (forwards name) s →
  Cache.Get (DataPlane.cache (process r)) = last (saved s).
Proof.
  intros Hs Hnone Hr Hnf.
  assert (∀ l, l ∈ forwarding name → ¬ ready s r l) as Hno.
  { intros l Hin Hready. apply Hnf. exists (exec s l), r, l. done. }
  pose proof (link_received _ _ (sys_links s Hs name r Hr)) as Hrcv.
  pose proof (link_session _ _ (sys_links s Hs name r Hr)) as [_ Hsess].
  assert (received (link r) = length (sent (runOf s) (link r))) as Hall.
  { specialize (Hno (LReceive name) ltac:(unfold forwarding; set_solver)).
    cbn [ready] in Hno. destruct (call (link r)); lia. }
  destruct (call (link r)) as [|id|id first|id err] eqn:Hc.
  - destruct (Hno (LStream name Server.ASubscribe)); [unfold forwarding; set_solver|].
    cbn [ready]. by rewrite Hc.
  - destruct (Hno (LStream name (Server.AInitial None))); [unfold forwarding; set_solver|].
    cbn [ready]. by rewrite Hc.
  - apply (quiescent s name r id first); try done. unfold buffered. rewrite Hc. cbn [chan].
    destruct Hsess as [[[ch Hch] _] _]. cbn [sessionOf Server.shared runOf Store.quotas] in Hch.
    cbn [runOf Store.quotas]. rewrite Hch. simpl. destruct (Store.buf ch) as [v|] eqn:Hb; [|done].
    destruct (Hno (LStream name (Server.AReceive None))); [unfold forwarding; set_solver|].
    cbn [ready]. rewrite Hc. exists ch. split; [done|]. left. by exists v.
  - destruct (Hno (LCall name)); [unfold forwarding; set_solver|]. cbn [ready]. by rewrite Hc.
Qed.

#[export] Instance ready_dec s r l : Decision (ready s r l).
Proof.
  unfold ready. destruct l as [c o t|sch|n a|n|n|n d rs nw v lo|n d rs e|n q]; try apply _;
    [|by destruct (call (link r)); apply _..].
  destruct a as [e| |o|o|o]; destruct (call (link r)) as [|id|id first|id err]; try apply _.
  destruct (Store.channels (store s) !! id) as [ch|] eqn:Hch; [|right; by intros (ch & ? & _)].
  destruct (Store.buf ch) as [v|] eqn:Hb; [left; exists ch; split; [done|]; left; by exists v|].
  destruct (Store.closed ch) eqn:Hcl; [left; exists ch; split; [done|]; by right|].
  right. intros (ch' & Hch' & [[v Hv]|Hv]); congruence.
Qed.

(** Such a state is always reached. *)
Lemma idle_reached s name r :
  systemOk s → fleet s !! name = Some r → ∃ s', rtc (forwards name) s s' ∧ nf (forwards name) s'.
Proof.
  remember (work (runOf s) (link r)) as n eqn:Hn. revert s r Hn.
  induction (lt_wf n) as [n _ IH]. intros s r -> Hs Hr.
  destruct (decide (Exists (ready s r) (forwarding name))) as [Hex|Hno].
  - apply Exists_exists in Hex as (l & Hin & Hready).
    assert (forwards name s (exec s l)) as Hstep by (by exists r, l).
    destruct (forwards_work s _ name Hs Hstep) as (Hs1 & _ & _ & r0 & r1 & Hr0 & Hr1 & Hw & _).
    rewrite Hr in Hr0. injection Hr0 as <-.
    destruct (IH _ Hw _ _ eq_refl Hs1 Hr1) as (s' & Hrun & Hnf).
    exists s'. split; [by eapply rtc_l|done].
  - exists s. split; [done|]. intros (s' & r' & l & Hr' & Hin & Hready & _). apply Hno, Exists_exists.
    exists l. split; [done|]. congruence.
Qed.

Lemma work_le w r : linkOk w r → (work w (link r) ≤ 4 + (length (sent w (link r)) - received (link r)))%nat.
Proof.
  intros _. unfold work, undelivered, buffered. destruct (call (link r)); simpl;
    [lia| | |lia]; destruct (_ ≫= Store.buf); simpl; lia.
Qed.

(** ** Properties *)

Context `{Transport.TLSFiles}.

(** C8: in every state that two started programs can come to, whatever the
    interleaving of the saver's publications and pushes, streams that fail and are
    called again, reports, unreachable control planes and requests, the control plane
    serves the newest snapshot that was published, and every replica's cache holds the
    last snapshot it received; what a replica received was published, in the order of
    publication but for steps back of one place: a snapshot is followed by the one
    saved just before it at worst, and never by an older one. *)
Theorem caches_in_order s name r :
  reachable s → fleet s !! name = Some r →
  Store.snapshot (store s) = last (Store.published (runOf s)) ∧
  Cache.Get (DataPlane.cache (process r)) = last (seen r) ∧
  inOrder (Store.published (runOf s)) (seen r).
Proof.
  intros Hs%reachable_ok Hr. destruct (sys_links s Hs name r Hr) as [_ _ _ _ Hc Ho].
  split; [exact (Store.run_snapshot _ (sys_run s Hs))|]. split; [exact Hc|].
  eapply inOrder_sublist; [|exact Ho]. by apply sublist_inserts_r.
Qed.

(** C13: every replica catches up, without reconnecting. When no save is under way in
    a reachable state, the steps of a replica's stream that do something and do not
    fail are at most four more than the snapshots that were sent and have not arrived,
    in whatever order they are taken; a call in its loop stays there, so that what it
    forwards comes from its channel; such steps come to an end, and where none is
    left, the replica's cache holds the newest snapshot that was saved. *)
Theorem replica_catches_up s name r :
  reachable s → saving s = None → fleet s !! name = Some r →
  (∀ n s', nsteps (forwards name) n s s' →
     (n ≤ 4 + (length (sent (runOf s) (link r)) - received (link r)))%nat ∧ saved s' = saved s ∧
     ∃ r', fleet s' !! name = Some r' ∧
       (∀ id first, call (link r) = Server.Serving id first → call (link r') = Server.Serving id first) ∧
       (nf (forwards name) s' → Cache.Get (DataPlane.cache (process r')) = last (saved s))) ∧
  ∃ s', rtc (forwards name) s s' ∧ nf (forwards name) s'.
Proof.
  intros Hs%reachable_ok Hnone Hr. split; [|by eapply idle_reached].
  intros n s' Hn. destruct (forwards_steps s s' name n r Hs Hn Hr) as (Hs' & Hsv & Hsg & r' & Hr' & Hw & Hc).
  pose proof (work_le _ _ (sys_links s Hs name r Hr)). split; [lia|]. split; [done|].
  exists r'. split; [done|]. split; [done|]. intros Hnf. rewrite <- Hsv.
  apply (idle_caught_up s' name r'); [done|congruence|done|done].
Qed.

(** C15: nothing leaves its range however the programs run: every replica's
    limiter keeps its invariant, its shares stay within what the limiter accepts, and
    the control plane's averages stay finite; the tracker knows replicas of the fleet
    only, each once. *)
Theorem fleet_in_range s :
  reachable s →
  map_Forall (λ _ r, ∃ l, Cascade.limiter (DataPlane.engine (process r)) = Some l ∧
                       Limiter.limiterOk l) (fleet s) ∧
  trackerOk (ControlPlane.shares (control s)) ∧
  (∀ id, is_Some (Shares.replicas (ControlPlane.shares (control s)) !! id) →
     ∃ name r, fleet s !! name = Some r ∧ id = trim_space (DataPlane.clientID (process r))) ∧
  (size (Shares.replicas (ControlPlane.shares (control s))) ≤ size (fleet s))%nat.
Proof.
  intros Hs%reachable_ok. split; [|split_and!; [apply Hs..|apply clients_size, Hs]].
  intros name r Hr. apply (sys_limiters s Hs name r Hr).
Qed.

End system.

End System.

(** ** A concrete system *)

Module Samples.
Import System Discovery Implementation.

#[local] Existing Instance Client.plainMessages.
#[local] Existing Instance Transport.namedFiles.

(** The programs of [Programs.Samples], the replica as [a]. *)
Definition sample : option system :=
  match ControlPlane.main (Programs.Samples.cpFlags false) Programs.Samples.cpWorld
          Programs.Samples.cpPoll (λ _ _, 0) [],
        DataPlane.main Programs.Samples.dpFlags Programs.Samples.dpWorld [] [] with
  | ControlPlane.Serving cp _, DataPlane.Serving dp _ =>
      Some (mkSystem cp {[ "a" := mkReplica dp newStream [] ]} [] None)
  | _, _ => None
  end.

Lemma sample_modest : DataPlane.modest Programs.Samples.dpFlags Programs.Samples.dpWorld.
Proof.
  split; [exact Limiter.sampleClock_ok|]. intros cfg Hcfg.
  assert (cfg = Cascade.loadedConfig) as ->.
  { pose proof Cascade.loadedConfig_load as Hload.
    cbv [DataPlane.configPath DataPlane.configFile DataPlane.unmarshal Programs.Samples.dpFlags
      Programs.Samples.dpWorld] in Hcfg.
    assert (∀ a b : Config.Config, Ok a = Ok b → a = b) as Hinj by (intros a b Hab; by injection Hab).
    apply Hinj. rewrite <- Hcfg. exact Hload. }
  split; [by vm_compute|]. unfold Limiter.entriesOk.
  assert (forallb (λ e : string * option Config.ModelLimit, match e.2 with
    | Some a => (Config.MaxRpm a <=? Limiter.maxLimit) && (Config.MaxTpm a <=? Limiter.maxLimit)
    | None => true end) (DataPlane.allowanceOrder Programs.Samples.dpWorld Cascade.loadedConfig) = true)
    as Hall by (vm_compute; reflexivity).
  rewrite forallb_forall in Hall. apply Forall_forall. intros e He a Ha.
  apply list_elem_of_In, Hall in He. rewrite Ha in He. apply andb_true_iff in He as [H1 H2].
  split; apply Z.leb_le; assumption.
Qed.

Lemma sample_started s : sample = Some s → started s.
Proof.
  unfold sample. intros Hs. destruct (ControlPlane.main _ _ _ _ _) as [m| |o|cp creds] eqn:Hcp;
    [discriminate Hs..|].
  destruct (DataPlane.main _ _ _ _) as [m|dp creds'] eqn:Hdp; [discriminate Hs|]. injection Hs as <-.
  constructor; cbn [control fleet saved saving].
  - exists (Programs.Samples.cpFlags false), Programs.Samples.cpWorld, Programs.Samples.cpPoll, (λ _ _, 0), creds.
    exact Hcp.
  - intros name r [<- <-]%lookup_singleton_Some. 
    exists Programs.Samples.dpFlags, Programs.Samples.dpWorld, creds'.
    exact (conj Hdp (conj sample_modest (conj eq_refl eq_refl))).
  - reflexivity.
  - exact (conj eq_refl eq_refl).
Qed.

(** Steps that are always possible. *)
Definition free (l : label) : Prop :=
  match l with
  | LPush sch => ∀ id, sch id = (false, false)
  | LStream _ (Server.AOther _) | LReport _ _ _ _ _ _ => False
  | _ => True
  end.

Definition run (ls : list label) : option system := (λ s, foldl exec s ls) <$> sample.

Lemma run_reachable ls s : Forall free ls → run ls = Some s → reachable s.
Proof.
  intros Hfree Hrun. apply fmap_Some in Hrun as (s0 & Hs0 & ->). exists s0.
  split; [exact (sample_started s0 Hs0)|]. clear Hs0. revert s0.
  induction Hfree as [|l ls Hl _ IH]; intros s0; [done|]. eapply rtc_l; [|apply IH].
  exists l. split; [|done]. destruct l as [c o t|sch|n []| | | | |]; try done. by intros n r id _ _.
Qed.

(** A poll that finds no quotas, and the pushes of its snapshot. *)
Definition polls (t : Time) : label := LPoll (λ _ _ _, Client.Returned (Ok ∅)) map_to_list t.

Definition pushes : label := LPush (λ _, (false, false)).

(** The call reads the second snapshot before it is pushed, while its channel holds the
    first; the third is still in the channel. *)
Definition history : list label :=
  [LStream "a" Server.ASubscribe; polls 1; pushes; polls 2; LStream "a" (Server.AInitial None);
   LReceive "a"; LStream "a" (Server.AReceive None); LReceive "a"; pushes;
   LStream "a" (Server.AReceive None); polls 3; pushes].

Definition times : list Store.Snapshot → list (option Time) := fmap pb.LastSyncedAt.

Lemma history_free : Forall free history.
Proof. repeat constructor. Qed.

(** The replica goes back by one place, and by no more. *)
Lemma caches_in_order_witness :
  ∃ s r, run history = Some s ∧ fleet s !! "a" = Some r ∧
    times (saved s) = [Some 1; Some 2; Some 3] ∧ times (seen r) = [Some 2; Some 1] ∧
    Cache.Get (DataPlane.cache (process r)) = last (seen r) ∧
    Order.inOrder (Store.published (runOf s)) (seen r).
Proof.
  assert ((λ s, (times (saved s), (λ r, times (seen r)) <$> fleet s !! "a")) <$> run history =
    Some ([Some 1; Some 2; Some 3], Some [Some 2; Some 1])) as Htimes by (vm_compute; reflexivity).
  destruct (run history) as [s|] eqn:Hs; [|discriminate Htimes]. injection Htimes as Hsaved Hseen.
  destruct (fleet s !! "a") as [r|] eqn:Hr; [|discriminate Hseen]. injection Hseen as Hseen.
  exists s, r. destruct (caches_in_order s "a" r (run_reachable _ _ history_free Hs) Hr)
    as (_ & Hc & Ho). exact (conj eq_refl (conj Hr (conj Hsaved (conj Hseen (conj Hc Ho))))).
Defined.

Lemma replica_catches_up_witness :
  ∃ s s' r, run history = Some s ∧ rtc (forwards "a") s s' ∧ fleet s' !! "a" = Some r ∧
    pb.LastSyncedAt <$> Cache.Get (DataPlane.cache (process r)) = Some (Some 3).
Proof.
  assert ((λ s, (pb.LastSyncedAt <$> last (saved s), bool_decide (saving s = None),
    bool_decide (is_Some (fleet s !! "a")))) <$>
    run history = Some (Some (Some 3), true, true)) as Hfacts by (vm_compute; reflexivity).
  destruct (run history) as [s|] eqn:Hs; [|discriminate Hfacts]. injection Hfacts as Hlast Hnone Hin.
  apply bool_decide_eq_true_1 in Hnone, Hin. destruct Hin as [r0 Hr0].
  destruct (replica_catches_up s "a" r0 (run_reachable _ _ history_free Hs) Hnone Hr0)
    as (Hsteps & s' & Hrun & Hnf).
  apply rtc_nsteps in Hrun as [n Hn].
  destruct (Hsteps n s' Hn) as (_ & _ & r & Hr & _ & Hc).
  exists s, s', r. rewrite (Hc Hnf). split; [exact eq_refl|].
  split; [by eapply rtc_nsteps_2|]. exact (conj Hr Hlast).
Defined.

(** The replica decides a request, reports it, and gets its share. *)
Definition message : ExtProc.ProcessingRequest :=
  ExtProc.RequestHeaders (Some (ExtProc.mkHttpHeaders (Some [ExtProc.mkHeaderValue ":path"
    "/v1/projects/p/locations/us/publishers/google/models/flash:generateContent" ""]))).

Definition reports : label :=
  LReport "a" ["us/flash"] ["us/flash"] 5 (λ _ _, ["host-42"]) None.

Lemma reports_reachable s :
  run (history ++ [LMessage "a" message]) = Some s → reachable (exec s reports).
Proof.
  intros Hs. assert (Forall free (history ++ [LMessage "a" message])) as Hfree by (repeat constructor).
  destruct (run_reachable _ s Hfree Hs) as (s0 & Hs0 & Hsteps). exists s0. split; [exact Hs0|].
  eapply rtc_r; [exact Hsteps|]. exists reports. split; [|reflexivity].
  split; [by vm_compute|]. intros r Hr req k m. unfold replicaOrder.
  assert ((λ s, (λ r, (map_to_list (Shares.replicas (ControlPlane.shares (ControlPlane.reportUsage
    (control s) (requestOf (DataPlane.reporter (process r)) ["us/flash"]) 5 (λ _ _, ["host-42"])).2))).*1)
    <$> fleet s !! "a") <$> run (history ++ [LMessage "a" message]) = Some (Some ["host-42"]))
    as Hids by (vm_compute; reflexivity).
  rewrite Hs in Hids. simpl option_map in Hids. injection Hids as Hids.
  rewrite Hr in Hids. injection Hids as Hids. unfold req. rewrite Hids. reflexivity.
Qed.

Lemma fleet_in_range_witness :
  ∃ s, run (history ++ [LMessage "a" message]) = Some s ∧
    (size (Shares.replicas (ControlPlane.shares (control (exec s reports)))) = 1)%nat ∧
    trackerOk (ControlPlane.shares (control (exec s reports))) ∧
    map_Forall (λ _ r, ∃ l, Cascade.limiter (DataPlane.engine (process r)) = Some l ∧
                         Limiter.limiterOk l) (fleet (exec s reports)).
Proof.
  assert ((λ s, size (Shares.replicas (ControlPlane.shares (control (exec s reports))))) <$>
    run (history ++ [LMessage "a" message]) = Some 1%nat) as Hsize by (vm_compute; reflexivity).
  destruct (run _) as [s|] eqn:Hs; [|discriminate Hsize]. injection Hsize as Hsize.
  destruct (fleet_in_range (exec s reports) (reports_reachable s Hs)) as (Hlim & Htr & _).
  exists s. exact (conj eq_refl (conj Hsize (conj Htr Hlim))).
Defined.

End Samples.
